(* ===== verification/_CoqProject ===== *)
-Q . S2P
Prelude.v
GoStrings.v
Metrics.v
Sinks.v
CopySource.v
PgSink.v
PgPoll.v
PromSink.v
Changes.v
Sources.v
SourceStores.v
MetricStore.v
Web.v
Conn.v
PromConn.v
RpcSink.v
SinkClosing.v
WebServer.v
InstanceCache.v
Scheduler.v
RowTypes.v
Pipeline.v
Reaper.v
Resolver.v
Discovery.v
MainLoop.v
CmdOpts.v
Commands.v
Regexp.v
LogParser.v
LogLocal.v
LogRemote.v
Worker.v
Flow.v
EndToEnd.v
OsStats.v
PromReaper.v
Producers.v
System.v
Logging.v
LogStream.v
ConfigSchema.v
SinkAdmin.v
Migrator.v
Migration.v
SinkMaintenance.v
Main.v
ConfigStart.v
SinkStart.v
CommandLine.v
