(* ===== verification/Prelude.v ===== *)
(** * A verification development of pgwatch

    pgwatch collects metrics from PostgreSQL servers and writes them to sinks.  It is a Go program; this
    library translates its core, [src/internal] and [src/cmd/pgwatch], to Gallina functions and proves the
    theorems that make it correct.  The translation is shallow: pure functions are functions, methods on a
    struct take and return a record, a fallible call returns [result], a run-time panic is a value
    ([outcome], or [None] where a function can only panic), and loops that are not structural carry fuel
    that is shown to be enough.

    ** The program and the files that model it

    - Sources say what to monitor.  They come from YAML files or from a table ([sources/types.go],
      [yaml.go], [postgres.go]) and a discovery source stands for several databases ([resolver.go]).  Files
      [Sources] (the record, its equality, its validation, the interface of stores with its laws),
      [SourceStores] (the two implementations), [Resolver] (discovery on values) and [Discovery] (the same
      on the store of connections that its caches share with the main loop).
    - Metric definitions and presets come from YAML, from tables, or are built in ([metrics/types.go],
      [yaml.go], [postgres.go], [default.go]).  Files [Metrics] (definitions, rows, selection of SQL by
      server version, filtering) and [MetricStore] (the interface, its laws, the three implementations).
    - A connection ([sources/conn.go], [db/deadlines.go]) is a source with a pool and what was learnt about
      the server: file [Conn]; a connection to a Prometheus exporter is a URL with credentials and an HTTP
      client: file [PromConn].
    - The reaper ([reaper/reaper.go], [metric.go]) reloads both kinds of definitions, connects, and keeps
      one worker per source: files [Reaper], where connections are shared objects in a store, and
      [MainLoop], the run of the program as a sequence of rounds.
    - A worker ([reaper/database.go], [file.go]) decides which metrics are due and fetches them, in batches,
      from the instance cache ([cache.go]) or from the change detectors: files [Scheduler], [InstanceCache]
      (rows as references, so that sharing between clients is visible) and [Changes]; [Worker] is its life,
      from its start through its rounds. The figures of the operating system ([psutil.go]) are in [OsStats];
      [RowTypes] follows the values of rows from the scan through all of this to the channel, and [Pipeline]
      on to the tables of the PostgreSQL sink.
    - The goroutines between collecting and storing (the workers, the one that forwards envelopes, the ones
      that collect batches) and the channels between them run together in [Flow], where a step is a step of
      one of them; [EndToEnd] joins it with [Worker] and [Pipeline].  [Producers] says what each kind of
      goroutine that sends (workers, log readers, workers of exporters, the main loop) may send, and
      [System] lets the main loop and all workers run together on the connections, the cache and the
      definitions they share: a step is a part of a round of the main loop (a reload, the processing of one
      source, the clean-up) or a round of a worker, and the steps interleave in every order.
    - A worker of an exporter ([reaper/prometheus.go]) scrapes families of samples and limits their rate:
      file [PromReaper].
    - The log parser ([reaper/logparser.go], [logparser_local.go], [logparser_remote.go]) counts the
      messages in the server log: files [Regexp] (the part of Go's regular expressions it uses), [LogParser]
      (settings, lines, counters), [LogLocal] and [LogRemote] (the two loops, as step functions against an
      environment that chooses every answer).
    - Envelopes go to the sinks ([sinks/multiwriter.go], [json.go], [rpc.go], [postgres.go],
      [prometheus.go]): files [Sinks] (the interface and the fan-out, the JSON sink), [RpcSink],
      [SinkClosing] (how the JSON and the RPC sink are closed while they may be in use), [CopySource],
      [PgSink] and [PgPoll] (the iterator, the flush and the batching of the PostgreSQL sink), [SinkAdmin]
      (its set-up and the deletion of old rows), [Migration] (its conversion of the storage layout),
      [SinkMaintenance] (its listing of sources, the maintenance job and its upgrade) and [PromSink].
    - The schema of the configuration database ([metrics/postgres_schema.go] with its SQL): file
      [ConfigSchema]; [Migrator] has what the migrations of both schemas share.
    - The web server ([webserver/jwt.go], [source.go], [metric.go], [webserver.go]) edits the stores: files
      [Web] (the handlers, over the interfaces of [Sources] and [MetricStore]) and [WebServer] (patterns,
      routing, the files of the user interface).
    - Options and sub-commands ([cmdopts]): files [CmdOpts], [Commands] and [CommandLine] (their
      registration and the way from the command line to the exit code); start-up, exit codes and signals
      ([cmd/pgwatch/main.go]): file [Main]; the opening of the configuration database ([db/bootstrap.go]),
      the start and the upgrade on it: file [ConfigStart]; the same with the measurements databases of the
      sinks: file [SinkStart].
    - Log entries are formatted and forwarded to subscribers ([log/formatter.go], [log_broker_hook.go],
      [log.go]): file [Logging]; among them the sessions of the web server ([webserver/wslog.go]): file
      [LogStream].
    - This file holds the shared vocabulary (Go's [result], panics, maps and their unspecified iteration
      order) and [GoStrings] what is used of Go's string functions.

    ** What the theorems show

    - Storing.  A flush of the PostgreSQL sink returns and stores every metric of the batch completely, once
      and in its own table, or not at all, independently of the others ([PgSink.flush_stores]); reading a
      batch terminates and yields every row once ([CopySource.consume_batch]); the partitions it asks for
      cover the batch up to the reuse of a remembered partition ([flush_partitions]); batching loses,
      repeats and reorders nothing and is bounded ([PgPoll.poll_conserves]).  In every interleaving of the
      goroutines each sink is offered what was collected, in order, the channels keep their bounds, the
      system does not block, and an envelope is lost only to a full channel ([Flow]).  Put together:
      whatever the main loop, the workers, the log readers and the exporters send is in the tables once, in
      the table of its metric, unless it was lost to a full channel or refused by the database ([System]).
       The Prometheus sink holds the last message of each metric, emits distinct series per message and its
      memo tables are transparent ([PromSink]). A fan-out reaches every sink ([Sinks]); calls of the JSON
      sink are atomic although its file is closed at any moment ([SinkClosing]); the remote receiver sees
      one request per call, with the credentials and the encryption of the connection string ([RpcSink]).
       Maintenance respects the retention ([SinkAdmin]) and lists the sources as [SinkMaintenance] says; an
      upgrade loses no row wherever it stops and reports success exactly if nothing is left to do
      ([Migration], [SinkMaintenance]).
    - Collecting.  The tick is the gcd of the intervals, exactly the due metrics are fetched, and a failing
      query affects its own metric only ([Scheduler]); over its rounds a worker neither repeats a metric
      within its interval nor starves it ([Worker]), which still holds while the main loop reloads and the
      other workers run, as long as the configuration stays ([System]); cached rows cannot be changed by
      their receivers ([InstanceCache]); change detection reports exactly the difference of two snapshots
      ([Changes]). Every row of a worker can be written as JSON ([RowTypes]), so that what a tick collected
      is stored unless the database refuses it ([Pipeline]).  Log lines are read back as the server printed
      them ([LogParser]), a growing log file is read once and in order, and counts are conserved
      ([LogLocal], [LogRemote]).  Families of an exporter are limited independently and emitted at their
      interval ([PromReaper]), with the request the configuration asks for ([PromConn]) and the labels of
      the samples.  Caching the usage of disks changes nothing ([OsStats]).
    - Configuring.  Both stores of sources and both writable stores of definitions refine maps
      ([SourceStores], [MetricStore]); clients are verified against the interfaces ([Sources], [Web]). The
      configuration schema is created completely or not at all ([ConfigSchema]); it is upgraded level by
      level ([ConfigStart]), and the program starts on empty databases of both kinds and after an upgrade of
      outdated ones, and not before ([SinkStart]).  The web
      server routes a path to the handler that was registered for it ([WebServer]), changes nothing without
      a valid token, and tokens live for eight hours.
    - Steering.  The main loop keeps the agreement of workers and connections over all runs ([MainLoop]),
      also while the workers run and share them ([System]); a round restarts exactly the changed sources,
      and the emergency pause stops everything ([Reaper]). Discovery outages keep the known databases
      ([Resolver]), their connections and workers ([Discovery]). [Main] says when the main loop runs and
      with which code the program ends, [CommandLine] the same of sub-commands; [Logging] that every field
      of an entry is written once and that subscribers get the messages in order; [LogStream] that the
      sessions of the web server end and leave nothing behind.
    - Behaviour that is surprising is stated as such: [Changes.failed_first_run_reports_all],
      [Reaper.filtered_source_stuck], [Discovery.revived_connection_stuck],
      [SinkMaintenance.maintenance_lists], [WebServer.leading_slash_unreachable],
      [Commands.source_commands], [CmdOpts.upgrade_outcome], [LogParser.localised_severity_lost],
      [LogRemote.full_chunk_overlaps], [OsStats.swapless_memory_lost], [PromReaper.nan_family_lost],
      [SinkAdmin.zero_retention_deletes], [SinkAdmin.interrupted_setup_stays],
      [Migration.interrupted_rows_stay], [ConfigSchema.migration_00824_presets], [Main.interrupt_exit_code],
      and the examples [PromSink.distinct_series_dropped], [PromSink.scrape_with_duplicate_series] and
      [Resolver.resolved_names_collide].

    ** Parameters

    Code that is not part of the repository is an argument of the definitions that use it: the PostgreSQL
    driver (class [PgSink.SinkDB] with [SinkDBLaws], the answers of a server in [Conn], [Scheduler],
    [Changes]), the YAML and JSON codecs (with the round trip as hypothesis), the signature of tokens, the
    URL parser, the HTTP exchange, the decoder of the exposition format, the etcd client, the Prometheus
    client library, the transport to the remote receiver, the library that reads operating system figures,
    the library that runs migrations (class [Migrator.MigratorLaws]), the one that repeats attempts (class
    [ConfigStart.RetryLaws]), the levels and their names in the logging library, the parser of the command
    line and the clock.  A Go map is a [gmap]; iteration over it takes an arbitrary enumeration,
    [range_order], and theorems hold for every one.  [slices.SortFunc] is any function that returns an
    ordered permutation.  Floats are IEEE values ([SpecFloat]) whose printing is a parameter; [OsStats]
    computes with them in the order of the source.

    ** Bounds and fuel

    [GoStrings.split_fuel] and [SourceStores.expand_fuel] get the length of the string, which decreases at
    each turn.  [Scheduler.gcd_loop] gets one more than the magnitude of its second operand, which
    decreases. [Regexp.compile_fuel] gets the length of the expression and [LogLocal.skip_lines] the number
    of lines to skip.  [CopySource.consume] is a consumer whose calls [consume_batch] bounds.
    [CopySource.Next_loop] gets two more than the number of envelopes and [PgSink.copy_loop] one turn per
    envelope and one to see the end; running out of fuel is a distinguished outcome that the theorems
    exclude.  [Conn.bsearch] gets one more than the length of the list.  [PgPoll.copy_fuel] bounds the rows
    of one copy of the in-memory database of the witnesses; a copy that exceeds it is reported as failed, as
    a server may.  Integers are [Z]; widths are written out where the code depends on them.

    Runs of several goroutines ([Flow], [System], [SinkClosing], [LogStream], [Main]) are relations on
    labelled steps and need no fuel; where they end, a measure bounds the steps that work is left for.

    ** Not modelled

    The rotation of the file of the JSON sink and of log files, which libraries do; the SQL functions for
    compression; when the timers fire, which is left open; printing of memory statistics; the profiling
    listener of debugging builds; the device numbers of files, which are system calls; the test helpers and
    the generated protocol code.  They are I/O, configuration of libraries, or code that only tests run. A
    round of a worker is one step of [System], so that a reload in the middle of it is not visible there. *)

From stdpp Require Export prelude gmap strings list sorting.
From stdpp Require Import options.

#[export] Set Default Goal Selector "!".

Local Open Scope Z_scope.

(** ** Scope, notations *)

Declare Scope go_scope.
Delimit Scope go_scope with go.

(** Go's [len] on a slice, as the signed integer the source compares it to. *)
Abbreviation len l := (Z.of_nat (length l)).

(** ** Proof automation shared by the components *)

Create HintDb pgwatch.

(** Split every [match]/[if] of the goal, keeping the equations. *)
Ltac split_matches := repeat (case_match || case_decide || case_bool_decide); simplify_eq/=.

(** Turn boolean tests on [Z], [nat] and strings in hypotheses into propositions. *)
Ltac boolify :=
  repeat match goal with
  | H : (_ && _)%bool = true |- _ => apply andb_true_iff in H; destruct H
  | H : (_ || _)%bool = false |- _ => apply orb_false_iff in H; destruct H
  | H : negb _ = true |- _ => apply negb_true_iff in H
  | H : negb _ = false |- _ => apply negb_false_iff in H
  | H : (_ =? _)%Z = true |- _ => apply Z.eqb_eq in H
  | H : (_ =? _)%Z = false |- _ => apply Z.eqb_neq in H
  | H : (_ <? _)%Z = true |- _ => apply Z.ltb_lt in H
  | H : (_ <? _)%Z = false |- _ => apply Z.ltb_ge in H
  | H : (_ <=? _)%Z = true |- _ => apply Z.leb_le in H
  | H : (_ <=? _)%Z = false |- _ => apply Z.leb_gt in H
  | H : String.eqb _ _ = true |- _ => apply String.eqb_eq in H
  | H : String.eqb _ _ = false |- _ => apply String.eqb_neq in H
  end.

(** ** Machine integers and time

    [int] and [int64] are 64 bits wide on every platform pgwatch is built for; arithmetic
    that can leave the range is wrapped explicitly. *)

Definition wrap64 (z : Z) : Z := (z + 2 ^ 63) `mod` 2 ^ 64 - 2 ^ 63.
Definition in_int64 (z : Z) : Prop := - 2 ^ 63 ≤ z < 2 ^ 63.

Lemma wrap64_id z : in_int64 z → wrap64 z = z.
Proof. unfold in_int64, wrap64. intros. rewrite Z.mod_small; lia. Qed.

Lemma wrap64_range z : in_int64 (wrap64 z).
Proof.
  unfold in_int64, wrap64.
  pose proof (Z.mod_pos_bound (z + 2 ^ 63) (2 ^ 64)); lia.
Qed.
#[export] Hint Resolve wrap64_range : pgwatch.

(** A [time.Duration] counts nanoseconds. *)
Definition time_Second : Z := 1000000000.
Definition time_Minute : Z := 60 * time_Second.
Definition time_Hour : Z := 60 * time_Minute.

(** [time.Duration(v) * time.Second]. *)
Definition seconds (v : Z) : Z := wrap64 (v * time_Second).

(** A [time.Time] is the number of nanoseconds since the Unix epoch, unbounded: the zero
    value (1 January of year 1) lies outside what an [int64] epoch can denote. *)
Definition zero_time : Z := -62135596800 * time_Second.
Definition time_IsZero (t : Z) : bool := (t =? zero_time)%Z.
Definition time_Unix0 (ns : Z) : Z := ns.
Definition time_Before (t u : Z) : bool := (t <? u)%Z.
Definition time_After (t u : Z) : bool := (u <? t)%Z.
Definition time_Equal (t u : Z) : bool := (t =? u)%Z.

(** [t.Sub(u)] saturates at the bounds of [Duration]. *)
Definition time_Sub (t u : Z) : Z := Z.max (- 2 ^ 63) (Z.min (2 ^ 63 - 1) (t - u)).

Lemma time_Sub_le v t l : 0 ≤ v < 2 ^ 63 → v ≤ time_Sub t l ↔ v ≤ t - l.
Proof. unfold time_Sub. lia. Qed.

Lemma seconds_small v : 0 ≤ v ≤ 9223372036 → seconds v = v * time_Second.
Proof. intros. unfold seconds. apply wrap64_id. unfold in_int64, time_Second. lia. Qed.

(** ** Errors

    A Go [error] is [option error], [None] being [nil].  Sentinels are compared by identity;
    [WrapError] is [fmt.Errorf] with a [%w] verb, [ErrorString] any other error value whose
    identity the program never inspects, [JoinError] the result of [errors.Join], [PgError] and
    [ConnectError] the two driver errors the program inspects by type. *)

Inductive sentinel :=
  | ErrUnsupported | ErrSourceNotFound | ErrSourceExists
  | ErrMetricNotFound | ErrPresetNotFound | ErrInvalidMetric | ErrInvalidPreset
  | ErrMetricExists | ErrPresetExists | ErrNeedsMigration | ErrNotExist | ErrCanceled
  | ErrDeadlineExceeded.

#[export] Instance sentinel_eq_dec : EqDecision sentinel.
Proof. solve_decision. Defined.

Inductive error :=
  | Sentinel (s : sentinel)
  | ErrorString (msg : string)
  | WrapError (msg : string) (inner : error)
  | JoinError (errs : list error)
  | PgError (code : string)
  | ConnectError (msg : string).

(** [errors.Join]: [nil] arguments are dropped, and joining nothing gives [nil]. *)
Definition errors_Join (es : list (option error)) : option error :=
  match omap id es with [] => None | es' => Some (JoinError es') end.

(** [errors.Is] against a sentinel: the whole tree of wrapped errors is searched. *)
Fixpoint errors_Is (e : error) (t : sentinel) : bool :=
  match e with
  | Sentinel s => bool_decide (s = t)
  | WrapError _ e' => errors_Is e' t
  | JoinError es => existsb (λ e', errors_Is e' t) es
  | _ => false
  end.

(** [errors.As] with a [*pgconn.PgError] target: the code of the first one in the tree. *)
Fixpoint errors_As_PgError (e : error) : option string :=
  match e with
  | PgError code => Some code
  | WrapError _ e' => errors_As_PgError e'
  | JoinError es =>
      (fix go es := match es with
                    | [] => None
                    | e' :: es' => match errors_As_PgError e' with
                                   | Some code => Some code
                                   | None => go es'
                                   end
                    end) es
  | _ => None
  end.

(** [err.(interface{ Unwrap() []error })]. *)
Definition unwrap_list (e : error) : option (list error) :=
  match e with JoinError es => Some es | _ => None end.

Lemma errors_Join_None es : errors_Join es = None ↔ Forall (λ e, e = None) es.
Proof.
  unfold errors_Join. induction es as [|[e|] es IH]; simpl.
  - split; [constructor|done].
  - split; [done|]. intros H. by inversion H.
  - rewrite IH. split; [by constructor|]. intros H. by inversion H.
Qed.

(** ** Results of fallible operations *)

Abbreviation result A := (A + error)%type.
Abbreviation Ok := inl.
Abbreviation Err := inr.

(** ** Outcome of code that can panic; [NoFuel] marks an exhausted loop bound. *)
Inductive outcome (A : Type) :=
  | Returns (a : A)
  | Panics
  | NoFuel.
Arguments Returns {A} a.
Arguments Panics {A}.
Arguments NoFuel {A}.

(** ** Iteration over a Go map

    [for k, v := range m] visits every entry once in an unspecified order, which may change
    from one loop to the next.  A definition that ranges over a map takes the order of that
    execution as an argument; the theorems hold for every order. *)

Record range_order := RangeOrder {
  range {K V} `{Countable K} : gmap K V → list (K * V);
  range_perm {K V} `{Countable K} (m : gmap K V) : range m ≡ₚ map_to_list m;
}.
Arguments range ro {K V _ _} m : rename.
Arguments range_perm ro {K V _ _} m : rename.

(** The order of the underlying tree, used in the concrete examples. *)
Definition tree_order : range_order :=
  {| range K V _ _ m := map_to_list m; range_perm K V _ _ m := Permutation_refl _ |}.

Definition range_keys {K V} `{Countable K} (ro : range_order) (m : gmap K V) : list K :=
  (range ro m).*1.

Section range.
Context (ro : range_order) {K V : Type} `{Countable K}.
Implicit Types (m : gmap K V).

Lemma elem_of_range m k v : (k, v) ∈ range ro m ↔ m !! k = Some v.
Proof. rewrite range_perm. apply elem_of_map_to_list. Qed.

Lemma elem_of_range_keys m k : k ∈ range_keys ro m ↔ is_Some (m !! k).
Proof.
  unfold range_keys. rewrite list_elem_of_fmap. split.
  - intros ([k' v] & -> & Hk). exists v. by apply elem_of_range.
  - intros [v Hv]. exists (k, v). split; [done|]. by apply elem_of_range.
Qed.

Lemma NoDup_range_keys m : NoDup (range_keys ro m).
Proof. unfold range_keys. rewrite range_perm. apply NoDup_fst_map_to_list. Qed.

Lemma length_range m : length (range ro m) = size m.
Proof. rewrite range_perm. by rewrite length_map_to_list. Qed.
End range.
#[export] Hint Resolve NoDup_range_keys : pgwatch.
