(* ===== verification/GoStrings.v ===== *)
(** * The parts of Go's [strings], [fmt] and [slices] packages the program uses

    Strings are sequences of bytes.  [cut_prefix], [str_cut] and [strings_Split] follow the
    documented behaviour of [strings.CutPrefix], [strings.Cut] and [strings.Split] (the
    latter for a non-empty separator, the only use in the program); [sort_func] is the contract
    of [slices.SortFunc], which is not stable. *)

From Stdlib Require Import Ascii.
From stdpp Require Export pretty.
From S2P Require Import Prelude.
From stdpp Require Import options.

(** ** Searching *)

Fixpoint cut_prefix (p s : string) : option string :=
  match p, s with
  | "", _ => Some s
  | String a p', String b s' => if decide (a = b) then cut_prefix p' s' else None
  | _, "" => None
  end.

Definition has_prefix (p s : string) : bool := bool_decide (is_Some (cut_prefix p s)).

(** Text before and after the first occurrence of [sep]. *)
Fixpoint str_cut (sep s : string) : option (string * string) :=
  match cut_prefix sep s with
  | Some after => Some ("", after)
  | None =>
      match s with
      | "" => None
      | String c s' => '(before, after) ← str_cut sep s'; Some (String c before, after)
      end
  end.

Definition contains (sep s : string) : bool := bool_decide (is_Some (str_cut sep s)).

(** Each cut shortens the text by at least the separator, so [String.length s] cuts are enough. *)
Fixpoint split_fuel (n : nat) (sep s : string) : list string :=
  match n with
  | O => [s]
  | S n' =>
      match str_cut sep s with
      | None => [s]
      | Some (before, after) => before :: split_fuel n' sep after
      end
  end.
Definition strings_Split (s sep : string) : list string := split_fuel (String.length s) sep s.

Fixpoint strings_Join (elems : list string) (sep : string) : string :=
  match elems with
  | [] => ""
  | [e] => e
  | e :: es => e +:+ sep +:+ strings_Join es sep
  end.

Lemma string_app_cons c (s t : string) : String c s +:+ t = String c (s +:+ t).
Proof. reflexivity. Qed.
Lemma string_app_nil_l (t : string) : "" +:+ t = t.
Proof. reflexivity. Qed.

Lemma string_app_assoc (s t u : string) : (s +:+ t) +:+ u = s +:+ (t +:+ u).
Proof. induction s as [|c s IH]; rewrite ?string_app_cons; simpl; [done|]. by rewrite IH. Qed.

Lemma string_app_nil_r (s : string) : s +:+ "" = s.
Proof. induction s as [|c s IH]; rewrite ?string_app_cons; simpl; [done|]. by rewrite IH. Qed.

Lemma string_length_app (s t : string) :
  String.length (s +:+ t) = String.length s + String.length t.
Proof. induction s as [|c s IH]; rewrite ?string_app_cons; simpl; [done|]. by rewrite IH. Qed.

Lemma string_app_inj_l (s t u : string) : s +:+ t = s +:+ u → t = u.
Proof. induction s as [|c s IH]; rewrite ?string_app_cons; [done|]. intros [= ?]; auto. Qed.

Lemma cut_prefix_Some p s r : cut_prefix p s = Some r ↔ s = p +:+ r.
Proof.
  revert s. induction p as [|a p IH]; intros s; rewrite ?string_app_cons; simpl.
  { rewrite string_app_nil_l. naive_solver. }
  destruct s as [|b s]; [naive_solver|]. case_decide; [|naive_solver].
  subst. rewrite IH. naive_solver.
Qed.

Lemma cut_prefix_app p r : cut_prefix p (p +:+ r) = Some r.
Proof. by apply cut_prefix_Some. Qed.

Lemma has_prefix_true p s : has_prefix p s = true ↔ ∃ r, s = p +:+ r.
Proof.
  unfold has_prefix. rewrite bool_decide_eq_true. unfold is_Some.
  by setoid_rewrite cut_prefix_Some.
Qed.

(** A prefix of [s +:+ t] that is not longer than [s] is a prefix of [s]. *)
Lemma cut_prefix_shorten p s t r :
  cut_prefix p (s +:+ t) = Some r → String.length p ≤ String.length s →
  ∃ r', cut_prefix p s = Some r'.
Proof.
  revert s. induction p as [|a p IH]; intros s; simpl; [eauto|].
  destruct s as [|b s]; rewrite ?string_app_cons; simpl; [lia|]. case_decide; [|done].
  intros Hc Hl. apply (IH s); [done|lia].
Qed.

Lemma str_cut_Some sep s b a : str_cut sep s = Some (b, a) → s = b +:+ sep +:+ a.
Proof.
  revert b a. induction s as [|c s IH]; intros b a; simpl.
  - case_match eqn:E; [|done]. intros [= <- <-]. by apply cut_prefix_Some in E.
  - destruct (cut_prefix sep (String c s)) as [r|] eqn:E.
    + intros [= <- <-]. by apply cut_prefix_Some in E.
    + destruct (str_cut sep s) as [[b' a']|]; simpl; [|done].
      intros [= <- <-]. rewrite string_app_cons. by rewrite <-(IH b' a').
Qed.

(** If the separator first occurs at the end of [a +:+ sep], it first occurs after [a] whatever
    text follows. *)
Lemma str_cut_extend sep a b :
  str_cut sep (a +:+ sep) = Some (a, "") → str_cut sep (a +:+ sep +:+ b) = Some (a, b).
Proof.
  induction a as [|c a IH]; intros H.
  - rewrite string_app_nil_l. assert (cut_prefix sep (sep +:+ b) = Some b) as Hc by apply cut_prefix_app.
    destruct (sep +:+ b) eqn:E; simpl; by rewrite Hc.
  - rewrite string_app_cons in H |- *.
    assert (cut_prefix sep (String c (a +:+ sep)) = None) as Hn.
    { simpl in H. by destruct (cut_prefix sep (String c (a +:+ sep))). }
    simpl in H |- *. rewrite Hn in H.
    destruct (cut_prefix sep (String c (a +:+ sep +:+ b))) as [r|] eqn:E.
    + rewrite <-string_app_assoc in E.
      apply (cut_prefix_shorten sep (String c (a +:+ sep)) b) in E as [r' Hr'];
        [congruence|]. simpl. rewrite string_length_app. lia.
    + destruct (str_cut sep (a +:+ sep)) as [[b' a']|] eqn:E'; simpl in H; [|done].
      injection H as -> ->. by rewrite IH.
Qed.

Lemma split_fuel_join sep parts last n :
  sep ≠ "" →
  Forall (λ x, str_cut sep (x +:+ sep) = Some (x, "")) parts →
  str_cut sep last = None →
  String.length (strings_Join (parts ++ [last]) sep) ≤ n →
  split_fuel n sep (strings_Join (parts ++ [last]) sep) = parts ++ [last].
Proof.
  intros Hsep Hparts Hlast. revert n.
  induction Hparts as [|x parts Hx Hparts IH]; intros n Hn.
  - simpl. destruct n as [|n]; simpl; [done|]. by rewrite Hlast.
  - assert (strings_Join ((x :: parts) ++ [last]) sep =
            x +:+ sep +:+ strings_Join (parts ++ [last]) sep) as Heq
      by (simpl; destruct parts; reflexivity).
    rewrite Heq in Hn |- *. rewrite !string_length_app in Hn.
    assert (String.length sep ≠ 0) by (by destruct sep).
    destruct n as [|n]; [lia|]. simpl. rewrite str_cut_extend by done.
    f_equal. apply IH. lia.
Qed.

(** Splitting inverts joining when no part but the last runs into the separator. *)
Lemma strings_Split_Join sep parts last :
  sep ≠ "" →
  Forall (λ x, str_cut sep (x +:+ sep) = Some (x, "")) parts →
  str_cut sep last = None →
  strings_Split (strings_Join (parts ++ [last]) sep) sep = parts ++ [last].
Proof. intros. by apply split_fuel_join. Qed.

(** ** Characters *)

Fixpoint str_forall (p : ascii → bool) (s : string) : bool :=
  match s with "" => true | String a s' => p a && str_forall p s' end.

(** The text has no byte of the given kind. *)
Definition free_of (a : ascii) (s : string) : Prop := str_forall (λ b, negb (bool_decide (b = a))) s = true.

#[export] Instance free_of_dec a s : Decision (free_of a s).
Proof. unfold free_of. apply _. Defined.

Lemma free_of_cons a b s : free_of a (String b s) ↔ b ≠ a ∧ free_of a s.
Proof.
  unfold free_of. simpl. rewrite andb_true_iff, negb_true_iff, bool_decide_eq_false. done.
Qed.

Lemma str_forall_app p s t : str_forall p (s +:+ t) = str_forall p s && str_forall p t.
Proof. induction s as [|a s IH]; [done|]. rewrite string_app_cons. simpl. by rewrite IH, andb_assoc. Qed.

Lemma free_of_app a s t : free_of a (s +:+ t) ↔ free_of a s ∧ free_of a t.
Proof. unfold free_of. by rewrite str_forall_app, andb_true_iff. Qed.

Lemma str_forall_impl (p q : ascii → bool) s :
  (∀ a, p a = true → q a = true) → str_forall p s = true → str_forall q s = true.
Proof. intros H. induction s; simpl; rewrite ?andb_true_iff; naive_solver. Qed.

(** A separator of one byte that the text is free of. *)
Lemma str_cut_free a s : free_of a s → str_cut (String a "") s = None.
Proof.
  induction s as [|b s IH]; intros H; simpl; [done|]. apply free_of_cons in H as [? ?].
  rewrite decide_False by done. by rewrite IH.
Qed.

Lemma str_cut_at a s t : free_of a s → str_cut (String a "") (s +:+ String a t) = Some (s, t).
Proof.
  induction s as [|b s IH]; intros H; rewrite ?string_app_nil_l, ?string_app_cons; simpl.
  - by rewrite decide_True by done.
  - apply free_of_cons in H as [? ?]. rewrite decide_False by done. by rewrite IH.
Qed.

(** Splitting at such a separator inverts joining. *)
Lemma strings_Split_Join_free a parts :
  parts ≠ [] → Forall (free_of a) parts →
  strings_Split (strings_Join parts (String a "")) (String a "") = parts.
Proof.
  intros Hne. destruct (exists_last Hne) as (init & last & ->). rewrite Forall_app, Forall_singleton. intros [Hi Hl].
  apply strings_Split_Join; [done| |by apply str_cut_free].
  eapply Forall_impl; [exact Hi|]. intros x Hx. by apply str_cut_at.
Qed.

Definition ascii_to_lower (c : Ascii.ascii) : Ascii.ascii :=
  let n := Ascii.nat_of_ascii c in
  if bool_decide (65 ≤ n ∧ n ≤ 90) then Ascii.ascii_of_nat (n + 32) else c.

Fixpoint strings_ToLower (s : string) : string :=
  match s with "" => "" | String c s' => String (ascii_to_lower c) (strings_ToLower s') end.

Definition is_space (c : Ascii.ascii) : bool :=
  let n := Ascii.nat_of_ascii c in bool_decide (n = 32 ∨ (9 ≤ n ∧ n ≤ 13)).

(** [strings.TrimSpace(s) == ""] on ASCII white space. *)
Fixpoint is_blank (s : string) : bool :=
  match s with "" => true | String c s' => is_space c && is_blank s' end.

(** ** Sorting *)

(** [slices.SortFunc] with a three-way comparison on a string key: the result is a permutation
    ordered by the key; the order of equal elements is unspecified. *)
Record sort_func {A} (key : A → string) := SortFunc {
  sort_with : list A → list A;
  sort_perm l : sort_with l ≡ₚ l;
  sort_sorted l : StronglySorted (λ a b, String.le (key a) (key b)) (sort_with l);
}.
Arguments sort_with {A key}.
Arguments sort_perm {A key}.
Arguments sort_sorted {A key}.

Section merge_sort_func.
Context {A : Type} (key : A → string).

Definition key_le (a b : A) : Prop := String.le (key a) (key b).

#[local] Instance key_le_dec a b : Decision (key_le a b).
Proof. unfold key_le. apply _. Defined.
#[local] Instance key_le_trans : Transitive key_le.
Proof. intros a b c. unfold key_le. apply transitivity. Qed.
#[local] Instance key_le_total : Total key_le.
Proof. intros a b. unfold key_le. apply (total String.le). Qed.

(** A merge sort meets the contract. *)
Definition merge_sort_func : sort_func key := {|
  sort_with := merge_sort key_le;
  sort_perm := merge_sort_Permutation key_le;
  sort_sorted := StronglySorted_merge_sort key_le;
|}.
End merge_sort_func.
