(* ===== verification/Metrics.v ===== *)
(** * Metric definitions and measurements ([internal/metrics/types.go], [cmdopts.go])

    The data that flows through the program: metric and preset definitions, and the
    measurements (rows) collected for them.  A row is a Go map; the operations of this file
    that write to a row take it and return it updated.  Where several owners hold the same row
    (the instance-level cache), file [InstanceCache] models the sharing explicitly. *)

From Stdlib Require Import SpecFloat.
From S2P Require Import Prelude GoStrings.
From stdpp Require Import options.

Local Open Scope Z_scope.

(** ** Values *)

(** The dynamic types of the column values the program distinguishes.  Floats are IEEE data
    ([spec_float]); a value of any other type keeps only its printed form. *)
Inductive value :=
  | VNil
  | VInt (z : Z) | VInt32 (z : Z) | VInt64 (z : Z)
  | VFloat32 (f : spec_float) | VFloat64 (f : spec_float)
  | VBool (b : bool)
  | VString (s : string)
  | VOther (printed : string).

#[export] Instance spec_float_eq_dec : EqDecision spec_float.
Proof. solve_decision. Defined.
#[export] Instance value_eq_dec : EqDecision value.
Proof. solve_decision. Defined.

Abbreviation Measurement := (gmap string value).
Abbreviation Measurements := (list Measurement).

Definition EpochColumnName : string := "epoch_ns".
Definition TagPrefix : string := "tag_".

Definition math_IsNaN (f : spec_float) : bool :=
  match f with S754_nan => true | _ => false end.
Definition math_IsInf (f : spec_float) : bool :=
  match f with S754_infinity _ => true | _ => false end.

(** A non-finite float is replaced by [nil], so that rows can always be marshalled. *)
Definition sanitizeValue (v : value) : value :=
  match v with
  | VFloat64 f | VFloat32 f => if math_IsNaN f || math_IsInf f then VNil else v
  | _ => v
  end.

Definition NewMeasurement (epoch : Z) : Measurement := {[EpochColumnName := VInt64 epoch]}.

(** [ScanRow] stores the column values of a result row, in column order. *)
Definition ScanRow (m : Measurement) (row : list (string * value)) : Measurement :=
  foldl (λ m '(name, v), <[name := sanitizeValue v]> m) m row.

(** [RowToMeasurement] at time [now]: the epoch defaults to the time of the scan. *)
Definition RowToMeasurement (now : Z) (row : list (string * value)) : Measurement :=
  ScanRow (NewMeasurement now) row.

(** [Measurement.GetEpoch]: reads the epoch column and, when it is missing or not an [int64],
    sets it to the current time; the updated row is the second component. *)
Definition Measurement_GetEpoch (now : Z) (m : Measurement) : Z * Measurement :=
  match m !! EpochColumnName with
  | Some (VInt64 epoch) => (epoch, m)
  | _ => (now, <[EpochColumnName := VInt64 now]> m)
  end.

(** [Measurements.GetEpoch] looks at the first row only. *)
Definition GetEpoch (now : Z) (ms : Measurements) : Z * Measurements :=
  match ms with
  | [] => (now, [])
  | m :: ms' => let '(t, m') := Measurement_GetEpoch now m in (t, m' :: ms')
  end.

Definition IsEpochSet (ms : Measurements) : bool :=
  match ms with
  | [] => false
  | m :: _ => bool_decide (is_Some (m !! EpochColumnName))
  end.

Definition Touch (now : Z) (ms : Measurements) : Measurements :=
  (λ m, <[EpochColumnName := VInt64 now]> m) <$> ms.

Record MeasurementEnvelope := {
  DBName : string;
  MetricName : string;
  SourceKind : string;
  CustomTags : option (gmap string string);  (* [None] is the nil map *)
  Data : Measurements;
}.

#[export] Instance MeasurementEnvelope_eq_dec : EqDecision MeasurementEnvelope.
Proof. solve_decision. Defined.

(** ** Metric and preset definitions *)

Record Metric := {
  SQLs : gmap Z string;
  InitSQL : string;
  NodeStatus : string;
  Gauges : list string;
  IsInstanceLevel : bool;
  StorageName : string;
  Description : string;
}.

#[export] Instance Metric_eq_dec : EqDecision Metric.
Proof. solve_decision. Defined.

(** Metric name to interval in seconds; [None] is the nil map. *)
Abbreviation MetricIntervals := (option (gmap string Z)).

Record Preset := {
  Preset_Description : string;
  Preset_Metrics : MetricIntervals;
}.

#[export] Instance Preset_eq_dec : EqDecision Preset.
Proof. solve_decision. Defined.

Record Metrics := {
  MetricDefs : gmap string Metric;
  PresetDefs : gmap string Preset;
}.

Definition PrimaryOnly (m : Metric) : bool := bool_decide (NodeStatus m = "primary").
Definition StandbyOnly (m : Metric) : bool := bool_decide (NodeStatus m = "standby").

Definition closestVersion (ro : range_order) (sqls : gmap Z string) (version : Z) : Z :=
  foldl (λ closest '(v, _),
    if (v <? version) && ((closest =? 0) || (closest <? v)) then v else closest)
    0 (range ro sqls).

(** [Metric.GetSQL]: an exact match, else the closest version below. *)
Definition GetSQL (ro : range_order) (m : Metric) (version : Z) : string :=
  match SQLs m !! version with
  | Some sql => sql
  | None => default "" (SQLs m !! closestVersion ro (SQLs m) version)
  end.

(** [Metrics.FilterByNames]. *)
Definition filter_preset (m : Metrics) (ro : range_order) (preset : Preset)
    (defs : gmap string Metric) : gmap string Metric :=
  foldl (λ defs '(metricName, _),
    match MetricDefs m !! metricName with
    | Some metric => <[metricName := metric]> defs
    | None => defs
    end) defs (range ro (default ∅ (Preset_Metrics preset))).

Fixpoint filter_names (m : Metrics) (ro : range_order) (names : list string)
    (res : Metrics) : result Metrics :=
  match names with
  | [] => Ok res
  | name :: names' =>
      match PresetDefs m !! name with
      | Some preset =>
          filter_names m ro names'
            {| MetricDefs := filter_preset m ro preset (MetricDefs res);
               PresetDefs := <[name := preset]> (PresetDefs res) |}
      | None =>
          match MetricDefs m !! name with
          | Some metric =>
              filter_names m ro names'
                {| MetricDefs := <[name := metric]> (MetricDefs res);
                   PresetDefs := PresetDefs res |}
          | None =>
              Err (ErrorString ("metric or preset '" +:+ name +:+ "' not found"))
          end
      end
  end.

Definition FilterByNames (m : Metrics) (ro : range_order) (names : list string)
    : result Metrics :=
  match names with
  | [] => Ok {| MetricDefs := MetricDefs m; PresetDefs := PresetDefs m |}
  | _ => filter_names m ro names {| MetricDefs := ∅; PresetDefs := ∅ |}
  end.

(** [CmdOpts.CacheAge]: a negative limit counts as 0. *)
Definition CacheAge (InstanceLevelCacheMaxSeconds : Z) : Z :=
  seconds (if (InstanceLevelCacheMaxSeconds <? 0) then 0 else InstanceLevelCacheMaxSeconds).

Definition GetDefaultBuiltInMetrics : list string :=
  ["sproc_changes"; "table_changes"; "index_changes"; "privilege_changes";
   "object_changes"; "configuration_changes"].

(** ** Properties of the definitions *)

Section epoch.
Implicit Types (m : Measurement) (ms : Measurements) (now t : Z).

(** A row set whose first row carries an [int64] epoch. *)
Definition epoch_set ms : Prop := ∃ m ms' t, ms = m :: ms' ∧ m !! EpochColumnName = Some (VInt64 t).

Lemma GetEpoch_snd_set now ms : ms ≠ [] → epoch_set (snd (GetEpoch now ms)).
Proof.
  destruct ms as [|m ms]; [done|]. intros _. simpl. unfold Measurement_GetEpoch.
  split_matches; eexists _, _, _; (split; [done|]); by simplify_map_eq.
Qed.

Lemma GetEpoch_id now ms : epoch_set ms → snd (GetEpoch now ms) = ms.
Proof. intros (m & ms' & t & -> & Ht). simpl. unfold Measurement_GetEpoch. by rewrite Ht. Qed.

Lemma GetEpoch_now now1 now2 ms : epoch_set ms → GetEpoch now1 ms = GetEpoch now2 ms.
Proof. intros (m & ms' & t & -> & Ht). simpl. unfold Measurement_GetEpoch. by rewrite Ht. Qed.

(** Reading an epoch again, however much later, gives the same instant. *)
Lemma GetEpoch_stable now1 now2 ms :
  ms ≠ [] → fst (GetEpoch now2 (snd (GetEpoch now1 ms))) = fst (GetEpoch now1 ms).
Proof.
  destruct ms as [|m ms]; [done|]. intros _. simpl. unfold Measurement_GetEpoch.
  destruct (m !! EpochColumnName) as [[]|] eqn:E; simpl;
    unfold Measurement_GetEpoch; rewrite ?lookup_insert_eq, ?E; done.
Qed.

Lemma length_GetEpoch now ms : length (snd (GetEpoch now ms)) = length ms.
Proof. destruct ms; [done|]. simpl. unfold Measurement_GetEpoch. by split_matches. Qed.
End epoch.
#[export] Hint Resolve GetEpoch_snd_set : pgwatch.

(** *** Version selection *)

Section version_selection.
Context (ro : range_order).

(** Scanning a list of non-negative versions keeps the largest one below the target. *)
Lemma closest_fold (version : Z) (l : list (Z * string)) (acc : Z) :
  0 ≤ acc < version ∨ acc = 0 →
  Forall (λ p, 0 ≤ p.1) l →
  let closest := foldl (λ closest '(v, _),
    if (v <? version) && ((closest =? 0) || (closest <? v)) then v else closest) acc l in
  (closest = acc ∨ closest ∈ l.*1 ∧ closest < version) ∧
  acc ≤ closest ∧ (∀ v, v ∈ l.*1 → v < version → v ≤ closest).
Proof.
  revert acc. induction l as [|[v s] l IH]; intros acc Hacc Hl; simpl.
  { split_and!; [by left|lia|set_solver]. }
  apply Forall_cons in Hl as [Hv Hl]. simpl in Hv.
  destruct ((v <? version) && ((acc =? 0) || (acc <? v))) eqn:E.
  - destruct (IH v) as (H1 & H2 & H3); [left; boolify; lia|done|].
    apply andb_true_iff in E as [E1 E2%orb_true_iff]. boolify.
    split_and!.
    + right. destruct H1 as [->|[Hin ?]]; split; [by left|lia|by right|done].
    + destruct E2; boolify; lia.
    + intros w [->|Hw]%elem_of_cons Hlt; [lia|]. by apply H3.
  - destruct (IH acc) as (H1 & H2 & H3); [done..|].
    split_and!; [|done|].
    { destruct H1 as [->|[Hin ?]]; [by left|]. right. split; [by right|done]. }
    intros w [->|Hw]%elem_of_cons Hlt; [|by apply H3].
    apply andb_false_iff in E as [E|E%orb_false_iff]; [boolify; lia|].
    destruct E; boolify; lia.
Qed.

(** The SQL chosen is the one for the greatest defined version not above the server's. *)
Definition best_version (sqls : gmap Z string) (version k : Z) : Prop :=
  is_Some (sqls !! k) ∧ k ≤ version ∧
  ∀ k', is_Some (sqls !! k') → k' ≤ version → k' ≤ k.

Lemma closestVersion_best sqls version :
  0 ≤ version → map_Forall (λ k _, 0 ≤ k) sqls → sqls !! version = None →
  best_version sqls version (closestVersion ro sqls version) ∨
  (closestVersion ro sqls version = 0 ∧ sqls !! 0 = None ∧
   ∀ k, is_Some (sqls !! k) → version < k).
Proof.
  intros Hv Hpos Hnone. unfold closestVersion.
  destruct (closest_fold version (range ro sqls) 0) as (H1 & _ & H3); [by right| |].
  { apply Forall_forall. intros [k s] Hk%elem_of_range. by apply (Hpos k s). }
  set (c := foldl _ _ _) in *.
  assert (∀ k, k ∈ (range ro sqls).*1 ↔ is_Some (sqls !! k)) as Hkeys
    by apply elem_of_range_keys.
  assert (∀ k, is_Some (sqls !! k) → k ≤ version → k ≤ c) as Hmax.
  { intros k Hk Hle. apply H3; [by apply Hkeys|].
    destruct (decide (k = version)) as [->|]; [|lia]. by destruct Hk; simplify_eq. }
  destruct H1 as [H1|[Hin Hlt]].
  - destruct (sqls !! 0) as [s0|] eqn:E0.
    + left. rewrite H1. split_and!; [by eauto|lia|]. rewrite H1 in Hmax. done.
    + right. split_and!; [done..|]. intros k [s Hs].
      pose proof (Hpos k s Hs) as Hk0. simpl in Hk0.
      destruct (decide (k ≤ version)); [|lia].
      assert (k ≤ c) by eauto. assert (k = 0) by lia. by simplify_eq.
  - left. split_and!; [by apply Hkeys|lia|done].
Qed.
End version_selection.

(** [GetSQL] on a definition whose versions are not negative returns the
    SQL text of the greatest version not above the requested one, and the empty string exactly
    when every defined version is newer; the order in which Go walks the map is irrelevant. *)
Theorem GetSQL_best (ro : range_order) (m : Metric) (version : Z) :
  0 ≤ version → map_Forall (λ k _, 0 ≤ k) (SQLs m) →
  (∃ k, best_version (SQLs m) version k ∧ SQLs m !! k = Some (GetSQL ro m version)) ∨
  ((∀ k, is_Some (SQLs m !! k) → version < k) ∧ GetSQL ro m version = "").
Proof.
  intros Hv Hpos. unfold GetSQL. destruct (SQLs m !! version) as [s|] eqn:E.
  - left. exists version. split; [|done]. split_and!; [by eauto|lia|done].
  - destruct (closestVersion_best ro (SQLs m) version) as [Hb|(H0 & Hn & Hall)]; [done..| |].
    + left. exists (closestVersion ro (SQLs m) version). split; [done|].
      destruct Hb as ([s Hs] & _). by rewrite Hs.
    + right. split; [done|]. by rewrite H0, Hn.
Qed.

Definition sample_metric : Metric := {|
  SQLs := {[11 := "select 11"; 14 := "select 14"]}; InitSQL := ""; NodeStatus := "primary";
  Gauges := []; IsInstanceLevel := false; StorageName := ""; Description := "" |}.

Lemma GetSQL_best_witness :
  (∃ k, best_version (SQLs sample_metric) 13 k ∧
     SQLs sample_metric !! k = Some (GetSQL tree_order sample_metric 13)) ∨
  ((∀ k, is_Some (SQLs sample_metric !! k) → 13 < k) ∧ GetSQL tree_order sample_metric 13 = "").
Proof.
  apply (GetSQL_best tree_order sample_metric 13); [lia|].
  apply (bool_decide_unpack _). vm_compute. exact I.
Defined.

Example GetSQL_between : GetSQL tree_order sample_metric 13 = "select 11".
Proof. reflexivity. Qed.
Example GetSQL_too_old : GetSQL tree_order sample_metric 10 = "".
Proof. reflexivity. Qed.

(** *** Selection by name *)

Section filter_by_names.
Context (m : Metrics) (ro : range_order).
Implicit Types (names : list string) (k p : string).

(** Asking for [n] asks for metric [k]: [n] is a preset that lists [k], or is [k] itself. *)
Definition asks_for n k : Prop :=
  match PresetDefs m !! n with
  | Some preset => is_Some (default ∅ (Preset_Metrics preset) !! k)
  | None => k = n
  end.
#[export] Instance asks_for_dec n k : Decision (asks_for n k).
Proof. unfold asks_for. destruct (PresetDefs m !! n); apply _. Defined.

Definition wanted_metric names k : Prop := Exists (λ n, asks_for n k) names.
Definition known_name n : Prop := is_Some (PresetDefs m !! n) ∨ is_Some (MetricDefs m !! n).

Lemma filter_preset_lookup preset defs k x :
  filter_preset m ro preset defs !! k = Some x ↔
  (is_Some (default ∅ (Preset_Metrics preset) !! k) ∧ MetricDefs m !! k = Some x) ∨
  ((is_Some (default ∅ (Preset_Metrics preset) !! k) → MetricDefs m !! k = None) ∧
   defs !! k = Some x).
Proof.
  unfold filter_preset. rewrite <-(elem_of_range_keys ro). unfold range_keys.
  revert defs. generalize (range ro (default ∅ (Preset_Metrics preset))) as l.
  induction l as [|[k' i] l IH]; intros defs; csimpl.
  { split; [intros; right; split; [by intros ?%not_elem_of_nil|done]|].
    intros [[?%not_elem_of_nil ?]|[_ ?]]; done. }
  rewrite IH, elem_of_cons. clear IH.
  destruct (decide (k = k')) as [->|Hne];
    destruct (MetricDefs m !! k') as [y|] eqn:E; simplify_map_eq; try naive_solver.
  destruct (decide (k' ∈ l.*1)); naive_solver.
Qed.

(** One step of the accumulation, as propositional bookkeeping. *)
Lemma accumulate_step (P Q D : Prop) (o : option Metric) (x : Metric) :
  Decision P → Decision Q →
  (o = Some x ∧ P) ∨ ((P → o = None) ∧ ((Q ∧ o = Some x) ∨ ((Q → o = None) ∧ D))) ↔
  (o = Some x ∧ (Q ∨ P)) ∨ ((Q ∨ P → o = None) ∧ D).
Proof. intros [] [] ; destruct o; naive_solver. Qed.

Lemma filter_names_metrics names res r k x :
  filter_names m ro names res = Ok r →
  MetricDefs r !! k = Some x ↔
    (MetricDefs m !! k = Some x ∧ wanted_metric names k) ∨
    ((wanted_metric names k → MetricDefs m !! k = None) ∧ MetricDefs res !! k = Some x).
Proof.
  unfold wanted_metric. revert res. induction names as [|n names IH]; intros res; simpl.
  { intros [= <-]. rewrite Exists_nil. naive_solver. }
  rewrite Exists_cons.
  destruct (PresetDefs m !! n) as [preset|] eqn:Ep;
    [|destruct (MetricDefs m !! n) as [metric|] eqn:Em; [|done]]; intros ->%IH; simpl;
    rewrite <-accumulate_step by apply _.
  - assert (asks_for n k ↔ is_Some (default ∅ (Preset_Metrics preset) !! k)) as ->
      by (unfold asks_for; by rewrite Ep).
    by rewrite filter_preset_lookup.
  - assert (asks_for n k ↔ k = n) as -> by (unfold asks_for; by rewrite Ep).
    destruct (decide (k = n)) as [->|]; simplify_map_eq; naive_solver.
Qed.

Lemma filter_names_presets names res r p x :
  filter_names m ro names res = Ok r →
  PresetDefs r !! p = Some x ↔
    (PresetDefs m !! p = Some x ∧ p ∈ names) ∨
    ((p ∈ names → PresetDefs m !! p = None) ∧ PresetDefs res !! p = Some x).
Proof.
  revert res. induction names as [|n names IH]; intros res; simpl.
  { intros [= <-]. rewrite elem_of_nil. naive_solver. }
  rewrite elem_of_cons.
  destruct (PresetDefs m !! n) as [preset|] eqn:Ep;
    [|destruct (MetricDefs m !! n) as [metric|] eqn:Em; [|done]]; intros ->%IH; simpl;
    destruct (decide (p = n)) as [->|]; simplify_map_eq; try naive_solver.
  destruct (decide (n ∈ names)); naive_solver.
Qed.

Lemma filter_names_known names res r :
  filter_names m ro names res = Ok r → Forall known_name names.
Proof.
  revert res. induction names as [|n names IH]; intros res; simpl; [constructor|].
  destruct (PresetDefs m !! n) eqn:Ep; [|destruct (MetricDefs m !! n) eqn:Em; [|done]];
    intros ?%IH; constructor; unfold known_name; eauto.
Qed.

Lemma filter_names_err names res e :
  filter_names m ro names res = Err e →
  ∃ n, n ∈ names ∧ ¬ known_name n ∧
       e = ErrorString ("metric or preset '" +:+ n +:+ "' not found").
Proof.
  revert res. induction names as [|n names IH]; intros res; simpl; [done|].
  destruct (PresetDefs m !! n) eqn:Ep; [|destruct (MetricDefs m !! n) eqn:Em].
  - intros (n' & ? & ?)%IH. set_solver.
  - intros (n' & ? & ?)%IH. set_solver.
  - intros [= <-]. exists n. split_and!; [by left| |done].
    unfold known_name. rewrite Ep, Em. intros [[]|[]]; done.
Qed.
End filter_by_names.

(** [FilterByNames] with a non-empty list of names succeeds exactly when each of them is a
    preset or a metric; the result then holds the requested presets and, with their original
    definitions, precisely the metrics named directly or listed by a requested preset.
    Otherwise the error names a requested name that is neither. *)
Theorem FilterByNames_correct (m : Metrics) (ro : range_order) (names : list string) :
  names ≠ [] →
  match FilterByNames m ro names with
  | Ok r =>
      Forall (known_name m) names ∧
      (∀ k x, MetricDefs r !! k = Some x ↔ MetricDefs m !! k = Some x ∧ wanted_metric m names k) ∧
      (∀ p x, PresetDefs r !! p = Some x ↔ PresetDefs m !! p = Some x ∧ p ∈ names)
  | Err e =>
      ∃ n, n ∈ names ∧ ¬ known_name m n ∧
           e = ErrorString ("metric or preset '" +:+ n +:+ "' not found")
  end.
Proof.
  intros Hne. unfold FilterByNames. destruct names as [|n names]; [done|].
  destruct (filter_names _ _ _ _) as [r|e] eqn:E.
  - split_and!; [by eapply filter_names_known| |]; intros k x.
    + rewrite filter_names_metrics by done. simpl. rewrite lookup_empty. naive_solver.
    + rewrite filter_names_presets by done. simpl. rewrite lookup_empty. naive_solver.
  - by eapply filter_names_err.
Qed.

Definition sample_metrics : Metrics := {|
  MetricDefs := {["wal" := sample_metric; "locks" := sample_metric; "bgwriter" := sample_metric]};
  PresetDefs := {["basic" := {| Preset_Description := "basic";
     Preset_Metrics := Some {["wal" := 60; "gone" := 30]} |}]} |}.

Lemma FilterByNames_correct_witness :
  ["basic"; "locks"] ≠ [] ∧
  match FilterByNames sample_metrics tree_order ["basic"; "locks"] with
  | Ok r => MetricDefs r !! "wal" = Some sample_metric ∧ MetricDefs r !! "bgwriter" = None
  | Err _ => False
  end.
Proof.
  split; [done|].
  pose proof (FilterByNames_correct sample_metrics tree_order ["basic"; "locks"] ltac:(done)) as H.
  destruct (FilterByNames _ _ _) as [r|e] eqn:E; [|vm_compute in E; discriminate].
  destruct H as (_ & Hm & _). split.
  - apply Hm. split; [reflexivity|]. apply Exists_cons_hd. vm_compute. by eexists.
  - destruct (MetricDefs r !! "bgwriter") as [x|] eqn:Ex; [|done].
    vm_compute in E. injection E as <-. vm_compute in Ex. discriminate.
Defined.

(** ** Printing of values *)

(** [fmt.Sprintf("%v", v)]; the printing of floats is left abstract. *)
Definition fmt_v (fmt_float : value → string) (v : value) : string :=
  match v with
  | VNil => "<nil>"
  | VInt z | VInt32 z | VInt64 z => pretty z
  | VFloat32 _ | VFloat64 _ => fmt_float v
  | VBool b => if b then "true" else "false"
  | VString s => s
  | VOther printed => printed
  end.
