(* ===== verification/Sinks.v ===== *)
(** * Sinks: the interface, its fan-out, and the simplest sink
    ([internal/sinks/types.go], [multiwriter.go], [json.go])

    [Writer] is what the collector uses of a sink.  The classes are the Go interfaces: a type is a
    [Writer], and a value of it may in addition define metrics or migrate a schema (a type assertion
    in the source, a boolean here).  [MultiWriter] implements the interface for a list of sinks; the
    theorems show that every sink is called with every message whatever the others answer, that the
    joined error is [nil] exactly when no sink failed, and which URIs are accepted. *)

From S2P Require Import Prelude GoStrings Metrics.
From stdpp Require Import options.

Local Open Scope Z_scope.

Inductive SyncOp := InvalidOp | AddOp | DeleteOp | DefineOp.

#[export] Instance SyncOp_eq_dec : EqDecision SyncOp.
Proof. solve_decision. Defined.

Definition SyncOp_String (s : SyncOp) : string :=
  match s with
  | InvalidOp => "InvalidOp" | AddOp => "AddOp" | DeleteOp => "DeleteOp" | DefineOp => "DefineOp"
  end.

(** ** The interfaces *)

Class Writer (W : Type) := {
  SyncMetric : string → string → SyncOp → W → W * option error;
  Write : MeasurementEnvelope → W → W * option error;
}.

(** [w.(MetricsDefiner)] succeeds when [is_definer w]. *)
Class MetricsDefiner (W : Type) := {
  is_definer : W → bool;
  DefineMetrics : Metrics → W → W * option error;
}.

Class Migrator (W : Type) := {
  is_migrator : W → bool;
  Migrate : W → W * option error;
  NeedsMigration : W → result bool;
}.

(** [db.NeedsMigration]. *)
Definition db_NeedsMigration `{Migrator W} (storage : W) (needsMigrationErr : error) : option error :=
  if is_migrator storage then
    match NeedsMigration storage with
    | Err e => Some e
    | Ok true => Some needsMigrationErr
    | Ok false => None
    end
  else None.

(** ** MultiWriter *)

(** Call every writer of the list, joining the errors. *)
Fixpoint each {W} (call : W → W * option error) (writers : list W) (err : option error) :
    list W * option error :=
  match writers with
  | [] => ([], err)
  | w :: ws =>
      let '(w', e) := call w in
      let '(ws', err') := each call ws (errors_Join [err; e]) in
      (w' :: ws', err')
  end.

Section multi.
Context {W : Type} `{Writer W} `{MetricsDefiner W} `{Migrator W}.

(** A call that is only made where the type assertion holds. *)
Definition when (ok : W → bool) (call : W → W * option error) (w : W) : W * option error :=
  if ok w then call w else (w, None).

Fixpoint multi_NeedsMigration (writers : list W) : result bool :=
  match writers with
  | [] => Ok false
  | w :: ws =>
      if is_migrator w then
        match NeedsMigration w with
        | Err e => Err e
        | Ok true => Ok true
        | Ok false => multi_NeedsMigration ws
        end
      else multi_NeedsMigration ws
  end.

(** The list of writers itself. *)
Definition AddWriter (w : W) (writers : list W) : list W := writers ++ [w].
Definition Count (writers : list W) : nat := length writers.

#[export] Instance MultiWriter_Writer : Writer (list W) := {|
  SyncMetric sourceName metricName op ws := each (SyncMetric sourceName metricName op) ws None;
  Write msg ws := each (Write msg) ws None;
|}.

#[export] Instance MultiWriter_MetricsDefiner : MetricsDefiner (list W) := {|
  is_definer _ := true;
  DefineMetrics d ws := each (when is_definer (DefineMetrics d)) ws None;
|}.

#[export] Instance MultiWriter_Migrator : Migrator (list W) := {|
  is_migrator _ := true;
  Migrate ws := each (when is_migrator Migrate) ws None;
  NeedsMigration := multi_NeedsMigration;
|}.
End multi.

(** ** NewSinkWriter *)

(** The constructors of the sinks open files and connections; they are parameters, given the
    connection string the source passes to them. *)
Record constructors (W : Type) := {
  NewJSONWriter : string → result W;
  NewPostgresWriter : string → result W;
  NewPrometheusWriter : string → result W;
  NewRPCWriter : string → result W;
}.
Arguments NewJSONWriter {W}.
Arguments NewPostgresWriter {W}.
Arguments NewPrometheusWriter {W}.
Arguments NewRPCWriter {W}.

Section new_sink_writer.
Context {W : Type} (new : constructors W).

Definition sink_of (uri : string) : result W :=
  match str_cut "://" uri with
  | None => Err (ErrorString ("malformed sink URI " +:+ uri))
  | Some (scheme, target) =>
      if bool_decide (scheme = "" ∨ target = "") then Err (ErrorString ("malformed sink URI " +:+ uri))
      else if bool_decide (scheme = "jsonfile") then NewJSONWriter new target
      else if bool_decide (scheme = "postgres" ∨ scheme = "postgresql") then NewPostgresWriter new uri
      else if bool_decide (scheme = "prometheus") then NewPrometheusWriter new target
      else if bool_decide (scheme = "rpc" ∨ scheme = "grpc") then NewRPCWriter new uri
      else Err (ErrorString ("unknown schema " +:+ scheme +:+ " in sink URI " +:+ uri))
  end.

Fixpoint add_writers (writers : list W) (uris : list string) : result (list W) :=
  match uris with
  | [] => Ok writers
  | uri :: uris' =>
      match sink_of uri with
      | Err e => Err e
      | Ok w => add_writers (AddWriter w writers) uris'
      end
  end.

(** A single sink is used directly, several through a [MultiWriter]. *)
Definition NewSinkWriter (sinks : list string) : result (W + list W) :=
  if bool_decide (sinks = []) then Err (ErrorString "no sinks specified for measurements")
  else
    match add_writers [] sinks with
    | Err e => Err e
    | Ok [w] => Ok (inl w)
    | Ok ws => Ok (inr ws)
    end.
End new_sink_writer.

(** ** The JSON file sink *)

Record json_row := {
  j_metric : string;
  j_data : Measurements;
  j_dbname : string;
  j_custom_tags : option (gmap string string);
}.

(** [ctx_err] is the state of the context, [written] the rows of the file; [encode] is the
    outcome of encoding a row. *)
Record JSONWriter := { jw_ctx_err : option error; jw_written : list json_row }.

Section json.
Context (encode : json_row → option error).

Definition JSONWriter_Write (msg : MeasurementEnvelope) (jw : JSONWriter) : JSONWriter * option error :=
  match jw_ctx_err jw with
  | Some e => (jw, Some e)
  | None =>
      if bool_decide (Data msg = []) then (jw, None)
      else
        let row := {| j_metric := MetricName msg; j_data := Data msg; j_dbname := DBName msg;
                      j_custom_tags := CustomTags msg |} in
        match encode row with
        | Some e => (jw, Some e)
        | None => ({| jw_ctx_err := None; jw_written := jw_written jw ++ [row] |}, None)
        end
  end.

Definition JSONWriter_SyncMetric (sourceName metricName : string) (op : SyncOp) (jw : JSONWriter) :
    JSONWriter * option error := (jw, jw_ctx_err jw).
End json.

(** ** Proofs *)

Lemma each_spec {W} (call : W → W * option error) ws err :
  (each call ws err).1 = (λ w, (call w).1) <$> ws ∧
  ((each call ws err).2 = None ↔ err = None ∧ Forall (λ w, (call w).2 = None) ws).
Proof.
  revert err. induction ws as [|w ws IH]; intros err; csimpl.
  { split; [done|]. rewrite Forall_nil. tauto. }
  destruct (call w) as [w' e] eqn:Ec. specialize (IH (errors_Join [err; e])) as [H1 H2].
  destruct (each call ws _) as [ws' err']. cbn [fst snd] in *. split; [by rewrite H1|].
  rewrite H2, Forall_cons, Ec, errors_Join_None, !Forall_cons, Forall_nil. simpl. tauto.
Qed.

(** The fan-out.  Every sink receives the message, whatever the sinks before it answered, and
    in their order; the error is [nil] exactly if no sink reports one.  The same holds for the
    notifications and, restricted to the sinks that take them, for the metric definitions. *)
Theorem MultiWriter_fans_out {W} `{Writer W} `{MetricsDefiner W}
    (ws : list W) (msg : MeasurementEnvelope) (src metric : string) (op : SyncOp) (d : Metrics) :
  (let '(ws', err) := Write msg ws in
   ws' = (λ w, (Write msg w).1) <$> ws ∧ (err = None ↔ ∀ w, w ∈ ws → (Write msg w).2 = None)) ∧
  (let '(ws', err) := SyncMetric src metric op ws in
   ws' = (λ w, (SyncMetric src metric op w).1) <$> ws ∧
   (err = None ↔ ∀ w, w ∈ ws → (SyncMetric src metric op w).2 = None)) ∧
  (let '(ws', err) := DefineMetrics d ws in
   ws' = (λ w, if is_definer w then (DefineMetrics d w).1 else w) <$> ws ∧
   (err = None ↔ ∀ w, w ∈ ws → is_definer w = true → (DefineMetrics d w).2 = None)).
Proof.
  cbn [Write SyncMetric DefineMetrics MultiWriter_Writer MultiWriter_MetricsDefiner].
  pose proof (each_spec (Write msg) ws None) as H1.
  pose proof (each_spec (SyncMetric src metric op) ws None) as H2.
  pose proof (each_spec (when is_definer (DefineMetrics d)) ws None) as H3.
  destruct (each (Write msg) ws None), (each (SyncMetric src metric op) ws None),
    (each (when _ _) ws None). cbn [fst snd] in *. rewrite Forall_forall in H1, H2, H3.
  split_and!; try tauto.
  - destruct H3 as [-> _]. apply list_fmap_ext. intros i w _. unfold when. by destruct (is_definer w).
  - destruct H3 as [_ ->]. unfold when. split.
    + intros [_ Hw] w Hin Hd. specialize (Hw w Hin). by rewrite Hd in Hw.
    + intros Hw. split; [done|]. intros w Hin. destruct (is_definer w) eqn:E; [by apply Hw|done].
Qed.

Lemma add_writers_spec {W} (new : constructors W) ws uris :
  match add_writers new ws uris with
  | Ok ws' => ∃ ws2, ws' = ws ++ ws2 ∧ Forall2 (λ uri w, sink_of new uri = Ok w) uris ws2
  | Err e => ∃ pre uri post, uris = pre ++ uri :: post ∧ sink_of new uri = Err e ∧
               Forall (λ u, ∃ w, sink_of new u = Ok w) pre
  end.
Proof.
  revert ws. induction uris as [|uri uris IH]; intros ws; simpl.
  { exists []. by rewrite app_nil_r. }
  destruct (sink_of new uri) as [w|e] eqn:E.
  - specialize (IH (ws ++ [w])). destruct (add_writers new _ uris) as [ws'|e].
    + destruct IH as (ws2 & -> & H). exists (w :: ws2). rewrite <-app_assoc. split; [done|]. by constructor.
    + destruct IH as (pre & u & post & -> & He & Hpre). exists (uri :: pre), u, post.
      split_and!; [done..|]. constructor; eauto.
  - exists [], uri, uris. split_and!; [done..|constructor].
Qed.

(** Only these schemes are known. *)
Definition sink_schemes : list string :=
  ["jsonfile"; "postgres"; "postgresql"; "prometheus"; "rpc"; "grpc"].

Lemma sink_of_uri {W} (new : constructors W) uri w :
  sink_of new uri = Ok w →
  ∃ scheme target, uri = scheme +:+ "://" +:+ target ∧ scheme ∈ sink_schemes ∧ target ≠ "".
Proof.
  unfold sink_of. destruct (str_cut "://" uri) as [[scheme target]|] eqn:E; [|done].
  apply str_cut_Some in E. case_bool_decide as H1; [done|]. intros Hw. exists scheme, target.
  split_and!; [done| |tauto]. unfold sink_schemes.
  repeat case_bool_decide; try done; set_solver.
Qed.

(** Creating the sinks.  Success gives one writer per configured URI, in order, a single one
    unwrapped, and every URI then is a known scheme with a target; otherwise the error is the one of
    the first URI that is refused or whose sink cannot be opened, or there is no URI at all. *)
Theorem NewSinkWriter_spec {W} (new : constructors W) (uris : list string) :
  match NewSinkWriter new uris with
  | Ok opened =>
      let ws := match opened with inl w => [w] | inr ws => ws end in
      ws ≠ [] ∧ (if opened is inr _ then length ws ≠ 1%nat else True) ∧
      Forall2 (λ uri w, sink_of new uri = Ok w) uris ws ∧
      Forall (λ uri, ∃ scheme target,
        uri = scheme +:+ "://" +:+ target ∧ scheme ∈ sink_schemes ∧ target ≠ "") uris
  | Err e =>
      uris = [] ∨ ∃ pre uri post, uris = pre ++ uri :: post ∧ sink_of new uri = Err e ∧
        Forall (λ u, ∃ w, sink_of new u = Ok w) pre
  end.
Proof.
  unfold NewSinkWriter. case_bool_decide as Hne; [by left|].
  pose proof (add_writers_spec new [] uris) as H. destruct (add_writers new [] uris) as [ws|e]; [|by right].
  destruct H as (ws2 & -> & Hall). simpl.
  assert (ws2 ≠ []) as Hne2 by (intros ->; inversion Hall; congruence).
  assert (Forall (λ uri, ∃ scheme target,
    uri = scheme +:+ "://" +:+ target ∧ scheme ∈ sink_schemes ∧ target ≠ "") uris) as Huri.
  { eapply Forall2_Forall_l; [exact Hall|]. apply Forall_true. intros w uri. apply sink_of_uri. }
  destruct ws2 as [|w [|w2 ws2]]; [done| |]; split_and!; done.
Qed.
