(* ===== verification/CopySource.v ===== *)
(** * The row source of the PostgreSQL sink ([internal/sinks/postgres.go], [copyFromMeasurements])

    [flush] hands pgx an iterator over the batch that stops at the first envelope of another
    metric, so that one [COPY] per metric can be fed from the same iterator.  The theorems
    describe what a consumer sees: for every state the program can reach, [Next] returns, never
    indexes out of range, and enumerates exactly the rows of the current metric's run of
    envelopes; [SkipMetric] lands where a complete drain would have; and a consumer that goes on to
    the end of the batch terminates and is given every row once. *)

From S2P Require Import Prelude GoStrings Metrics.
From stdpp Require Import options.

Local Open Scope Z_scope.

(** ** The row iterator *)

Record copyFromMeasurements := CopyFromMeasurements {
  cfm_envelopes : list MeasurementEnvelope;
  cfm_envelopeIdx : Z;
  cfm_measurementIdx : Z;
  cfm_metricName : string;
  cfm_err : option error;
}.

Definition newCopyFromMeasurements (rows : list MeasurementEnvelope) : copyFromMeasurements :=
  {| cfm_envelopes := rows; cfm_envelopeIdx := -1; cfm_measurementIdx := -1;
     cfm_metricName := ""; cfm_err := None |}.

(** [l[i]] for a signed index: out of range is a panic ([None]). *)
Definition at_index {A} (l : list A) (i : Z) : option A :=
  if (i <? 0) then None else l !! Z.to_nat i.

Definition cfm_move (c : copyFromMeasurements) (ei mi : Z) : copyFromMeasurements :=
  {| cfm_envelopes := cfm_envelopes c; cfm_envelopeIdx := ei; cfm_measurementIdx := mi;
     cfm_metricName := cfm_metricName c; cfm_err := cfm_err c |}.
Definition cfm_rename (c : copyFromMeasurements) (name : string) : copyFromMeasurements :=
  {| cfm_envelopes := cfm_envelopes c; cfm_envelopeIdx := cfm_envelopeIdx c;
     cfm_measurementIdx := cfm_measurementIdx c; cfm_metricName := name; cfm_err := cfm_err c |}.
Definition cfm_set_err (c : copyFromMeasurements) (e : option error) : copyFromMeasurements :=
  {| cfm_envelopes := cfm_envelopes c; cfm_envelopeIdx := cfm_envelopeIdx c;
     cfm_measurementIdx := cfm_measurementIdx c; cfm_metricName := cfm_metricName c; cfm_err := e |}.

Definition NextEnvelope (c : copyFromMeasurements) : copyFromMeasurements * bool :=
  let ei := cfm_envelopeIdx c + 1 in
  (cfm_move c ei (-1), ei <? len (cfm_envelopes c)).

(** The part of an iteration of [Next] that advances to the next envelope: [inr] is a return. *)
Definition Next_advance (c : copyFromMeasurements)
    : option (copyFromMeasurements + copyFromMeasurements * bool) :=
  let '(c, ok) := NextEnvelope c in
  if ok then
    e ← at_index (cfm_envelopes c) (cfm_envelopeIdx c);
    if bool_decide (cfm_metricName c = "") then Some (inl (cfm_rename c (MetricName e)))
    else if bool_decide (cfm_metricName c ≠ MetricName e) then
      let ei := cfm_envelopeIdx c - 1 in
      prev ← at_index (cfm_envelopes c) ei;
      Some (inr (cfm_rename (cfm_move c ei (len (Data prev))) "", false))
    else Some (inl c)
  else Some (inr (c, false)).

(** One iteration of the loop in [Next]: [None] is an index panic, [inl] goes round again. *)
Definition Next_body (c : copyFromMeasurements)
    : option (copyFromMeasurements + copyFromMeasurements * bool) :=
  advance ← (if (cfm_envelopeIdx c <? 0) then Some true
             else e ← at_index (cfm_envelopes c) (cfm_envelopeIdx c);
                  Some (len (Data e) <=? cfm_measurementIdx c + 1));
  r ← (if advance : bool then Next_advance c else Some (inl c));
  match r with
  | inr ret => Some (inr ret)
  | inl c =>
      let c := cfm_move c (cfm_envelopeIdx c) (cfm_measurementIdx c + 1) in
      e ← at_index (cfm_envelopes c) (cfm_envelopeIdx c);
      if (cfm_measurementIdx c <? len (Data e)) then Some (inr (c, true)) else Some (inl c)
  end.

Fixpoint Next_loop (fuel : nat) (c : copyFromMeasurements) : outcome (copyFromMeasurements * bool) :=
  match fuel with
  | O => NoFuel
  | S fuel =>
      match Next_body c with
      | None => Panics
      | Some (inr ret) => Returns ret
      | Some (inl c) => Next_loop fuel c
      end
  end.

(** Every iteration that goes round again has moved to a later envelope. *)
Definition Next (c : copyFromMeasurements) : outcome (copyFromMeasurements * bool) :=
  Next_loop (S (S (length (cfm_envelopes c)))) c.

Definition EOF (c : copyFromMeasurements) : bool := len (cfm_envelopes c) <=? cfm_envelopeIdx c.

(** [MetricName()]: the table for the next [COPY], a [pgx.Identifier]; [[]] is the nil one. *)
Definition cfm_MetricName (c : copyFromMeasurements) : option (list string) :=
  if (cfm_envelopeIdx c + 1 <? len (cfm_envelopes c)) then
    e ← at_index (cfm_envelopes c) (cfm_envelopeIdx c + 1); Some [MetricName e]
  else Some [].

(** The loop of [SkipMetric]: how far the envelope index moves. *)
Fixpoint skip_same (name : string) (es : list MeasurementEnvelope) : Z :=
  match es with
  | e :: es' => if bool_decide (MetricName e = name) then 1 + skip_same name es' else 0
  | [] => 0
  end.

Definition SkipMetric (c : copyFromMeasurements) (name : list string) : option copyFromMeasurements :=
  match name with
  | [] => Some c
  | n :: _ =>
      let ei := cfm_envelopeIdx c +
        skip_same n (drop (Z.to_nat (cfm_envelopeIdx c + 1)) (cfm_envelopes c)) in
      c ← (if (len (cfm_envelopes c) <=? ei + 1)
           then Some (cfm_move c (len (cfm_envelopes c)) (cfm_measurementIdx c))
           else e ← at_index (cfm_envelopes c) ei; Some (cfm_move c ei (len (Data e))));
      Some (cfm_set_err (cfm_rename c "") None)
  end.

(** ** What the iterator enumerates *)

(** The positions of the rows of an envelope. *)
Definition positions (e : MeasurementEnvelope) : list (MeasurementEnvelope * nat) :=
  (λ i, (e, i)) <$> seq 0 (length (Data e)).

(** Between two metrics: the envelopes [past] are behind, [rest] is still to be read. *)
Definition boundary (c : copyFromMeasurements) (past rest : list MeasurementEnvelope) : Prop :=
  cfm_envelopes c = past ++ rest ∧ cfm_envelopeIdx c = len past - 1 ∧ cfm_metricName c = "" ∧
  ∀ e, last past = Some e → len (Data e) ≤ cfm_measurementIdx c + 1.

(** Inside the run of envelopes [e :: grp] of one metric, at row [j] of [e]; [after] is what
    follows the run. *)
Definition inside (c : copyFromMeasurements) (past : list MeasurementEnvelope)
    (e : MeasurementEnvelope) (grp after : list MeasurementEnvelope) (j : Z) : Prop :=
  cfm_envelopes c = past ++ e :: grp ++ after ∧ cfm_envelopeIdx c = len past ∧
  cfm_metricName c = MetricName e ∧ cfm_measurementIdx c = j ∧ -1 ≤ j ∧ MetricName e ≠ "" ∧
  Forall (λ e', MetricName e' = MetricName e) grp ∧
  (∀ e', head after = Some e' → MetricName e' ≠ MetricName e).

(** The positions still to come in the run. *)
Definition todo (e : MeasurementEnvelope) (grp : list MeasurementEnvelope) (j : Z)
    : list (MeasurementEnvelope * nat) :=
  drop (Z.to_nat (j + 1)) (positions e) ++ concat (positions <$> grp).

(** After the run: at the end of the batch, or at the boundary before [after]. *)
Definition finished (c : copyFromMeasurements) (run after : list MeasurementEnvelope) : Prop :=
  match after with
  | [] => cfm_envelopes c = run ∧ cfm_envelopeIdx c = len run
  | _ => boundary c run after
  end.

Lemma at_index_middle {A} (l1 l2 : list A) x : at_index (l1 ++ x :: l2) (len l1) = Some x.
Proof.
  unfold at_index. destruct (Z.ltb_spec (len l1) 0); [lia|].
  rewrite Nat2Z.id. by apply list_lookup_middle.
Qed.

Lemma at_index_Some {A} (l : list A) (i : nat) : at_index l (Z.of_nat i) = l !! i.
Proof. unfold at_index. destruct (Z.ltb_spec (Z.of_nat i) 0); [lia|]. by rewrite Nat2Z.id. Qed.

Lemma at_index_snoc {A} (l1 l2 : list A) x y :
  at_index (l1 ++ x :: y :: l2) (len l1 + 1) = Some y.
Proof.
  replace (l1 ++ x :: y :: l2) with ((l1 ++ [x]) ++ y :: l2) by (by rewrite <-app_assoc).
  replace (len l1 + 1) with (len (l1 ++ [x])) by (rewrite length_app; simpl; lia).
  apply at_index_middle.
Qed.

Lemma length_positions e : length (positions e) = length (Data e).
Proof. unfold positions. by rewrite length_fmap, length_seq. Qed.

Lemma lookup_positions e (i : nat) :
  (i < length (Data e))%nat → positions e !! i = Some (e, i).
Proof. intros. unfold positions. rewrite list_lookup_fmap, lookup_seq_lt by done. done. Qed.

Lemma drop_positions e (i : nat) :
  (i < length (Data e))%nat → drop i (positions e) = (e, i) :: drop (S i) (positions e).
Proof. intros. apply drop_S. by apply lookup_positions. Qed.

Lemma todo_row e grp j :
  -1 ≤ j → j + 1 < len (Data e) →
  todo e grp j = (e, Z.to_nat (j + 1)) :: todo e grp (j + 1).
Proof.
  intros. unfold todo. rewrite drop_positions by lia. simpl. f_equal.
  by replace (Z.to_nat (j + 1 + 1)) with (S (Z.to_nat (j + 1))) by lia.
Qed.

Lemma todo_done e grp j :
  -1 ≤ j → len (Data e) ≤ j + 1 →
  todo e grp j = match grp with [] => [] | e' :: grp' => todo e' grp' (-1) end.
Proof.
  intros. unfold todo. rewrite drop_ge by (rewrite length_positions; lia).
  by destruct grp.
Qed.

Lemma inside_advance c past e grp after j :
  inside c past e grp after j → len (Data e) ≤ j + 1 →
  Next_body c =
    match grp ++ after with
    | [] => Some (inr (cfm_move c (len past + 1) (-1), false))
    | e' :: _ =>
        if bool_decide (MetricName e ≠ MetricName e') then
          Some (inr (cfm_rename (cfm_move c (len past) (len (Data e))) "", false))
        else
          let c' := cfm_move c (len past + 1) 0 in
          if (0 <? len (Data e')) then Some (inr (c', true)) else Some (inl c')
    end.
Proof.
  intros (Henv & Hei & Hname & Hmi & Hj & Hne & Hgrp & Hafter) Hle.
  unfold Next_body. rewrite Hei, Henv, Hmi, at_index_middle. simpl.
  destruct (Z.ltb_spec (len past) 0); [lia|]. simpl.
  destruct (Z.leb_spec (len (Data e)) (j + 1)); [|lia].
  unfold Next_advance, NextEnvelope. simpl. rewrite Hei, Henv, Hname, length_app. simpl.
  destruct (grp ++ after) as [|e' l] eqn:El; simpl.
  { destruct (Z.ltb_spec (len past + 1) (Z.of_nat (length past + 1))); [lia|]. done. }
  destruct (Z.ltb_spec (len past + 1) (Z.of_nat (length past + S (S (length l))))); [|lia].
  rewrite at_index_snoc. simpl.
  rewrite (bool_decide_eq_false_2 (MetricName e = "")) by done.
  case_bool_decide; simpl.
  - replace (len past + 1 - 1) with (len past) by lia. rewrite at_index_middle. done.
  - rewrite Henv, at_index_snoc. simpl. done.
Qed.

Lemma inside_row c past e grp after j :
  inside c past e grp after j → j + 1 < len (Data e) →
  Next_body c = Some (inr (cfm_move c (len past) (j + 1), true)).
Proof.
  intros (Henv & Hei & Hname & Hmi & Hj & Hne & Hgrp & Hafter) Hlt.
  unfold Next_body. rewrite Hei, Henv, Hmi, at_index_middle. simpl.
  destruct (Z.ltb_spec (len past) 0); [lia|]. simpl.
  destruct (Z.leb_spec (len (Data e)) (j + 1)); [lia|]. simpl.
  rewrite Hei, Hmi, Henv, at_index_middle. simpl.
  destruct (Z.ltb_spec (j + 1) (len (Data e))); [|lia]. done.
Qed.

Lemma inside_next_envelope c past e e' grp after j :
  inside c past e (e' :: grp) after j →
  inside (cfm_move c (len past + 1) 0) (past ++ [e]) e' grp after 0.
Proof.
  intros (Henv & Hei & Hname & Hmi & Hj & Hne & Hgrp & Hafter).
  apply Forall_cons in Hgrp as [He' Hgrp].
  unfold inside. simpl. rewrite Henv, <-app_assoc, length_app, Hname, He'. simpl.
  split_and!; try done; lia.
Qed.

(** The result of a [Next] that has the positions [l] of the run [e :: grp] still to return. *)
Definition next_result (r : outcome (copyFromMeasurements * bool))
    (past : list MeasurementEnvelope) (e : MeasurementEnvelope)
    (grp after : list MeasurementEnvelope) (l : list (MeasurementEnvelope * nat)) : Prop :=
  match l with
  | [] => ∃ c', r = Returns (c', false) ∧ finished c' (past ++ e :: grp) after
  | (e', i) :: l' =>
      ∃ c' past' grp', r = Returns (c', true) ∧
        inside c' past' e' grp' after (Z.of_nat i) ∧ (i < length (Data e'))%nat ∧
        todo e' grp' (Z.of_nat i) = l' ∧ past' ++ e' :: grp' = past ++ e :: grp ∧
        MetricName e' = MetricName e
  end.

Lemma next_result_conv r past e grp past' e' grp' after l :
  past' ++ e' :: grp' = past ++ e :: grp → MetricName e' = MetricName e →
  next_result r past' e' grp' after l → next_result r past e grp after l.
Proof. intros Heq He. unfold next_result. by rewrite Heq, He. Qed.

(** [Next] from inside a run: it returns the next row of the run, or reports its end. *)
Lemma Next_loop_inside fuel c past e grp after j :
  inside c past e grp after j → (length grp + 1 < fuel)%nat →
  next_result (Next_loop fuel c) past e grp after (todo e grp j).
Proof.
  revert fuel c past e j. induction grp as [|e1 grp IH]; intros fuel c past e j Hin Hf;
    (destruct fuel as [|fuel]; [simpl in Hf; lia|]); pose proof Hin as Hin';
    destruct Hin' as (Henv & Hei & Hname & Hmi & Hj & Hne & Hgrp & Hafter);
    (destruct (decide (j + 1 < len (Data e))) as [Hlt|Hge];
     [ rewrite (todo_row e) by done; simpl; rewrite (inside_row _ _ _ _ _ _ Hin Hlt);
       eexists _, past, _; split_and!; [done| |lia| |done|done];
         [unfold inside; simpl; split_and!; try done; lia|f_equal; lia]
     | rewrite todo_done by lia; simpl; rewrite (inside_advance _ _ _ _ _ _ Hin) by lia; simpl ]).
  - destruct after as [|e' after]; simpl.
    + eexists. split; [done|]. unfold finished. simpl. rewrite Henv, length_app. simpl.
      split; [done|lia].
    + rewrite bool_decide_eq_true_2 by (specialize (Hafter e' eq_refl); congruence).
      eexists. split; [done|]. unfold finished, boundary. simpl.
      rewrite Henv, <-app_assoc, length_app. simpl. split_and!; [done|lia|done|].
      intros e0. rewrite last_snoc. intros [= <-]. lia.
  - pose proof (inside_next_envelope _ _ _ _ _ _ _ Hin) as Hnext.
    apply Forall_cons in Hgrp as [He1 Hgrp].
    rewrite bool_decide_eq_false_2 by (rewrite He1; tauto).
    apply (next_result_conv _ _ _ _ (past ++ [e]) e1 grp); [by rewrite <-app_assoc|done|].
    destruct (Z.ltb_spec 0 (len (Data e1))).
    + rewrite (todo_row e1) by lia.
      eexists _, _, _. split_and!; [done|exact Hnext|simpl; lia|done|done|done].
    + specialize (IH fuel _ _ _ _ Hnext ltac:(simpl in Hf; lia)).
      rewrite todo_done by lia. rewrite todo_done in IH by lia. exact IH.
Qed.

(** [Next] from a boundary enters the next run. *)
Lemma Next_body_boundary c past e rest :
  boundary c past (e :: rest) →
  Next_body c =
    (let c' := cfm_rename (cfm_move c (len past) 0) (MetricName e) in
     if (0 <? len (Data e)) then Some (inr (c', true)) else Some (inl c')).
Proof.
  intros (Henv & Hei & Hname & Hlast). unfold Next_body.
  assert ((if (cfm_envelopeIdx c <? 0) then Some true
           else e0 ← at_index (cfm_envelopes c) (cfm_envelopeIdx c);
                Some (len (Data e0) <=? cfm_measurementIdx c + 1)) = Some true) as ->.
  { destruct (Z.ltb_spec (cfm_envelopeIdx c) 0); [done|].
    destruct past as [|p past] using rev_ind; [simpl in *; lia|]. clear IHpast.
    rewrite Henv, <-app_assoc. simpl. rewrite Hei, length_app. simpl.
    replace (Z.of_nat (length past + 1) - 1) with (len past) by lia.
    rewrite at_index_middle. simpl. f_equal. apply Z.leb_le, Hlast. by rewrite last_snoc. }
  simpl. unfold Next_advance, NextEnvelope. simpl. rewrite Hei, Henv, Hname, length_app. simpl.
  replace (len past - 1 + 1) with (len past) by lia.
  destruct (Z.ltb_spec (len past) (Z.of_nat (length past + S (length rest)))); [|lia].
  rewrite at_index_middle. simpl. rewrite Henv, at_index_middle. simpl. done.
Qed.

Lemma Next_boundary c past e grp after :
  boundary c past (e :: grp ++ after) → MetricName e ≠ "" →
  Forall (λ e', MetricName e' = MetricName e) grp →
  (∀ e', head after = Some e' → MetricName e' ≠ MetricName e) →
  next_result (Next c) past e grp after (todo e grp (-1)).
Proof.
  intros Hb Hne Hgrp Hafter.
  assert (inside (cfm_rename (cfm_move c (len past) 0) (MetricName e)) past e grp after 0) as Hin.
  { destruct Hb as (Henv & _). unfold inside; simpl. split_and!; done || lia. }
  assert (length grp < length (cfm_envelopes c))%nat as Hlen.
  { destruct Hb as (-> & _). rewrite length_app. simpl. rewrite length_app. lia. }
  unfold Next. cbn [Next_loop]. rewrite (Next_body_boundary _ _ _ _ Hb). simpl.
  destruct (Z.ltb_spec 0 (len (Data e))).
  - rewrite todo_row by lia. eexists _, past, grp.
    split_and!; [done|exact Hin|simpl; lia|done|done|done].
  - pose proof (Next_loop_inside _ _ _ _ _ _ _ Hin
      (ltac:(lia) : (length grp + 1 < S (length (cfm_envelopes c)))%nat)) as Hnext.
    rewrite todo_done by lia. rewrite todo_done in Hnext by lia. exact Hnext.
Qed.

Lemma Next_inside c past e grp after j :
  inside c past e grp after j →
  next_result (Next c) past e grp after (todo e grp j).
Proof.
  intros Hin. apply Next_loop_inside; [done|].
  destruct Hin as (-> & _). rewrite length_app. simpl. rewrite length_app. lia.
Qed.

(** The leading run of a metric. *)
Lemma split_run (name : string) (es : list MeasurementEnvelope) :
  ∃ grp after, es = grp ++ after ∧ Forall (λ e', MetricName e' = name) grp ∧
    (∀ e', head after = Some e' → MetricName e' ≠ name) ∧ skip_same name es = len grp.
Proof.
  induction es as [|e es (grp & after & -> & Hg & Ha & Hs)].
  { exists [], []. by split_and!. }
  simpl. case_bool_decide as Hn.
  - exists (e :: grp), after. split_and!; [done|by constructor|done|]. rewrite Hs. simpl. lia.
  - exists [], (e :: grp ++ after). split_and!; [done|done| |done]. by intros e' [= <-].
Qed.

Lemma skip_same_run name grp after :
  Forall (λ e', MetricName e' = name) grp →
  (∀ e', head after = Some e' → MetricName e' ≠ name) →
  skip_same name (grp ++ after) = len grp.
Proof.
  intros Hg Ha. induction Hg as [|e grp He Hg IH]; simpl.
  - destruct after as [|a after]; [done|]. simpl. rewrite bool_decide_eq_false_2; eauto.
  - rewrite bool_decide_eq_true_2 by done. rewrite IH. lia.
Qed.

(** ** What is left after a failed COPY *)

(** The states a consumer can leave the source in while reading the run [e :: grp]. *)
Definition reading (c : copyFromMeasurements) (past : list MeasurementEnvelope)
    (e : MeasurementEnvelope) (grp after : list MeasurementEnvelope) : Prop :=
  boundary c past (e :: grp ++ after) ∨
  (∃ past' e' grp' j, inside c past' e' grp' after j ∧
     past' ++ e' :: grp' = past ++ e :: grp ∧ MetricName e' = MetricName e) ∨
  finished c (past ++ e :: grp) after.

Lemma SkipMetric_at c name (pre grp after : list MeasurementEnvelope) :
  cfm_envelopes c = pre ++ grp ++ after → cfm_envelopeIdx c = len pre - 1 →
  Forall (λ e', MetricName e' = name) grp →
  (∀ e', head after = Some e' → MetricName e' ≠ name) → pre ++ grp ≠ [] →
  ∃ c', SkipMetric c [name] = Some c' ∧ finished c' (pre ++ grp) after.
Proof.
  intros Henv Hei Hg Ha Hnn. unfold SkipMetric.
  replace (Z.to_nat (cfm_envelopeIdx c + 1)) with (length pre) by lia.
  rewrite Henv, drop_app_length, skip_same_run by done.
  rewrite Hei, !length_app.
  destruct after as [|a after]; simpl.
  - destruct (Z.leb_spec (Z.of_nat (length pre + (length grp + 0)))
                (len pre - 1 + len grp + 1)); [|lia].
    simpl. eexists. split; [done|]. unfold finished. simpl.
    rewrite Henv, app_nil_r, length_app. split; [done|lia].
  - destruct (Z.leb_spec (Z.of_nat (length pre + (length grp + S (length after))))
                (len pre - 1 + len grp + 1)); [lia|].
    destruct (pre ++ grp) as [|x l _] eqn:Hl using rev_ind; [done|].
    assert (len pre - 1 + len grp = len l) as ->.
    { apply (f_equal length) in Hl. rewrite !length_app in Hl. simpl in Hl. lia. }
    rewrite app_assoc, Hl, <-app_assoc. simpl. rewrite at_index_middle. simpl.
    eexists. split; [done|]. unfold finished, boundary. simpl.
    rewrite Henv, app_assoc, Hl, length_app. simpl.
    split_and!; [done|lia|done|]. intros y. rewrite last_snoc. intros [= <-]. lia.
Qed.

(** However far a failed [COPY] has read, [SkipMetric] moves to the end of the metric's run. *)
Lemma SkipMetric_reading c past e grp after :
  reading c past e grp after →
  Forall (λ e', MetricName e' = MetricName e) grp →
  (∀ e', head after = Some e' → MetricName e' ≠ MetricName e) →
  ∃ c', SkipMetric c [MetricName e] = Some c' ∧ finished c' (past ++ e :: grp) after.
Proof.
  intros [Hb|[(past' & e' & grp' & j & Hin & Heq & He')|Hfin]] Hg Ha.
  - destruct Hb as (Henv & Hei & _).
    apply SkipMetric_at; [done|done|by constructor|done|by destruct past].
  - destruct Hin as (Henv & Hei & _ & _ & _ & _ & Hg' & Ha').
    rewrite <-Heq. replace (past' ++ e' :: grp') with ((past' ++ [e']) ++ grp') by (by rewrite <-app_assoc).
    apply SkipMetric_at; [by rewrite <-app_assoc|rewrite length_app; simpl; lia|..]; rewrite <-?He'; try done.
    by destruct past'.
  - unfold finished in Hfin. destruct after as [|a after].
    + destruct Hfin as [Henv Hei]. unfold SkipMetric.
      rewrite drop_ge by (rewrite Henv; lia). simpl.
      destruct (Z.leb_spec (len (cfm_envelopes c)) (cfm_envelopeIdx c + 0 + 1)); [|rewrite Henv in *; lia].
      simpl. eexists. split; [done|]. unfold finished. simpl. by rewrite Henv.
    + destruct Hfin as (Henv & Hei & _).
      destruct (SkipMetric_at c (MetricName e) (past ++ e :: grp) [] (a :: after))
        as (c' & Hs & Hf); [done|done|done|done| |].
      { rewrite app_nil_r. by destruct past. }
      exists c'. split; [done|]. by rewrite app_nil_r in Hf.
Qed.

(** ** Reading a run *)

(** The run [e :: grp] is a maximal run of one named metric. *)
Definition maximal_run (e : MeasurementEnvelope) (grp after : list MeasurementEnvelope) : Prop :=
  MetricName e ≠ "" ∧ Forall (λ e', MetricName e' = MetricName e) grp ∧
  (∀ e', head after = Some e' → MetricName e' ≠ MetricName e).

(** The source has the positions [l] of the run left. *)
Definition ready (c : copyFromMeasurements) (past : list MeasurementEnvelope)
    (e : MeasurementEnvelope) (grp after : list MeasurementEnvelope)
    (l : list (MeasurementEnvelope * nat)) : Prop :=
  (boundary c past (e :: grp ++ after) ∧ l = todo e grp (-1)) ∨
  (∃ past' e' grp' j, inside c past' e' grp' after j ∧
     past' ++ e' :: grp' = past ++ e :: grp ∧ MetricName e' = MetricName e ∧ l = todo e' grp' j).

Lemma ready_reading c past e grp after l :
  ready c past e grp after l → reading c past e grp after.
Proof. intros [[? ?]|(? & ? & ? & ? & ? & ? & ? & ?)]; [by left|right; left; eauto 10]. Qed.

Lemma Next_ready c past e grp after l :
  maximal_run e grp after → ready c past e grp after l →
  next_result (Next c) past e grp after l.
Proof.
  intros (Hne & Hg & Ha) [[Hb ->]|(past' & e' & grp' & j & Hin & Heq & He & ->)].
  - by apply Next_boundary.
  - apply (next_result_conv _ _ _ _ past' e' grp'); [done..|]. by apply Next_inside.
Qed.

(** ** Rows *)

Record pgrow := {
  row_time : Z;
  row_dbname : string;
  row_data : string;
  row_tag_data : string;
}.

Section tags.
(** The printing of floats. *)
Context (fmt_float : value → string).

(** Move the [tag_] columns of a row to its tags. *)
Definition move_tag (acc : Measurement * gmap string string) (kv : string * value)
    : Measurement * gmap string string :=
  match cut_prefix TagPrefix kv.1 with
  | Some after => (delete kv.1 acc.1, <[after := fmt_v fmt_float kv.2]> acc.2)
  | None => acc
  end.

Definition split_tags (ro : range_order) (row : Measurement) (tagRow : gmap string string)
    : Measurement * gmap string string :=
  foldl move_tag (row, tagRow) (range ro row).

Lemma split_tags_fold (l : list (string * value)) (row0 : Measurement) (tags0 : gmap string string) :
  NoDup l.*1 →
  let res := foldl move_tag (row0, tags0) l in
  (∀ k, res.1 !! k =
     if decide (k ∈ l.*1 ∧ is_Some (cut_prefix TagPrefix k)) then None else row0 !! k) ∧
  (∀ t, res.2 !! t =
     match (list_to_map l : Measurement) !! (TagPrefix +:+ t) with
     | Some v => Some (fmt_v fmt_float v)
     | None => tags0 !! t
     end).
Proof.
  revert row0 tags0. induction l as [|[k v] l IH]; intros row0 tags0 Hnd.
  { split; [done|]. intros t. simpl. by rewrite lookup_empty. }
  rewrite fmap_cons in Hnd |- *. cbn [foldl]. rewrite list_to_map_cons. simpl fst in *.
  apply NoDup_cons in Hnd as [Hk Hnd].
  assert (move_tag (row0, tags0) (k, v) =
    match cut_prefix TagPrefix k with
    | Some after => (delete k row0, <[after := fmt_v fmt_float v]> tags0)
    | None => (row0, tags0)
    end) as -> by done.
  destruct (cut_prefix TagPrefix k) as [t0|] eqn:Et.
  - destruct (IH (delete k row0) (<[t0 := fmt_v fmt_float v]> tags0) Hnd) as [IH1 IH2].
    apply cut_prefix_Some in Et as ->. split.
    + intros k'. rewrite IH1.
      destruct (decide (k' = TagPrefix +:+ t0)) as [->|Hne].
      * rewrite cut_prefix_app, lookup_delete_eq.
        repeat case_decide; try done;
          match goal with Hn : ¬ (_ ∈ _ :: _ ∧ _) |- _ =>
            destruct Hn; split; [by left|by eauto] end.
      * rewrite lookup_delete_ne by done. apply decide_ext. rewrite elem_of_cons. naive_solver.
    + intros t. rewrite IH2. destruct (decide (t = t0)) as [->|Hne].
      * rewrite not_elem_of_list_to_map_1 by done. by rewrite !lookup_insert_eq.
      * rewrite !lookup_insert_ne; [done| |done]. by intros ?%string_app_inj_l.
  - destruct (IH row0 tags0 Hnd) as [IH1 IH2]. split.
    + intros k'. rewrite IH1. apply decide_ext. rewrite elem_of_cons. split; [naive_solver|].
      intros [[->|?] [? ?]]; [congruence|eauto].
    + intros t. rewrite IH2. rewrite lookup_insert_ne; [done|].
      intros ->. by rewrite cut_prefix_app in Et.
Qed.

(** [Values] keeps the columns without the tag prefix as data and adds the others, stripped of
    the prefix and printed, to the custom tags, whatever order the map is walked in. *)
Lemma split_tags_lookup ro row tags :
  (∀ k, (split_tags ro row tags).1 !! k =
     if decide (is_Some (cut_prefix TagPrefix k)) then None else row !! k) ∧
  (∀ t, (split_tags ro row tags).2 !! t =
     match row !! (TagPrefix +:+ t) with
     | Some v => Some (fmt_v fmt_float v)
     | None => tags !! t
     end).
Proof.
  unfold split_tags.
  destruct (split_tags_fold (range ro row) row tags) as [H1 H2].
  { apply NoDup_range_keys. }
  split.
  - intros k. rewrite H1. rewrite elem_of_range_keys || idtac.
    assert (k ∈ (range ro row).*1 ↔ is_Some (row !! k)) as Hk by apply elem_of_range_keys.
    repeat case_decide; try naive_solver.
    destruct (row !! k) eqn:E; [naive_solver|done].
  - intros t. rewrite H2. rewrite (list_to_map_proper _ (map_to_list row)).
    + by rewrite list_to_map_to_list.
    + apply NoDup_range_keys.
    + apply range_perm.
Qed.

Lemma split_tags_order ro1 ro2 row tags : split_tags ro1 row tags = split_tags ro2 row tags.
Proof.
  destruct (split_tags_lookup ro1 row tags) as [H1 H2].
  destruct (split_tags_lookup ro2 row tags) as [H3 H4].
  destruct (split_tags ro1 row tags), (split_tags ro2 row tags). simpl in *.
  f_equal; apply map_eq; intros; [by rewrite H1, H3|by rewrite H2, H4].
Qed.

End tags.

Section row_source.
(** The printing of floats, and the JSON encoder for the two kinds of maps. *)
Context (fmt_float : value → string).
Context (marshal_tags : gmap string string → result string).
Context (marshal_row : Measurement → result string).

(** [Values]: the row at the current position.  Reading the epoch of the envelope may write it
    into the envelope's first row. *)
Definition Values (ro : range_order) (now : Z) (c : copyFromMeasurements)
    : option (copyFromMeasurements * result pgrow) :=
  e ← at_index (cfm_envelopes c) (cfm_envelopeIdx c);
  row ← at_index (Data e) (cfm_measurementIdx c);
  let '(row, tagRow) := split_tags fmt_float ro row (default ∅ (CustomTags e)) in
  match marshal_row row, marshal_tags tagRow with
  | Ok json, Ok jsonTags =>
      let '(epoch, data) := GetEpoch now (Data e) in
      let e' := {| DBName := DBName e; MetricName := MetricName e; SourceKind := SourceKind e;
                   CustomTags := CustomTags e; Data := data |} in
      Some ({| cfm_envelopes := <[Z.to_nat (cfm_envelopeIdx c) := e']> (cfm_envelopes c);
               cfm_envelopeIdx := cfm_envelopeIdx c;
               cfm_measurementIdx := cfm_measurementIdx c;
               cfm_metricName := cfm_metricName c; cfm_err := cfm_err c |},
            Ok {| row_time := time_Unix0 epoch; row_dbname := DBName e;
                  row_data := json; row_tag_data := jsonTags |})
  | rj, rt =>
      let err := match rj with Ok _ => None | Err e => Some e end in
      let terr := match rt with Ok _ => None | Err e => Some e end in
      let joined := default (ErrorString "") (errors_Join [err; terr]) in
      Some (cfm_set_err c (Some joined), Err joined)
  end.

(** How a consumer of a [pgx.CopyFromSource] may drive it: some calls of [Next] and [Values],
    ended ([true]) by a [Next] that returns false, or abandoned earlier ([false]). *)
Inductive pulls : copyFromMeasurements → list pgrow → copyFromMeasurements → bool → Prop :=
  | pulls_stop c : pulls c [] c false
  | pulls_end c c' : Next c = Returns (c', false) → pulls c [] c' true
  | pulls_row c c1 ro now c2 row rows c' fin :
      Next c = Returns (c1, true) → Values ro now c1 = Some (c2, Ok row) →
      pulls c2 rows c' fin → pulls c (row :: rows) c' fin
  | pulls_bad c c1 ro now c2 e :
      Next c = Returns (c1, true) → Values ro now c1 = Some (c2, Err e) →
      pulls c [] c2 false.

(** The row stored for position [i] of an envelope whose epoch is set. *)
Definition row_at (p : MeasurementEnvelope * nat) : result pgrow :=
  let '(e, i) := p in
  match Data e !! i with
  | None => Err (ErrorString "index out of range")
  | Some row =>
      let '(row, tagRow) := split_tags fmt_float tree_order row (default ∅ (CustomTags e)) in
      match marshal_row row, marshal_tags tagRow with
      | Ok json, Ok jsonTags =>
          Ok {| row_time := time_Unix0 (GetEpoch 0 (Data e)).1; row_dbname := DBName e;
                row_data := json; row_tag_data := jsonTags |}
      | rj, rt =>
          Err (default (ErrorString "") (errors_Join
            [match rj with Ok _ => None | Err e => Some e end;
             match rt with Ok _ => None | Err e => Some e end]))
      end
  end.

Lemma Values_inside ro now c past e grp after (i : nat) :
  inside c past e grp after (Z.of_nat i) → (i < length (Data e))%nat → epoch_set (Data e) →
  Values ro now c =
    Some (match row_at (e, i) with Ok _ => c | Err err => cfm_set_err c (Some err) end,
          row_at (e, i)).
Proof.
  intros (Henv & Hei & Hname & Hmi & _) Hi Hep. unfold Values, row_at.
  rewrite Hei, Henv, at_index_middle. simpl. rewrite Hmi, at_index_Some.
  destruct (lookup_lt_is_Some_2 _ _ Hi) as [row Hrow]. rewrite Hrow. simpl.
  rewrite (split_tags_order fmt_float ro tree_order).
  destruct (split_tags fmt_float tree_order row (default ∅ (CustomTags e))) as [row' tagRow].
  destruct (marshal_row row') as [json|e1], (marshal_tags tagRow) as [jt|e2]; [|done..].
  rewrite (GetEpoch_now now 0) by done. pose proof (GetEpoch_id 0 _ Hep) as Hid.
  destruct (GetEpoch 0 (Data e)) as [epoch data]. simpl in Hid |- *. subst data.
  rewrite Nat2Z.id. do 3 f_equal. destruct c as [envs ei mi nm er]; simpl in *.
  subst envs ei mi. f_equal. destruct e; simpl. apply list_insert_id. by apply list_lookup_middle.
Qed.

(** A consumer that reads a run to its end has received all of its rows, in order, and leaves
    the source ready for the next run; one that stops earlier leaves it inside the run. *)
Lemma pulls_run c rows c' fin past e grp after l :
  pulls c rows c' fin → maximal_run e grp after → ready c past e grp after l →
  Forall (λ e, Data e = [] ∨ epoch_set (Data e)) (past ++ e :: grp) →
  if fin then finished c' (past ++ e :: grp) after ∧ Forall2 (λ p r, row_at p = Ok r) l rows
  else reading c' past e grp after.
Proof.
  intros Hp Hrun Hl Hep. revert l Hl.
  induction Hp as [c|c c' Hn|c c1 ro now c2 row rows c' fin Hn Hv Hp IH|c c1 ro now c2 err Hn Hv];
    intros l Hl.
  - by eapply ready_reading.
  - pose proof (Next_ready _ _ _ _ _ _ Hrun Hl) as Hr. rewrite Hn in Hr.
    destruct l as [|[e' i] l]; simpl in Hr.
    + destruct Hr as (c'' & [= <-] & Hf). split; [done|constructor].
    + destruct Hr as (? & ? & ? & ? & _). done.
  - pose proof (Next_ready _ _ _ _ _ _ Hrun Hl) as Hr. rewrite Hn in Hr.
    destruct l as [|[e' i] l]; simpl in Hr; [destruct Hr as (? & ? & _); done|].
    destruct Hr as (c'' & past' & grp' & [= <-] & Hin & Hi & Htodo & Heq & He').
    rewrite (Values_inside ro now _ _ _ _ _ _ Hin Hi) in Hv.
    2: { rewrite Forall_forall in Hep. destruct (Hep e') as [Hd|?]; [|rewrite Hd in Hi; simpl in Hi; lia|done].
         rewrite <-Heq, elem_of_app, elem_of_cons. by right; left. }
    destruct (row_at (e', i)) as [r|err] eqn:Er; [|done]. injection Hv as <- <-.
    assert (ready c1 past e grp after l) as Hl' by (right; eauto 10).
    specialize (IH l Hl'). destruct fin; [|done]. destruct IH as [Hf Hrows].
    split; [done|]. by constructor.
  - pose proof (Next_ready _ _ _ _ _ _ Hrun Hl) as Hr. rewrite Hn in Hr.
    destruct l as [|[e' i] l]; simpl in Hr; [destruct Hr as (? & ? & _); done|].
    destruct Hr as (c'' & past' & grp' & [= <-] & Hin & Hi & Htodo & Heq & He').
    rewrite (Values_inside ro now _ _ _ _ _ _ Hin Hi) in Hv.
    2: { rewrite Forall_forall in Hep. destruct (Hep e') as [Hd|?]; [|rewrite Hd in Hi; simpl in Hi; lia|done].
         rewrite <-Heq, elem_of_app, elem_of_cons. by right; left. }
    destruct (row_at (e', i)) as [r|err'] eqn:Er; [done|]. injection Hv as <- <-.
    right; left. exists past', e', grp', (Z.of_nat i). split_and!; done.
Qed.

End row_source.

(** ** Reading a whole batch *)

(** The row the source stands at. *)
Definition current (c : copyFromMeasurements) : option (MeasurementEnvelope * nat) :=
  e ← at_index (cfm_envelopes c) (cfm_envelopeIdx c); Some (e, Z.to_nat (cfm_measurementIdx c)).

(** A consumer that calls [Next] until the end of the batch, over the ends of the metrics. *)
Fixpoint consume (fuel : nat) (c : copyFromMeasurements) : outcome (list (option (MeasurementEnvelope * nat))) :=
  if EOF c then Returns []
  else
    match fuel with
    | O => NoFuel
    | S fuel =>
        match Next c with
        | Panics => Panics
        | NoFuel => NoFuel
        | Returns (c, false) => consume fuel c
        | Returns (c, true) =>
            match consume fuel c with
            | Returns l => Returns (current c :: l)
            | Panics => Panics
            | NoFuel => NoFuel
            end
        end
    end.

Lemma not_EOF c past e rest n : cfm_envelopes c = past ++ e :: rest → cfm_envelopeIdx c = n → n ≤ len past → EOF c = false.
Proof. intros He Hn Hl. unfold EOF. rewrite He, Hn, length_app. simpl. apply Z.leb_gt. lia. Qed.

Lemma ready_not_EOF c past e grp after l : ready c past e grp after l → EOF c = false.
Proof.
  intros [[(He & Hi & _) _]|(past' & e' & grp' & j & (He & Hi & _) & _)].
  - eapply not_EOF; [exact He|exact Hi|lia].
  - eapply not_EOF; [exact He|exact Hi|lia].
Qed.

(** Reading one metric: its rows, and then what follows. *)
Lemma consume_run fuel c past e grp after l :
  maximal_run e grp after → ready c past e grp after l → (length l < fuel)%nat →
  ∃ c', finished c' (past ++ e :: grp) after ∧
    consume fuel c = match consume (fuel - S (length l)) c' with
                     | Returns ps => Returns ((Some <$> l) ++ ps) | o => o end.
Proof.
  intros Hrun. revert fuel c. induction l as [|[e' i] l IH]; intros fuel c Hl Hf;
    (destruct fuel as [|fuel]; [simpl in Hf; lia|]); pose proof (Next_ready _ _ _ _ _ _ Hrun Hl) as Hr;
    cbn [consume]; rewrite (ready_not_EOF _ _ _ _ _ _ Hl); simpl in Hr.
  - destruct Hr as (c' & -> & Hfin). exists c'. split; [done|]. simpl. rewrite Nat.sub_0_r. by destruct (consume fuel c').
  - destruct Hr as (c1 & past' & grp' & -> & Hin & Hi & Htodo & Heq & He').
    destruct (IH fuel c1) as (c' & Hfin & ->); [right; eauto 10|simpl in Hf; lia|]. exists c'. split; [done|].
    assert (current c1 = Some (e', i)) as ->.
    { destruct Hin as (Henv & Hei & _ & Hmi & _). unfold current. rewrite Hei, Henv, at_index_middle. simpl.
      by rewrite Hmi, Nat2Z.id. }
    simpl. by destruct (consume _ c').
Qed.

(** C5.  Whatever the batch of named envelopes, empty ones among them, a consumer that calls [Next] until
    [EOF] terminates without an index error, and is given every row of every envelope exactly once, in
    order; the number of calls is at most the number of rows and of envelopes. *)
Theorem consume_batch es fuel :
  es ≠ [] → Forall (λ e, MetricName e ≠ "") es →
  (length (concat (positions <$> es)) + length es ≤ fuel)%nat →
  consume fuel (newCopyFromMeasurements es) = Returns (Some <$> concat (positions <$> es)).
Proof.
  intros Hes Hn Hf.
  assert (∀ n past rest c fuel, (length rest ≤ n)%nat → rest ≠ [] → Forall (λ e, MetricName e ≠ "") rest →
    boundary c past rest → (length (concat (positions <$> rest)) + length rest ≤ fuel)%nat →
    consume fuel c = Returns (Some <$> concat (positions <$> rest))) as H.
  2:{ apply (H (length es) [] es); [done..| |done]. unfold boundary. simpl. split_and!; done. }
  clear es Hes Hn fuel Hf. induction n as [|n IH]; intros past rest c fuel Hlen Hne Hn Hb Hf; (destruct rest as [|e rest]; [done|]);
    [simpl in Hlen; lia|].
  apply Forall_cons in Hn as [He Hn]. destruct (split_run (MetricName e) rest) as (grp & after & -> & Hg & Ha & _).
  simpl in Hf, Hlen. rewrite fmap_app, concat_app, !length_app in Hf. rewrite length_app in Hlen.
  assert (todo e grp (-1) = positions e ++ concat (positions <$> grp)) as Htodo by done.
  destruct (consume_run fuel c past e grp after (todo e grp (-1))) as (c' & Hfin & ->);
    [done|by left|rewrite Htodo, length_app; lia|].
  assert (concat (positions <$> (e :: grp ++ after)) = todo e grp (-1) ++ concat (positions <$> after)) as ->.
  { rewrite Htodo. simpl. by rewrite fmap_app, concat_app, app_assoc. }
  rewrite fmap_app. destruct after as [|a after].
  - destruct Hfin as [Henv Hei]. assert (EOF c' = true) as Heof by (unfold EOF; rewrite Henv, Hei; apply Z.leb_refl).
    destruct (fuel - S _)%nat; simpl; by rewrite Heof.
  - apply Forall_app in Hn as [_ Hn]. rewrite (IH (past ++ e :: grp) (a :: after) c'); [done|simpl in *; lia|done|done|done|].
    rewrite Htodo, length_app. lia.
Qed.

Lemma consume_batch_witness :
  let es := [{| DBName := "a"; MetricName := "m"; SourceKind := ""; CustomTags := None; Data := [∅; ∅] |};
             {| DBName := "b"; MetricName := "m"; SourceKind := ""; CustomTags := None; Data := [] |};
             {| DBName := "a"; MetricName := "n"; SourceKind := ""; CustomTags := None; Data := [∅] |}] in
  consume 6 (newCopyFromMeasurements es) = Returns (Some <$> concat (positions <$> es)).
Proof. apply consume_batch; [done|repeat constructor; done|vm_compute; lia]. Defined.
