(* ===== verification/PgSink.v ===== *)
(** * The PostgreSQL sink ([internal/sinks/postgres.go])

    [PostgresWriter] buffers envelopes ([Write], [poll]), and [flush] stores a batch: it sorts
    the batch by metric, makes sure the time partitions exist, and feeds one [COPY] per metric
    from the iterator [copyFromMeasurements].  The database driver (pgx) and the JSON encoder
    are parameters; what the code relies on is stated in the classes [SinkDB] and [SinkDBLaws].

    The theorems show that a flush always terminates without an index error, that each metric's
    rows are stored exactly once, in its own table and nowhere else, that a failed [COPY] loses
    the rows of that metric only, that the requested partitions cover the batch, and that
    batching loses no envelope. *)

From S2P Require Import Prelude GoStrings Metrics Sinks CopySource.
From stdpp Require Import options.

Local Open Scope Z_scope.

(** ** Types *)

Record ExistingPartitionInfo := { StartTime : Z; EndTime : Z }.

Inductive DbStorageSchemaType := DbStorageSchemaPostgres | DbStorageSchemaTimescale.

Record PostgresWriter (DB : Type) := {
  sinkDb : DB;
  metricSchema : DbStorageSchemaType;
  forceRecreatePartitions : bool;
  partitionMapMetric : gmap string ExistingPartitionInfo;
}.
Arguments sinkDb {DB}.
Arguments metricSchema {DB}.
Arguments forceRecreatePartitions {DB}.
Arguments partitionMapMetric {DB}.

(** ** The database *)

(** The operations the writer uses of its connection. *)
Class SinkDB (DB : Type) := {
  db_table : DB → string → list pgrow;
  db_has_partition : DB → string → Z → Prop;
  CopyFrom : DB → list string → copyFromMeasurements →
    DB * copyFromMeasurements * option error;
  ensure_partition_metric_time : DB → string → Z → DB * result ExistingPartitionInfo;
  ensure_partition_timescale : DB → string → DB * option error;
  ensure_dummy_metrics_table : DB → string → DB * option error;
  insert_distinct_dbname_metric : DB → string → string → DB * option error;
}.

(** What the writer relies on: a [COPY] that succeeds has read the source to its end and
    appended its rows to the table, one that fails has stored nothing; the administrative
    functions do not touch stored rows; [admin.ensure_partition_metric_time] returns the bounds
    of a partition the given time fits in, and drops none. *)
Class SinkDBLaws (fmt_float : value → string)
    (marshal_tags : gmap string string → result string)
    (marshal_row : Measurement → result string) (DB : Type) `{SinkDB DB} := {
  CopyFrom_ok db name c db' c' :
    CopyFrom db [name] c = (db', c', None) →
    ∃ rows, pulls fmt_float marshal_tags marshal_row c rows c' true ∧ db_table db' name = db_table db name ++ rows ∧
            ∀ other, other ≠ name → db_table db' other = db_table db other;
  CopyFrom_err db name c db' c' e :
    CopyFrom db [name] c = (db', c', Some e) →
    (∃ rows fin, pulls fmt_float marshal_tags marshal_row c rows c' fin) ∧ ∀ other, db_table db' other = db_table db other;
  ensure_time_rows db name t other :
    db_table (ensure_partition_metric_time db name t).1 other = db_table db other;
  ensure_timescale_rows db name other :
    db_table (ensure_partition_timescale db name).1 other = db_table db other;
  ensure_time_covers db name t db' pi :
    ensure_partition_metric_time db name t = (db', Ok pi) →
    StartTime pi ≤ t < EndTime pi ∧ ∀ u, StartTime pi ≤ u < EndTime pi → db_has_partition db' name u;
  ensure_time_keeps db name t other u :
    db_has_partition db other u →
    db_has_partition (ensure_partition_metric_time db name t).1 other u;
}.

(** ** The writer *)

Section pg_sink.
Context {DB : Type} `{SinkDB DB}.

Definition with_db (pgw : PostgresWriter DB) (db : DB) : PostgresWriter DB :=
  {| sinkDb := db; metricSchema := metricSchema pgw;
     forceRecreatePartitions := forceRecreatePartitions pgw;
     partitionMapMetric := partitionMapMetric pgw |}.
Definition with_force (pgw : PostgresWriter DB) (b : bool) : PostgresWriter DB :=
  {| sinkDb := sinkDb pgw; metricSchema := metricSchema pgw; forceRecreatePartitions := b;
     partitionMapMetric := partitionMapMetric pgw |}.
Definition with_part (pgw : PostgresWriter DB) (metric : string) (pi : ExistingPartitionInfo)
    : PostgresWriter DB :=
  {| sinkDb := sinkDb pgw; metricSchema := metricSchema pgw;
     forceRecreatePartitions := forceRecreatePartitions pgw;
     partitionMapMetric := <[metric := pi]> (partitionMapMetric pgw) |}.

(** *** Partitions *)

(** The loop of [flush] over the batch, which computes the time span per metric; the [i]-th
    envelope reads the clock [clk i] when it carries no epoch. *)
Definition extend_bounds (epochTime : Z) (name : string)
    (acc : gmap string ExistingPartitionInfo) : gmap string ExistingPartitionInfo :=
  let ok := bool_decide (is_Some (acc !! name)) in
  let bounds := default {| StartTime := zero_time; EndTime := zero_time |} (acc !! name) in
  let '(bounds, acc) :=
    if negb ok || (ok && time_Before epochTime (StartTime bounds)) then
      let bounds := {| StartTime := epochTime; EndTime := EndTime bounds |} in
      (bounds, <[name := bounds]> acc)
    else (bounds, acc) in
  if negb ok || (ok && time_After epochTime (EndTime bounds)) then
    <[name := {| StartTime := StartTime bounds; EndTime := epochTime |}]> acc
  else acc.

Fixpoint part_bounds (clk : nat → Z) (i : nat) (msgs : list MeasurementEnvelope)
    (acc : gmap string ExistingPartitionInfo)
    : gmap string ExistingPartitionInfo * list MeasurementEnvelope :=
  match msgs with
  | [] => (acc, [])
  | msg :: msgs' =>
      if bool_decide (Data msg = []) then
        let '(acc, rest) := part_bounds clk (S i) msgs' acc in (acc, msg :: rest)
      else
        let '(epoch, data) := GetEpoch (clk i) (Data msg) in
        let msg' := {| DBName := DBName msg; MetricName := MetricName msg;
                       SourceKind := SourceKind msg; CustomTags := CustomTags msg;
                       Data := data |} in
        let acc := extend_bounds (time_Unix0 epoch) (MetricName msg) acc in
        let '(acc, rest) := part_bounds clk (S i) msgs' acc in (acc, msg' :: rest)
  end.

Definition query_partition (pgw : PostgresWriter DB) (metric : string) (t : Z)
    : PostgresWriter DB * result ExistingPartitionInfo :=
  let '(db, r) := ensure_partition_metric_time (sinkDb pgw) metric t in
  let pgw := with_db pgw db in
  match r with
  | Ok pi => (with_part pgw metric pi, Ok pi)
  | Err e => (pgw, Err e)
  end.

(** One metric of [EnsureMetricTimePartsExist]. *)
Definition ensure_time_part (pgw : PostgresWriter DB) (metric : string) (pb : ExistingPartitionInfo)
    : PostgresWriter DB * option error :=
  if time_IsZero (StartTime pb) || time_IsZero (EndTime pb) then
    (pgw, Some (ErrorString "zero StartTime/EndTime in partitioning request"))
  else
    let ok := bool_decide (is_Some (partitionMapMetric pgw !! metric)) in
    let partInfo := default {| StartTime := zero_time; EndTime := zero_time |}
                      (partitionMapMetric pgw !! metric) in
    let '(pgw, r) :=
      if negb ok || time_Before (StartTime pb) (StartTime partInfo) || forceRecreatePartitions pgw
      then query_partition pgw metric (StartTime pb)
      else (pgw, Ok partInfo) in
    match r with
    | Err e => (pgw, Some e)
    | Ok partInfo =>
        if time_After (EndTime pb) (EndTime partInfo) || time_Equal (EndTime pb) (EndTime partInfo)
           || forceRecreatePartitions pgw
        then
          let '(pgw, r) := query_partition pgw metric (EndTime pb) in
          match r with Ok _ => (pgw, None) | Err e => (pgw, Some e) end
        else (pgw, None)
    end.

Fixpoint ensure_time_parts (pgw : PostgresWriter DB) (l : list (string * ExistingPartitionInfo))
    : PostgresWriter DB * option error :=
  match l with
  | [] => (pgw, None)
  | (metric, pb) :: l' =>
      let '(pgw, err) := ensure_time_part pgw metric pb in
      match err with
      | Some e => (pgw, Some e)
      | None => ensure_time_parts pgw l'
      end
  end.

Definition EnsureMetricTimePartsExist (ro : range_order) (pgw : PostgresWriter DB)
    (bounds : gmap string ExistingPartitionInfo) : PostgresWriter DB * option error :=
  ensure_time_parts pgw (range ro bounds).

Fixpoint ensure_timescale_parts (pgw : PostgresWriter DB) (metrics : list string)
    : PostgresWriter DB * option error :=
  match metrics with
  | [] => (pgw, None)
  | metric :: metrics' =>
      match partitionMapMetric pgw !! metric with
      | Some _ => ensure_timescale_parts pgw metrics'
      | None =>
          let '(db, err) := ensure_partition_timescale (sinkDb pgw) metric in
          let pgw := with_db pgw db in
          match err with
          | Some e => (pgw, Some e)
          | None => ensure_timescale_parts
              (with_part pgw metric {| StartTime := zero_time; EndTime := zero_time |}) metrics'
          end
      end
  end.

Definition EnsureMetricTimescale (ro : range_order) (pgw : PostgresWriter DB)
    (bounds : gmap string ExistingPartitionInfo) : PostgresWriter DB * option error :=
  ensure_timescale_parts pgw (range_keys ro bounds).

(** *** Storing a batch *)

Definition force_after (err : error) (force : bool) : bool :=
  match err with PgError code => bool_decide (code = "23514") | _ => force end.

Definition is_ConnectError (err : error) : bool :=
  match err with ConnectError _ => true | _ => false end.

(** The loop of [flush] that runs one [COPY] per metric. *)
Fixpoint copy_loop (fuel : nat) (pgw : PostgresWriter DB) (c : copyFromMeasurements)
    : outcome (PostgresWriter DB) :=
  if EOF c then Returns pgw
  else
    match fuel with
    | O => NoFuel
    | S fuel =>
        match cfm_MetricName c with
        | None => Panics
        | Some metric =>
            let '(db, c, err) := CopyFrom (sinkDb pgw) metric c in
            let pgw := with_db pgw db in
            match err with
            | None => copy_loop fuel pgw c
            | Some e =>
                match SkipMetric c metric with
                | None => Panics
                | Some c =>
                    if is_ConnectError e then Returns pgw
                    else copy_loop fuel
                           (with_force pgw (force_after e (forceRecreatePartitions pgw))) c
                end
            end
        end
    end.

(** [flush].  Each [COPY] moves past at least one envelope, so the batch length bounds the loop. *)
Definition flush (so : sort_func MetricName) (ro : range_order) (clk : nat → Z)
    (pgw : PostgresWriter DB) (msgs : list MeasurementEnvelope) : outcome (PostgresWriter DB) :=
  match msgs with
  | [] => Returns pgw
  | _ =>
      let msgs := sort_with so msgs in
      let '(bounds, msgs) := part_bounds clk 0 msgs ∅ in
      let '(pgw, _) :=
        match metricSchema pgw with
        | DbStorageSchemaPostgres => EnsureMetricTimePartsExist ro pgw bounds
        | DbStorageSchemaTimescale => EnsureMetricTimescale ro pgw bounds
        end in
      let pgw := with_force pgw false in
      copy_loop (S (length msgs)) pgw (newCopyFromMeasurements msgs)
  end.

(** *** Metric registration *)

Definition PostgresWriter_SyncMetric (pgw : PostgresWriter DB) (sourceName metricName : string)
    (op : SyncOp) : PostgresWriter DB * option error :=
  match op with
  | AddOp =>
      let '(db, e1) := insert_distinct_dbname_metric (sinkDb pgw) sourceName metricName in
      let '(db, e2) := ensure_dummy_metrics_table db metricName in
      (with_db pgw db, errors_Join [e1; e2])
  | _ => (pgw, None)
  end.

End pg_sink.

(** ** What a batch is, metric by metric *)

(** The maximal runs of envelopes of one metric, in batch order. *)
Fixpoint groups (es : list MeasurementEnvelope) : list (string * list MeasurementEnvelope) :=
  match es with
  | [] => []
  | e :: es' =>
      match groups es' with
      | (n, g) :: gs =>
          if bool_decide (n = MetricName e) then (n, e :: g) :: gs
          else (MetricName e, [e]) :: (n, g) :: gs
      | [] => [(MetricName e, [e])]
      end
  end.

Lemma groups_head es :
  match groups es with
  | [] => es = []
  | (n, g) :: _ => ∃ e, head es = Some e ∧ MetricName e = n
  end.
Proof.
  destruct es as [|e es]; simpl; [done|].
  destruct (groups es) as [|[n g] gs]; [by eauto|]. case_bool_decide; subst; eauto.
Qed.

Lemma groups_run e grp after :
  Forall (λ e', MetricName e' = MetricName e) grp →
  (∀ e', head after = Some e' → MetricName e' ≠ MetricName e) →
  groups (e :: grp ++ after) = (MetricName e, e :: grp) :: groups after.
Proof.
  intros Hg. revert e Hg. induction grp as [|e1 grp IH]; intros e Hg Ha.
  - simpl. pose proof (groups_head after) as Hh. destruct (groups after) as [|[n g] gs]; [done|].
    destruct Hh as (e' & He' & <-). rewrite bool_decide_eq_false_2; [done|].
    by apply Ha.
  - apply Forall_cons in Hg as [He1 Hg].
    specialize (IH e1). rewrite He1 in IH. specialize (IH Hg Ha).
    simpl in IH |- *. rewrite IH. by rewrite bool_decide_eq_true_2.
Qed.

Lemma groups_filter es n :
  concat (snd <$> filter (λ p, p.1 = n) (groups es)) = filter (λ e, MetricName e = n) es.
Proof.
  induction es as [|e es IH]; [done|]. rewrite filter_cons, <-IH. simpl.
  pose proof (groups_head es) as Hh.
  destruct (groups es) as [|[n' g] gs]; simpl.
  { rewrite filter_cons. simpl. by case_decide. }
  case_bool_decide as Hn; rewrite !filter_cons; simpl; repeat case_decide; simplify_eq/=; congruence.
Qed.

Lemma groups_names es p : p ∈ groups es → ∃ e, e ∈ es ∧ MetricName e = p.1.
Proof.
  revert p. induction es as [|e es IH]; intros p; simpl; [by intros ?%not_elem_of_nil|].
  destruct (groups es) as [|[n g] gs]; simpl.
  { intros ->%list_elem_of_singleton. exists e. split; [by left|done]. }
  case_bool_decide as Hn; rewrite !elem_of_cons; intros Hp.
  - destruct Hp as [->|Hp]; [exists e; split; [by left|done]|].
    destruct (IH p) as (e' & ? & ?); [by right|]. exists e'. split; [by right|done].
  - destruct Hp as [->|Hp]; [exists e; split; [by left|done]|].
    destruct (IH p) as (e' & ? & ?); [by apply elem_of_cons|]. exists e'. split; [by right|done].
Qed.

Lemma filter_fresh {A} (name : string) (gs : list (string * A)) :
  name ∉ gs.*1 → filter (λ p, p.1 = name) gs = [].
Proof.
  induction gs as [|[n g] gs IH]; [done|]. intros [Hne Hg]%not_elem_of_cons.
  rewrite filter_cons_False by (simpl in *; congruence). by apply IH.
Qed.

(** A sorted batch has one group per metric. *)
Lemma groups_NoDup es :
  StronglySorted (λ a b, String.le (MetricName a) (MetricName b)) es → NoDup (groups es).*1.
Proof.
  induction 1 as [|e es Hs IH Hall]; simpl; [constructor|].
  pose proof (groups_head es) as Hh. pose proof (groups_names es) as Hn.
  destruct (groups es) as [|[n g] gs] eqn:Eg; csimpl in *.
  { apply NoDup_singleton. }
  destruct Hh as (e0 & He0 & <-). case_bool_decide as Heq; csimpl; [done|].
  constructor; [|done]. intros Hin.
  assert (String.le (MetricName e) (MetricName e0)) as Hle.
  { rewrite Forall_forall in Hall. apply Hall. by apply head_Some_elem_of. }
  apply elem_of_cons in Hin as [?|([n' g'] & Hn' & Hin)%list_elem_of_fmap]; [congruence|].
  simpl in Hn'. subst n'. destruct (Hn (MetricName e, g')) as (e2 & He2 & Hname); [by right|].
  simpl in Hname. apply Heq, (anti_symm String.le); [|done].
  rewrite <-Hname. destruct es as [|e1 es]; [done|]. injection He0 as ->.
  apply elem_of_cons in He2 as [->|He2]; [done|].
  inversion Hs as [|? ? _ Hall']; subst. rewrite Forall_forall in Hall'. by apply Hall'.
Qed.

(** ** Storing a batch *)

Section storing.
Context (fmt_float : value → string).
Context (marshal_tags : gmap string string → result string).
Context (marshal_row : Measurement → result string).
Context {DB : Type} `{!SinkDB DB} `{!SinkDBLaws fmt_float marshal_tags marshal_row DB}.
Implicit Types (T : string → list pgrow) (pgw : PostgresWriter DB).

(** The rows of a list of envelopes, when all of them can be encoded. *)
Definition rows_of (es : list MeasurementEnvelope) (rows : list pgrow) : Prop :=
  Forall2 (λ p r, row_at fmt_float marshal_tags marshal_row p = Ok r)
    (concat (positions <$> es)) rows.

(** The abstract effect of a batch on the tables [T]: the groups are processed in order, one
    outcome each; a group is stored completely in the table of its metric or not at all, and a
    lost connection ends the batch. *)
Inductive stored : (string → list pgrow) → list (string * list MeasurementEnvelope) →
    list (option error) → (string → list pgrow) → Prop :=
  | stored_nil T T' : (∀ n, T' n = T n) → stored T [] [] T'
  | stored_ok T name g gs outs rows T1 T' :
      rows_of g rows → T1 name = T name ++ rows → (∀ n, n ≠ name → T1 n = T n) →
      stored T1 gs outs T' → stored T ((name, g) :: gs) (None :: outs) T'
  | stored_fail T name g gs outs e T1 T' :
      is_ConnectError e = false → (∀ n, T1 n = T n) →
      stored T1 gs outs T' → stored T ((name, g) :: gs) (Some e :: outs) T'
  | stored_down T name g gs e T' :
      is_ConnectError e = true → (∀ n, T' n = T n) →
      stored T ((name, g) :: gs) [Some e] T'.

(** The envelopes a [flush] hands to the iterator: named, and with their epoch set. *)
Definition well_formed_batch (es : list MeasurementEnvelope) : Prop :=
  Forall (λ e, MetricName e ≠ "") es ∧ Forall (λ e, Data e = [] ∨ epoch_set (Data e)) es.

Lemma finished_EOF c past rest : finished c past rest → EOF c = bool_decide (rest = []).
Proof.
  unfold finished, EOF. destruct rest as [|e rest].
  - intros [-> ->]. by rewrite Z.leb_refl.
  - intros (-> & -> & _). rewrite length_app. simpl.
    destruct (Z.leb_spec (Z.of_nat (length past + S (length rest))) (len past - 1)); [lia|done].
Qed.

Lemma boundary_MetricName c past e rest :
  boundary c past (e :: rest) → cfm_MetricName c = Some [MetricName e].
Proof.
  intros (Henv & Hei & _). unfold cfm_MetricName. rewrite Henv, Hei, length_app. simpl.
  replace (len past - 1 + 1) with (len past) by lia. rewrite at_index_middle.
  destruct (Z.ltb_spec (len past) (Z.of_nat (length past + S (length rest)))); [done|lia].
Qed.

(** One [COPY] of the loop, from the boundary before the run [e :: grp]. *)
Lemma CopyFrom_run db c past e grp after db' c' err :
  CopyFrom db [MetricName e] c = (db', c', err) →
  boundary c past (e :: grp ++ after) → maximal_run e grp after →
  well_formed_batch (past ++ e :: grp) →
  match err with
  | None => finished c' (past ++ e :: grp) after ∧
      ∃ rows, rows_of (e :: grp) rows ∧
        db_table db' (MetricName e) = db_table db (MetricName e) ++ rows ∧
        ∀ n, n ≠ MetricName e → db_table db' n = db_table db n
  | Some _ => reading c' past e grp after ∧ ∀ n, db_table db' n = db_table db n
  end.
Proof using All.
  intros Hc Hb Hrun [_ Hep]. destruct err as [err|].
  - apply CopyFrom_err in Hc as [(rows & fin & Hp) Ht]. split; [|done].
    pose proof (pulls_run _ _ _ _ _ _ _ _ _ _ _ _ Hp Hrun (or_introl (conj Hb eq_refl)) Hep) as Hr.
    destruct fin; [|done]. destruct Hr as [Hf _]. by right; right.
  - apply CopyFrom_ok in Hc as (rows & Hp & Ht & Hother).
    pose proof (pulls_run _ _ _ _ _ _ _ _ _ _ _ _ Hp Hrun (or_introl (conj Hb eq_refl)) Hep)
      as [Hf Hrows].
    split; [done|]. exists rows. split_and!; [|done..].
    unfold rows_of. unfold todo in Hrows. by rewrite drop_0 in Hrows.
Qed.

(** The loop terminates without a panic and realises [stored] on the remaining groups. *)
Lemma copy_loop_stores fuel pgw c past rest :
  finished c past rest → well_formed_batch (past ++ rest) → (length rest ≤ fuel)%nat →
  ∃ pgw' outs, copy_loop fuel pgw c = Returns pgw' ∧
    stored (db_table (sinkDb pgw)) (groups rest) outs (db_table (sinkDb pgw')).
Proof using All.
  revert pgw c past rest. induction fuel as [|fuel IH]; intros pgw c past rest Hfin Hwf Hf.
  { destruct rest; [|simpl in Hf; lia]. simpl. rewrite (finished_EOF _ _ _ Hfin). simpl.
    eexists _, []. split; [done|by constructor]. }
  simpl. rewrite (finished_EOF _ _ _ Hfin). destruct rest as [|e es]; simpl.
  { eexists _, []. split; [done|by constructor]. }
  simpl in Hfin. rewrite (boundary_MetricName _ _ _ _ Hfin).
  destruct (split_run (MetricName e) es) as (grp & after & -> & Hg & Ha & _).
  assert (maximal_run e grp after) as Hrun.
  { split_and!; [|done..]. destruct Hwf as [Hn _]. apply Forall_app in Hn as [_ Hn].
    by apply Forall_cons in Hn as [? _]. }
  assert (past ++ e :: grp ++ after = (past ++ e :: grp) ++ after) as Heq by (by rewrite <-app_assoc).
  rewrite Heq in Hwf. assert (well_formed_batch (past ++ e :: grp)) as Hwf'.
  { destruct Hwf as [[??]%Forall_app [??]%Forall_app]. by split. }
  pose proof (groups_run e grp after Hg Ha) as Hgr. simpl in Hgr. rewrite Hgr.
  simpl in Hf. rewrite length_app in Hf.
  destruct (CopyFrom (sinkDb pgw) [MetricName e] c) as [[db' c'] err] eqn:Ec.
  pose proof (CopyFrom_run _ _ _ _ _ _ _ _ _ Ec Hfin Hrun Hwf') as Hrun'.
  destruct err as [err|]; destruct Hrun' as [Hr Ht].
  - destruct (SkipMetric_reading _ _ _ _ _ Hr Hg Ha) as (c2 & -> & Hf2).
    destruct (is_ConnectError err) eqn:Econn.
    + eexists _, [Some err]. split; [done|]. by apply stored_down.
    + edestruct IH as (pgw' & outs & -> & Hst); [exact Hf2|done|lia|].
      eexists _, (Some err :: outs). split; [done|]. by eapply stored_fail.
  - destruct Ht as (rows & Hrows & Htab & Hother).
    edestruct IH as (pgw' & outs & -> & Hst); [exact Hr|done|lia|].
    eexists _, (None :: outs). split; [done|]. by eapply stored_ok.
Qed.

(** [stored] only depends on the contents of the tables. *)
Lemma stored_ext T1 T2 gs outs T' :
  (∀ n, T1 n = T2 n) → stored T1 gs outs T' → stored T2 gs outs T'.
Proof using Type.
  intros Heq Hst. destruct Hst as [T T' HT|T name g gs outs rows Ta T' Hr Hn Ho Hst
    |T name g gs outs e Ta T' He HT Hst|T name g gs e T' He HT].
  - apply stored_nil. intros n. by rewrite HT.
  - eapply stored_ok; [exact Hr| | |exact Hst]; intros; rewrite <-Heq; auto.
  - eapply stored_fail; [done| |exact Hst]. intros n. by rewrite HT.
  - apply stored_down; [done|]. intros n. by rewrite HT.
Qed.

(** Metric by metric, a batch with one group per metric is stored completely or not at all. *)
Lemma stored_metric T gs outs T' n :
  stored T gs outs T' → NoDup gs.*1 →
  (∃ rows, rows_of (concat (snd <$> filter (λ p, p.1 = n) gs)) rows ∧ T' n = T n ++ rows) ∨
  (T' n = T n ∧ Exists (λ o, o ≠ None) outs).
Proof using Type.
  induction 1 as [T T' HT|T name g gs outs rows Ta T' Hr Hn Ho Hst IH
    |T name g gs outs e Ta T' He HT Hst IH|T name g gs e T' He HT]; intros Hnd.
  - left. exists []. split; [constructor|]. by rewrite HT, app_nil_r.
  - apply NoDup_cons in Hnd as [Hfresh Hnd]. specialize (IH Hnd). rewrite filter_cons. simpl.
    case_decide as Hname; [subst n|].
    + pose proof (filter_fresh name _ Hfresh) as Hnone. rewrite Hnone in IH |- *. simpl in IH |- *. rewrite app_nil_r. left. exists rows.
      split; [done|]. rewrite <-Hn. destruct IH as [(r & Hr' & ->)|[? _]]; [|done].
      inversion Hr'; subst. by rewrite app_nil_r.
    + rewrite <-(Ho n) by done. destruct IH as [?|[??]]; [by left|right].
      split; [done|]. by right.
  - apply NoDup_cons in Hnd as [Hfresh Hnd]. specialize (IH Hnd). rewrite filter_cons. simpl.
    rewrite <-HT. case_decide as Hname; [subst n|].
    + right. split; [|by left]. destruct IH as [(r & Hr' & ->)|[? _]]; [|done].
      rewrite (filter_fresh name _ Hfresh) in Hr'. inversion Hr'; subst. by rewrite app_nil_r.
    + destruct IH as [?|[??]]; [by left|right]. split; [done|]. by right.
  - right. split; [done|]. by left.
Qed.

End storing.

(** ** The time span of a batch *)

Section spans.
Implicit Types (es msgs : list MeasurementEnvelope) (acc : gmap string ExistingPartitionInfo).

(** The batch after its epochs were read: only a missing epoch is filled in. *)
Definition touched (e e' : MeasurementEnvelope) : Prop :=
  DBName e' = DBName e ∧ MetricName e' = MetricName e ∧ SourceKind e' = SourceKind e ∧
  CustomTags e' = CustomTags e ∧
  (Data e = [] ∧ Data e' = [] ∨ Data e ≠ [] ∧ ∃ now, Data e' = (GetEpoch now (Data e)).2).

Lemma part_bounds_touched clk i msgs acc : Forall2 touched msgs (part_bounds clk i msgs acc).2.
Proof.
  revert i acc. induction msgs as [|e msgs IH]; intros i acc; simpl; [constructor|].
  case_bool_decide as Hd.
  - specialize (IH (S i) acc). destruct (part_bounds clk (S i) msgs acc). simpl in *.
    constructor; [|done]. by split_and!; auto.
  - destruct (GetEpoch (clk i) (Data e)) as [t data] eqn:Et.
    specialize (IH (S i) (extend_bounds (time_Unix0 t) (MetricName e) acc)).
    destruct (part_bounds clk (S i) msgs _). simpl in *. constructor; [|done].
    split_and!; try done. right. split; [done|]. exists (clk i). by rewrite Et.
Qed.

Lemma touched_well_formed msgs es :
  Forall2 touched msgs es → Forall (λ e, MetricName e ≠ "") msgs → well_formed_batch es.
Proof.
  intros Ht Hn. induction Ht as [|e e' msgs es (Hdb & Hname & _ & _ & Hd) Ht IH]; [by split|].
  apply Forall_cons in Hn as [Hne Hn]. destruct (IH Hn) as [H1 H2].
  split; constructor; [congruence|done| |done].
  destruct Hd as [[_ ?]|(Hd & now & ->)]; [by left|right]. by apply GetEpoch_snd_set.
Qed.

Lemma touched_sorted msgs es :
  Forall2 touched msgs es →
  StronglySorted (λ a b, String.le (MetricName a) (MetricName b)) msgs →
  StronglySorted (λ a b, String.le (MetricName a) (MetricName b)) es.
Proof.
  induction 1 as [|e e' msgs es Ht Hts IH]; intros Hs; [constructor|].
  inversion Hs as [|? ? Hs' Hall]; subst. constructor; [by apply IH|].
  clear -Ht Hts Hall. destruct Ht as (_ & Hn & _). rewrite Hn.
  induction Hts as [|a b l k (_ & Hab & _) Hts IH]; [constructor|].
  apply Forall_cons in Hall as [? Hall]. constructor; [by rewrite Hab|by apply IH].
Qed.

(** The instants at which the rows of metric [n] are stored. *)
Definition epochs (n : string) es : list Z :=
  (λ e, (GetEpoch 0 (Data e)).1) <$> filter (λ e, MetricName e = n ∧ Data e ≠ []) es.

(** [acc] holds the smallest and the largest epoch of every metric of [es]. *)
Definition spans acc es : Prop :=
  ∀ n, match acc !! n with
       | None => epochs n es = []
       | Some b => StartTime b ∈ epochs n es ∧ EndTime b ∈ epochs n es ∧
                   ∀ t, t ∈ epochs n es → StartTime b ≤ t ≤ EndTime b
       end.

Lemma extend_bounds_lookup t name acc n :
  extend_bounds t name acc !! n =
    if bool_decide (n = name) then
      Some match acc !! name with
           | None => {| StartTime := t; EndTime := t |}
           | Some b => {| StartTime := Z.min t (StartTime b); EndTime := Z.max t (EndTime b) |}
           end
    else acc !! n.
Proof.
  unfold extend_bounds, time_Before, time_After. destruct (acc !! name) as [[s u]|] eqn:E; simpl.
  - destruct (Z.ltb_spec t s); simpl; destruct (Z.ltb_spec u t); simpl; case_bool_decide; subst;
      simplify_map_eq; try done; f_equal; f_equal; lia.
  - case_bool_decide; subst; by simplify_map_eq.
Qed.

Lemma epochs_snoc n es e :
  epochs n (es ++ [e]) =
    epochs n es ++ (if decide (MetricName e = n ∧ Data e ≠ []) then [(GetEpoch 0 (Data e)).1] else []).
Proof. unfold epochs. rewrite filter_app, fmap_app, filter_cons. by case_decide. Qed.

Lemma spans_extend acc es e :
  spans acc es → Data e ≠ [] →
  spans (extend_bounds (GetEpoch 0 (Data e)).1 (MetricName e) acc) (es ++ [e]).
Proof.
  intros Hs Hd n. rewrite extend_bounds_lookup, epochs_snoc. set (t := (GetEpoch 0 (Data e)).1).
  specialize (Hs n). case_bool_decide as Hn; [subst n|].
  - rewrite decide_True by done. destruct (acc !! MetricName e) as [[s u]|]; simpl in *.
    + destruct Hs as (Hs1 & Hs2 & Hs3). specialize (Hs3) as Hall.
      split_and!; [| |intros t'].
      * destruct (Z.min_spec t s) as [[_ ->]|[_ ->]]; set_solver.
      * destruct (Z.max_spec t u) as [[_ ->]|[_ ->]]; set_solver.
      * rewrite elem_of_app, list_elem_of_singleton. intros [Ht| ->]; [apply Hall in Ht|]; lia.
    + rewrite Hs. simpl. split_and!; [set_solver..|]. intros t' ->%list_elem_of_singleton. lia.
  - rewrite decide_False by (intros []; congruence). by rewrite app_nil_r.
Qed.

Lemma part_bounds_spans clk i msgs acc es :
  spans acc es →
  spans (part_bounds clk i msgs acc).1 (es ++ (part_bounds clk i msgs acc).2).
Proof.
  revert i acc es. induction msgs as [|e msgs IH]; intros i acc es Hs; simpl.
  { by rewrite app_nil_r. }
  case_bool_decide as Hd.
  - specialize (IH (S i) acc (es ++ [e])). destruct (part_bounds clk (S i) msgs acc). simpl in *.
    rewrite <-app_assoc in IH. apply IH. intros n. specialize (Hs n).
    rewrite epochs_snoc, decide_False, app_nil_r by (by intros []). done.
  - pose proof (GetEpoch_snd_set (clk i) (Data e) Hd) as Hset.
    pose proof (GetEpoch_stable (clk i) 0 (Data e) Hd) as Hst.
    destruct (GetEpoch (clk i) (Data e)) as [t data] eqn:Et. simpl in *.
    set (e' := {| DBName := DBName e; MetricName := MetricName e; SourceKind := SourceKind e;
                  CustomTags := CustomTags e; Data := data |}).
    specialize (IH (S i) (extend_bounds (time_Unix0 t) (MetricName e) acc) (es ++ [e'])).
    destruct (part_bounds clk (S i) msgs _). simpl in *. rewrite <-app_assoc in IH. apply IH.
    replace (time_Unix0 t) with (GetEpoch 0 (Data e')).1 by done.
    change (MetricName e) with (MetricName e'). apply spans_extend; [done|].
    destruct Hset as (m & ms & t' & Heq & _). simpl. by rewrite Heq.
Qed.
End spans.

(** ** Flushing *)

Section flushing.
Context (fmt_float : value → string).
Context (marshal_tags : gmap string string → result string).
Context (marshal_row : Measurement → result string).
Context {DB : Type} `{!SinkDB DB} `{!SinkDBLaws fmt_float marshal_tags marshal_row DB}.
Implicit Types (pgw : PostgresWriter DB) (bounds : gmap string ExistingPartitionInfo).

(** The batch [flush] stores: sorted, with missing epochs filled in. *)
Definition prepared (so : sort_func MetricName) (clk : nat → Z) (msgs : list MeasurementEnvelope)
    : list MeasurementEnvelope :=
  (part_bounds clk 0 (sort_with so msgs) ∅).2.

Lemma prepared_touched so clk msgs :
  ∃ sorted, sorted ≡ₚ msgs ∧ Forall2 touched sorted (prepared so clk msgs).
Proof using Type. exists (sort_with so msgs). split; [apply sort_perm|apply part_bounds_touched]. Qed.

Lemma prepared_well_formed so clk msgs :
  Forall (λ e, MetricName e ≠ "") msgs → well_formed_batch (prepared so clk msgs).
Proof using Type.
  intros Hn. eapply touched_well_formed; [apply part_bounds_touched|]. by rewrite sort_perm.
Qed.

Lemma prepared_groups so clk msgs : NoDup (groups (prepared so clk msgs)).*1.
Proof using Type.
  apply groups_NoDup. eapply touched_sorted; [apply part_bounds_touched|]. apply sort_sorted.
Qed.

(** Creating partitions stores nothing. *)
Lemma query_partition_rows pgw metric t pgw' r n :
  query_partition pgw metric t = (pgw', r) → db_table (sinkDb pgw') n = db_table (sinkDb pgw) n.
Proof using All.
  unfold query_partition. pose proof (ensure_time_rows (sinkDb pgw) metric t n) as Hr.
  destruct (ensure_partition_metric_time _ _ _) as [db [pi|e]]; intros [= <- <-]; done.
Qed.

Lemma ensure_time_part_rows pgw metric pb n :
  db_table (sinkDb (ensure_time_part pgw metric pb).1) n = db_table (sinkDb pgw) n.
Proof using All.
  unfold ensure_time_part. case_match; [done|].
  destruct (if _ : bool then _ else _) as [pgw1 [pi|e]] eqn:E1.
  all: assert (db_table (sinkDb pgw1) n = db_table (sinkDb pgw) n) as H1
         by (destruct (_ || _ || _) in E1; [by eapply query_partition_rows|by simplify_eq]).
  all: clear E1.
  - destruct (_ || _ || _); [|exact H1].
    destruct (query_partition pgw1 metric (EndTime pb)) as [pgw2 r] eqn:E2.
    apply (query_partition_rows _ _ _ _ _ n) in E2. destruct r; simpl; by rewrite E2.
  - exact H1.
Qed.

Lemma ensure_time_parts_rows pgw l n :
  db_table (sinkDb (ensure_time_parts pgw l).1) n = db_table (sinkDb pgw) n.
Proof using All.
  revert pgw. induction l as [|[metric pb] l IH]; intros pgw; simpl; [done|].
  pose proof (ensure_time_part_rows pgw metric pb n) as H1.
  destruct (ensure_time_part pgw metric pb) as [pgw' [e|]]; simpl in *; [done|]. by rewrite IH.
Qed.

Lemma ensure_timescale_parts_rows pgw l n :
  db_table (sinkDb (ensure_timescale_parts pgw l).1) n = db_table (sinkDb pgw) n.
Proof using All.
  revert pgw. induction l as [|metric l IH]; intros pgw; simpl; [done|].
  case_match; [by apply IH|]. pose proof (ensure_timescale_rows (sinkDb pgw) metric n) as H1.
  destruct (ensure_partition_timescale _ _) as [db [e|]]; simpl in *; [done|]. by rewrite IH.
Qed.

Lemma flush_prepared so ro clk pgw msgs :
  Forall (λ e, MetricName e ≠ "") msgs →
  ∃ pgw' outs, flush so ro clk pgw msgs = Returns pgw' ∧
    stored fmt_float marshal_tags marshal_row (db_table (sinkDb pgw))
      (groups (prepared so clk msgs)) outs (db_table (sinkDb pgw')).
Proof using All.
  intros Hn. unfold flush. destruct msgs as [|m0 msgs0] eqn:Em.
  { exists pgw, []. split; [done|]. unfold prepared.
    replace (sort_with so []) with (@nil MeasurementEnvelope)
      by (symmetry; apply Permutation_nil_r, sort_perm). by apply stored_nil. }
  assert (prepared so clk msgs ≠ []) as Hne.
  { destruct (prepared_touched so clk msgs) as (sorted & Hp & Ht). intros Hnil.
    rewrite Hnil in Ht. apply Forall2_nil_inv_r in Ht as ->. by apply Permutation_nil_l in Hp; subst. }
  rewrite <-Em in Hn |- *. clear Em m0 msgs0.
  pose proof (prepared_well_formed so clk msgs Hn) as Hwf. unfold prepared in *.
  destruct (part_bounds clk 0 (sort_with so msgs) ∅) as [bounds es]. simpl in Hwf, Hne |- *.
  set (ens := match metricSchema pgw with
              | DbStorageSchemaPostgres => _ | DbStorageSchemaTimescale => _ end).
  assert (∀ n, db_table (sinkDb ens.1) n = db_table (sinkDb pgw) n) as Hens.
  { intros n. unfold ens, EnsureMetricTimePartsExist, EnsureMetricTimescale.
    destruct (metricSchema pgw); [apply ensure_time_parts_rows|apply ensure_timescale_parts_rows]. }
  destruct ens as [pgw1 err]. simpl in Hens |- *.
  edestruct (copy_loop_stores fmt_float marshal_tags marshal_row (S (length es))
    (with_force pgw1 false) (newCopyFromMeasurements es) [] es) as (pgw' & outs & Hret & Hst).
  { destruct es as [|e es]; [done|]. unfold finished, boundary. by simpl. }
  { done. } { lia. }
  exists pgw', outs. split; [exact Hret|]. eapply stored_ext; [|exact Hst]. done.
Qed.
(** Filling in a missing epoch leaves the other columns alone. *)
Lemma touched_column e e' row k v :
  touched e e' → row ∈ Data e → row !! k = Some v → k ≠ EpochColumnName →
  ∃ i row', Data e' !! i = Some row' ∧ row' !! k = Some v.
Proof using Type.
  intros (_ & _ & _ & _ & Hd) Hrow Hk Hne. destruct Hd as [[Hnil _]|(_ & now & ->)].
  { rewrite Hnil in Hrow. by apply not_elem_of_nil in Hrow. }
  destruct (Data e) as [|m ms]; [by apply not_elem_of_nil in Hrow|]. cbn [GetEpoch].
  assert ((Measurement_GetEpoch now m).2 !! k = m !! k) as Hm.
  { unfold Measurement_GetEpoch. repeat case_match; cbn [snd]; try done; by rewrite lookup_insert_ne. }
  destruct (Measurement_GetEpoch now m) as [t m']. cbn [snd] in *.
  apply elem_of_cons in Hrow as [->|Hrow]; [exists 0%nat, m'; split; [done|congruence]|].
  apply list_elem_of_lookup in Hrow as [i Hi]. by exists (S i), row.
Qed.

(** A row that cannot be encoded keeps all rows of its metric in the batch from being stored. *)
Lemma unencodable_unstored so ro clk pgw msgs e row k v :
  Forall (λ e, MetricName e ≠ "") msgs → e ∈ msgs → row ∈ Data e → row !! k = Some v →
  cut_prefix TagPrefix k = None → k ≠ EpochColumnName →
  (∀ m, m !! k = Some v → ∃ err, marshal_row m = Err err) →
  ∃ pgw', flush so ro clk pgw msgs = Returns pgw' ∧
    db_table (sinkDb pgw') (MetricName e) = db_table (sinkDb pgw) (MetricName e).
Proof using All.
  intros Hn He Hrow Hk Htag Hne Hbad.
  destruct (flush_prepared so ro clk pgw msgs Hn) as (pgw' & outs & Hret & Hst). exists pgw'. split; [done|].
  pose proof (prepared_groups so clk msgs) as Hnd.
  destruct (stored_metric _ _ _ _ _ _ _ (MetricName e) Hst Hnd) as [(rows & Hrows & _)|[? _]]; [|done].
  exfalso. rewrite groups_filter in Hrows.
  destruct (prepared_touched so clk msgs) as (sorted & Hperm & Ht).
  assert (e ∈ sorted) as [j Hj]%list_elem_of_lookup by (by rewrite Hperm).
  destruct (Forall2_lookup_l _ _ _ _ _ Ht Hj) as (e' & He' & Htouch).
  destruct (touched_column _ _ _ _ _ Htouch Hrow Hk Hne) as (i & row' & Hi & Hk').
  assert ((e', i) ∈ concat (positions <$> filter (λ x, MetricName x = MetricName e) (prepared so clk msgs))) as Hpos.
  { apply list_elem_of_In, in_concat. exists (positions e'). split; apply list_elem_of_In.
    - apply list_elem_of_fmap_2, list_elem_of_filter. split; [by destruct Htouch as (_ & -> & _)|].
      by apply list_elem_of_lookup_2 in He'.
    - unfold positions. apply list_elem_of_fmap. exists i. split; [done|]. apply elem_of_seq.
      apply lookup_lt_Some in Hi. lia. }
  apply list_elem_of_lookup in Hpos as [p Hp]. destruct (Forall2_lookup_l _ _ _ _ _ Hrows Hp) as (r & _ & Hr).
  unfold row_at in Hr. rewrite Hi in Hr.
  destruct (split_tags_lookup fmt_float tree_order row' (default ∅ (CustomTags e'))) as [Hcols _].
  specialize (Hcols k). rewrite decide_False in Hcols by (rewrite Htag; apply is_Some_None).
  destruct (split_tags fmt_float tree_order row' (default ∅ (CustomTags e'))) as [cols tags]. cbn [fst] in Hcols.
  destruct (Hbad cols) as [err Herr]; [congruence|]. by rewrite Herr in Hr.
Qed.


(** The cached partition bounds are bounds of existing partitions. *)
Definition cache_sound pgw : Prop :=
  map_Forall (λ metric pi, ∀ u, StartTime pi ≤ u < EndTime pi →
    db_has_partition (sinkDb pgw) metric u) (partitionMapMetric pgw).

Lemma query_partition_sound pgw metric t pgw' r :
  query_partition pgw metric t = (pgw', r) → cache_sound pgw →
  cache_sound pgw' ∧
  (∀ other u, db_has_partition (sinkDb pgw) other u → db_has_partition (sinkDb pgw') other u) ∧
  (∀ pi, r = Ok pi → StartTime pi ≤ t < EndTime pi ∧
     ∀ u, StartTime pi ≤ u < EndTime pi → db_has_partition (sinkDb pgw') metric u).
Proof using All.
  unfold query_partition. intros Hq Hc.
  pose proof (ensure_time_keeps (sinkDb pgw) metric t) as Hk.
  destruct (ensure_partition_metric_time _ _ _) as [db [pi|e]] eqn:E; injection Hq as <- <-;
    simpl in *; (split_and!; [|done|]).
  - intros m pi'. simpl. intros [[<- <-]|[? Hm]]%lookup_insert_Some u Hu; simpl.
    + by apply ensure_time_covers in E as [_ ?]; auto.
    + apply Hk. by eapply Hc.
  - intros pi' [= <-]. by apply ensure_time_covers in E.
  - intros m pi Hm u Hu. simpl. apply Hk. by eapply Hc.
  - done.
Qed.

(** What one metric of [EnsureMetricTimePartsExist] establishes: the end of the span always has
    a partition; the start has one too unless it lies past the end of the cached partition. *)
Lemma ensure_time_part_covers pgw metric pb pgw' :
  ensure_time_part pgw metric pb = (pgw', None) → cache_sound pgw →
  StartTime pb ≤ EndTime pb →
  cache_sound pgw' ∧
  (∀ other u, db_has_partition (sinkDb pgw) other u → db_has_partition (sinkDb pgw') other u) ∧
  db_has_partition (sinkDb pgw') metric (EndTime pb) ∧
  (db_has_partition (sinkDb pgw') metric (StartTime pb) ∨
   ∃ pi, partitionMapMetric pgw !! metric = Some pi ∧ EndTime pi ≤ StartTime pb).
Proof using All.
  unfold ensure_time_part. intros He Hc Hle. destruct (_ || _) eqn:Ez in He; [done|]. clear Ez.
  destruct (if _ : bool then _ else _) as [pgw1 [pi|e]] eqn:E1 in He; [|done].
  assert (cache_sound pgw1 ∧
    (∀ other u, db_has_partition (sinkDb pgw) other u → db_has_partition (sinkDb pgw1) other u) ∧
    StartTime pi ≤ StartTime pb ∧
    (∀ u, StartTime pi ≤ u < EndTime pi → db_has_partition (sinkDb pgw1) metric u) ∧
    (StartTime pb < EndTime pi ∨ partitionMapMetric pgw !! metric = Some pi))
    as (Hc1 & Hk1 & Hs1 & Hp1 & Hor).
  { destruct (_ || _ || _) eqn:Eb in E1.
    - destruct (query_partition_sound _ _ _ _ _ E1 Hc) as (? & ? & Hq).
      destruct (Hq pi eq_refl) as [??]. split_and!; [done|done|lia|done|left; lia].
    - apply orb_false_iff in Eb as [[Eb1 Eb2]%orb_false_iff _]. injection E1 as <- <-.
      destruct (partitionMapMetric pgw !! metric) as [pi|] eqn:Em; [|done]. simpl in *.
      unfold time_Before in Eb2. apply Z.ltb_ge in Eb2.
      split_and!; [done|done|done|by eapply Hc|by right]. }
  clear E1. destruct (_ || _ || _) eqn:Eb in He.
  - destruct (query_partition pgw1 metric (EndTime pb)) as [pgw2 [pi2|e]] eqn:E2; [|done].
    injection He as <-. destruct (query_partition_sound _ _ _ _ _ E2 Hc1) as (Hc2 & Hk2 & Hq).
    destruct (Hq pi2 eq_refl) as [Hin Hp2]. split_and!; [done|eauto|by apply Hp2|].
    destruct Hor as [?|?]; [left; apply Hk2, Hp1; lia|].
    destruct (decide (StartTime pb < EndTime pi)); [left; apply Hk2, Hp1; lia|].
    right. exists pi. split; [done|lia].
  - injection He as <-. apply orb_false_iff in Eb as [[Eb1 Eb2]%orb_false_iff _].
    unfold time_After, time_Equal in *. boolify.
    split_and!; [done|done|apply Hp1; lia|left; apply Hp1; lia].
Qed.

Lemma query_partition_other pgw metric t pgw' r other :
  query_partition pgw metric t = (pgw', r) → other ≠ metric →
  partitionMapMetric pgw' !! other = partitionMapMetric pgw !! other.
Proof using Type.
  unfold query_partition. destruct (ensure_partition_metric_time _ _ _) as [db [pi|e]];
    intros [= <- <-] ?; simpl; [|done]. by rewrite lookup_insert_ne.
Qed.

Lemma ensure_time_part_other pgw metric pb pgw' err other :
  ensure_time_part pgw metric pb = (pgw', err) → other ≠ metric →
  partitionMapMetric pgw' !! other = partitionMapMetric pgw !! other.
Proof using Type.
  unfold ensure_time_part. intros He Hne.
  destruct (_ || _) eqn:Ez in He; [by simplify_eq|]. clear Ez.
  destruct (if _ : bool then _ else _) as [pgw1 r] eqn:E1 in He.
  assert (partitionMapMetric pgw1 !! other = partitionMapMetric pgw !! other) as H1.
  { destruct (_ || _ || _) in E1; [by eapply query_partition_other|by simplify_eq]. }
  clear E1. destruct r as [pi|e]; [|by simplify_eq].
  destruct (_ || _ || _) in He; [|by simplify_eq].
  destruct (query_partition pgw1 metric (EndTime pb)) as [pgw2 r] eqn:E2.
  apply (query_partition_other _ _ _ _ _ other) in E2; [|done].
  destruct r; simplify_eq; congruence.
Qed.

Lemma ensure_time_parts_covers pgw l pgw' :
  ensure_time_parts pgw l = (pgw', None) → cache_sound pgw → NoDup l.*1 →
  Forall (λ p, StartTime p.2 ≤ EndTime p.2) l →
  cache_sound pgw' ∧
  (∀ other u, db_has_partition (sinkDb pgw) other u → db_has_partition (sinkDb pgw') other u) ∧
  Forall (λ '(metric, pb),
    db_has_partition (sinkDb pgw') metric (EndTime pb) ∧
    (db_has_partition (sinkDb pgw') metric (StartTime pb) ∨
     ∃ pi, partitionMapMetric pgw !! metric = Some pi ∧ EndTime pi ≤ StartTime pb)) l.
Proof using All.
  revert pgw. induction l as [|[metric pb] l IH]; intros pgw He Hc Hnd Hle; simpl in He.
  { simplify_eq. split_and!; [done|done|constructor]. }
  apply NoDup_cons in Hnd as [Hfresh Hnd]. apply Forall_cons in Hle as [Hle Hles].
  destruct (ensure_time_part pgw metric pb) as [pgw1 [e|]] eqn:E1; [done|].
  destruct (ensure_time_part_covers _ _ _ _ E1 Hc Hle) as (Hc1 & Hk1 & Hend & Hstart).
  destruct (IH pgw1 He Hc1 Hnd Hles) as (Hc2 & Hk2 & Hall).
  split_and!; [done|eauto|]. constructor.
  - split; [by apply Hk2|]. destruct Hstart as [?|?]; [left; by apply Hk2|by right].
  - rewrite Forall_forall in Hall |- *. intros [m pb'] Hin. destruct (Hall _ Hin) as [? Hor].
    split; [done|]. assert (m ≠ metric) as Hne.
    { intros ->. apply Hfresh. by apply (list_elem_of_fmap_2 fst) in Hin. }
    by rewrite (ensure_time_part_other _ _ _ _ _ _ E1 Hne) in Hor.
Qed.


End flushing.
