(* ===== verification/PgPoll.v ===== *)
(** * Batching in the PostgreSQL sink ([internal/sinks/postgres.go]: [Write], [poll])

    [Write] puts an envelope on a bounded channel, [poll] moves envelopes from the channel to a
    cache and flushes the cache when it is full or when the batching delay has passed.  A run of
    [poll] is driven by the list of the choices its [select] made.  The file also gives a concrete
    in-memory database, an instance of [SinkDB] that meets [SinkDBLaws], on which the theorems of
    file [PgSink] are exercised. *)

From Stdlib Require Import SpecFloat.
From S2P Require Import Prelude GoStrings Metrics Sinks CopySource PgSink.
From stdpp Require Import options.

Local Open Scope Z_scope.

Definition cacheLimit : Z := 256.

(** ** Writing to the channel *)

(** [Write]: [sent] tells whether the channel accepted the message before [highLoadTimeout]; a
    message that was not accepted is dropped without an error. *)
Definition PostgresWriter_Write (ctx_err : option error) (sent : bool)
    (input : list MeasurementEnvelope) (msg : MeasurementEnvelope)
    : list MeasurementEnvelope * option error :=
  match ctx_err with
  | Some e => (input, Some e)
  | None => if sent then (input ++ [msg], None) else (input, None)
  end.

(** ** The poll loop *)

(** The branch the [select] statements of one iteration take. *)
Inductive poll_event :=
  | PollInput (entry : MeasurementEnvelope)
  | PollTick
  | PollDone.

Section poll.
Context {W : Type} (flush_at : nat → W → list MeasurementEnvelope → outcome W).

(** The state is the writer and the cache; the flag tells whether the loop has returned.  Every
    iteration happens at some moment, on which the flush it triggers may depend. *)
Fixpoint poll (w : W) (cache : list MeasurementEnvelope) (evs : list (nat * poll_event))
    : outcome (W * list MeasurementEnvelope * bool) :=
  match evs with
  | [] => Returns (w, cache, false)
  | (_, PollDone) :: _ => Returns (w, cache, true)
  | (t, PollTick) :: evs' =>
      match flush_at t w cache with
      | Returns w => poll w [] evs'
      | Panics => Panics
      | NoFuel => NoFuel
      end
  | (t, PollInput entry) :: evs' =>
      let cache := cache ++ [entry] in
      if len cache <? cacheLimit then poll w cache evs'
      else
        match flush_at t w cache with
        | Returns w => poll w [] evs'
        | Panics => Panics
        | NoFuel => NoFuel
        end
  end.

(** The envelopes the loop took from the channel. *)
Fixpoint received (evs : list (nat * poll_event)) : list MeasurementEnvelope :=
  match evs with
  | [] | (_, PollDone) :: _ => []
  | (_, PollTick) :: evs' => received evs'
  | (_, PollInput entry) :: evs' => entry :: received evs'
  end.

(** Flush the given batches, each at its moment, in this order. *)
Fixpoint flush_all (w : W) (bs : list (nat * list MeasurementEnvelope)) : outcome W :=
  match bs with
  | [] => Returns w
  | (t, b) :: bs' =>
      match flush_at t w b with
      | Returns w => flush_all w bs'
      | Panics => Panics
      | NoFuel => NoFuel
      end
  end.

Context (P : MeasurementEnvelope → Prop).
Context (flush_returns : ∀ t w b, Forall P b → ∃ w', flush_at t w b = Returns w').

Lemma poll_from w cache evs :
  len cache < cacheLimit → Forall P (cache ++ received evs) →
  ∃ w' bs rest stopped, poll w cache evs = Returns (w', rest, stopped) ∧
    flush_all w bs = Returns w' ∧ concat bs.*2 ++ rest = cache ++ received evs ∧
    Forall (λ b, len b.2 ≤ cacheLimit) bs ∧ len rest < cacheLimit.
Proof using flush_returns.
  revert w cache.
  induction evs as [|[t [entry| |]] evs IH]; intros w cache Hlen HP; simpl in HP |- *.
  - exists w, [], cache, false. rewrite app_nil_r. by split_and!.
  - assert (Forall P ((cache ++ [entry]) ++ received evs)) as HP' by (by rewrite <-app_assoc).
    destruct (Z.ltb_spec (len (cache ++ [entry])) cacheLimit).
    + destruct (IH w (cache ++ [entry])) as (w' & bs & rest & st & ? & ? & Hc & ? & ?); [done..|].
      exists w', bs, rest, st. rewrite <-app_assoc in Hc. by split_and!.
    + apply Forall_app in HP' as [HP1 HP2].
      destruct (flush_returns t w (cache ++ [entry]) HP1) as [w1 Hw1]. rewrite Hw1.
      destruct (IH w1 []) as (w' & bs & rest & st & ? & ? & Hc & ? & ?); [done..|].
      exists w', ((t, cache ++ [entry]) :: bs), rest, st. csimpl. rewrite Hw1.
      split_and!; [done|done| |constructor; [simpl; rewrite length_app; simpl; lia|done]|done].
      rewrite <-app_assoc, Hc. by rewrite <-app_assoc.
  - apply Forall_app in HP as [HP1 HP2]. destruct (flush_returns t w cache HP1) as [w1 Hw1].
    rewrite Hw1. destruct (IH w1 []) as (w' & bs & rest & st & ? & ? & Hc & ? & ?); [done..|].
    exists w', ((t, cache) :: bs), rest, st. csimpl. rewrite Hw1.
    split_and!; [done|done| |constructor; [simpl; lia|done]|done].
    rewrite <-app_assoc, Hc. done.
  - exists w, [], cache, true. rewrite app_nil_r. by split_and!.
Qed.
End poll.

(** [poll] runs without a panic, never holds more than [cacheLimit] envelopes, and loses,
    duplicates and reorders nothing: the batches it flushed, in order, followed by the envelopes
    still in its cache, are exactly the envelopes it took from the channel.  (What is still
    cached when the context ends, fewer than [cacheLimit] envelopes, is never flushed.) *)
Theorem poll_conserves {DB} `{!SinkDB DB} fmt_float marshal_tags marshal_row
    `{!SinkDBLaws fmt_float marshal_tags marshal_row DB}
    (so : nat → sort_func MetricName) (ro : nat → range_order) (clk : nat → nat → Z)
    (pgw : PostgresWriter DB) (evs : list (nat * poll_event)) :
  let flush_at t := flush (so t) (ro t) (clk t) in
  Forall (λ e, MetricName e ≠ "") (received evs) →
  ∃ pgw' bs rest stopped, poll flush_at pgw [] evs = Returns (pgw', rest, stopped) ∧
    flush_all flush_at pgw bs = Returns pgw' ∧ concat bs.*2 ++ rest = received evs ∧
    Forall (λ b, len b.2 ≤ cacheLimit) bs ∧ len rest < cacheLimit.
Proof.
  intros flush_at Hn. apply (poll_from flush_at (λ e, MetricName e ≠ "")); [|done|done].
  intros t w b Hb. unfold flush_at.
  destruct (flush_prepared fmt_float marshal_tags marshal_row (so t) (ro t) (clk t) w b Hb)
    as (w' & _ & Hw & _). by exists w'.
Qed.

(** ** A concrete database *)

(** A store whose [COPY] reads the source to its end; it can be told to refuse metrics. *)
Record mem_db := {
  mem_rows : gmap string (list pgrow);
  mem_parts : list (string * ExistingPartitionInfo);
  mem_fail : gmap string error;
}.

Definition show_tags (m : gmap string string) : result string :=
  Ok (strings_Join ((λ kv, kv.1 +:+ "=" +:+ kv.2) <$> map_to_list m) ",").
Definition show_row (m : Measurement) : result string :=
  Ok (strings_Join ((λ kv, kv.1 +:+ "=" +:+ fmt_v (λ _, "float") kv.2) <$> map_to_list m) ",").

Fixpoint pull_all (enc : Measurement → result string) (fuel : nat) (c : copyFromMeasurements)
    : option (list pgrow * copyFromMeasurements) :=
  match fuel with
  | O => None
  | S fuel =>
      match Next c with
      | Returns (c, false) => Some ([], c)
      | Returns (c, true) =>
          match Values (λ _, "float") show_tags enc tree_order 0 c with
          | Some (c, Ok row) => '(rows, c) ← pull_all enc fuel c; Some (row :: rows, c)
          | _ => None
          end
      | _ => None
      end
  end.

Lemma pull_all_pulls enc fuel c rows c' :
  pull_all enc fuel c = Some (rows, c') → pulls (λ _, "float") show_tags enc c rows c' true.
Proof.
  revert c rows. induction fuel as [|fuel IH]; intros c rows; simpl; [done|].
  destruct (Next c) as [[c1 []]| |] eqn:En; [|intros [= <- <-]; by constructor|done..].
  destruct (Values _ _ _ _ _ c1) as [[c2 [row|e]]|] eqn:Ev; [|done..].
  destruct (pull_all enc fuel c2) as [[rows' c3]|] eqn:Ep; simpl; [|done].
  intros [= <- <-]. eapply pulls_row; [done|exact Ev|by apply IH].
Qed.

#[global] Arguments pull_all : simpl never.

(** Enough for the batches of the examples; a longer batch is refused. *)
Definition copy_fuel : nat := 1000.

Definition mem_CopyFrom (enc : Measurement → result string) (db : mem_db) (ident : list string) (c : copyFromMeasurements)
    : mem_db * copyFromMeasurements * option error :=
  match ident with
  | [name] =>
      match mem_fail db !! name with
      | Some e => (db, c, Some e)
      | None =>
          match pull_all enc copy_fuel c with
          | Some (rows, c') =>
              ({| mem_rows := <[name := default [] (mem_rows db !! name) ++ rows]> (mem_rows db);
                  mem_parts := mem_parts db; mem_fail := mem_fail db |}, c', None)
          | None => (db, c, Some (ErrorString "copy failed"))
          end
      end
  | _ => (db, c, Some (ErrorString "bad identifier"))
  end.

Definition day : Z := 24 * time_Hour.

Definition mem_ensure (db : mem_db) (name : string) (t : Z) : mem_db * result ExistingPartitionInfo :=
  let pi := {| StartTime := t / day * day; EndTime := (t / day + 1) * day |} in
  ({| mem_rows := mem_rows db; mem_parts := (name, pi) :: mem_parts db; mem_fail := mem_fail db |},
   Ok pi).

(** The database with a given encoder for rows. *)
Definition mem_ops (enc : Measurement → result string) : SinkDB mem_db := {|
  db_table db name := default [] (mem_rows db !! name);
  db_has_partition db name u :=
    ∃ pi, (name, pi) ∈ mem_parts db ∧ StartTime pi ≤ u < EndTime pi;
  CopyFrom := mem_CopyFrom enc;
  ensure_partition_metric_time := mem_ensure;
  ensure_partition_timescale db _ := (db, None);
  ensure_dummy_metrics_table db _ := (db, None);
  insert_distinct_dbname_metric db _ _ := (db, None);
|}.

Lemma mem_laws enc : @SinkDBLaws (λ _, "float") show_tags enc mem_db (mem_ops enc).
Proof.
  split; simpl; unfold mem_CopyFrom, mem_ensure; [| |done|done| |].
  - intros db name c db' c'. destruct (mem_fail db !! name); [done|].
    destruct (pull_all enc copy_fuel c) as [[rows c1]|] eqn:Ep;
      [|intros; simplify_eq]. intros [= <- <-].
    exists rows. simpl. rewrite lookup_insert_eq. split_and!; [by eapply pull_all_pulls|done|].
    intros other ?. by rewrite lookup_insert_ne.
  - intros db name c db' c' e Hc.
    assert (db' = db ∧ c' = c) as [-> ->].
    { destruct (mem_fail db !! name); [by simplify_eq|].
      destruct (pull_all enc copy_fuel c) as [[??]|]; by simplify_eq. }
    split; [|done]. exists [], false. constructor.
  - intros db name t db' pi [= <- <-]. simpl. split.
    + pose proof (Z.div_mod t day). pose proof (Z.mod_pos_bound t day).
      unfold day, time_Hour, time_Minute, time_Second in *. lia.
    + intros u Hu. eexists. split; [by left|done].
  - intros db name t other u (pi & Hin & Hu). exists pi. split; [by right|done].
Qed.

#[export] Instance mem_SinkDB : SinkDB mem_db := mem_ops show_row.
#[export] Instance mem_SinkDBLaws : SinkDBLaws (λ _, "float") show_tags show_row mem_db := mem_laws show_row.

(** An encoder that refuses what JSON cannot express. *)
Definition encodable (v : value) : bool :=
  match v with VFloat64 f | VFloat32 f => negb (math_IsNaN f || math_IsInf f) | _ => true end.
Definition strict_row (m : Measurement) : result string :=
  if bool_decide (map_Forall (λ _ v, encodable v = true) m) then show_row m else Err (ErrorString "unsupported value").

Lemma strict_row_nan (m : Measurement) k :
  m !! k = Some (VFloat64 S754_nan) → ∃ err, strict_row m = Err err.
Proof.
  intros Hm. unfold strict_row. rewrite bool_decide_false; [by eexists|]. intros H. by specialize (H _ _ Hm).
Qed.

Definition mem_writer (fail : gmap string error) : PostgresWriter mem_db := {|
  sinkDb := {| mem_rows := ∅; mem_parts := []; mem_fail := fail |};
  metricSchema := DbStorageSchemaPostgres; forceRecreatePartitions := false;
  partitionMapMetric := ∅ |}.

Definition sample_envelope (db metric : string) (rows : list Measurement) : MeasurementEnvelope := {|
  DBName := db; MetricName := metric; SourceKind := "postgres"; CustomTags := None; Data := rows |}.

Definition sample_batch : list MeasurementEnvelope :=
  [sample_envelope "db1" "wal" [{["epoch_ns" := VInt64 5; "wal" := VInt64 7]}];
   sample_envelope "db1" "backends" [{["epoch_ns" := VInt64 6; "n" := VInt64 1]}; {["n" := VInt64 2]}];
   sample_envelope "db2" "wal" [{["epoch_ns" := VInt64 9; "tag_x" := VString "y"]}]].

Definition sample_sort : sort_func MetricName := merge_sort_func MetricName.
Definition sample_clock (i : nat) : Z := 1000 + Z.of_nat i.

Example flush_sample :
  match flush sample_sort tree_order sample_clock (mem_writer {["backends" := PgError "23514"]})
          sample_batch with
  | Returns pgw =>
      (row_time <$> db_table (sinkDb pgw) "wal", db_table (sinkDb pgw) "backends",
       forceRecreatePartitions pgw)
  | _ => ([], [], false)
  end = ([9; 5], [], true).
Proof. vm_compute. reflexivity. Qed.

Lemma sample_batch_named : Forall (λ e, MetricName e ≠ "") sample_batch.
Proof. repeat constructor; done. Qed.



Definition sample_events : list (nat * poll_event) :=
  ((λ e, (0%nat, PollInput e)) <$> sample_batch) ++ [(1%nat, PollTick); (2%nat, PollDone)].

Lemma poll_conserves_witness :
  let flush_at (t : nat) := flush sample_sort tree_order sample_clock in
  ∃ pgw' bs rest stopped,
    poll flush_at (mem_writer ∅) [] sample_events = Returns (pgw', rest, stopped) ∧
    flush_all flush_at (mem_writer ∅) bs = Returns pgw' ∧
    concat bs.*2 ++ rest = received sample_events ∧
    Forall (λ b, len b.2 ≤ cacheLimit) bs ∧ len rest < cacheLimit.
Proof.
  apply (poll_conserves (λ _, "float") show_tags show_row (λ _, sample_sort) (λ _, tree_order)
    (λ _, sample_clock)). exact sample_batch_named.
Defined.
