(* ===== verification/PromSink.v ===== *)
(** * The Prometheus sink ([internal/sinks/prometheus.go])

    The sink keeps the last message of every source and metric and converts them to samples when it
    is scraped.  [WritePromMetrics] is modelled with its memo tables; [NewConstMetric] of the client
    library is a parameter that may refuse a sample.  Rows are shared with the cache: reading the
    epoch of a row that has none stores it there.

    The theorems show that the samples of one message have distinct series and that every numeric
    column is either emitted or counted as an error, that the memo tables do not change the result,
    that the cache holds exactly the last message that was not purged since, and that a scrape only
    drops stale messages. *)

From Stdlib Require Import SpecFloat.
From S2P Require Import Prelude GoStrings Metrics Sinks.
From stdpp Require Import options.

Local Open Scope Z_scope.

(** ** State *)

Abbreviation PromMetricCache := (gmap string (gmap string MeasurementEnvelope)).

Record PrometheusWriter := {
  gauges : gmap string (list string);
  Namespace : string;
  Cache : PromMetricCache;
  totalScrapes : Z;
  lastScrapeErrors : Z;
  totalScrapeFailures : Z;
}.

Definition with_cache (w : PrometheusWriter) (c : PromMetricCache) : PrometheusWriter := {|
  gauges := gauges w; Namespace := Namespace w; Cache := c; totalScrapes := totalScrapes w;
  lastScrapeErrors := lastScrapeErrors w; totalScrapeFailures := totalScrapeFailures w |}.

(** The address and the initial state. *)
Definition new_prometheus_writer (connstr : string) : string * PrometheusWriter :=
  let '(addr, namespace) :=
    match str_cut "/" connstr with
    | Some (addr, ns) => (addr, if bool_decide (ns = "") then "pgwatch" else ns)
    | None => (connstr, "pgwatch")
    end in
  (addr, {| gauges := ∅; Namespace := namespace; Cache := ∅; totalScrapes := 0; lastScrapeErrors := 0;
            totalScrapeFailures := 0 |}).

(** [NewPrometheusWriter]: the collector is registered with the client library, and the address is listened on. *)
Definition open_prometheus_writer (Register : PrometheusWriter → option error) (Listen : string → option error) (connstr : string)
    : result PrometheusWriter :=
  let '(addr, promw) := new_prometheus_writer connstr in
  match Register promw with
  | Some e => Err e
  | None => match Listen addr with Some e => Err e | None => Ok promw end
  end.

Definition prom_DefineMetrics (d : Metrics) (w : PrometheusWriter) : PrometheusWriter * option error :=
  ({| gauges := Gauges <$> MetricDefs d; Namespace := Namespace w; Cache := Cache w;
      totalScrapes := totalScrapes w; lastScrapeErrors := lastScrapeErrors w;
      totalScrapeFailures := totalScrapeFailures w |}, None).

Definition notSupportedMetrics : gset string :=
  {["change_events"; "pgbouncer_stats"; "pgbouncer_clients"; "pgpool_processes"; "pgpool_stats"]}.

Definition AddCacheEntry (dbUnique metric : string) (msgArr : MeasurementEnvelope) (w : PrometheusWriter) :
    PrometheusWriter :=
  if bool_decide (metric ∈ notSupportedMetrics) && bool_decide (SourceKind msgArr ≠ "prometheus") then w
  else
    let entry := default ∅ (Cache w !! dbUnique) in
    with_cache w (<[dbUnique := <[metric := msgArr]> entry]> (Cache w)).

Definition InitCacheEntry (dbUnique : string) (w : PrometheusWriter) : PrometheusWriter :=
  match Cache w !! dbUnique with
  | Some _ => w
  | None => with_cache w (<[dbUnique := ∅]> (Cache w))
  end.

Definition PurgeCacheEntry (dbUnique metric : string) (w : PrometheusWriter) : PrometheusWriter :=
  if bool_decide (metric = "") then with_cache w (delete dbUnique (Cache w))
  else with_cache w (alter (delete metric) dbUnique (Cache w)).

Definition prom_Write (msg : MeasurementEnvelope) (w : PrometheusWriter) : PrometheusWriter * option error :=
  if bool_decide (Data msg = []) then (w, None)
  else (AddCacheEntry (DBName msg) (MetricName msg) msg w, None).

Definition prom_SyncMetric (sourceName metricName : string) (op : SyncOp) (w : PrometheusWriter) :
    PrometheusWriter * option error :=
  match op with
  | DeleteOp => (PurgeCacheEntry sourceName metricName w, None)
  | AddOp => (InitCacheEntry sourceName w, None)
  | _ => (w, None)
  end.

#[export] Instance PrometheusWriter_Writer : Writer PrometheusWriter := {|
  SyncMetric := prom_SyncMetric; Write := prom_Write |}.
#[export] Instance PrometheusWriter_MetricsDefiner : MetricsDefiner PrometheusWriter := {|
  is_definer _ := true; DefineMetrics := prom_DefineMetrics |}.

(** ** Samples *)

Inductive ValueType := CounterValue | GaugeValue | UntypedValue.

Record prom_metric := {
  pm_name : string;
  pm_keys : list string;
  pm_type : ValueType;
  pm_value : spec_float;
  pm_values : list string;
  pm_time : Z;
}.

(** A series is identified by its name and labels. *)
Definition series (m : prom_metric) : string * list string * list string :=
  (pm_name m, pm_keys m, pm_values m).

(** [float64(t)] of an integer and of a [float32]. *)
Definition float64_of_Z (z : Z) : spec_float := binary_normalize 53 1024 z 0 false.
Definition float64_of_float32 (f : spec_float) : spec_float :=
  match f with
  | S754_finite s m e => binary_normalize 53 1024 (if s then Z.neg m else Z.pos m) e s
  | _ => f
  end.

Definition numeric (v : value) : option spec_float :=
  match v with
  | VInt z | VInt32 z | VInt64 z => Some (float64_of_Z z)
  | VFloat32 f => Some (float64_of_float32 f)
  | VFloat64 f => Some f
  | VBool b => Some (float64_of_Z (if b then 1 else 0))
  | _ => None
  end.

Definition promCacheTTL : Z := 10 * time_Minute.

(** [model.SeparatorByte]. *)
Definition SeparatorByte : string := String (Ascii.ascii_of_nat 255) "".

Section write.
Context (ro : range_order) (fmt_float : value → string)
  (NewConstMetric : string → list string → ValueType → spec_float → list string → option error).

Record fieldMeta := { fqName : string; valueType : ValueType }.

(** What one pass over a row collects. *)
Record row_state := {
  labels : gmap string string;
  fields : gmap string spec_float;
  rowEpochTime : Z;
}.

Definition scan_column (isPromSource : bool) (st : row_state) (kv : string * value) : row_state :=
  let '(k, v) := kv in
  if bool_decide (k = EpochColumnName) then
    match v with
    | VInt64 ns => if isPromSource && negb (ns =? 0)
                   then {| labels := labels st; fields := fields st; rowEpochTime := ns |} else st
    | _ => st
    end
  else if bool_decide (v = VNil ∨ v = VString "") then st
  else
    match cut_prefix TagPrefix k with
    | Some tag => {| labels := <[tag := fmt_v fmt_float v]> (labels st); fields := fields st;
                     rowEpochTime := rowEpochTime st |}
    | None =>
        match numeric v with
        | Some x => {| labels := labels st; fields := <[k := x]> (fields st);
                       rowEpochTime := rowEpochTime st |}
        | None => st
        end
    end.

Definition scan_row (msg : MeasurementEnvelope) (baseEpochTime : Z) (row : Measurement) : row_state :=
  let isPromSource := bool_decide (SourceKind msg = "prometheus") in
  foldl (scan_column isPromSource)
    {| labels := <["dbname" := DBName msg]> (default ∅ (CustomTags msg)); fields := ∅;
       rowEpochTime := baseEpochTime |}
    (range ro row).

(** The name and type of a field; [None] where a scraped row is to be skipped. *)
Definition field_meta (w : PrometheusWriter) (msg : MeasurementEnvelope) (field : string) :
    option fieldMeta :=
  let gs := default [] (gauges w !! MetricName msg) in
  if bool_decide (SourceKind msg = "prometheus") then
    if bool_decide (field ≠ MetricName msg) then None
    else Some {| fqName := field; valueType := UntypedValue |}
  else
    let isUp := bool_decide (MetricName msg = "instance_up") in
    Some {|
      fqName := if isUp then Namespace w +:+ "_" +:+ MetricName msg
                else Namespace w +:+ "_" +:+ MetricName msg +:+ "_" +:+ field;
      valueType := if isUp || (bool_decide (head gs = Some "*") || bool_decide (field ∈ gs))
                   then GaugeValue else CounterValue |}.

(** The state of [WritePromMetrics]: the identities seen, the memo tables and the result. *)
Record emit_state := {
  seen : gset string;
  metaByField : gmap string fieldMeta;
  descs : gmap (string * string) (string * list string);
  written : Z;
  errorCount : Z;
  emitted : list prom_metric;
}.

Definition lookup_meta (w : PrometheusWriter) (msg : MeasurementEnvelope) (field : string)
    (memo : gmap string fieldMeta) : option (fieldMeta * gmap string fieldMeta) :=
  match memo !! field with
  | Some meta => Some (meta, memo)
  | None => meta ← field_meta w msg field; Some (meta, <[field := meta]> memo)
  end.

Definition lookup_desc (name : string) (labelKeys : list string)
    (memo : gmap (string * string) (string * list string)) :
    (string * list string) * gmap (string * string) (string * list string) :=
  let dk := (name, strings_Join labelKeys SeparatorByte) in
  match memo !! dk with
  | Some desc => (desc, memo)
  | None => ((name, labelKeys), <[dk := (name, labelKeys)]> memo)
  end.

Definition emit_field (w : PrometheusWriter) (msg : MeasurementEnvelope) (labelKeys labelValues : list string)
    (rowTime : Z) (st : emit_state) (fv : string * spec_float) : emit_state :=
  let '(field, x) := fv in
  match lookup_meta w msg field (metaByField st) with
  | None => st
  | Some (meta, metas) =>
      let identity := fqName meta +:+ "_" +:+ strings_Join labelValues "_" in
      if bool_decide (identity ∈ seen st) then
        {| seen := seen st; metaByField := metas; descs := descs st; written := written st;
           errorCount := errorCount st + 1; emitted := emitted st |}
      else
        let '(desc, ds) := lookup_desc (fqName meta) labelKeys (descs st) in
        match NewConstMetric desc.1 desc.2 (valueType meta) x labelValues with
        | Some _ =>
            {| seen := {[identity]} ∪ seen st; metaByField := metas; descs := ds; written := written st;
               errorCount := errorCount st + 1; emitted := emitted st |}
        | None =>
            {| seen := {[identity]} ∪ seen st; metaByField := metas; descs := ds;
               written := written st + 1; errorCount := errorCount st;
               emitted := emitted st ++ [{| pm_name := desc.1; pm_keys := desc.2; pm_type := valueType meta;
                                            pm_value := x; pm_values := labelValues; pm_time := rowTime |}] |}
        end
  end.

(** The sorted label names, and the values in that order. *)
Definition label_keys (ls : gmap string string) : list string :=
  merge_sort String.le (range_keys ro ls).
Definition label_values (ls : gmap string string) (keys : list string) : list string :=
  (λ k, default "" (ls !! k)) <$> keys.

Definition emit_row (w : PrometheusWriter) (msg : MeasurementEnvelope) (baseEpochTime : Z)
    (st : emit_state) (row : Measurement) : emit_state :=
  let rs := scan_row msg baseEpochTime row in
  let labelKeys := label_keys (labels rs) in
  foldl (emit_field w msg labelKeys (label_values (labels rs) labelKeys) (rowEpochTime rs))
    st (range ro (fields rs)).

Definition emit_start : emit_state :=
  {| seen := ∅; metaByField := ∅; descs := ∅; written := 0; errorCount := 0; emitted := [] |}.

Definition with_data (msg : MeasurementEnvelope) (data : Measurements) : MeasurementEnvelope := {|
  DBName := DBName msg; MetricName := MetricName msg; SourceKind := SourceKind msg;
  CustomTags := CustomTags msg; Data := data |}.

(** The rows of [msg] are the ones in the cache: what is stored in them is visible there. *)
Definition store_rows (msg : MeasurementEnvelope) (data : Measurements) (w : PrometheusWriter) :
    PrometheusWriter :=
  with_cache w (alter (alter (λ m, if decide (m = msg) then with_data msg data else m) (MetricName msg))
                  (DBName msg) (Cache w)).

Definition WritePromMetrics (now : Z) (msg : MeasurementEnvelope) (w : PrometheusWriter) :
    PrometheusWriter * list prom_metric * Z * Z :=
  if bool_decide (Data msg = []) then (w, [], 0, 0)
  else
    let '(epoch, data) := GetEpoch now (Data msg) in
    let w := store_rows msg data w in
    if time_Before (time_Unix0 epoch) (now - promCacheTTL)
    then (PurgeCacheEntry (DBName msg) (MetricName msg) w, [], 0, 0)
    else
      let st := foldl (emit_row w msg (time_Unix0 epoch)) emit_start data in
      (w, emitted st, written st, errorCount st).

(** ** Scrapes *)

(** The samples of the sink itself. *)
Inductive self_metric := TotalScrapes (n : Z) | TotalScrapeFailures (n : Z) | LastScrapeErrors (n : Z).

Definition with_counters (w : PrometheusWriter) (scrapes errs : Z) : PrometheusWriter := {|
  gauges := gauges w; Namespace := Namespace w; Cache := Cache w; totalScrapes := scrapes;
  lastScrapeErrors := errs; totalScrapeFailures := totalScrapeFailures w |}.

Definition collect_one (now : Z) (acc : PrometheusWriter * list prom_metric * Z) (msg : MeasurementEnvelope) :
    PrometheusWriter * list prom_metric * Z :=
  let '(w, out, errs) := acc in
  let '(w, ms, _, e) := WritePromMetrics now msg w in (w, out ++ ms, errs + e).

(** The messages of the snapshot, in the order of the two nested loops. *)
Definition snapshot (w : PrometheusWriter) : list MeasurementEnvelope :=
  range ro (Cache w) ≫= λ p, (range ro p.2).*2.

Definition Collect (now : Z) (w : PrometheusWriter) :
    PrometheusWriter * list prom_metric * list self_metric :=
  let w := with_counters w (totalScrapes w + 1) (lastScrapeErrors w) in
  if bool_decide (Cache w = ∅) then
    (with_counters w (totalScrapes w) 0, [],
     [TotalScrapes (totalScrapes w); TotalScrapeFailures (totalScrapeFailures w); LastScrapeErrors 0])
  else
    let '(w, out, errs) := foldl (collect_one now) (w, [], 0) (snapshot w) in
    (with_counters w (totalScrapes w) errs, out,
     [TotalScrapes (totalScrapes w); TotalScrapeFailures (totalScrapeFailures w); LastScrapeErrors errs]).
End write.

(** ** Reference semantics of one message

    The same without memo tables: every sample is built from its own label names. *)
Section reference.
Context (ro : range_order) (fmt_float : value → string)
  (NewConstMetric : string → list string → ValueType → spec_float → list string → option error)
  (w : PrometheusWriter) (msg : MeasurementEnvelope) (base : Z).

(** Identities seen, errors, samples. *)
Definition ref_state : Type := gset string * Z * list prom_metric.

Definition identity_of (name : string) (values : list string) : string :=
  name +:+ "_" +:+ strings_Join values "_".

Definition ref_field (keys values : list string) (t : Z) (st : ref_state) (fv : string * spec_float) :
    ref_state :=
  let '(ids, errs, out) := st in
  let '(field, x) := fv in
  match field_meta w msg field with
  | None => st
  | Some meta =>
      let identity := identity_of (fqName meta) values in
      if bool_decide (identity ∈ ids) then (ids, errs + 1, out)
      else
        match NewConstMetric (fqName meta) keys (valueType meta) x values with
        | Some _ => ({[identity]} ∪ ids, errs + 1, out)
        | None => ({[identity]} ∪ ids, errs, out ++ [{|
            pm_name := fqName meta; pm_keys := keys; pm_type := valueType meta; pm_value := x;
            pm_values := values; pm_time := t |}])
        end
  end.

Definition ref_row (st : ref_state) (row : Measurement) : ref_state :=
  let rs := scan_row ro fmt_float msg base row in
  let keys := label_keys ro (labels rs) in
  foldl (ref_field keys (label_values (labels rs) keys) (rowEpochTime rs)) st (range ro (fields rs)).

(** The fields of a row that are to be exported. *)
Definition exported (row : Measurement) : list string :=
  filter (λ f, is_Some (field_meta w msg f)) (range_keys ro (fields (scan_row ro fmt_float msg base row))).

(** Label names never contain the separator byte (it does not occur in UTF-8 text). *)
Definition valid_keys (keys : list string) : Prop :=
  keys ≠ [] ∧ Forall (λ k, str_cut SeparatorByte k = None) keys.

Definition valid_row (row : Measurement) : Prop :=
  valid_keys (label_keys ro (labels (scan_row ro fmt_float msg base row))).

Lemma sep_prefix c s : cut_prefix SeparatorByte (String c s) = if decide (Ascii.ascii_of_nat 255 = c) then Some s else None.
Proof using Type. simpl. by case_decide. Qed.

Lemma no_sep_cut k : str_cut SeparatorByte k = None → str_cut SeparatorByte (k +:+ SeparatorByte) = Some (k, "").
Proof using Type.
  induction k as [|c k IH]; intros Hk; [done|]. rewrite string_app_cons.
  cbn [str_cut] in Hk |- *. rewrite sep_prefix in Hk |- *. case_decide; [done|].
  destruct (str_cut SeparatorByte k) as [[? ?]|]; [done|]. by rewrite IH.
Qed.

Lemma join_keys_inj keys1 keys2 :
  valid_keys keys1 → valid_keys keys2 →
  strings_Join keys1 SeparatorByte = strings_Join keys2 SeparatorByte → keys1 = keys2.
Proof using Type.
  assert (∀ keys, valid_keys keys → strings_Split (strings_Join keys SeparatorByte) SeparatorByte = keys) as H.
  { intros keys [Hne Hk]. destruct keys as [|k0 keys _] using rev_ind; [done|].
    apply Forall_app in Hk as [Hk1 Hk2]. apply strings_Split_Join; [done| |by inversion Hk2].
    eapply Forall_impl; [exact Hk1|]. simpl. apply no_sep_cut. }
  intros H1 H2 Heq. by rewrite <-(H keys1), <-(H keys2), Heq.
Qed.

(** The memo tables only hold what would be computed anew. *)
Definition metas_sound (metas : gmap string fieldMeta) : Prop :=
  ∀ f meta, metas !! f = Some meta → field_meta w msg f = Some meta.
Definition descs_sound (ds : gmap (string * string) (string * list string)) : Prop :=
  ∀ n j d, ds !! (n, j) = Some d → ∃ keys, d = (n, keys) ∧ j = strings_Join keys SeparatorByte ∧ valid_keys keys.

Definition simulates (st : emit_state) (rs : ref_state) : Prop :=
  metas_sound (metaByField st) ∧ descs_sound (descs st) ∧
  rs = (seen st, errorCount st, emitted st) ∧ written st = len (emitted st).

Lemma lookup_meta_sound f metas :
  metas_sound metas →
  match lookup_meta w msg f metas with
  | Some (meta, metas') => field_meta w msg f = Some meta ∧ metas_sound metas'
  | None => field_meta w msg f = None
  end.
Proof using Type.
  intros Hm. unfold lookup_meta. destruct (metas !! f) as [meta|] eqn:E; [split; [by apply Hm|done]|].
  destruct (field_meta w msg f) as [meta|] eqn:Ef; simpl; [|done]. split; [done|].
  intros f' meta'. rewrite lookup_insert_Some. intros [[<- <-]|[_ Hl]]; [done|by apply Hm].
Qed.

Lemma lookup_desc_sound name keys ds :
  descs_sound ds → valid_keys keys →
  (lookup_desc name keys ds).1 = (name, keys) ∧ descs_sound (lookup_desc name keys ds).2.
Proof using Type.
  intros Hd Hk. unfold lookup_desc. destruct (ds !! _) as [d|] eqn:E; simpl.
  - split; [|done]. destruct (Hd _ _ _ E) as (keys' & -> & Hj & Hk'). f_equal. by apply join_keys_inj.
  - split; [done|]. intros n j d. rewrite lookup_insert_Some. intros [[Heq <-]|[_ ?]]; [|by eauto].
    simplify_eq. eauto.
Qed.

Lemma emit_field_simulates keys values t st rs fv :
  valid_keys keys → simulates st rs →
  simulates (emit_field NewConstMetric w msg keys values t st fv) (ref_field keys values t rs fv).
Proof using Type.
  intros Hk (Hm & Hd & -> & Hw). destruct fv as [f x]. unfold emit_field, ref_field.
  pose proof (lookup_meta_sound f _ Hm) as Hf.
  destruct (lookup_meta w msg f _) as [[meta metas]|]; [destruct Hf as [-> Hm']|by rewrite Hf].
  fold (identity_of (fqName meta) values). case_bool_decide; [by split_and!|].
  pose proof (lookup_desc_sound (fqName meta) keys _ Hd Hk) as [H1 H2].
  destruct (lookup_desc (fqName meta) keys (descs st)) as [d ds]. simpl in H1, H2. subst d. simpl.
  destruct (NewConstMetric _ _ _ _ _); split_and!; simpl; try done.
  rewrite length_app. simpl. lia.
Qed.

Lemma foldl_simulates {A} (f : emit_state → A → emit_state) (g : ref_state → A → ref_state) xs st rs :
  (∀ st rs x, x ∈ xs → simulates st rs → simulates (f st x) (g rs x)) →
  simulates st rs → simulates (foldl f st xs) (foldl g rs xs).
Proof using Type.
  revert st rs. induction xs as [|x xs IH]; intros st rs Hf Hs; simpl; [done|].
  apply IH; [|apply Hf; [by left|done]]. intros. apply Hf; [by right|done].
Qed.

Lemma emit_rows_simulate rows :
  Forall valid_row rows →
  simulates (foldl (emit_row ro fmt_float NewConstMetric w msg base) emit_start rows)
    (foldl ref_row (∅, 0, []) rows).
Proof using Type.
  intros Hv. rewrite Forall_forall in Hv. apply foldl_simulates.
  - intros st rs row Hrow Hs. unfold emit_row, ref_row. apply foldl_simulates; [|done].
    intros st' rs' fv _ Hs'. apply emit_field_simulates; [by apply Hv|done].
  - unfold emit_start. split_and!; simpl; try done; intros ?*; by rewrite lookup_empty.
Qed.

(** *** Distinct series, no field lost *)

Definition ident (m : prom_metric) : string := identity_of (pm_name m) (pm_values m).

(** After [n] exported fields. *)
Record emit_inv (st : emit_state) (n : nat) : Prop := {
  ei_metas : metas_sound (metaByField st);
  ei_descs : ∀ name j d, descs st !! (name, j) = Some d → d.1 = name;
  ei_written : written st = len (emitted st);
  ei_total : written st + errorCount st = Z.of_nat n;
  ei_seen : ∀ m, m ∈ emitted st → ident m ∈ seen st;
  ei_nodup : NoDup (ident <$> emitted st);
}.

Lemma lookup_desc_name name keys ds :
  (∀ n j d, ds !! (n, j) = Some d → d.1 = n) →
  (lookup_desc name keys ds).1.1 = name ∧
  ∀ n j d, (lookup_desc name keys ds).2 !! (n, j) = Some d → d.1 = n.
Proof using Type.
  intros Hd. unfold lookup_desc. destruct (ds !! _) as [d|] eqn:E; simpl; [by eauto|].
  split; [done|]. intros n j d. rewrite lookup_insert_Some. intros [[Heq <-]|[_ ?]]; [by simplify_eq|eauto].
Qed.

Lemma emit_field_inv keys values t st f x n :
  emit_inv st n →
  emit_inv (emit_field NewConstMetric w msg keys values t st (f, x))
    (if decide (is_Some (field_meta w msg f)) then S n else n).
Proof using Type.
  intros [Hm Hd Hw Ht Hs Hn]. unfold emit_field. pose proof (lookup_meta_sound f _ Hm) as Hf.
  destruct (lookup_meta w msg f _) as [[meta metas]|].
  2: { rewrite Hf. case_decide as Hc; [by destruct Hc|]. by split. }
  destruct Hf as [-> Hm']. case_decide as Hc; [|by destruct Hc]. clear Hc.
  fold (identity_of (fqName meta) values). case_bool_decide as Hid; [split; simpl; try done; lia|].
  pose proof (lookup_desc_name (fqName meta) keys _ Hd) as [H1 H2].
  destruct (lookup_desc (fqName meta) keys (descs st)) as [d ds]. simpl in H1, H2.
  destruct (NewConstMetric _ _ _ _ _); split; simpl; try done; try lia.
  - intros m Hin. apply elem_of_union. right. by apply Hs.
  - rewrite length_app. simpl. lia.
  - intros m Hin. apply elem_of_app in Hin as [Hin|Hin]; apply elem_of_union; [right; by apply Hs|left].
    apply list_elem_of_singleton in Hin as ->. unfold ident. simpl. rewrite H1. by apply elem_of_singleton.
  - rewrite fmap_app. apply NoDup_app. split_and!; [done| |csimpl; apply NoDup_singleton].
    intros i (m & -> & Hin)%list_elem_of_fmap Hi. csimpl in Hi. apply list_elem_of_singleton in Hi.
    apply Hid. specialize (Hs m Hin). rewrite Hi in Hs. unfold ident in Hs. simpl in Hs. by rewrite H1 in Hs.
Qed.

Lemma emit_fields_inv keys values t fvs st n :
  emit_inv st n →
  emit_inv (foldl (emit_field NewConstMetric w msg keys values t) st fvs)
    (n + length (filter (λ f, is_Some (field_meta w msg f)) fvs.*1)).
Proof using Type.
  revert st n. induction fvs as [|[f x] fvs IH]; intros st n Hi; csimpl; [by rewrite Nat.add_0_r|].
  apply (emit_field_inv keys values t _ f x) in Hi. apply IH in Hi. revert Hi.
  rewrite filter_cons. case_decide; csimpl; [by rewrite Nat.add_succ_r|done].
Qed.

Lemma emit_rows_inv rows st n :
  emit_inv st n →
  emit_inv (foldl (emit_row ro fmt_float NewConstMetric w msg base) st rows)
    (n + sum_list_with (length ∘ exported) rows).
Proof using Type.
  revert st n. induction rows as [|row rows IH]; intros st n Hi; csimpl; [by rewrite Nat.add_0_r|].
  rewrite Nat.add_assoc. apply IH. by apply emit_fields_inv.
Qed.

Lemma emit_start_inv : emit_inv emit_start 0.
Proof using Type.
  split; simpl; try done; try (intros ?*; by rewrite lookup_empty).
  - intros m Hm. by apply elem_of_nil in Hm.
  - constructor.
Qed.
End reference.

(** The samples of one message.  No two of them belong to the same series, so a scrape of this
    message is never refused as inconsistent; the returned count is the number of samples; and every
    numeric column that is to be exported is either emitted or counted as an error. *)
Theorem WritePromMetrics_series ro fmt_float NewConstMetric now msg w :
  let '(w', out, written, errs) := WritePromMetrics ro fmt_float NewConstMetric now msg w in
  NoDup (series <$> out) ∧ written = len out ∧ 0 ≤ errs ∧
  (Data msg ≠ [] →
   let '(epoch, data) := GetEpoch now (Data msg) in
   now - promCacheTTL ≤ epoch →
   written + errs = Z.of_nat (sum_list_with (length ∘ exported ro fmt_float w' msg epoch) data)).
Proof.
  unfold WritePromMetrics. case_bool_decide; [split_and!; [constructor|done..]|].
  destruct (GetEpoch now (Data msg)) as [epoch data]. destruct (time_Before _ _) eqn:Et.
  { split_and!; [constructor|done..|]. intros _ Hle. unfold time_Before, time_Unix0 in Et. boolify. lia. }
  set (w1 := store_rows msg data w).
  pose proof (emit_rows_inv ro fmt_float NewConstMetric w1 msg (time_Unix0 epoch) data _ _
    (emit_start_inv w1 msg)) as Hi.
  set (st := foldl _ emit_start data) in *. split_and!.
  - destruct Hi as [_ _ _ _ _ Hn]. clear -Hn. induction (emitted st) as [|m ms IH]; csimpl in *; [constructor|].
    apply NoDup_cons in Hn as [Hm Hn]. apply NoDup_cons. split; [|by apply IH].
    intros (m' & Heq & Hin)%list_elem_of_fmap. apply Hm, list_elem_of_fmap. exists m'. split; [|done].
    unfold series in Heq. unfold ident. congruence.
  - apply Hi.
  - assert (∀ rows st0, 0 ≤ errorCount st0 →
      0 ≤ errorCount (foldl (emit_row ro fmt_float NewConstMetric w1 msg (time_Unix0 epoch)) st0 rows)) as He.
    { clear. intros rows. induction rows as [|row rows IH]; intros st0 H0; simpl; [done|]. apply IH.
      unfold emit_row. generalize (range ro (fields (scan_row ro fmt_float msg (time_Unix0 epoch) row))) as fvs.
      intros fvs. revert st0 H0. induction fvs as [|[f x] fvs IHf]; intros st0 H0; simpl; [done|]. apply IHf.
      unfold emit_field. by split_matches; try lia. }
    apply He. done.
  - intros _ _. destruct Hi as [_ _ _ Ht _ _]. by rewrite Ht.
Qed.

(** C34: the memo tables of [WritePromMetrics] are an optimisation only.  When the label names are
    free of the separator byte (they are UTF-8 text), the samples and the error count are those of
    the reference semantics, which derives the name, the type and the descriptor of every sample
    from its own row. *)
Theorem WritePromMetrics_reference ro fmt_float NewConstMetric now msg w epoch data :
  GetEpoch now (Data msg) = (epoch, data) →
  Forall (valid_row ro fmt_float msg epoch) data → Data msg ≠ [] → now - promCacheTTL ≤ epoch →
  let '(w', out, _, errs) := WritePromMetrics ro fmt_float NewConstMetric now msg w in
  w' = store_rows msg data w ∧
  ∃ ids, foldl (ref_row ro fmt_float NewConstMetric w' msg epoch) (∅, 0, []) data = (ids, errs, out).
Proof.
  unfold WritePromMetrics. intros -> Hv Hne Hle. rewrite bool_decide_false by done. destruct (time_Before _ _) eqn:Et.
  { unfold time_Before, time_Unix0 in Et. boolify. lia. }
  split; [done|]. pose proof (emit_rows_simulate ro fmt_float NewConstMetric (store_rows msg data w) msg epoch data Hv)
    as (_ & _ & -> & _). eauto.
Qed.

(** ** The cache *)

Definition cached (w : PrometheusWriter) (db metric : string) : option MeasurementEnvelope :=
  Cache w !! db ≫= λ entry, entry !! metric.

Inductive prom_op :=
  | OpWrite (msg : MeasurementEnvelope)
  | OpSync (src metric : string) (op : SyncOp)
  | OpDefine (d : Metrics).

Definition exec_op (w : PrometheusWriter) (o : prom_op) : PrometheusWriter :=
  match o with
  | OpWrite msg => (Write msg w).1
  | OpSync src metric op => (SyncMetric src metric op w).1
  | OpDefine d => (DefineMetrics d w).1
  end.

(** A message the sink keeps. *)
Definition storable (msg : MeasurementEnvelope) : bool :=
  bool_decide (Data msg ≠ []) &&
  (bool_decide (MetricName msg ∉ notSupportedMetrics) || bool_decide (SourceKind msg = "prometheus")).

(** What one call does to the entry of a source and metric. *)
Definition expect (db metric : string) (last : option MeasurementEnvelope) (o : prom_op) :
    option MeasurementEnvelope :=
  match o with
  | OpWrite msg =>
      if storable msg && bool_decide (DBName msg = db ∧ MetricName msg = metric) then Some msg else last
  | OpSync src m DeleteOp => if bool_decide (src = db ∧ (m = "" ∨ m = metric)) then None else last
  | _ => last
  end.

Lemma cached_insert w db metric msg db' metric' :
  cached (with_cache w (<[db := <[metric := msg]> (default ∅ (Cache w !! db))]> (Cache w))) db' metric' =
  if bool_decide (db = db' ∧ metric = metric') then Some msg else cached w db' metric'.
Proof.
  unfold cached. simpl. destruct (decide (db = db')) as [->|Hne].
  - rewrite lookup_insert_eq. simpl. destruct (decide (metric = metric')) as [->|Hm].
    + rewrite lookup_insert_eq. by rewrite bool_decide_true.
    + rewrite lookup_insert_ne by done. rewrite bool_decide_false by naive_solver.
      by destruct (Cache w !! db').
  - rewrite lookup_insert_ne by done. by rewrite bool_decide_false by naive_solver.
Qed.

Lemma cached_purge w db metric db' metric' :
  metric' ≠ "" →
  cached (PurgeCacheEntry db metric w) db' metric' =
  if bool_decide (db = db' ∧ (metric = "" ∨ metric = metric')) then None else cached w db' metric'.
Proof.
  intros Hne. unfold PurgeCacheEntry, cached. case_bool_decide as Hm; simpl.
  - destruct (decide (db = db')) as [->|Hd]; [rewrite lookup_delete_eq|rewrite lookup_delete_ne by done].
    + by rewrite bool_decide_true by naive_solver.
    + by rewrite bool_decide_false by naive_solver.
  - destruct (decide (db = db')) as [->|Hd].
    + rewrite lookup_alter_eq. destruct (Cache w !! db') as [entry|]; simpl; [|by destruct (bool_decide _)].
      destruct (decide (metric = metric')) as [->|Hmm].
      * by rewrite lookup_delete_eq, bool_decide_true by naive_solver.
      * by rewrite lookup_delete_ne, bool_decide_false by naive_solver.
    + rewrite lookup_alter_ne by done. by rewrite bool_decide_false by naive_solver.
Qed.

Lemma exec_op_expect w o db metric :
  metric ≠ "" → cached (exec_op w o) db metric = expect db metric (cached w db metric) o.
Proof.
  intros Hne. destruct o as [msg|src m op|d]; simpl; [| |done].
  - unfold prom_Write, AddCacheEntry, storable. rewrite (bool_decide_not (Data msg = [])).
    destruct (bool_decide (Data msg = [])); simpl; [done|].
    rewrite (bool_decide_not (MetricName msg ∈ _)), (bool_decide_not (SourceKind msg = _)).
    destruct (bool_decide (MetricName msg ∈ _)), (bool_decide (SourceKind msg = _)); simpl;
      by rewrite ?cached_insert.
  - unfold prom_SyncMetric. destruct op; simpl; try done; [|by rewrite cached_purge].
    unfold InitCacheEntry. destruct (Cache w !! src) as [e|] eqn:E; [done|]. unfold cached. simpl.
    destruct (decide (src = db)) as [->|]; [|by rewrite lookup_insert_ne].
    by rewrite lookup_insert_eq, E.
Qed.

(** C33: after any sequence of calls of the collector, the sink holds for every source and metric
    the last message written for it since the source or the metric was last deleted, and no other
    message; empty messages and the unsupported metrics of databases never replace an entry. *)
Theorem cache_holds_last_message w ops db metric :
  metric ≠ "" →
  cached (foldl exec_op w ops) db metric = foldl (expect db metric) (cached w db metric) ops.
Proof.
  intros Hne. revert w. induction ops as [|o ops IH]; intros w; simpl; [done|].
  by rewrite IH, exec_op_expect.
Qed.

(** ** Scrapes *)

(** Messages are filed under their own source and metric. *)
Definition keyed (w : PrometheusWriter) : Prop :=
  ∀ db metric msg, cached w db metric = Some msg →
    DBName msg = db ∧ MetricName msg = metric ∧ metric ≠ "".

Definition stale (now : Z) (msg : MeasurementEnvelope) : bool :=
  time_Before (GetEpoch now (Data msg)).1 (now - promCacheTTL).

(** What a scrape leaves of a message: nothing if it is stale, else the message with its epoch set. *)
Definition after_scrape (now : Z) (msg : MeasurementEnvelope) : option MeasurementEnvelope :=
  if bool_decide (Data msg = []) then Some msg
  else if stale now msg then None
  else Some (with_data msg (GetEpoch now (Data msg)).2).

Definition msg_key (msg : MeasurementEnvelope) : string * string := (DBName msg, MetricName msg).

Lemma cached_store_rows msg data w db metric :
  cached w (DBName msg) (MetricName msg) = Some msg →
  cached (store_rows msg data w) db metric =
  if bool_decide (msg_key msg = (db, metric)) then Some (with_data msg data) else cached w db metric.
Proof.
  unfold cached, store_rows, msg_key. simpl. intros Hm.
  destruct (decide (DBName msg = db)) as [<-|Hd].
  - rewrite lookup_alter_eq. destruct (Cache w !! DBName msg) as [entry|]; simpl in *; [|done].
    destruct (decide (MetricName msg = metric)) as [<-|Hk].
    + rewrite lookup_alter_eq, Hm. simpl. by rewrite decide_True, bool_decide_true.
    + rewrite lookup_alter_ne by done. by rewrite bool_decide_false by congruence.
  - rewrite lookup_alter_ne by done. by rewrite bool_decide_false by congruence.
Qed.

Section scrape.
Context (ro : range_order) (fmt_float : value → string)
  (NewConstMetric : string → list string → ValueType → spec_float → list string → option error) (now : Z).

Lemma WritePromMetrics_cached msg w db metric :
  cached w (DBName msg) (MetricName msg) = Some msg → MetricName msg ≠ "" → metric ≠ "" →
  cached (WritePromMetrics ro fmt_float NewConstMetric now msg w).1.1.1 db metric =
  if bool_decide (msg_key msg = (db, metric)) then after_scrape now msg else cached w db metric.
Proof using Type.
  intros Hm Hne Hne'. unfold WritePromMetrics, after_scrape. case_bool_decide as Hd; simpl.
  { case_bool_decide as Hk; [|done]. unfold msg_key in Hk. by simplify_eq. }
  unfold stale. destruct (GetEpoch now (Data msg)) as [epoch data]. unfold time_Unix0.
  destruct (time_Before _ _); cbn [fst snd]; [|by apply cached_store_rows].
  rewrite cached_purge by done. rewrite cached_store_rows by done. unfold msg_key.
  repeat case_bool_decide; naive_solver.
Qed.

Lemma collect_cached msgs w out errs :
  (∀ msg, msg ∈ msgs → cached w (DBName msg) (MetricName msg) = Some msg ∧ MetricName msg ≠ "") →
  NoDup (msg_key <$> msgs) →
  ∀ db metric, metric ≠ "" →
  cached (foldl (collect_one ro fmt_float NewConstMetric now) (w, out, errs) msgs).1.1 db metric =
  if bool_decide ((db, metric) ∈ msg_key <$> msgs) then cached w db metric ≫= after_scrape now
  else cached w db metric.
Proof using Type.
  revert w out errs. induction msgs as [|msg msgs IH]; intros w out errs Hin Hnd db metric Hne; csimpl; [done|].
  destruct (Hin msg ltac:(by left)) as [Hm Hmn].
  pose proof (λ db metric, WritePromMetrics_cached msg w db metric Hm Hmn) as Hw.
  destruct (WritePromMetrics ro fmt_float NewConstMetric now msg w) as [[[w1 ms] wr] e]. cbn [fst snd] in Hw.
  csimpl in Hnd. apply NoDup_cons in Hnd as [Hk Hnd]. rewrite IH; [|clear db metric Hne|done|done].
  - rewrite Hw by done. case_bool_decide as H1.
    + rewrite (bool_decide_false (msg_key msg = (db, metric))) by congruence.
      rewrite bool_decide_true by (by right). done.
    + case_bool_decide as H2.
      * rewrite H2, bool_decide_true by (by left). unfold msg_key in H2. simplify_eq.
        by rewrite Hm.
      * rewrite bool_decide_false; [done|]. rewrite elem_of_cons. intros [?|?]; congruence.
  - intros msg' Hin'. destruct (Hin msg' ltac:(by right)) as [Hm' Hmn']. split; [|done].
    rewrite Hw by done. rewrite bool_decide_false; [done|]. intros Heq. apply Hk, list_elem_of_fmap.
    exists msg'. split; [|done]. unfold msg_key in *. congruence.
Qed.

Lemma elem_of_snapshot w msg :
  msg ∈ snapshot ro w ↔ ∃ db metric, cached w db metric = Some msg.
Proof using Type.
  unfold snapshot, cached. rewrite list_elem_of_bind. split.
  - intros ([db entry] & ([m msg'] & -> & Hm)%list_elem_of_fmap & Hdb). simpl in *.
    exists db, m. apply elem_of_range in Hm, Hdb. by rewrite Hdb.
  - intros (db & m & H). apply bind_Some in H as (entry & Hdb & Hm). exists (db, entry).
    split; [|by apply elem_of_range]. apply list_elem_of_fmap. exists (m, msg). split; [done|].
    by apply elem_of_range.
Qed.

Lemma NoDup_range {K V} `{Countable K} (m : gmap K V) : NoDup (range ro m).
Proof using Type. rewrite range_perm. apply NoDup_map_to_list. Qed.

Lemma NoDup_snapshot w : keyed w → NoDup (msg_key <$> snapshot ro w).
Proof using Type.
  intros Hk. apply NoDup_fmap_2_strong.
  - intros m1 m2 (db1 & k1 & H1)%elem_of_snapshot (db2 & k2 & H2)%elem_of_snapshot Heq.
    destruct (Hk _ _ _ H1) as (? & ? & _), (Hk _ _ _ H2) as (? & ? & _).
    unfold msg_key in Heq. congruence.
  - unfold snapshot. apply NoDup_bind; [| |apply NoDup_range].
    + intros [db1 e1] [db2 e2] msg Hd1 Hd2 ([m1 x1] & -> & Hm1)%list_elem_of_fmap
        ([m2 x2] & Heq & Hm2)%list_elem_of_fmap. simpl in *. subst x2.
      apply elem_of_range in Hd1, Hd2, Hm1, Hm2.
      assert (cached w db1 m1 = Some x1) as H1 by (unfold cached; by rewrite Hd1).
      assert (cached w db2 m2 = Some x1) as H2 by (unfold cached; by rewrite Hd2).
      destruct (Hk _ _ _ H1) as (<- & _ & _), (Hk _ _ _ H2) as (<- & _ & _). congruence.
    + intros [db e] Hd. apply elem_of_range in Hd. apply NoDup_fmap_2_strong; [|apply NoDup_range].
      intros [m1 x1] [m2 x2] Hm1 Hm2 Heq. simpl in *. subst x2. apply elem_of_range in Hm1, Hm2.
      assert (cached w db m1 = Some x1) as H1 by (unfold cached; by rewrite Hd).
      assert (cached w db m2 = Some x1) as H2 by (unfold cached; by rewrite Hd).
      destruct (Hk _ _ _ H1) as (_ & <- & _), (Hk _ _ _ H2) as (_ & <- & _). done.
Qed.
End scrape.

(** A scrape does not consume the cache.  It drops the messages whose epoch is more than the
    time to live in the past, stores the epoch in a message that had none, and leaves every other
    message as it was for the next scrape. *)
Theorem Collect_keeps_cache ro fmt_float NewConstMetric now w db metric :
  keyed w → metric ≠ "" →
  cached (Collect ro fmt_float NewConstMetric now w).1.1 db metric = cached w db metric ≫= after_scrape now.
Proof.
  intros Hk Hne. unfold Collect. cbn [Cache with_counters]. case_bool_decide as He.
  { cbn [fst]. unfold cached. simpl. by rewrite He, lookup_empty. }
  set (w0 := with_counters w _ _). change (snapshot ro w0) with (snapshot ro w).
  pose proof (collect_cached ro fmt_float NewConstMetric now (snapshot ro w) w0 [] 0) as Hc.
  destruct (foldl _ _ (snapshot ro w)) as [[w1 out] errs]. cbn [fst] in Hc |- *.
  change (cached w1 db metric = cached w0 db metric ≫= after_scrape now). rewrite Hc; [|clear Hc|by apply NoDup_snapshot|done].
  - case_bool_decide as Hin; [done|]. change (cached w0 db metric) with (cached w db metric).
    destruct (cached w db metric) as [msg|] eqn:E; [|done]. exfalso. apply Hin, list_elem_of_fmap.
    exists msg. split; [|apply elem_of_snapshot; eauto]. destruct (Hk _ _ _ E) as (<- & <- & _). done.
  - intros msg (db' & m' & H)%elem_of_snapshot. destruct (Hk _ _ _ H) as (-> & -> & ?). done.
Qed.

(** Writing keeps messages filed under their own names. *)
Lemma keyed_write w msg : keyed w → MetricName msg ≠ "" → keyed (exec_op w (OpWrite msg)).
Proof.
  intros Hk Hne db metric m. simpl. unfold prom_Write, AddCacheEntry.
  destruct (bool_decide (Data msg = [])); [apply Hk|]. simpl. destruct (_ && _); [apply Hk|].
  rewrite cached_insert. case_bool_decide as H; [|apply Hk]. destruct H as [<- <-]. by intros [= <-].
Qed.

(** ** Examples *)

Definition sample_now : Z := 1700000000000000000.
Definition sample_message (metric column : string) (row : Measurement) : MeasurementEnvelope := {|
  DBName := "d"; MetricName := metric; SourceKind := ""; CustomTags := None;
  Data := [<[column := VInt64 1]> (<[EpochColumnName := VInt64 sample_now]> row)] |}.
Definition accept_all : string → list string → ValueType → spec_float → list string → option error :=
  λ _ _ _ _ _, None.
Definition sample_sink : PrometheusWriter := (new_prometheus_writer "0.0.0.0:9187").2.

(** Duplicates are detected per message.  Two messages of one scrape can give the same series: column
    [b_c] of metric [a] and column [c] of metric [a_b]. *)
Example scrape_with_duplicate_series :
  let w := foldl exec_op sample_sink
    [OpWrite (sample_message "a" "b_c" ∅); OpWrite (sample_message "a_b" "c" ∅)] in
  series <$> (Collect tree_order (λ _, "") accept_all sample_now w).1.2 =
  [("pgwatch_a_b_c", ["dbname"], ["d"]); ("pgwatch_a_b_c", ["dbname"], ["d"])].
Proof. vm_compute. reflexivity. Qed.

(** Identities join the label values, so distinct series can be taken for duplicates. *)
Example distinct_series_dropped :
  let row tag_a tag_b : Measurement :=
    {[EpochColumnName := VInt64 sample_now; "tag_a" := VString tag_a; "tag_b" := VString tag_b;
      "n" := VInt64 1]} in
  let msg := {| DBName := "d"; MetricName := "m"; SourceKind := ""; CustomTags := None;
                Data := [row "x_y" "z"; row "x" "y_z"] |} in
  let '(_, out, written, errs) := WritePromMetrics tree_order (λ _, "") accept_all sample_now msg sample_sink in
  (length out, written, errs) = (1%nat, 1, 1).
Proof. vm_compute. reflexivity. Qed.

Lemma WritePromMetrics_reference_witness :
  let msg := sample_message "m" "n" {["tag_a" := VString "x"]} in
  let '(w', out, _, errs) := WritePromMetrics tree_order (λ _, "") accept_all sample_now msg sample_sink in
  w' = store_rows msg (Data msg) sample_sink ∧
  ∃ ids, foldl (ref_row tree_order (λ _, "") accept_all w' msg sample_now) (∅, 0, []) (Data msg) =
         (ids, errs, out).
Proof.
  apply (WritePromMetrics_reference tree_order (λ _, "") accept_all sample_now
           (sample_message "m" "n" {["tag_a" := VString "x"]}) sample_sink sample_now).
  - reflexivity.
  - apply Forall_singleton. split; [vm_compute; discriminate|].
    apply (bool_decide_unpack _). vm_compute. exact I.
  - done.
  - vm_compute. discriminate.
Defined.

Lemma cache_holds_last_message_witness :
  let msg1 := sample_message "m" "n" ∅ in
  let msg2 := sample_message "m" "k" ∅ in
  cached (foldl exec_op sample_sink
    [OpWrite msg1; OpSync "d" "" DeleteOp; OpWrite msg2; OpWrite (sample_message "o" "n" ∅)]) "d" "m" =
  foldl (expect "d" "m") None
    [OpWrite msg1; OpSync "d" "" DeleteOp; OpWrite msg2; OpWrite (sample_message "o" "n" ∅)].
Proof. apply (cache_holds_last_message sample_sink). discriminate. Defined.

Lemma Collect_keeps_cache_witness :
  let w := exec_op sample_sink (OpWrite (sample_message "m" "n" ∅)) in
  cached (Collect tree_order (λ _, "") accept_all (sample_now + 1) w).1.1 "d" "m" =
  cached w "d" "m" ≫= after_scrape (sample_now + 1).
Proof.
  apply Collect_keeps_cache; [|discriminate]. apply keyed_write; [|discriminate].
  intros db metric msg H. unfold cached in H. simpl in H. by rewrite lookup_empty in H.
Defined.
