(* ===== verification/Changes.v ===== *)
(** * Detection of object changes ([internal/reaper/database.go], [metric.go])

    The [change_events] metric compares, per monitored database, a snapshot of object hashes with
    the snapshot of the previous run, kept in [ChangeState], and reports what was created, altered
    and dropped.  The theorems show that a run reports exactly the difference between the two
    snapshots, each change once, with matching counters, that the new snapshot replaces the old
    one, and that the first run is silent.

    A [.(string)] assertion on a value of another type and an index out of range are panics:
    [None].  Rows are Go maps shared between the query result and the report: marking a row as
    changed, and the late assignment of an epoch to the first row, are visible in both, which is
    why a scan returns the rows of the result with a mark instead of copies. *)

From S2P Require Import Prelude GoStrings Metrics.
From stdpp Require Import options.

Local Open Scope Z_scope.

(** ** Results *)

Record ChangeDetectionResults := {
  Target : string;
  Created : Z;
  Altered : Z;
  Dropped : Z;
}.

Definition ChangeDetectionResults_Total (cdr : ChangeDetectionResults) : Z :=
  Created cdr + Altered cdr + Dropped cdr.

Definition ChangeDetectionResults_String (cdr : ChangeDetectionResults) : string :=
  Target cdr +:+ ": " +:+ pretty (Created cdr) +:+ "/" +:+ pretty (Altered cdr) +:+ "/" +:+
  pretty (Dropped cdr).

Definition no_changes (target : string) : ChangeDetectionResults :=
  {| Target := target; Created := 0; Altered := 0; Dropped := 0 |}.

(** The separator of composite identifiers, UTF-8 encoded. *)
Definition dbMetricJoinStr : string := "¤¤¤".

(** ** Reading columns *)

(** [m[k].(string)]. *)
Definition as_string (m : Measurement) (k : string) : option string :=
  match m !! k with Some (VString s) => Some s | _ => None end.

(** The [%s] verb of [fmt] on a value that is meant to be a string. *)
Definition fmt_s (fmt_float : value → string) (v : option value) : string :=
  match v with
  | Some (VString s) => s
  | Some (VOther printed) => printed
  | Some (VInt z) => "%!s(int=" +:+ pretty z +:+ ")"
  | Some (VInt32 z) => "%!s(int32=" +:+ pretty z +:+ ")"
  | Some (VInt64 z) => "%!s(int64=" +:+ pretty z +:+ ")"
  | Some (VFloat32 f) => "%!s(float32=" +:+ fmt_float (VFloat32 f) +:+ ")"
  | Some (VFloat64 f) => "%!s(float64=" +:+ fmt_float (VFloat64 f) +:+ ")"
  | Some (VBool b) => "%!s(bool=" +:+ (if b then "true" else "false") +:+ ")"
  | Some VNil | None => "%!s(<nil>)"
  end.

(** ** Queries *)

(** [QueryMeasurements]: [answer] is what the connection returns for a statement and [clk i] the
    time at which row [i] is scanned; [cause] names the operation that ran into its deadline. *)
Definition QueryMeasurements (answer : string → result (list (list (string * value))))
    (clk : nat → Z) (cause : error) (sql : string) : result Measurements :=
  if is_blank sql then Err (ErrorString "empty SQL")
  else
    match answer sql with
    | Ok rows => Ok (imap (λ i row, RowToMeasurement (clk i) row) rows)
    | Err e =>
        if errors_Is e ErrDeadlineExceeded then Err (WrapError "change_detection_query" cause)
        else Err e
    end.

(** ** Comparing a snapshot with the stored hashes *)

Section detect_hashes.
(** How a detector identifies an object, what it hashes, and how it reports a dropped one. *)
Context (ident hash : Measurement → option string).
Context (drop_row : string → Measurement → option Measurement).

(** The loop over the result: new hashes, the rows with a mark on the reported ones, and the
    numbers of created and altered objects. *)
Fixpoint scan_rows (firstRun : bool) (state : gmap string string) (data : Measurements)
    : option (gmap string string * list (Measurement * bool) * Z * Z) :=
  match data with
  | [] => Some (state, [], 0, 0)
  | dr :: data' =>
      objIdent ← ident dr;
      h ← hash dr;
      match state !! objIdent with
      | Some prevHash =>
          if bool_decide (prevHash ≠ h) then
            '(state, rows, created, altered) ← scan_rows firstRun (<[objIdent := h]> state) data';
            Some (state, (<["event" := VString "alter"]> dr, true) :: rows, created, altered + 1)
          else
            '(state, rows, created, altered) ← scan_rows firstRun state data';
            Some (state, (dr, false) :: rows, created, altered)
      | None =>
          '(state, rows, created, altered) ← scan_rows firstRun (<[objIdent := h]> state) data';
          if firstRun then Some (state, (dr, false) :: rows, created, altered)
          else Some (state, (<["event" := VString "create"]> dr, true) :: rows, created + 1, altered)
      end
  end.

(** The set of identifiers of the current snapshot. *)
Fixpoint current_idents (data : Measurements) : option (gset string) :=
  match data with
  | [] => Some ∅
  | dr :: data' => i ← ident dr; s ← current_idents data'; Some ({[i]} ∪ s)
  end.

(** The loop over the stored hashes: the report of each object that is gone.  [rows] is the query
    result, whose epoch every report takes. *)
Fixpoint scan_dropped (clk : nat → Z) (current : gset string) (stored : list string)
    (rows : Measurements) : option (Measurements * Measurements * list string) :=
  match stored with
  | [] => Some (rows, [], [])
  | i :: stored' =>
      if bool_decide (i ∈ current) then scan_dropped clk current stored' rows
      else
        let '(epoch, rows) := GetEpoch (clk (length stored')) rows in
        entry ← drop_row i (NewMeasurement epoch);
        '(rows, entries, gone) ← scan_dropped clk current stored' rows;
        Some (rows, entry :: entries, i :: gone)
  end.

(** The common course of [DetectSprocChanges], [DetectTableChanges] and [DetectIndexChanges]
    once the data is there. *)
Definition detect_hashes (ro : range_order) (clk : nat → Z) (firstRun : bool) (target : string)
    (state : gmap string string) (data : Measurements)
    : option (gmap string string * ChangeDetectionResults * Measurements) :=
  '(state, marked, created, altered) ← scan_rows firstRun state data;
  if negb firstRun && negb (Z.of_nat (size state) =? len data) then
    current ← current_idents data;
    '(rows, entries, gone) ← scan_dropped clk current (range_keys ro state) marked.*1;
    let state := foldr delete state gone in
    Some (state,
          {| Target := target; Created := created; Altered := altered; Dropped := len gone |},
          (zip rows marked.*2 ≫= λ '(row, mark), if mark : bool then [row] else []) ++ entries)
  else
    Some (state, {| Target := target; Created := created; Altered := altered; Dropped := 0 |},
          (marked ≫= λ '(row, mark), if mark : bool then [row] else [])).
End detect_hashes.

(** ** The detectors *)

Abbreviation ChangeState := (gmap string (gmap string string)).

Section detectors.
Context (metricDefs : gmap string Metric) (sql_order : range_order) (Version : Z).
Context (query : string → result Measurements).
Context (ro : range_order) (clk : nat → Z).
Context (dbname : string) (tags : option (gmap string string)).

(** What is sent when changes were found. *)
Definition changes_envelope (metric : string) (detected : Measurements) : list MeasurementEnvelope :=
  match detected with
  | [] => []
  | _ => [{| DBName := dbname; MetricName := metric; SourceKind := ""; CustomTags := tags;
             Data := detected |}]
  end.

(** The frame the three hash detectors share: first run, definition, query, comparison, report. *)
Definition detect_with (key target metric : string) (ident hash : Measurement → option string)
    (drop_row : string → Measurement → option Measurement) (cs : ChangeState)
    : option (ChangeState * ChangeDetectionResults * list MeasurementEnvelope) :=
  let firstRun := bool_decide (cs !! key = None) in
  let cs := if firstRun then <[key := ∅]> cs else cs in
  match metricDefs !! key with
  | None => Some (cs, no_changes target, [])
  | Some mvp =>
      match query (GetSQL sql_order mvp Version) with
      | Err _ => Some (cs, no_changes target, [])
      | Ok data =>
          '(state, counts, detected) ←
            detect_hashes ident hash drop_row ro clk firstRun target (default ∅ (cs !! key)) data;
          Some (<[key := state]> cs, counts, changes_envelope metric detected)
      end
  end.

Definition sproc_ident (dr : Measurement) : option string :=
  sproc ← as_string dr "tag_sproc"; oid ← as_string dr "tag_oid";
  Some (sproc +:+ dbMetricJoinStr +:+ oid).
Definition sproc_drop (sprocIdent : string) (m : Measurement) : option Measurement :=
  let splits := strings_Split sprocIdent dbMetricJoinStr in
  sproc ← splits !! 0%nat; oid ← splits !! 1%nat;
  Some (<["tag_oid" := VString oid]> (<["tag_sproc" := VString sproc]>
        (<["event" := VString "drop"]> m))).

Definition md5_hash (dr : Measurement) : option string := as_string dr "md5".

Definition DetectSprocChanges : ChangeState →
    option (ChangeState * ChangeDetectionResults * list MeasurementEnvelope) :=
  detect_with "sproc_hashes" "functions" "sproc_changes" sproc_ident md5_hash sproc_drop.

Definition table_ident (dr : Measurement) : option string := as_string dr "tag_table".
Definition table_drop (table : string) (m : Measurement) : option Measurement :=
  Some (<["tag_table" := VString table]> (<["event" := VString "drop"]> m)).

Definition DetectTableChanges : ChangeState →
    option (ChangeState * ChangeDetectionResults * list MeasurementEnvelope) :=
  detect_with "table_hashes" "tables" "table_changes" table_ident md5_hash table_drop.

Definition index_ident (dr : Measurement) : option string := as_string dr "tag_index".
Definition index_hash (dr : Measurement) : option string :=
  md5 ← as_string dr "md5"; is_valid ← as_string dr "is_valid"; Some (md5 +:+ is_valid).
Definition index_drop (indexName : string) (m : Measurement) : option Measurement :=
  Some (<["tag_index" := VString indexName]> (<["event" := VString "drop"]> m)).

Definition DetectIndexChanges : ChangeState →
    option (ChangeState * ChangeDetectionResults * list MeasurementEnvelope) :=
  detect_with "index_hashes" "indexes" "index_changes" index_ident index_hash index_drop.
(** *** Privileges *)

Definition priv_join : string := "#:#".
Context (fmt_float : value → string).

Definition priv_ident (dr : Measurement) : string :=
  strings_Join (fmt_s fmt_float <$>
    [dr !! "object_type"; dr !! "tag_role"; dr !! "tag_object"; dr !! "privilege_type"]) priv_join.

(** The loop over the granted privileges: stored state, marked rows, number of grants, and the
    current state (not kept on the first run). *)
Fixpoint scan_grants (firstRun : bool) (state : gmap string string) (data : Measurements)
    : gmap string string * list (Measurement * bool) * Z * gset string :=
  match data with
  | [] => (state, [], 0, ∅)
  | dr :: data' =>
      let objIdent := priv_ident dr in
      if firstRun then
        let '(state, rows, created, current) := scan_grants firstRun (<[objIdent := ""]> state) data' in
        (state, (dr, false) :: rows, created, current)
      else
        match state !! objIdent with
        | None =>
            let '(state, rows, created, current) :=
              scan_grants firstRun (<[objIdent := ""]> state) data' in
            (state, (<["event" := VString "GRANT"]> dr, true) :: rows, created + 1,
             {[objIdent]} ∪ current)
        | Some _ =>
            let '(state, rows, created, current) := scan_grants firstRun state data' in
            (state, (dr, false) :: rows, created, {[objIdent]} ∪ current)
        end
  end.

Definition priv_drop (objPrevRun : string) (m : Measurement) : option Measurement :=
  let splits := strings_Split objPrevRun priv_join in
  s0 ← splits !! 0%nat; s1 ← splits !! 1%nat; s2 ← splits !! 2%nat; s3 ← splits !! 3%nat;
  Some (<["event" := VString "REVOKE"]> (<["privilege_type" := VString s3]>
        (<["tag_object" := VString s2]> (<["tag_role" := VString s1]>
        (<["object_type" := VString s0]> m))))).

Definition detect_privileges (firstRun : bool) (state : gmap string string) (data : Measurements)
    : option (gmap string string * ChangeDetectionResults * Measurements) :=
  let '(state, marked, created, current) := scan_grants firstRun state data in
  if negb firstRun && (0 <? Z.of_nat (size current)) then
    '(rows, entries, gone) ← scan_dropped priv_drop clk current (range_keys ro state) marked.*1;
    let state := foldr delete state gone in
    Some (state, {| Target := "privileges"; Created := created; Altered := 0; Dropped := len gone |},
          (zip rows marked.*2 ≫= λ '(row, mark), if mark : bool then [row] else []) ++ entries)
  else
    Some (state, {| Target := "privileges"; Created := created; Altered := 0; Dropped := 0 |},
          (marked ≫= λ '(row, mark), if mark : bool then [row] else [])).

Definition DetectPrivilegeChanges (cs : ChangeState)
    : option (ChangeState * ChangeDetectionResults * list MeasurementEnvelope) :=
  let firstRun := bool_decide (cs !! "object_privileges" = None) in
  let cs := if firstRun then <["object_privileges" := ∅]> cs else cs in
  match metricDefs !! "privilege_changes" with
  | None => Some (cs, no_changes "privileges", [])
  | Some mvp =>
      let sql := GetSQL sql_order mvp Version in
      if bool_decide (sql = "") then Some (cs, no_changes "privileges", [])
      else
        match query sql with
        | Err _ => Some (cs, no_changes "privileges", [])
        | Ok data =>
            '(state, counts, detected) ←
              detect_privileges firstRun (default ∅ (cs !! "object_privileges")) data;
            Some (<["object_privileges" := state]> cs, counts,
                  changes_envelope "privilege_changes" detected)
        end
  end.

(** *** Settings *)

Definition setting_row (epoch : Z) (objIdent objValue event : string) : Measurement :=
  <["event" := VString event]> (<["value" := VString objValue]>
  (<["tag_setting" := VString objIdent]> {[EpochColumnName := VInt64 epoch]})).

(** The loop over [rows]: the flag tells whether a row could not be scanned, which ends the
    detection without a report. *)
Fixpoint scan_settings (firstRun : bool) (state : gmap string string)
    (rows : list (option (Z * string * string)))
    : gmap string string * Measurements * Z * Z * bool :=
  match rows with
  | [] => (state, [], 0, 0, false)
  | None :: _ => (state, [], 0, 0, true)
  | Some (epoch, objIdent, objValue) :: rows' =>
      match state !! objIdent with
      | Some prevHash =>
          if bool_decide (prevHash ≠ objValue) then
            let '(state, detected, created, altered, failed) :=
              scan_settings firstRun (<[objIdent := objValue]> state) rows' in
            (state, setting_row epoch objIdent objValue "alter" :: detected, created, altered + 1, failed)
          else scan_settings firstRun state rows'
      | None =>
          let '(state, detected, created, altered, failed) :=
            scan_settings firstRun (<[objIdent := objValue]> state) rows' in
          if firstRun then (state, detected, created, altered, failed)
          else (state, setting_row epoch objIdent objValue "create" :: detected, created + 1, altered,
                failed)
      end
  end.

Context (settings_query : string → result (list (option (Z * string * string)))).

Definition DetectConfigurationChanges (cs : ChangeState)
    : ChangeState * ChangeDetectionResults * list MeasurementEnvelope :=
  let firstRun := bool_decide (cs !! "configuration_hashes" = None) in
  let cs := if firstRun then <["configuration_hashes" := ∅]> cs else cs in
  match metricDefs !! "configuration_hashes" with
  | None => (cs, no_changes "settings", [])
  | Some mvp =>
      match settings_query (GetSQL sql_order mvp Version) with
      | Err _ => (cs, no_changes "settings", [])
      | Ok rows =>
          let '(state, detected, created, altered, failed) :=
            scan_settings firstRun (default ∅ (cs !! "configuration_hashes")) rows in
          (<["configuration_hashes" := state]> cs,
           {| Target := "settings"; Created := created; Altered := altered; Dropped := 0 |},
           if failed then [] else changes_envelope "configuration_changes" detected)
      end
  end.

(** *** The sweep *)

(** [GetObjectChangesMeasurement]: all detectors in order, then a summary row if anything
    changed; the third component is what the detectors sent to the measurement channel. *)
Definition GetObjectChangesMeasurement (now : Z) (cs : ChangeState)
    : option (ChangeState * Measurements * list MeasurementEnvelope) :=
  '(cs, spN, out1) ← DetectSprocChanges cs;
  '(cs, tblN, out2) ← DetectTableChanges cs;
  '(cs, idxN, out3) ← DetectIndexChanges cs;
  let '(cs, cnfN, out4) := DetectConfigurationChanges cs in
  '(cs, privN, out5) ← DetectPrivilegeChanges cs;
  let out := out1 ++ out2 ++ out3 ++ out4 ++ out5 in
  let total := ChangeDetectionResults_Total spN + ChangeDetectionResults_Total tblN +
    ChangeDetectionResults_Total idxN + ChangeDetectionResults_Total cnfN +
    ChangeDetectionResults_Total privN in
  if total =? 0 then Some (cs, [], out)
  else
    let details := strings_Join (ChangeDetectionResults_String <$> [spN; tblN; idxN; cnfN; privN]) " " in
    Some (cs, [<["details" := VString details]> (NewMeasurement now)], out).
End detectors.

(** [GetInstanceUpMeasurement]. *)
Definition GetInstanceUpMeasurement (now : Z) (ping : option error) : Measurements :=
  [<["instance_up" := VInt (if match ping with None => true | Some _ => false end then 1 else 0)]>
     {[EpochColumnName := VInt64 now]}].

(** ** The specification: the difference of two snapshots *)

(** What happened to an object with the given old and new hash. *)
Definition change_kind (old new : option string) : option string :=
  match old, new with
  | None, Some _ => Some "create"
  | Some a, Some b => if bool_decide (a ≠ b) then Some "alter" else None
  | Some _, None => Some "drop"
  | None, None => None
  end.

Definition diff (old new : gmap string string) : gmap string string := merge change_kind old new.

(** How many objects of a difference underwent the change [kind]. *)
Definition count_kind (kind : string) (d : gmap string string) : Z :=
  len (filter (λ p, p.2 = kind) (map_to_list d)).

Definition diff_counts (target : string) (d : gmap string string) : ChangeDetectionResults :=
  {| Target := target; Created := count_kind "create" d; Altered := count_kind "alter" d;
     Dropped := count_kind "drop" d |}.

Lemma lookup_diff old new i : diff old new !! i = change_kind (old !! i) (new !! i).
Proof. unfold diff. rewrite lookup_merge. by destruct (old !! i), (new !! i). Qed.

Lemma diff_same s : diff s s = ∅.
Proof.
  apply map_eq. intros i. rewrite lookup_diff, lookup_empty.
  destruct (s !! i) as [h|]; simpl; [|done]. by case_bool_decide.
Qed.

Section detect_hashes_correct.
Context (ident hash : Measurement → option string).
Context (drop_row : string → Measurement → option Measurement).
(** The identifier of a row depends neither on its event nor on its epoch. *)
Hypothesis ident_insert : ∀ m k v, k = "event" ∨ k = EpochColumnName → ident (<[k := v]> m) = ident m.

Definition event (m : Measurement) : option string := as_string m "event".
Definition report (m : Measurement) : option string * option string := (ident m, event m).
Definition reported (p : string * string) : option string * option string := (Some p.1, Some p.2).

(** A dropped object is reported under its own identifier. *)
Definition drop_ok (i : string) : Prop :=
  ∀ m, ∃ m', drop_row i m = Some m' ∧ report m' = reported (i, "drop").

Definition snapshot_of (data : Measurements) (ihs : list (string * string)) : Prop :=
  Forall2 (λ dr p, ident dr = Some p.1 ∧ hash dr = Some p.2) data ihs.

(** The changes that the rows of the snapshot show. *)
Definition changes_of (old : gmap string string) (ihs : list (string * string))
    : list (string * string) :=
  omap (λ p, e ← change_kind (old !! p.1) (Some p.2); Some (p.1, e)) ihs.

Definition marks (marked : list (Measurement * bool)) : Measurements :=
  marked ≫= λ '(row, mark), if mark : bool then [row] else [].

Definition kinds (kind : string) (l : list (string * string)) : Z :=
  len (filter (λ p, p.2 = kind) l).

Lemma kinds_cons kind i e l :
  kinds kind ((i, e) :: l) = kinds kind l + (if bool_decide (e = kind) then 1 else 0).
Proof using Type.
  unfold kinds. rewrite filter_cons. simpl. case_decide; case_bool_decide; simpl; solve [done | lia].
Qed.

Lemma report_event m i e : ident m = Some i →
  report (<["event" := VString e]> m) = reported (i, e).
Proof using ident_insert.
  intros Hi. unfold report, reported, event, as_string. rewrite ident_insert, lookup_insert_eq by auto.
  simpl. by rewrite Hi.
Qed.

Lemma changes_of_fresh old i h ihs :
  i ∉ ihs.*1 → changes_of (<[i := h]> old) ihs = changes_of old ihs.
Proof using Type.
  intros Hi. unfold changes_of. induction ihs as [|[i' h'] ihs IH]; csimpl; [done|].
  csimpl in Hi. apply not_elem_of_cons in Hi as [Hne Hi].
  rewrite lookup_insert_ne by done. by rewrite IH.
Qed.

Lemma scan_rows_spec old data ihs :
  snapshot_of data ihs → NoDup ihs.*1 →
  ∃ marked, scan_rows ident hash false old data =
    Some (list_to_map ihs ∪ old, marked, kinds "create" (changes_of old ihs),
          kinds "alter" (changes_of old ihs)) ∧
    report <$> marks marked = reported <$> changes_of old ihs ∧
    length marked = length data.
Proof using ident_insert.
  intros Hs. revert old. induction Hs as [|dr [i h] data ihs [Hi Hh] Hs IH]; intros old Hnd.
  { exists []. simpl. by rewrite (left_id_L ∅ (∪)). }
  csimpl in Hnd. apply NoDup_cons in Hnd as [Hfresh Hnd]. simpl in Hi, Hh.
  assert (∀ o : gmap string string, list_to_map ihs ∪ <[i := h]> o = list_to_map ((i, h) :: ihs) ∪ o) as Hunion.
  { intros o. simpl. rewrite <-insert_union_l. rewrite insert_union_r; [done|].
    by apply not_elem_of_list_to_map_1. }
  assert (list_to_map (M := gmap string string) ihs !! i = None) as Hnone
    by (by apply not_elem_of_list_to_map_1).
  simpl scan_rows. rewrite Hi, Hh. simpl. unfold changes_of. csimpl.
  destruct (old !! i) as [p|] eqn:Eo; simpl; [case_bool_decide as Hp; simpl|].
  - destruct (IH (<[i := h]> old) Hnd) as (marked & -> & Hrep & Hlen). simpl.
    rewrite changes_of_fresh in Hrep |- * by done. eexists. split; [|split].
    + rewrite Hunion, !kinds_cons. simpl. by rewrite Z.add_0_r.
    + csimpl. rewrite (report_event _ i) by done. by rewrite Hrep.
    + simpl. by rewrite Hlen.
  - destruct (IH old Hnd) as (marked & -> & Hrep & Hlen). simpl. eexists. split; [|split].
    + do 4 f_equal. apply map_eq. intros k. rewrite !lookup_union.
      destruct (decide (k = i)) as [->|]; [|by rewrite lookup_insert_ne].
      rewrite lookup_insert_eq, Hnone, Eo. by rewrite Hp.
    + done.
    + simpl. by rewrite Hlen.
  - destruct (IH (<[i := h]> old) Hnd) as (marked & -> & Hrep & Hlen). simpl.
    rewrite changes_of_fresh in Hrep |- * by done. eexists. split; [|split].
    + rewrite Hunion, !kinds_cons. simpl. by rewrite Z.add_0_r.
    + csimpl. rewrite (report_event _ i) by done. by rewrite Hrep.
    + simpl. by rewrite Hlen.
Qed.

Lemma current_idents_spec data ihs :
  snapshot_of data ihs → current_idents ident data = Some (list_to_set ihs.*1).
Proof using Type.
  induction 1 as [|dr [i h] data ihs [Hi Hh] Hs IH]; [done|]. simpl in *. by rewrite Hi, IH.
Qed.
Definition same_report (r r' : Measurement) : Prop := report r' = report r.

Lemma GetEpoch_same now rows : Forall2 same_report rows (GetEpoch now rows).2.
Proof using ident_insert.
  assert (∀ l, Forall2 same_report l l) as Hrefl by (induction l; by constructor).
  destruct rows as [|m rows]; simpl; [constructor|]. unfold Measurement_GetEpoch.
  assert (same_report m (<[EpochColumnName := VInt64 now]> m)) as Hm.
  { unfold same_report, report, event, as_string. rewrite ident_insert by auto.
    by rewrite lookup_insert_ne. }
  split_matches; by constructor.
Qed.

Lemma scan_dropped_spec clk current stored rows :
  (∀ i, i ∈ stored → i ∉ current → drop_ok i) →
  ∃ rows' entries,
    scan_dropped drop_row clk current stored rows =
      Some (rows', entries, filter (λ i, i ∉ current) stored) ∧
    report <$> entries = reported <$> ((λ i, (i, "drop")) <$> filter (λ i, i ∉ current) stored) ∧
    Forall2 same_report rows rows'.
Proof using ident_insert.
  revert rows. induction stored as [|i stored IH]; intros rows Hok; simpl.
  { exists rows, []. split_and!; [done..|]. induction rows; by constructor. }
  rewrite filter_cons. case_bool_decide as Hi.
  - rewrite decide_False by (intros Hn; by apply Hn). apply IH. intros j Hj. apply Hok. by right.
  - rewrite decide_True by done. pose proof (GetEpoch_same (clk (length stored)) rows) as Hsame.
    destruct (GetEpoch (clk (length stored)) rows) as [epoch rows1]. simpl in Hsame.
    destruct (Hok i) with (m := NewMeasurement epoch) as (m' & -> & Hm'); [by left|done|]. simpl.
    destruct (IH rows1) as (rows' & entries & -> & He & Hs); [intros j Hj; apply Hok; by right|].
    simpl. exists rows', (m' :: entries). split_and!; [done| |].
    + csimpl. by rewrite Hm', He.
    + revert Hs. clear -Hsame. revert rows'. induction Hsame as [|a b l k Hab Hlk IH];
        intros rows' Hs; inversion Hs; subst; constructor; [unfold same_report in *; congruence|auto].
Qed.

Lemma marks_same marked rows :
  Forall2 same_report marked.*1 rows →
  report <$> marks (zip rows marked.*2) = report <$> marks marked.
Proof using Type.
  revert rows. induction marked as [|[r b] marked IH]; intros rows Hs; csimpl in *;
    inversion Hs as [|? r' ? rows' Hr Hs']; subst; [done|]. csimpl.
  destruct b; csimpl; [|by apply IH]. by rewrite Hr, IH.
Qed.

Lemma changes_of_NoDup old ihs : NoDup ihs.*1 → NoDup (changes_of old ihs).
Proof using Type.
  intros Hnd. apply (NoDup_fmap_1 fst). unfold changes_of.
  induction ihs as [|[i h] ihs IH]; csimpl; [constructor|]. csimpl in Hnd.
  apply NoDup_cons in Hnd as [Hi Hnd]. destruct (change_kind _ _); csimpl; [|auto].
  constructor; [|auto]. intros ([j e] & -> & Hin)%list_elem_of_fmap.
  apply list_elem_of_omap in Hin as ([j' h'] & Hin & Hk). simpl in Hk.
  destruct (change_kind _ _); simplify_eq/=. apply Hi. by apply (list_elem_of_fmap_2 fst) in Hin.
Qed.

Lemma elem_of_changes_of old ihs i e :
  NoDup ihs.*1 →
  (i, e) ∈ changes_of old ihs ↔
    ∃ h, (list_to_map ihs : gmap string string) !! i = Some h ∧
         change_kind (old !! i) (Some h) = Some e.
Proof using Type.
  intros Hnd. unfold changes_of. rewrite list_elem_of_omap.
  setoid_rewrite <-(elem_of_list_to_map (M := gmap string) ihs); [|done]. split.
  - intros ([j h] & Hin & Hk). simpl in Hk.
    destruct (change_kind (old !! j) (Some h)) eqn:Ek; simplify_eq/=. eauto.
  - intros (h & Hin & Hk). exists (i, h). split; [done|]. simpl. by rewrite Hk.
Qed.

(** The objects that are only known from the previous run. *)
Definition gone_idents (ro : range_order) (old : gmap string string) (ihs : list (string * string))
    : list string :=
  filter (λ i, i ∉ list_to_set (C := gset string) ihs.*1) (range_keys ro (list_to_map ihs ∪ old)).

Lemma elem_of_gone ro old ihs i :
  i ∈ gone_idents ro old ihs ↔
    (list_to_map ihs : gmap string string) !! i = None ∧ is_Some (old !! i).
Proof using Type.
  unfold gone_idents. rewrite list_elem_of_filter, elem_of_list_to_set, elem_of_range_keys.
  rewrite (not_elem_of_list_to_map (M := gmap string) ihs i), lookup_union_is_Some.
  split; [|by intros [??]; auto]. intros [Hn [[h Hh]|Ho]]; [by rewrite Hh in Hn|done].
Qed.

(** The difference as the changes of the snapshot's rows plus the objects that are gone. *)
Lemma diff_split ro old ihs :
  NoDup ihs.*1 →
  changes_of old ihs ++ ((λ i, (i, "drop")) <$> gone_idents ro old ihs)
  ≡ₚ map_to_list (diff old (list_to_map ihs)).
Proof using Type.
  intros Hnd. apply NoDup_Permutation.
  - apply NoDup_app. split_and!; [by apply changes_of_NoDup| |].
    + intros [i e] (h & Hh & _)%elem_of_changes_of (j & [= -> ->] & Hin)%list_elem_of_fmap; [|done].
      apply elem_of_gone in Hin as [Hn _]. congruence.
    + apply NoDup_fmap; [by intros ?? [= ->]|]. apply NoDup_filter, NoDup_range_keys.
  - apply NoDup_map_to_list.
  - intros [i e]. rewrite elem_of_app, elem_of_changes_of, elem_of_map_to_list, lookup_diff,
      list_elem_of_fmap by done.
    setoid_rewrite elem_of_gone.
    destruct (list_to_map ihs !! i) as [h|] eqn:En; simpl; split.
    + intros [(h' & [= <-] & ?)|(j & [= -> ->] & ? & ?)]; [done|congruence].
    + intros ?. left. eauto.
    + intros [(h' & ? & ?)|(j & [= -> ->] & ? & [p ->])]; done.
    + destruct (old !! i) as [p|] eqn:Eo; [|done]. intros [= <-]. right. exists i. eauto.
Qed.

Lemma foldr_delete_gone ro old ihs :
  foldr delete (list_to_map ihs ∪ old) (gone_idents ro old ihs) = (list_to_map ihs : gmap string string).
Proof using Type.
  apply map_eq. intros i. destruct (decide (i ∈ gone_idents ro old ihs)) as [Hin|Hn].
  - rewrite lookup_foldr_delete by done. by apply elem_of_gone in Hin as [-> _].
  - rewrite lookup_foldr_delete_not_elem_of by done. rewrite elem_of_gone in Hn. rewrite lookup_union.
    destruct (list_to_map ihs !! i) as [h|] eqn:En; [by destruct (old !! i)|].
    destruct (old !! i) eqn:Eo; [|done]. exfalso. apply Hn. eauto.
Qed.

(** When the stored map is as large as the result, nothing is gone: skipping the second loop
    changes nothing. *)
Lemma gone_nil ro old ihs :
  NoDup ihs.*1 → size (list_to_map ihs ∪ old : gmap string string) = length ihs →
  gone_idents ro old ihs = [].
Proof using Type.
  intros Hnd Hsize. destruct (gone_idents ro old ihs) as [|i l] eqn:E; [done|exfalso].
  assert (i ∈ gone_idents ro old ihs) as [Hn [h Hh]]%elem_of_gone by (rewrite E; by left).
  assert (<[i := h]> (list_to_map ihs) ⊆ (list_to_map ihs ∪ old : gmap string string)) as Hsub.
  { apply insert_subseteq_l; [|apply map_union_subseteq_l]. rewrite lookup_union, Hn, Hh. done. }
  apply map_subseteq_size in Hsub. rewrite map_size_insert_None in Hsub by done.
  rewrite map_size_list_to_map in Hsub by done. lia.
Qed.

Lemma kinds_perm kind l d : l ≡ₚ map_to_list d → kinds kind l = count_kind kind d.
Proof using Type. unfold kinds, count_kind. by intros ->. Qed.

Lemma kinds_drop kind l :
  kinds kind ((λ i, (i, "drop")) <$> l) = if bool_decide (kind = "drop") then len l else 0.
Proof using Type.
  induction l as [|i l IH]; [by case_bool_decide|]. csimpl. rewrite kinds_cons, IH.
  repeat case_bool_decide; subst; simpl; try done; lia.
Qed.

Lemma kinds_app kind l1 l2 : kinds kind (l1 ++ l2) = kinds kind l1 + kinds kind l2.
Proof using Type. unfold kinds. rewrite filter_app, length_app. lia. Qed.

Lemma changes_of_no_drop old ihs : kinds "drop" (changes_of old ihs) = 0.
Proof using Type.
  unfold changes_of. induction ihs as [|[i h] ihs IH]; csimpl; [done|].
  destruct (old !! i) as [p|]; simpl; [case_bool_decide; simpl; [|done]|]; by rewrite kinds_cons, IH.
Qed.
(** A comparison of [data] with the hashes [old] of an earlier run replaces them by the snapshot
    and reports the difference, each change once. *)
Definition reports_diff (target : string) (old new : gmap string string)
    (r : option (gmap string string * ChangeDetectionResults * Measurements)) : Prop :=
  ∃ detected, r = Some (new, diff_counts target (diff old new), detected) ∧
    report <$> detected ≡ₚ reported <$> map_to_list (diff old new).

Lemma detect_hashes_diff ro clk target old data ihs :
  snapshot_of data ihs → NoDup ihs.*1 → (∀ i, is_Some (old !! i) → drop_ok i) →
  reports_diff target old (list_to_map ihs)
    (detect_hashes ident hash drop_row ro clk false target old data).
Proof using ident_insert.
  intros Hs Hnd Hok. pose proof (diff_split ro old ihs Hnd) as Hd.
  assert (∀ kind, kinds kind (changes_of old ihs) +
            (if bool_decide (kind = "drop") then len (gone_idents ro old ihs) else 0) =
          count_kind kind (diff old (list_to_map ihs))) as Hcount.
  { intros kind. rewrite <-(kinds_perm kind _ _ Hd), kinds_app, kinds_drop. done. }
  pose proof (Hcount "create") as Hc. pose proof (Hcount "alter") as Ha.
  pose proof (Hcount "drop") as Hdr. rewrite changes_of_no_drop in Hdr. simpl in Hc, Ha, Hdr.
  unfold detect_hashes.
  destruct (scan_rows_spec old data ihs Hs Hnd) as (marked & -> & Hrep & Hlen). simpl.
  destruct (Z.eqb_spec (Z.of_nat (size (list_to_map ihs ∪ old : gmap string string))) (len data)) as [Hsz|_];
    simpl.
  - assert (gone_idents ro old ihs = []) as Hgone.
    { apply gone_nil; [done|]. apply Forall2_length in Hs. lia. }
    pose proof (foldr_delete_gone ro old ihs) as Hst. rewrite Hgone in Hst, Hd, Hdr. simpl in Hst, Hdr.
    csimpl in Hd. rewrite app_nil_r in Hd. eexists. split.
    + rewrite Hst. unfold diff_counts. by rewrite <-Hc, <-Ha, <-Hdr, !Z.add_0_r.
    + fold (marks marked). by rewrite Hrep, Hd.
  - rewrite (current_idents_spec data ihs Hs). simpl.
    edestruct (scan_dropped_spec clk (list_to_set ihs.*1) (range_keys ro (list_to_map ihs ∪ old))
      marked.*1) as (rows' & entries & -> & He & Hsame).
    { intros i Hi Hn. apply Hok. eapply (proj1 (elem_of_gone ro old ihs i)).
      apply list_elem_of_filter. by split. }
    simpl. fold (gone_idents ro old ihs) in He |- *. rewrite (foldr_delete_gone ro old ihs).
    eexists. split; [unfold diff_counts; by rewrite <-Hc, <-Ha, <-Hdr, !Z.add_0_r|].
    fold (marks (zip rows' marked.*2)). rewrite fmap_app, (marks_same _ _ Hsame), Hrep, He.
    by rewrite <-fmap_app, Hd.
Qed.

(** The first run stores the snapshot and reports nothing. *)
Lemma scan_rows_first old data ihs :
  snapshot_of data ihs → NoDup ihs.*1 → (∀ i, i ∈ ihs.*1 → old !! i = None) →
  ∃ marked, scan_rows ident hash true old data = Some (list_to_map ihs ∪ old, marked, 0, 0) ∧
    marks marked = [].
Proof using Type.
  intros Hs. revert old. induction Hs as [|dr [i h] data ihs [Hi Hh] Hs IH]; intros old Hnd Hnew.
  { exists []. simpl. by rewrite (left_id_L ∅ (∪)). }
  csimpl in Hnd. apply NoDup_cons in Hnd as [Hfresh Hnd]. simpl in Hi, Hh |- *.
  rewrite Hi, Hh. simpl. rewrite (Hnew i) by (csimpl; by left).
  destruct (IH (<[i := h]> old) Hnd) as (marked & -> & Hm).
  { intros j Hj. rewrite lookup_insert_ne by congruence. apply Hnew. csimpl. by right. }
  simpl. rewrite <-insert_union_l, insert_union_r by (by apply not_elem_of_list_to_map_1).
  eexists. split; [done|]. by csimpl.
Qed.

Lemma detect_hashes_first ro clk target data ihs :
  snapshot_of data ihs → NoDup ihs.*1 →
  detect_hashes ident hash drop_row ro clk true target ∅ data =
    Some (list_to_map ihs, no_changes target, []).
Proof using Type.
  intros Hs Hnd. unfold detect_hashes.
  destruct (scan_rows_first ∅ data ihs Hs Hnd) as (marked & -> & Hm); [intros; apply lookup_empty|].
  simpl. fold (marks marked). by rewrite Hm, (right_id_L ∅ (∪)).
Qed.
End detect_hashes_correct.

(** ** The hash detectors *)

Section hash_detectors.
Context (metricDefs : gmap string Metric) (sql_order : range_order) (Version : Z).
Context (query : string → result Measurements).
Context (ro : range_order) (clk : nat → Z).
Context (dbname : string) (tags : option (gmap string string)).
Implicit Types (cs : ChangeState) (old : gmap string string).

(** The query of the metric [key] returned [data]. *)
Definition fetched (key : string) (data : Measurements) : Prop :=
  ∃ mvp, metricDefs !! key = Some mvp ∧ query (GetSQL sql_order mvp Version) = Ok data.

(** The detector replaced the stored snapshot and sent the difference. *)
Definition detects (key target metric : string) (ident : Measurement → option string) cs
    (old new : gmap string string)
    (r : option (ChangeState * ChangeDetectionResults * list MeasurementEnvelope)) : Prop :=
  ∃ detected,
    r = Some (<[key := new]> cs, diff_counts target (diff old new),
              changes_envelope dbname tags metric detected) ∧
    report ident <$> detected ≡ₚ reported <$> map_to_list (diff old new).

Section generic.
Context (key target metric : string) (ident hash : Measurement → option string).
Context (drop_row : string → Measurement → option Measurement).
Hypothesis ident_insert : ∀ m k v, k = "event" ∨ k = EpochColumnName → ident (<[k := v]> m) = ident m.
Context (data : Measurements) (ihs : list (string * string)).
Hypothesis data_fetched : fetched key data.
Hypothesis data_snapshot : snapshot_of ident hash data ihs.
Hypothesis data_NoDup : NoDup ihs.*1.

Let run := detect_with metricDefs sql_order Version query ro clk dbname tags key target metric
  ident hash drop_row.

Lemma detect_with_diff cs old :
  cs !! key = Some old → (∀ i, is_Some (old !! i) → drop_ok ident drop_row i) →
  detects key target metric ident cs old (list_to_map ihs) (run cs).
Proof using All.
  intros Hcs Hok. destruct data_fetched as (mvp & Hm & Hq). unfold run, detect_with.
  rewrite Hm, Hq, Hcs. simpl. rewrite Hcs. simpl.
  destruct (detect_hashes_diff ident hash drop_row ident_insert ro clk target old data ihs
    data_snapshot data_NoDup Hok) as (detected & -> & Hrest).
  exists detected. by split.
Qed.

Lemma detect_with_first cs :
  cs !! key = None → run cs = Some (<[key := list_to_map ihs]> cs, no_changes target, []).
Proof using data_fetched data_snapshot data_NoDup.
  intros Hcs. destruct data_fetched as (mvp & Hm & Hq). unfold run, detect_with.
  rewrite Hm, Hq, Hcs. simpl. rewrite lookup_insert_eq. simpl.
  rewrite (detect_hashes_first ident hash drop_row ro clk target data ihs) by done. simpl.
  by rewrite insert_insert_eq.
Qed.

(** Against its own snapshot a detector is silent. *)
Lemma detect_with_silent cs :
  cs !! key = Some (list_to_map ihs) →
  (∀ i, i ∈ ihs.*1 → drop_ok ident drop_row i) →
  run cs = Some (cs, no_changes target, []).
Proof using All.
  intros Hcs Hok. destruct (detect_with_diff cs _ Hcs) as (detected & -> & Hrep).
  { intros i Hi. apply Hok. destruct (decide (i ∈ ihs.*1)) as [|Hn]; [done|].
    apply (not_elem_of_list_to_map_1 (M := gmap string)) in Hn. rewrite Hn in Hi. by destruct Hi. }
  rewrite diff_same in Hrep |- *. rewrite map_to_list_empty in Hrep.
  apply Permutation_nil_r in Hrep. apply fmap_nil_inv in Hrep as ->. by rewrite insert_id.
Qed.
End generic.

Lemma as_string_insert m k k' v : k ≠ k' → as_string (<[k := v]> m) k' = as_string m k'.
Proof using Type. intros. unfold as_string. by rewrite lookup_insert_ne. Qed.

Lemma table_ident_insert m k v :
  k = "event" ∨ k = EpochColumnName → table_ident (<[k := v]> m) = table_ident m.
Proof using Type. intros [-> | ->]; by apply as_string_insert. Qed.
Lemma index_ident_insert m k v :
  k = "event" ∨ k = EpochColumnName → index_ident (<[k := v]> m) = index_ident m.
Proof using Type. intros [-> | ->]; by apply as_string_insert. Qed.
Lemma sproc_ident_insert m k v :
  k = "event" ∨ k = EpochColumnName → sproc_ident (<[k := v]> m) = sproc_ident m.
Proof using Type. intros [-> | ->]; unfold sproc_ident; by rewrite !as_string_insert. Qed.

Lemma table_drop_ok i : drop_ok table_ident table_drop i.
Proof using Type.
  intros m. eexists. split; [done|]. unfold report, event, table_ident, as_string. by simplify_map_eq.
Qed.
Lemma index_drop_ok i : drop_ok index_ident index_drop i.
Proof using Type.
  intros m. eexists. split; [done|]. unfold report, event, index_ident, as_string. by simplify_map_eq.
Qed.

(** A procedure's name is followed by the first separator of its identifier. *)
Definition sproc_key (i : string) : Prop :=
  ∃ sproc oid, i = sproc +:+ dbMetricJoinStr +:+ oid ∧
    str_cut dbMetricJoinStr (sproc +:+ dbMetricJoinStr) = Some (sproc, "") ∧
    str_cut dbMetricJoinStr oid = None.

Lemma sproc_drop_ok i : sproc_key i → drop_ok sproc_ident sproc_drop i.
Proof using Type.
  intros (sproc & oid & -> & Hs & Ho) m. unfold sproc_drop.
  assert (strings_Split (sproc +:+ dbMetricJoinStr +:+ oid) dbMetricJoinStr = [sproc; oid]) as Hsplit.
  { apply (strings_Split_Join dbMetricJoinStr [sproc] oid); [done| |done]. by constructor. }
  rewrite Hsplit. simpl. eexists. split; [done|].
  unfold report, event, sproc_ident, as_string. by simplify_map_eq.
Qed.
End hash_detectors.

(** ** Privileges and settings *)

Section privileges.
Context (fmt_float : value → string) (ro : range_order) (clk : nat → Z).
Implicit Types (state : gmap string string) (data : Measurements).

Definition priv_idents data : gset string := list_to_set (priv_ident fmt_float <$> data).

(** The stored privileges agree with the result of the query.  An empty result is not compared. *)
Definition privileges_settled state data : Prop :=
  (∀ i, i ∈ priv_idents data → is_Some (state !! i)) ∧
  (data = [] ∨ ∀ i, is_Some (state !! i) → i ∈ priv_idents data).

Lemma scan_grants_state firstRun state data :
  let '(state', _, _, current) := scan_grants fmt_float firstRun state data in
  (∀ i, is_Some (state' !! i) ↔ is_Some (state !! i) ∨ i ∈ priv_idents data) ∧
  current = if firstRun then ∅ else priv_idents data.
Proof using Type.
  unfold priv_idents. revert state. induction data as [|dr data IH]; intros state; csimpl.
  { split; [|by destruct firstRun]. set_solver. }
  set (i := priv_ident fmt_float dr). destruct firstRun.
  - specialize (IH (<[i := ""]> state)). destruct (scan_grants _ _ _ _) as [[[state' rows] n] cur].
    destruct IH as [IH ->]. split; [|done]. intros j. rewrite IH, lookup_insert_is_Some'. set_solver.
  - destruct (state !! i) as [v|] eqn:E.
    + specialize (IH state). destruct (scan_grants _ _ _ _) as [[[state' rows] n] cur].
      destruct IH as [IH ->]. split; [|done]. intros j. rewrite IH.
      assert (is_Some (state !! i)) by eauto. set_solver.
    + specialize (IH (<[i := ""]> state)). destruct (scan_grants _ _ _ _) as [[[state' rows] n] cur].
      destruct IH as [IH ->]. split; [|done]. intros j. rewrite IH, lookup_insert_is_Some'. set_solver.
Qed.

Lemma scan_grants_silent state data :
  (∀ i, i ∈ priv_idents data → is_Some (state !! i)) →
  scan_grants fmt_float false state data = (state, (λ dr, (dr, false)) <$> data, 0, priv_idents data).
Proof using Type.
  unfold priv_idents. induction data as [|dr data IH]; intros Hin; csimpl; [done|].
  destruct (Hin (priv_ident fmt_float dr)) as [v ->]; [set_solver|].
  rewrite IH; [done|]. intros i Hi. apply Hin. set_solver.
Qed.

Lemma unmarked (data : Measurements) :
  (((λ dr, (dr, false)) <$> data) ≫= λ '(row, mark), if mark : bool then [row] else []) = [].
Proof using Type. by induction data. Qed.

Lemma scan_dropped_none drop_row current stored rows :
  (∀ i, i ∈ stored → i ∈ current) → scan_dropped drop_row clk current stored rows = Some (rows, [], []).
Proof using Type.
  induction stored as [|i stored IH]; intros Hin; simpl; [done|].
  rewrite bool_decide_eq_true_2 by (apply Hin; by left). apply IH. intros j Hj. apply Hin. by right.
Qed.

Lemma detect_privileges_silent state data :
  privileges_settled state data →
  detect_privileges ro clk fmt_float false state data = Some (state, no_changes "privileges", []).
Proof using Type.
  intros [Hin Hor]. unfold detect_privileges. rewrite scan_grants_silent by done. simpl.
  case_match eqn:E; simpl; [|by rewrite unmarked].
  rewrite scan_dropped_none.
  - simpl. rewrite app_nil_r, <-!list_fmap_compose. unfold compose. simpl. rewrite list_fmap_id.
    assert (zip data ((λ _, false) <$> data) = (λ dr, (dr, false)) <$> data) as ->
      by (clear; induction data; csimpl; congruence).
    by rewrite unmarked.
  - intros i Hi%elem_of_range_keys. destruct Hor as [->|Hor]; [|by apply Hor].
    exfalso. by vm_compute in E.
Qed.

(** The identifier splits into four parts. *)
Definition priv_key (i : string) : Prop := ∀ m, is_Some (priv_drop i m).

Lemma scan_dropped_gone drop_row current stored rows :
  (∀ i m, i ∈ stored → i ∉ current → is_Some (drop_row i m)) →
  ∃ rows' entries,
    scan_dropped drop_row clk current stored rows =
      Some (rows', entries, filter (λ i, i ∉ current) stored).
Proof using Type.
  revert rows. induction stored as [|i stored IH]; intros rows Hok; simpl; [by eauto|].
  rewrite filter_cons. case_bool_decide as Hi.
  - rewrite decide_False by (intros Hn; by apply Hn). apply IH. intros j m Hj. apply Hok. by right.
  - rewrite decide_True by done. destruct (GetEpoch (clk (length stored)) rows) as [epoch rows1].
    destruct (Hok i (NewMeasurement epoch)) as [m' ->]; [by left|done|]. simpl.
    destruct (IH rows1) as (rows' & entries & ->); [intros j m Hj; apply Hok; by right|].
    simpl. eauto.
Qed.

Lemma detect_privileges_settles firstRun state data :
  (firstRun = true → state = ∅) → (∀ i, is_Some (state !! i) → priv_key i) →
  ∃ state' counts detected,
    detect_privileges ro clk fmt_float firstRun state data = Some (state', counts, detected) ∧
    privileges_settled state' data.
Proof using Type.
  intros Hfirst Hkey. unfold detect_privileges, privileges_settled.
  pose proof (scan_grants_state firstRun state data) as Hs.
  destruct (scan_grants _ _ _ _) as [[[state' marked] created] current].
  destruct Hs as [Hst ->]. destruct (negb firstRun && _) eqn:E.
  - apply andb_true_iff in E as [E1 E2]. apply negb_true_iff in E1 as ->. simpl in *.
    edestruct (scan_dropped_gone priv_drop (priv_idents data) (range_keys ro state') marked.*1)
      as (rows' & entries & Hsd).
    { intros i m Hi%elem_of_range_keys Hn. apply Hst in Hi as [Hi|?]; [by apply Hkey|done]. }
    rewrite Hsd. simpl. eexists _, _, _. split; [done|].
    set (gone := filter _ _). assert (∀ i, i ∈ gone ↔ i ∉ priv_idents data ∧ is_Some (state' !! i)) as Hg.
    { intros i. unfold gone. by rewrite list_elem_of_filter, elem_of_range_keys. }
    split; [|right]; intros i Hi.
    + rewrite lookup_foldr_delete_not_elem_of by (rewrite Hg; tauto). apply Hst. by right.
    + destruct (decide (i ∈ gone)) as [Hin|Hn].
      { rewrite lookup_foldr_delete in Hi by done. by destruct Hi. }
      rewrite lookup_foldr_delete_not_elem_of in Hi by done. rewrite Hg in Hn.
      destruct (decide (i ∈ priv_idents data)); [done|]. exfalso. tauto.
  - eexists _, _, _. split; [done|]. split; [intros i Hi; apply Hst; by right|].
    destruct firstRun.
    + right. intros i [Hi|?]%Hst; [|done]. rewrite Hfirst, lookup_empty in Hi by done. by destruct Hi.
    + left. simpl in E. apply Z.ltb_ge in E. destruct data as [|dr data]; [done|].
      assert (size (priv_idents (dr :: data)) ≠ 0%nat); [|lia].
      apply size_non_empty_iff. unfold priv_idents. csimpl. set_solver.
Qed.
End privileges.

Section settings.
Implicit Types (state : gmap string string) (rows : list (Z * string * string)).

Definition settings_settled state rows : Prop :=
  ∀ e i v, (e, i, v) ∈ rows → state !! i = Some v.

Lemma scan_settings_silent firstRun state rows :
  settings_settled state rows →
  scan_settings firstRun state (Some <$> rows) = (state, [], 0, 0, false).
Proof.
  induction rows as [|[[e i] v] rows IH]; intros Hs; csimpl; [done|].
  rewrite (Hs e i v) by (by left). rewrite bool_decide_eq_false_2 by auto.
  apply IH. intros e' i' v' Hin. eapply Hs. by right.
Qed.

Lemma scan_settings_settles firstRun state rows :
  NoDup (((λ r : Z * string * string, r.1.2) <$> rows)) →
  let '(state', _, _, _, failed) := scan_settings firstRun state (Some <$> rows) in
  settings_settled state' rows ∧ failed = false ∧
  ∀ i, i ∉ ((λ r : Z * string * string, r.1.2) <$> rows) → state' !! i = state !! i.
Proof.
  revert state. induction rows as [|[[e i] v] rows IH]; intros state Hnd; csimpl.
  { split_and!; [|done..]. intros ??? ?%not_elem_of_nil. done. }
  csimpl in Hnd. apply NoDup_cons in Hnd as [Hi Hnd].
  assert (∀ state1 state', state1 !! i = Some v → settings_settled state' rows →
    (∀ j, j ∉ ((λ r : Z * string * string, r.1.2) <$> rows) → state' !! j = state1 !! j) →
    settings_settled state' ((e, i, v) :: rows)) as Hcons.
  { intros state1 state' H1 Hs Ho e' i' v' [[= -> -> ->]|Hin]%elem_of_cons; [|by eapply Hs].
    by rewrite Ho. }
  destruct (state !! i) as [p|] eqn:E; [case_bool_decide as Hp|].
  - specialize (IH (<[i := v]> state) Hnd). destruct (scan_settings _ _ _) as [[[[s' d] c] a] f].
    destruct IH as (Hs & -> & Ho). split_and!; [|done|].
    + eapply Hcons; [|done|exact Ho]. by simplify_map_eq.
    + intros j Hj. rewrite Ho by set_solver. rewrite lookup_insert_ne; [done|set_solver].
  - specialize (IH state Hnd). destruct (scan_settings _ _ _) as [[[[s' d] c] a] f].
    destruct IH as (Hs & -> & Ho). split_and!; [|done|].
    + eapply Hcons; [|done|exact Ho]. congruence.
    + intros j Hj. by rewrite Ho by set_solver.
  - specialize (IH (<[i := v]> state) Hnd). destruct (scan_settings _ _ _) as [[[[s' d] c] a] f].
    destruct IH as (Hs & -> & Ho).
    assert (settings_settled s' ((e, i, v) :: rows)) as Hs'.
    { eapply Hcons; [|done|exact Ho]. by simplify_map_eq. }
    destruct firstRun; (split_and!; [done|done|]); intros j Hj;
      rewrite Ho by set_solver; (rewrite lookup_insert_ne; [done|set_solver]).
Qed.
End settings.

(** ** The sweep *)

Section sweep.
Context (metricDefs : gmap string Metric) (sql_order : range_order) (Version : Z).
Context (query : string → result Measurements).
Context (settings_query : string → result (list (option (Z * string * string)))).
Context (ro : range_order) (clk : nat → Z).
Context (dbname : string) (tags : option (gmap string string)).
Context (fmt_float : value → string).
Implicit Types (cs : ChangeState) (old : gmap string string).

(** C16.  [DetectTableChanges] and [DetectIndexChanges] after the first run: the stored hashes
    become those of the current result, and the report is exactly the difference of the two
    snapshots: one [create], [alter] or [drop] row per object that appeared, changed or
    disappeared, nothing for the others, and counters to match.  In particular comparing the sizes
    of the two snapshots before looking for dropped objects misses none. *)
Theorem table_and_index_diff cs :
  (∀ old data ihs, cs !! "table_hashes" = Some old →
     fetched metricDefs sql_order Version query "table_hashes" data →
     snapshot_of table_ident md5_hash data ihs → NoDup ihs.*1 →
     detects dbname tags "table_hashes" "tables" "table_changes" table_ident cs old (list_to_map ihs)
       (DetectTableChanges metricDefs sql_order Version query ro clk dbname tags cs)) ∧
  (∀ old data ihs, cs !! "index_hashes" = Some old →
     fetched metricDefs sql_order Version query "index_hashes" data →
     snapshot_of index_ident index_hash data ihs → NoDup ihs.*1 →
     detects dbname tags "index_hashes" "indexes" "index_changes" index_ident cs old (list_to_map ihs)
       (DetectIndexChanges metricDefs sql_order Version query ro clk dbname tags cs)).
Proof using Type.
  split; intros old data ihs Hcs Hf Hs Hnd; (eapply detect_with_diff; [|done..|]);
    auto using table_ident_insert, index_ident_insert, table_drop_ok, index_drop_ok.
Qed.

(** [DetectSprocChanges] after the first run reports exactly the difference of the two
    snapshots.  The identifier of a procedure joins its name and its OID; a dropped procedure is
    reported under the name and OID recovered from it, provided the name does not contain or run
    into the separator. *)
Theorem sproc_diff cs old data ihs :
  cs !! "sproc_hashes" = Some old → (∀ i, is_Some (old !! i) → sproc_key i) →
  fetched metricDefs sql_order Version query "sproc_hashes" data →
  snapshot_of sproc_ident md5_hash data ihs → NoDup ihs.*1 →
  detects dbname tags "sproc_hashes" "functions" "sproc_changes" sproc_ident cs old (list_to_map ihs)
    (DetectSprocChanges metricDefs sql_order Version query ro clk dbname tags cs).
Proof using Type.
  intros Hcs Hk Hf Hs Hnd. eapply detect_with_diff; [|done..|].
  - intros. by apply sproc_ident_insert.
  - intros i Hi. by apply sproc_drop_ok, Hk.
Qed.

(** The answers a healthy database gives to one sweep, and the identifiers they contain. *)
Record healthy (dS dT dI dP : Measurements) (rows : list (Z * string * string))
    (ihS ihT ihI : list (string * string)) : Prop := {
  healthy_sprocs : fetched metricDefs sql_order Version query "sproc_hashes" dS ∧
    snapshot_of sproc_ident md5_hash dS ihS ∧ NoDup ihS.*1 ∧ ∀ i, i ∈ ihS.*1 → sproc_key i;
  healthy_tables : fetched metricDefs sql_order Version query "table_hashes" dT ∧
    snapshot_of table_ident md5_hash dT ihT ∧ NoDup ihT.*1;
  healthy_indexes : fetched metricDefs sql_order Version query "index_hashes" dI ∧
    snapshot_of index_ident index_hash dI ihI ∧ NoDup ihI.*1;
  healthy_privileges : ∃ mvp, metricDefs !! "privilege_changes" = Some mvp ∧
    GetSQL sql_order mvp Version ≠ "" ∧ query (GetSQL sql_order mvp Version) = Ok dP;
  healthy_settings : ∃ mvp, metricDefs !! "configuration_hashes" = Some mvp ∧
    settings_query (GetSQL sql_order mvp Version) = Ok (Some <$> rows) ∧
    NoDup ((λ r : Z * string * string, r.1.2) <$> rows);
}.

(** The composite identifiers stored by earlier sweeps can be taken apart again. *)
Definition keys_ok cs : Prop :=
  (∀ old, cs !! "sproc_hashes" = Some old → ∀ i, is_Some (old !! i) → sproc_key i) ∧
  (∀ old, cs !! "object_privileges" = Some old → ∀ i, is_Some (old !! i) → priv_key i).

(** Running a hash detector leaves the snapshot behind and touches nothing else. *)
Lemma detect_with_settles key target metric ident hash drop_row data ihs cs :
  (∀ m k v, k = "event" ∨ k = EpochColumnName → ident (<[k := v]> m) = ident m) →
  fetched metricDefs sql_order Version query key data → snapshot_of ident hash data ihs →
  NoDup ihs.*1 → (∀ old i, cs !! key = Some old → is_Some (old !! i) → drop_ok ident drop_row i) →
  ∃ counts out,
    detect_with metricDefs sql_order Version query ro clk dbname tags key target metric ident hash
      drop_row cs = Some (<[key := list_to_map ihs]> cs, counts, out).
Proof using Type.
  intros Hins Hf Hs Hnd Hok. destruct (cs !! key) as [old|] eqn:E.
  - edestruct (detect_with_diff metricDefs sql_order Version query ro clk dbname tags key target
      metric ident hash drop_row Hins data ihs Hf Hs Hnd cs old E) as (det & Heq & _); eauto.
  - eexists _, _. by apply (detect_with_first _ _ _ _ _ _ _ _ _ _ _ _ _ _ data ihs).
Qed.

Lemma DetectConfigurationChanges_settles rows mvp cs :
  metricDefs !! "configuration_hashes" = Some mvp →
  settings_query (GetSQL sql_order mvp Version) = Ok (Some <$> rows) →
  NoDup ((λ r : Z * string * string, r.1.2) <$> rows) →
  ∃ state counts out, DetectConfigurationChanges metricDefs sql_order Version dbname tags
      settings_query cs = (<["configuration_hashes" := state]> cs, counts, out) ∧
    settings_settled state rows.
Proof using Type.
  intros Hm Hq Hnd. unfold DetectConfigurationChanges. rewrite Hm, Hq.
  set (first := bool_decide _). set (cs1 := if first then _ else _).
  pose proof (scan_settings_settles first (default ∅ (cs1 !! "configuration_hashes")) rows Hnd) as Hs.
  destruct (scan_settings _ _ _) as [[[[state d] c] a] f]. destruct Hs as (Hs & -> & _).
  eexists state, _, _. split; [|done]. unfold cs1, first.
  case_bool_decide; [by rewrite insert_insert_eq|done].
Qed.

Lemma DetectPrivilegeChanges_settles data mvp cs :
  metricDefs !! "privilege_changes" = Some mvp → GetSQL sql_order mvp Version ≠ "" →
  query (GetSQL sql_order mvp Version) = Ok data →
  (∀ old, cs !! "object_privileges" = Some old → ∀ i, is_Some (old !! i) → priv_key i) →
  ∃ state counts out, DetectPrivilegeChanges metricDefs sql_order Version query ro clk dbname tags
      fmt_float cs = Some (<["object_privileges" := state]> cs, counts, out) ∧
    privileges_settled fmt_float state data.
Proof using Type.
  intros Hm Hne Hq Hk. unfold DetectPrivilegeChanges. rewrite Hm, bool_decide_eq_false_2, Hq by done.
  set (first := bool_decide _). set (cs1 := if first then _ else _).
  destruct (detect_privileges_settles fmt_float ro clk first (default ∅ (cs1 !! "object_privileges"))
    data) as (state & counts & det & -> & Hs).
  { unfold cs1. intros ->. by rewrite lookup_insert_eq. }
  { unfold cs1, first. case_bool_decide as E; [rewrite lookup_insert_eq; simpl; intros i|].
    - rewrite lookup_empty. by intros [??].
    - destruct (cs !! "object_privileges") as [old|] eqn:E'; [|done]. simpl. by apply Hk. }
  simpl. eexists state, _, _. split; [|done]. unfold cs1, first.
  case_bool_decide; [by rewrite insert_insert_eq|done].
Qed.

(** The stored state agrees with the database. *)
Definition in_sync (dP : Measurements) (rows : list (Z * string * string))
    (ihS ihT ihI : list (string * string)) cs : Prop :=
  cs !! "sproc_hashes" = Some (list_to_map ihS) ∧
  cs !! "table_hashes" = Some (list_to_map ihT) ∧
  cs !! "index_hashes" = Some (list_to_map ihI) ∧
  (∃ state, cs !! "configuration_hashes" = Some state ∧ settings_settled state rows) ∧
  (∃ state, cs !! "object_privileges" = Some state ∧ privileges_settled fmt_float state dP).

Abbreviation sweep := (GetObjectChangesMeasurement metricDefs sql_order Version query ro clk dbname
  tags fmt_float settings_query).

Lemma sweep_syncs dS dT dI dP rows ihS ihT ihI now cs :
  healthy dS dT dI dP rows ihS ihT ihI → keys_ok cs →
  ∃ cs' ms out, sweep now cs = Some (cs', ms, out) ∧ in_sync dP rows ihS ihT ihI cs'.
Proof using Type.
  intros [(HfS & HsS & HnS & HkS) (HfT & HsT & HnT) (HfI & HsI & HnI)
          (mP & HmP & HneP & HqP) (mC & HmC & HqC & HnC)] [Hk1 Hk2].
  unfold GetObjectChangesMeasurement, DetectSprocChanges, DetectTableChanges, DetectIndexChanges.
  destruct (detect_with_settles "sproc_hashes" "functions" "sproc_changes" sproc_ident md5_hash
    sproc_drop dS ihS cs) as (c1 & o1 & ->); [by apply sproc_ident_insert|done..| |]; simpl.
  { intros old i Ho Hi. apply sproc_drop_ok. by eapply Hk1. }
  edestruct (detect_with_settles "table_hashes" "tables" "table_changes" table_ident md5_hash
    table_drop dT ihT) as (c2 & o2 & ->); [by apply table_ident_insert|done..| |]; simpl.
  { intros. apply table_drop_ok. }
  edestruct (detect_with_settles "index_hashes" "indexes" "index_changes" index_ident index_hash
    index_drop dI ihI) as (c3 & o3 & ->); [by apply index_ident_insert|done..| |]; simpl.
  { intros. apply index_drop_ok. }
  edestruct (DetectConfigurationChanges_settles rows mC) as (stC & c4 & o4 & -> & HsC); [done..|].
  edestruct (DetectPrivilegeChanges_settles dP mP) as (stP & c5 & o5 & -> & HsP); [done..| |]; simpl.
  { intros old. rewrite !lookup_insert_ne by done. apply Hk2. }
  set (cs' := <["object_privileges" := stP]> _).
  assert (in_sync dP rows ihS ihT ihI cs') as Hsync.
  { unfold in_sync, cs'. split_and!; [..|exists stC|exists stP]; by simplify_map_eq. }
  case_match; eauto.
Qed.

Lemma sweep_silent dS dT dI dP rows ihS ihT ihI now cs :
  healthy dS dT dI dP rows ihS ihT ihI → in_sync dP rows ihS ihT ihI cs →
  sweep now cs = Some (cs, [], []).
Proof using Type.
  intros [(HfS & HsS & HnS & HkS) (HfT & HsT & HnT) (HfI & HsI & HnI)
          (mP & HmP & HneP & HqP) (mC & HmC & HqC & HnC)]
         (H1 & H2 & H3 & (stC & H4 & HsC) & (stP & H5 & HsP)).
  unfold GetObjectChangesMeasurement, DetectSprocChanges, DetectTableChanges, DetectIndexChanges.
  rewrite (detect_with_silent _ _ _ _ _ _ _ _ _ _ _ _ _ _ sproc_ident_insert dS ihS)
    by (try done; intros; by apply sproc_drop_ok, HkS). simpl.
  rewrite (detect_with_silent _ _ _ _ _ _ _ _ _ _ _ _ _ _ table_ident_insert dT ihT)
    by (try done; intros; apply table_drop_ok). simpl.
  rewrite (detect_with_silent _ _ _ _ _ _ _ _ _ _ _ _ _ _ index_ident_insert dI ihI)
    by (try done; intros; apply index_drop_ok). simpl.
  unfold DetectConfigurationChanges. rewrite HmC, HqC, H4. simpl. rewrite H4. simpl.
  rewrite scan_settings_silent by done. simpl. rewrite insert_id by done.
  unfold DetectPrivilegeChanges. rewrite HmP, bool_decide_eq_false_2, HqP, H5 by done. simpl.
  rewrite H5. simpl. rewrite detect_privileges_silent by done. simpl. by rewrite insert_id.
Qed.

(** C17.  A sweep over a database that answers all queries never panics, and a second sweep over
    the unchanged database, whenever it runs, finds nothing, sends nothing and leaves the state as
    it is: every change is reported once. *)
Theorem sweep_settles dS dT dI dP rows ihS ihT ihI now1 now2 cs :
  healthy dS dT dI dP rows ihS ihT ihI → keys_ok cs →
  ∃ cs' ms out, sweep now1 cs = Some (cs', ms, out) ∧ sweep now2 cs' = Some (cs', [], []).
Proof using Type.
  intros Hh Hk. destruct (sweep_syncs _ _ _ _ _ _ _ _ now1 cs Hh Hk) as (cs' & ms & out & Hs & Hin).
  exists cs', ms, out. split; [done|]. by eapply sweep_silent.
Qed.
(** The first run is marked by creating the (empty) map of hashes before the query runs, so a
    first run whose query fails is silently taken for a completed one: the next successful run
    reports every table of the database as created. *)
Theorem failed_first_run_reports_all cs mvp e data ihs (query' : string → result Measurements) :
  cs !! "table_hashes" = None → metricDefs !! "table_hashes" = Some mvp →
  query (GetSQL sql_order mvp Version) = Err e → query' (GetSQL sql_order mvp Version) = Ok data →
  snapshot_of table_ident md5_hash data ihs → NoDup ihs.*1 →
  ∃ cs', DetectTableChanges metricDefs sql_order Version query ro clk dbname tags cs =
           Some (cs', no_changes "tables", []) ∧
    ∃ detected,
      DetectTableChanges metricDefs sql_order Version query' ro clk dbname tags cs' =
        Some (<["table_hashes" := list_to_map ihs]> cs',
              {| Target := "tables"; Created := len ihs; Altered := 0; Dropped := 0 |},
              changes_envelope dbname tags "table_changes" detected) ∧
      report table_ident <$> detected ≡ₚ (λ p, (Some p.1, Some "create")) <$> ihs.
Proof using Type.
  intros Hcs Hm Hq Hq' Hs Hnd. exists (<["table_hashes" := ∅]> cs). split.
  { unfold DetectTableChanges, detect_with. by rewrite Hcs, Hm, Hq. }
  unfold DetectTableChanges.
  edestruct (detect_with_diff metricDefs sql_order Version query' ro clk dbname tags "table_hashes"
    "tables" "table_changes" table_ident md5_hash table_drop table_ident_insert data ihs)
    as (detected & -> & Hrep); [by exists mvp|done|done|apply lookup_insert_eq|..].
  { intros. apply table_drop_ok. }
  assert (map_to_list (diff ∅ (list_to_map ihs)) ≡ₚ (λ p, (p.1, "create")) <$> ihs) as Hd.
  { rewrite <-(diff_split tree_order ∅ ihs Hnd).
    assert (gone_idents tree_order ∅ ihs = []) as ->.
    { apply elem_of_nil_inv. intros i [_ Hi]%elem_of_gone. rewrite lookup_empty in Hi. by destruct Hi. }
    csimpl. rewrite app_nil_r. unfold changes_of. clear. induction ihs as [|[i h] ihs IH]; csimpl; [done|].
    rewrite lookup_empty. simpl. by rewrite IH. }
  exists detected. split.
  - do 3 f_equal. unfold diff_counts, count_kind. rewrite Hd. clear.
    f_equal; induction ihs as [|[i h] ihs IH]; csimpl; try rewrite filter_cons; simpl; try done; lia.
  - rewrite Hrep, Hd, <-list_fmap_compose. done.
Qed.
End sweep.

(** Revoking every privilege is not reported: an empty result is taken for a missing one. *)
Lemma revoke_all_unreported fmt_float ro clk state :
  detect_privileges ro clk fmt_float false state [] = Some (state, no_changes "privileges", []).
Proof. apply detect_privileges_silent. split; [|by left]. unfold priv_idents. set_solver. Qed.

(** ** A database on which the theorems are exercised *)

Definition sql_metric (sql : string) : Metric := {|
  SQLs := {[0 := sql]}; InitSQL := ""; NodeStatus := ""; Gauges := []; IsInstanceLevel := false;
  StorageName := ""; Description := "" |}.

Definition change_defs : gmap string Metric :=
  list_to_map ((λ k, (k, sql_metric k)) <$>
    ["sproc_hashes"; "table_hashes"; "index_hashes"; "privilege_changes"; "configuration_hashes"]).

Definition string_row (cols : list (string * string)) : Measurement :=
  list_to_map ((EpochColumnName, VInt64 7) :: ((λ c, (c.1, VString c.2)) <$> cols)).

Definition sample_sprocs : Measurements :=
  [string_row [("tag_sproc", "f"); ("tag_oid", "16"); ("md5", "a")]].
Definition sample_tables : Measurements :=
  [string_row [("tag_table", "t1"); ("md5", "x")]; string_row [("tag_table", "t2"); ("md5", "y")]].
Definition sample_indexes : Measurements :=
  [string_row [("tag_index", "i1"); ("md5", "x"); ("is_valid", "t")]].
Definition sample_privileges : Measurements :=
  [string_row [("object_type", "table"); ("tag_role", "joe"); ("tag_object", "t1");
               ("privilege_type", "SELECT")]].
Definition sample_settings : list (Z * string * string) := [(7, "work_mem", "4MB")].

Definition sample_query (sql : string) : result Measurements :=
  if bool_decide (sql = "sproc_hashes") then Ok sample_sprocs
  else if bool_decide (sql = "table_hashes") then Ok sample_tables
  else if bool_decide (sql = "index_hashes") then Ok sample_indexes
  else if bool_decide (sql = "privilege_changes") then Ok sample_privileges
  else Err (ErrorString "unknown query").
Definition sample_settings_query (sql : string) : result (list (option (Z * string * string))) :=
  Ok (Some <$> sample_settings).

Definition sample_state : ChangeState :=
  {["sproc_hashes" := {["g" +:+ dbMetricJoinStr +:+ "17" := "b"]};
    "table_hashes" := {["t1" := "old"; "t3" := "z"]};
    "index_hashes" := {["i1" := "xt"]}]}.

(** The events reported for the tables of the sample: [t1] altered, [t2] created, [t3] dropped. *)
Example sample_table_events :
  match DetectTableChanges change_defs tree_order 16 sample_query tree_order (λ _, 9) "db" None
          sample_state with
  | Some (_, counts, [env]) => (counts, report table_ident <$> Data env)
  | _ => (no_changes "", [])
  end = ({| Target := "tables"; Created := 1; Altered := 1; Dropped := 1 |},
         [(Some "t1", Some "alter"); (Some "t2", Some "create"); (Some "t3", Some "drop")]).
Proof. vm_compute. reflexivity. Qed.

Lemma sample_sproc_key sproc oid :
  str_cut dbMetricJoinStr (sproc +:+ dbMetricJoinStr) = Some (sproc, "") →
  str_cut dbMetricJoinStr oid = None → sproc_key (sproc +:+ dbMetricJoinStr +:+ oid).
Proof. intros. by exists sproc, oid. Qed.

Lemma table_and_index_diff_witness :
  detects "db" None "table_hashes" "tables" "table_changes" table_ident sample_state
    {["t1" := "old"; "t3" := "z"]} (list_to_map [("t1", "x"); ("t2", "y")])
    (DetectTableChanges change_defs tree_order 16 sample_query tree_order (λ _, 9) "db" None
       sample_state) ∧
  detects "db" None "index_hashes" "indexes" "index_changes" index_ident sample_state
    {["i1" := "xt"]} (list_to_map [("i1", "xt")])
    (DetectIndexChanges change_defs tree_order 16 sample_query tree_order (λ _, 9) "db" None
       sample_state).
Proof.
  destruct (table_and_index_diff change_defs tree_order 16 sample_query tree_order (λ _, 9) "db" None
    sample_state) as [Ht Hi]. split.
  - apply (Ht _ sample_tables); [reflexivity|eexists; split; reflexivity|repeat constructor|].
    apply (bool_decide_unpack _). vm_compute. exact I.
  - apply (Hi _ sample_indexes); [reflexivity|eexists; split; reflexivity|repeat constructor|].
    apply (bool_decide_unpack _). vm_compute. exact I.
Defined.

Lemma sample_old_keys i :
  is_Some (({["g" +:+ dbMetricJoinStr +:+ "17" := "b"]} : gmap string string) !! i) → sproc_key i.
Proof.
  intros [v [<- _]%lookup_singleton_Some]. apply sample_sproc_key; reflexivity.
Qed.

Lemma sproc_diff_witness :
  detects "db" None "sproc_hashes" "functions" "sproc_changes" sproc_ident sample_state
    {["g" +:+ dbMetricJoinStr +:+ "17" := "b"]}
    (list_to_map [("f" +:+ dbMetricJoinStr +:+ "16", "a")])
    (DetectSprocChanges change_defs tree_order 16 sample_query tree_order (λ _, 9) "db" None
       sample_state).
Proof.
  apply (sproc_diff change_defs tree_order 16 sample_query tree_order (λ _, 9) "db" None sample_state
    _ sample_sprocs).
  - reflexivity.
  - apply sample_old_keys.
  - eexists; split; reflexivity.
  - repeat constructor.
  - apply (bool_decide_unpack _). vm_compute. exact I.
Defined.

Lemma sample_healthy :
  healthy change_defs tree_order 16 sample_query sample_settings_query
    sample_sprocs sample_tables sample_indexes sample_privileges sample_settings
    [("f" +:+ dbMetricJoinStr +:+ "16", "a")] [("t1", "x"); ("t2", "y")] [("i1", "xt")].
Proof.
  split.
  - split_and!; [eexists; split; reflexivity|repeat constructor|
      apply (bool_decide_unpack _); vm_compute; exact I|].
    intros i ->%list_elem_of_singleton. apply sample_sproc_key; reflexivity.
  - split_and!; [eexists; split; reflexivity|repeat constructor|
      apply (bool_decide_unpack _); vm_compute; exact I].
  - split_and!; [eexists; split; reflexivity|repeat constructor|
      apply (bool_decide_unpack _); vm_compute; exact I].
  - eexists. split_and!; [reflexivity|by vm_compute|reflexivity].
  - eexists. split_and!; [reflexivity|reflexivity|apply (bool_decide_unpack _); vm_compute; exact I].
Qed.

Lemma sweep_settles_witness :
  ∃ cs' ms out,
    GetObjectChangesMeasurement change_defs tree_order 16 sample_query tree_order (λ _, 9) "db" None
      (λ _, "float") sample_settings_query 100 sample_state = Some (cs', ms, out) ∧
    GetObjectChangesMeasurement change_defs tree_order 16 sample_query tree_order (λ _, 9) "db" None
      (λ _, "float") sample_settings_query 200 cs' = Some (cs', [], []).
Proof.
  eapply (sweep_settles change_defs tree_order 16 sample_query sample_settings_query tree_order
    (λ _, 9) "db" None (λ _, "float")); [exact sample_healthy|].
  split; [|by intros old Ho; vm_compute in Ho].
  intros old [= <-]. apply sample_old_keys.
Defined.

Lemma failed_first_run_reports_all_witness :
  ∃ cs', DetectTableChanges change_defs tree_order 16 (λ _, Err (ErrorString "timeout")) tree_order
           (λ _, 9) "db" None ∅ = Some (cs', no_changes "tables", []) ∧
    ∃ detected,
      DetectTableChanges change_defs tree_order 16 sample_query tree_order (λ _, 9) "db" None cs' =
        Some (<["table_hashes" := list_to_map [("t1", "x"); ("t2", "y")]]> cs',
              {| Target := "tables"; Created := 2; Altered := 0; Dropped := 0 |},
              changes_envelope "db" None "table_changes" detected) ∧
      report table_ident <$> detected ≡ₚ [(Some "t1", Some "create"); (Some "t2", Some "create")].
Proof.
  eapply (failed_first_run_reports_all change_defs tree_order 16 _ tree_order (λ _, 9) "db" None ∅
    (sql_metric "table_hashes") (ErrorString "timeout") sample_tables
    [("t1", "x"); ("t2", "y")] sample_query); try reflexivity.
  - repeat constructor.
  - apply (bool_decide_unpack _). vm_compute. exact I.
Defined.
