(* ===== verification/Sources.v ===== *)
(** * Monitored sources and their stores ([internal/sources/types.go], [yaml.go], [postgres.go])

    A [Source] describes what to monitor.  Sources are kept in a YAML file (or a directory of
    them) or in a table of the configuration database; both implement the [ReaderWriter]
    interface, here the class [SourcesStore] with the contract [SourcesStoreLaws]: a store holds a
    map from names to sources, and the operations read, insert, replace and remove entries of that
    map.  File [SourceStores] holds the two implementations. *)

From S2P Require Import Prelude GoStrings Metrics.
From stdpp Require Import options.

Local Open Scope Z_scope.

(** ** Sources *)

Definition SourcePostgres : string := "postgres".
Definition SourcePostgresDiscovery : string := "postgres-continuous-discovery".
Definition SourcePgBouncer : string := "pgbouncer".
Definition SourcePgPool : string := "pgpool".
Definition SourcePatroniDiscovery : string := "patroni".
Definition SourcePrometheus : string := "prometheus".

Definition Kinds : list string :=
  [SourcePostgres; SourcePostgresDiscovery; SourcePgBouncer; SourcePgPool; SourcePatroniDiscovery;
   SourcePrometheus].

Definition Kind_IsValid (k : string) : bool := bool_decide (k ∈ Kinds).

Record Source := {
  Name : string;
  Group : string;
  ConnStr : string;
  SrcMetrics : MetricIntervals;
  MetricsStandby : MetricIntervals;
  Kind : string;
  IncludePattern : string;
  ExcludePattern : string;
  PresetMetrics : string;
  PresetMetricsStandby : string;
  IsEnabled : bool;
  SrcCustomTags : option (gmap string string);
  OnlyIfMaster : bool;
}.

#[export] Instance Source_eq_dec : EqDecision Source.
Proof. solve_decision. Defined.

Abbreviation Sources := (list Source).

Definition with_kind (s : Source) (k : string) : Source := {|
  Name := Name s; Group := Group s; ConnStr := ConnStr s; SrcMetrics := SrcMetrics s;
  MetricsStandby := MetricsStandby s; Kind := k; IncludePattern := IncludePattern s;
  ExcludePattern := ExcludePattern s; PresetMetrics := PresetMetrics s;
  PresetMetricsStandby := PresetMetricsStandby s; IsEnabled := IsEnabled s;
  SrcCustomTags := SrcCustomTags s; OnlyIfMaster := OnlyIfMaster s |}.

(** [Validate].  The loop variable is a copy: the kind it assigns is not the one in [srcs]. *)
Fixpoint validate_names (names : gset string) (srcs : Sources) : option error :=
  match srcs with
  | [] => None
  | src :: srcs' =>
      if bool_decide (Name src ∈ names) then
        Some (ErrorString ("duplicate source with name '" +:+ Name src +:+ "' found"))
      else
        let names := {[Name src]} ∪ names in
        let src :=
          if bool_decide (Kind src = "") then with_kind src SourcePostgres
          else if bool_decide (Kind src = "patroni-continuous-discovery" ∨
                               Kind src = "patroni-namespace-discovery")
          then with_kind src SourcePatroniDiscovery
          else src in
        validate_names names srcs'
  end.

Definition Sources_Validate (srcs : Sources) : result Sources :=
  match validate_names ∅ srcs with
  | Some e => Err e
  | None => Ok srcs
  end.

(** [Source.Equal]: a preset stands for its metrics. *)
Definition Source_Equal (s s2 : Source) : bool :=
  let eq :=
    if bool_decide (PresetMetrics s ≠ "" ∨ PresetMetrics s2 ≠ "")
    then bool_decide (PresetMetrics s = PresetMetrics s2)
    else bool_decide (SrcMetrics s = SrcMetrics s2) in
  let eq :=
    if bool_decide (PresetMetricsStandby s ≠ "" ∨ PresetMetricsStandby s2 ≠ "")
    then eq && bool_decide (PresetMetricsStandby s = PresetMetricsStandby s2)
    else eq && bool_decide (MetricsStandby s = MetricsStandby s2) in
  eq && bool_decide (Name s = Name s2) && bool_decide (Group s = Group s2) &&
  bool_decide (ConnStr s = ConnStr s2) && bool_decide (Kind s = Kind s2) &&
  bool_decide (IsEnabled s = IsEnabled s2) &&
  bool_decide (IncludePattern s = IncludePattern s2) &&
  bool_decide (ExcludePattern s = ExcludePattern s2) &&
  bool_decide (OnlyIfMaster s = OnlyIfMaster s2) &&
  bool_decide (SrcCustomTags s = SrcCustomTags s2).

(** ** The store interface *)

Class SourcesStore (St : Type) := {
  GetSources : St → result Sources;
  WriteSources : St → Sources → St * option error;
  DeleteSource : St → string → St * option error;
  UpdateSource : St → Source → St * option error;
  CreateSource : St → Source → St * option error;
}.

Definition by_name (l : Sources) : gmap string Source := list_to_map ((λ s, (Name s, s)) <$> l).
Definition unique_names (l : Sources) : Prop := NoDup (Name <$> l).

(** What a client may rely on, while the medium works: the store [holds] a map from names to
    sources.  [kept] are the sources the store represents faithfully. *)
Class SourcesStoreLaws (St : Type) `{SourcesStore St} := {
  holds : St → gmap string Source → Prop;
  kept : Source → Prop;
  get_holds st m : holds st m →
    ∃ l, GetSources st = Ok l ∧ unique_names l ∧ by_name l = m;
  write_holds st m l : holds st m → unique_names l → Forall kept l →
    ∃ st', WriteSources st l = (st', None) ∧ holds st' (by_name l);
  delete_holds st m name : holds st m →
    ∃ st', DeleteSource st name = (st', None) ∧ holds st' (delete name m);
  update_holds st m s : holds st m → kept s →
    ∃ st', UpdateSource st s = (st', None) ∧ holds st' (<[Name s := s]> m);
  create_holds st m s : holds st m → kept s → m !! Name s = None →
    ∃ st', CreateSource st s = (st', None) ∧ holds st' (<[Name s := s]> m);
  create_refused st m s : holds st m → is_Some (m !! Name s) →
    ∃ e, CreateSource st s = (st, Some e) ∧ errors_Is e ErrSourceExists = true;
}.

(** ** Properties *)

(** The part of a source that matters to [Equal]. *)
Definition effective (s : Source) :=
  (if bool_decide (PresetMetrics s = "") then inl (SrcMetrics s) else inr (PresetMetrics s),
   if bool_decide (PresetMetricsStandby s = "") then inl (MetricsStandby s)
   else inr (PresetMetricsStandby s),
   (Name s, Group s, ConnStr s, Kind s, IsEnabled s),
   (IncludePattern s, ExcludePattern s, OnlyIfMaster s, SrcCustomTags s)).

Lemma preset_part {A} `{EqDecision A} (p1 p2 : string) (m1 m2 : A) :
  (if bool_decide (p1 ≠ "" ∨ p2 ≠ "") then bool_decide (p1 = p2) else bool_decide (m1 = m2)) =
  bool_decide ((if bool_decide (p1 = "") then inl m1 else inr p1) =
               (if bool_decide (p2 = "") then inl m2 else inr p2 : A + string)).
Proof. repeat case_bool_decide; naive_solver. Qed.

(** [Source.Equal] decides equality of the effective configuration (a preset counts instead
    of the metrics it replaces), hence it is an equivalence relation. *)
Theorem Source_Equal_effective s s2 :
  Source_Equal s s2 = true ↔ effective s = effective s2.
Proof.
  unfold Source_Equal.
  assert (∀ (b c : bool) P `{Decision P} Q `{Decision Q},
    (if c then b && bool_decide P else b && bool_decide Q) =
    b && (if c then bool_decide P else bool_decide Q)) as Hif by (by intros ? [] **).
  rewrite Hif, !preset_part, !andb_true_iff, !bool_decide_eq_true.
  unfold effective. split; [intros Heq; destruct_and?; congruence|]. intros [=]. by split_and?.
Qed.

Lemma validate_names_ok names srcs :
  validate_names names srcs = None ↔ unique_names srcs ∧ ∀ s, s ∈ srcs → Name s ∉ names.
Proof.
  unfold unique_names. revert names. induction srcs as [|s srcs IH]; intros names; csimpl.
  { split; [intros _; split; [constructor|by intros ? ?%not_elem_of_nil]|done]. }
  rewrite NoDup_cons. case_bool_decide as Hn.
  { split; [done|]. intros [_ Hs]. exfalso. apply (Hs s); [by left|done]. }
  rewrite IH. split.
  - intros [Hnd Hs]. split_and!; [|done|].
    + intros (s' & Heq & Hin)%list_elem_of_fmap. apply (Hs s' Hin). rewrite <-Heq. set_solver.
    + intros s' [->|Hin]%elem_of_cons; [done|]. specialize (Hs s' Hin). set_solver.
  - intros [[Hs Hnd] Hall]. split; [done|]. intros s' Hin [Heq|Hin']%elem_of_union.
    + apply Hs. apply elem_of_singleton in Heq. rewrite <-Heq. by apply list_elem_of_fmap_2.
    + apply (Hall s'); [by right|done].
Qed.

Lemma Validate_unique srcs : unique_names srcs → Sources_Validate srcs = Ok srcs.
Proof.
  intros Hu. unfold Sources_Validate.
  rewrite (proj2 (validate_names_ok ∅ srcs)); [done|]. split; [done|set_solver].
Qed.

(** [Validate] accepts exactly the lists without duplicate names.  It returns them as they
    are: the defaulting of an empty kind and the replacement of the deprecated Patroni kinds, which
    the loop computes, have no effect on the result. *)
Theorem Validate_spec srcs :
  (unique_names srcs → Sources_Validate srcs = Ok srcs) ∧
  (¬ unique_names srcs → ∃ e, Sources_Validate srcs = Err e).
Proof.
  split; [apply Validate_unique|]. intros Hn. unfold Sources_Validate.
  destruct (validate_names ∅ srcs) eqn:E; [eauto|]. destruct Hn.
  by apply validate_names_ok in E as [? _].
Qed.

Definition sample_source (name : string) : Source := {|
  Name := name; Group := ""; ConnStr := "host=db"; SrcMetrics := Some {["wal" := 60]};
  MetricsStandby := None; Kind := ""; IncludePattern := ""; ExcludePattern := "";
  PresetMetrics := ""; PresetMetricsStandby := ""; IsEnabled := true; SrcCustomTags := None;
  OnlyIfMaster := false |}.

(** The documented default of the kind is lost. *)
Example Validate_keeps_empty_kind :
  Sources_Validate [sample_source "a"] = Ok [sample_source "a"] ∧ Kind (sample_source "a") = "".
Proof. by vm_compute. Qed.

(** ** Clients of the interface *)

Section store_client.
Context {St : Type} `{SourcesStoreLaws St}.
Implicit Types (st : St) (s : Source).

(** Whatever the store, a source that was created can be read back, a second creation is
    refused without a change, an update is seen by the next read, and after a deletion the name is
    free again. *)
Theorem store_lifecycle st m s s' :
  holds st m → kept s → kept s' → Name s' = Name s → m !! Name s = None →
  ∃ st1 st2 st3 st4 l1 l2 e,
    CreateSource st s = (st1, None) ∧ GetSources st1 = Ok l1 ∧ s ∈ l1 ∧
    CreateSource st1 s' = (st1, Some e) ∧ errors_Is e ErrSourceExists = true ∧
    UpdateSource st1 s' = (st2, None) ∧ GetSources st2 = Ok l2 ∧ s' ∈ l2 ∧ (s ≠ s' → s ∉ l2) ∧
    DeleteSource st2 (Name s) = (st3, None) ∧ CreateSource st3 s = (st4, None).
Proof using All.
  intros Hm Hs Hs' Hname Hnew.
  destruct (create_holds st m s) as (st1 & Hc1 & Hm1); [done..|].
  destruct (create_refused st1 _ s' Hm1) as (e & Hc2 & He).
  { rewrite Hname, lookup_insert_eq. eauto. }
  destruct (update_holds st1 _ s' Hm1 Hs') as (st2 & Hu & Hm2).
  destruct (delete_holds st2 _ (Name s) Hm2) as (st3 & Hd & Hm3).
  destruct (create_holds st3 _ s Hm3 Hs) as (st4 & Hc4 & _); [apply lookup_delete_eq|].
  destruct (get_holds st1 _ Hm1) as (l1 & Hg1 & Hu1 & Hl1).
  destruct (get_holds st2 _ Hm2) as (l2 & Hg2 & Hu2 & Hl2).
  assert (∀ l x, unique_names l → by_name l !! Name x = Some x ↔ x ∈ l) as Hby.
  { intros l x Hu'. unfold by_name. rewrite <-elem_of_list_to_map.
    - rewrite list_elem_of_fmap. split; [intros (y & [= _ ->] & ?); done|eauto].
    - by rewrite <-list_fmap_compose. }
  exists st1, st2, st3, st4, l1, l2, e. split_and!; try done.
  - apply Hby; [done|]. by rewrite Hl1, lookup_insert_eq.
  - apply Hby; [done|]. rewrite Hl2, lookup_insert_eq. done.
  - intros Hne Hin%Hby; [|done]. rewrite Hl2, <-Hname, lookup_insert_eq in Hin. congruence.
Qed.

(** *** Runs of operations *)

Inductive store_cmd :=
  | CmdWrite (l : Sources)
  | CmdDelete (name : string)
  | CmdUpdate (s : Source)
  | CmdCreate (s : Source).

Definition exec_cmd st (c : store_cmd) : St * option error :=
  match c with
  | CmdWrite l => WriteSources st l
  | CmdDelete name => DeleteSource st name
  | CmdUpdate s => UpdateSource st s
  | CmdCreate s => CreateSource st s
  end.

(** The effect on the map, and whether the operation is refused. *)
Definition abs_cmd (m : gmap string Source) (c : store_cmd) : gmap string Source * bool :=
  match c with
  | CmdWrite l => (by_name l, false)
  | CmdDelete name => (delete name m, false)
  | CmdUpdate s => (<[Name s := s]> m, false)
  | CmdCreate s =>
      match m !! Name s with Some _ => (m, true) | None => (<[Name s := s]> m, false) end
  end.

Definition cmd_ok (c : store_cmd) : Prop :=
  match c with
  | CmdWrite l => unique_names l ∧ Forall kept l
  | CmdDelete _ => True
  | CmdUpdate s | CmdCreate s => kept s
  end.

Fixpoint exec_cmds st (cs : list store_cmd) : St * list (option error) :=
  match cs with
  | [] => (st, [])
  | c :: cs' =>
      let '(st, e) := exec_cmd st c in
      let '(st, es) := exec_cmds st cs' in (st, e :: es)
  end.

Fixpoint abs_cmds (m : gmap string Source) (cs : list store_cmd) : gmap string Source * list bool :=
  match cs with
  | [] => (m, [])
  | c :: cs' =>
      let '(m, r) := abs_cmd m c in
      let '(m, rs) := abs_cmds m cs' in (m, r :: rs)
  end.

Definition answers (e : option error) (refused : bool) : Prop :=
  match e with
  | None => refused = false
  | Some e => refused = true ∧ errors_Is e ErrSourceExists = true
  end.

Lemma exec_cmd_sim st m c :
  holds st m → cmd_ok c →
  holds (exec_cmd st c).1 (abs_cmd m c).1 ∧ answers (exec_cmd st c).2 (abs_cmd m c).2.
Proof using All.
  intros Hst Hc. destruct c as [l|name|s|s]; simpl in *.
  - destruct Hc. destruct (write_holds st m l) as (st' & -> & ?); done.
  - destruct (delete_holds st m name) as (st' & -> & ?); done.
  - destruct (update_holds st m s) as (st' & -> & ?); done.
  - destruct (m !! Name s) eqn:E.
    + destruct (create_refused st m s) as (e & -> & He); [done|by eauto|]. by split.
    + destruct (create_holds st m s) as (st' & -> & ?); done.
Qed.

Lemma exec_cmds_sim st m cs :
  holds st m → Forall cmd_ok cs →
  holds (exec_cmds st cs).1 (abs_cmds m cs).1 ∧
  Forall2 answers (exec_cmds st cs).2 (abs_cmds m cs).2.
Proof using All.
  revert st m. induction cs as [|c cs IH]; intros st m Hst Hok; simpl; [by split|].
  apply Forall_cons in Hok as [Hc Hok]. destruct (exec_cmd_sim st m c Hst Hc) as [H1 H2].
  destruct (exec_cmd st c) as [st' e], (abs_cmd m c) as [m' r]. simpl in *.
  destruct (IH st' m' H1 Hok) as [H3 H4].
  destruct (exec_cmds st' cs), (abs_cmds m' cs). simpl in *. split; [done|by constructor].
Qed.
End store_client.
