(* ===== verification/SourceStores.v ===== *)
(** * The two stores of sources ([internal/sources/yaml.go], [internal/sources/postgres.go])

    Both implementations of the [ReaderWriter] interface are shown to meet the contract of class
    [SourcesStoreLaws].  The YAML codec and the environment are parameters of the file store; the
    statements the other store sends to the configuration database are interpreted on a table with
    primary key [name] whose server may fail any of them. *)

From Stdlib Require Import Ascii.
From S2P Require Import Prelude GoStrings Metrics Sources.
From stdpp Require Import options.

Local Open Scope Z_scope.

(** ** Environment variables *)

(** [os.ExpandEnv] replaces [$name] and [${name}]. *)
Definition is_alnum (c : Ascii.ascii) : bool :=
  let n := Ascii.nat_of_ascii c in
  bool_decide ((48 ≤ n ∧ n ≤ 57) ∨ (65 ≤ n ∧ n ≤ 90) ∨ (97 ≤ n ∧ n ≤ 122) ∨ n = 95)%nat.

Definition is_shell_special (c : Ascii.ascii) : bool :=
  match c with
  | "*"%char | "#"%char | "$"%char | "@"%char | "!"%char | "?"%char | "-"%char => true
  | _ => let n := Ascii.nat_of_ascii c in bool_decide (48 ≤ n ∧ n ≤ 57)%nat
  end.

Fixpoint take_alnum (s : string) : string * string :=
  match s with
  | String c s' =>
      if is_alnum c then let '(a, b) := take_alnum s' in (String c a, b) else ("", s)
  | "" => ("", "")
  end.

(** [getShellName] on the text after a [$]: the name, the text after it, and whether any text was
    consumed. *)
Definition getShellName (s : string) : string * string * bool :=
  match s with
  | "" => ("", "", false)
  | String c s' =>
      if bool_decide (c = "{"%char) then
        match s' with
        | String d (String e s'') =>
            if is_shell_special d && bool_decide (e = "}"%char) then (String d "", s'', true)
            else match str_cut "}" s' with
                 | Some (name, rest) => (name, rest, true)
                 | None => ("", s', true)
                 end
        | _ => match str_cut "}" s' with
               | Some (name, rest) => (name, rest, true)
               | None => ("", s', true)
               end
        end
      else if is_shell_special c then (String c "", s', true)
      else let '(name, rest) := take_alnum s in (name, rest, bool_decide (name ≠ ""))
  end.

(** Every round consumes the [$], so the length of the text bounds the rounds. *)
Fixpoint expand_fuel (getenv : string → string) (n : nat) (s : string) : string :=
  match n with
  | O => s
  | S n' =>
      match s with
      | "" => ""
      | String c s' =>
          if bool_decide (c = "$"%char ∧ s' ≠ "") then
            let '(name, rest, eaten) := getShellName s' in
            if bool_decide (name = "") then
              if eaten then expand_fuel getenv n' rest else String c (expand_fuel getenv n' s')
            else getenv name +:+ expand_fuel getenv n' rest
          else String c (expand_fuel getenv n' s')
      end
  end.
Definition os_ExpandEnv (getenv : string → string) (s : string) : string :=
  expand_fuel getenv (String.length s) s.

Definition sample_env (name : string) : string := if bool_decide (name = "PW") then "secret" else "".
Example expand_sample :
  os_ExpandEnv sample_env "${PW}@$PW-$$x${" = "secret@secret-x".
Proof. reflexivity. Qed.

(** [filepath.Ext] of a name without separators. *)
Fixpoint filepath_Ext (s : string) : string :=
  match s with
  | "" => ""
  | String c s' =>
      match filepath_Ext s' with
      | "" => if bool_decide (c = "."%char) then s else ""
      | ext => ext
      end
  end.

(** ** Lists of sources as maps *)

Lemma by_name_lookup (l : Sources) n s :
  unique_names l → by_name l !! n = Some s ↔ s ∈ l ∧ Name s = n.
Proof.
  intros Hu. unfold by_name. rewrite <-elem_of_list_to_map by (by rewrite <-list_fmap_compose).
  rewrite list_elem_of_fmap. split; [intros (y & [= -> ->] & ?); done|intros [? <-]; eauto].
Qed.

Lemma by_name_None (l : Sources) n : by_name l !! n = None ↔ n ∉ Name <$> l.
Proof.
  unfold by_name. rewrite <-not_elem_of_list_to_map. by rewrite <-list_fmap_compose.
Qed.

Lemma by_name_snoc (l : Sources) s :
  Name s ∉ Name <$> l → by_name (l ++ [s]) = <[Name s := s]> (by_name l).
Proof.
  unfold by_name. intros Hn. rewrite fmap_app. csimpl. apply list_to_map_snoc.
  by rewrite <-list_fmap_compose.
Qed.

Lemma unique_names_snoc (l : Sources) s :
  unique_names l → Name s ∉ Name <$> l → unique_names (l ++ [s]).
Proof.
  unfold unique_names. intros Hu Hn. rewrite fmap_app. csimpl. apply NoDup_app. split_and!; [done| |].
  - intros n Hin ->%list_elem_of_singleton. done.
  - apply NoDup_singleton.
Qed.

(** [slices.DeleteFunc] on the name. *)
Definition delete_name (name : string) (l : Sources) : Sources := filter (λ md, Name md ≠ name) l.

Lemma unique_names_delete (l : Sources) n : unique_names l → unique_names (delete_name n l).
Proof.
  unfold unique_names, delete_name. intros Hu. eapply sublist_NoDup; [exact Hu|].
  apply fmap_sublist, sublist_filter.
Qed.

Lemma by_name_delete (l : Sources) n :
  unique_names l → by_name (delete_name n l) = delete n (by_name l).
Proof.
  intros Hu. apply map_eq. intros k. apply option_eq. intros s.
  rewrite lookup_delete_Some, !by_name_lookup by auto using unique_names_delete.
  unfold delete_name. rewrite list_elem_of_filter. naive_solver.
Qed.

(** The loop of [UpdateSource]: replace the first source of that name, if there is one. *)
Fixpoint replace_source (l : Sources) (md : Source) : option Sources :=
  match l with
  | [] => None
  | db :: l' =>
      if bool_decide (Name db = Name md) then Some (md :: l')
      else l' ← replace_source l' md; Some (db :: l')
  end.

Lemma replace_source_spec (l : Sources) md :
  unique_names l →
  match replace_source l md with
  | None => Name md ∉ Name <$> l
  | Some l' => unique_names l' ∧ by_name l' = <[Name md := md]> (by_name l) ∧
      Name <$> l' = Name <$> l ∧ ∀ s, s ∈ l' → s = md ∨ s ∈ l
  end.
Proof.
  unfold unique_names. induction l as [|db l IH]; csimpl; [by intros _ ?%not_elem_of_nil|].
  intros [Hn Hu]%NoDup_cons. case_bool_decide as Heq.
  - split_and!.
    + csimpl. rewrite <-Heq. by constructor.
    + unfold by_name. csimpl. rewrite Heq. by rewrite insert_insert_eq.
    + by rewrite Heq.
    + intros s [->|?]%elem_of_cons; [by left|right; by right].
  - specialize (IH Hu). destruct (replace_source l md) as [l'|]; csimpl.
    + destruct IH as (Hu' & Hby & Hnames & Hin). split_and!.
      * csimpl. rewrite Hnames. by constructor.
      * unfold by_name in Hby |- *. csimpl. rewrite Hby. by apply insert_insert_ne.
      * csimpl. by rewrite Hnames.
      * intros s [->|Hs]%elem_of_cons; [right; by left|].
        destruct (Hin s Hs); [by left|right; by right].
    + rewrite elem_of_cons. intros [?|?]; [by apply Heq|done].
Qed.

(** ** The YAML file *)

Inductive fs_node (Bytes : Type) :=
  | FsError (e : error)                              (* [os.Stat] fails *)
  | FsRegular (content : Bytes)
  | FsDir (entries : list (string * result Bytes))   (* in file name order *)
  | FsOther.
Arguments FsError {Bytes} e.
Arguments FsRegular {Bytes} content.
Arguments FsDir {Bytes} entries.
Arguments FsOther {Bytes}.

(** The file at the store's path, and the error writing to it gives. *)
Record file_store (Bytes : Type) := FileStore {
  fs_at_path : fs_node Bytes;
  fs_write_error : option error;
}.
Arguments FileStore {Bytes}.
Arguments fs_at_path {Bytes}.
Arguments fs_write_error {Bytes}.

Section file_store.
Context {Bytes : Type} (yaml_Marshal : Sources → Bytes) (yaml_Unmarshal : Bytes → result Sources).
Context (getenv : string → string).

Definition expand (s : string) : string :=
  if has_prefix "$" s then os_ExpandEnv getenv s else s.

Definition expandEnvVars (md : Source) : Source := {|
  Name := expand (Name md); Group := expand (Group md); ConnStr := expand (ConnStr md);
  SrcMetrics := SrcMetrics md; MetricsStandby := MetricsStandby md; Kind := expand (Kind md);
  IncludePattern := expand (IncludePattern md); ExcludePattern := expand (ExcludePattern md);
  PresetMetrics := expand (PresetMetrics md);
  PresetMetricsStandby := expand (PresetMetricsStandby md); IsEnabled := IsEnabled md;
  SrcCustomTags := SrcCustomTags md; OnlyIfMaster := OnlyIfMaster md |}.

Definition loadSourcesFromFile (content : result Bytes) : result Sources :=
  match content with
  | Err e => Err e
  | Ok bytes =>
      match yaml_Unmarshal bytes with
      | Err e => Err e
      | Ok c => Ok (expandEnvVars <$> c)
      end
  end.

Fixpoint load_entries (entries : list (string * result Bytes)) : result Sources :=
  match entries with
  | [] => Ok []
  | (name, content) :: entries' =>
      let ext := strings_ToLower (filepath_Ext name) in
      if bool_decide (ext ≠ ".yaml" ∧ ext ≠ ".yml") then load_entries entries'
      else
        match loadSourcesFromFile content with
        | Err e => Err e
        | Ok mdbs =>
            match load_entries entries' with
            | Err e => Err e
            | Ok dbs => Ok (mdbs ++ dbs)
            end
        end
  end.

Definition getSources (st : file_store Bytes) : result Sources :=
  let dbs :=
    match fs_at_path st with
    | FsError e => Err e
    | FsDir entries => load_entries entries
    | FsRegular content => loadSourcesFromFile (Ok content)
    | FsOther => Ok []
    end in
  match dbs with
  | Err e => Err e
  | Ok dbs => Sources_Validate dbs
  end.

Definition writeSources (st : file_store Bytes) (mds : Sources) : file_store Bytes * option error :=
  match fs_write_error st, fs_at_path st with
  | Some e, _ => (st, Some e)
  | None, FsDir _ => (st, Some (ErrorString "is a directory"))
  | None, _ => (FileStore (FsRegular (yaml_Marshal mds)) None, None)
  end.

Definition file_UpdateSource (st : file_store Bytes) (md : Source) : file_store Bytes * option error :=
  match getSources st with
  | Err e => (st, Some e)
  | Ok dbs =>
      match replace_source dbs md with
      | Some dbs => writeSources st dbs
      | None => writeSources st (dbs ++ [md])
      end
  end.

Definition file_CreateSource (st : file_store Bytes) (md : Source) : file_store Bytes * option error :=
  match getSources st with
  | Err e => (st, Some e)
  | Ok dbs =>
      if existsb (λ db, bool_decide (Name db = Name md)) dbs then (st, Some (Sentinel ErrSourceExists))
      else writeSources st (dbs ++ [md])
  end.

Definition file_DeleteSource (st : file_store Bytes) (name : string) : file_store Bytes * option error :=
  match getSources st with
  | Err e => (st, Some e)
  | Ok dbs => writeSources st (delete_name name dbs)
  end.

#[local] Instance file_SourcesStore : SourcesStore (file_store Bytes) := {
  GetSources := getSources;
  WriteSources := writeSources;
  DeleteSource := file_DeleteSource;
  UpdateSource := file_UpdateSource;
  CreateSource := file_CreateSource;
}.

(** Parsing what was printed gives the sources back. *)
Hypothesis yaml_roundtrip : ∀ l, yaml_Unmarshal (yaml_Marshal l) = Ok l.

(** No field of the source is subject to expansion. *)
Definition plain (md : Source) : Prop :=
  Forall (λ s, has_prefix "$" s = false)
    [Name md; Group md; ConnStr md; Kind md; IncludePattern md; ExcludePattern md; PresetMetrics md;
     PresetMetricsStandby md].

Lemma expandEnvVars_plain md : plain md → expandEnvVars md = md.
Proof using Type.
  unfold plain, expandEnvVars, expand. rewrite !Forall_cons. intros H. destruct_and? H.
  repeat match goal with H : has_prefix _ _ = false |- _ => rewrite H; clear H end.
  by destruct md.
Qed.

Lemma expand_all_plain l : Forall plain l → expandEnvVars <$> l = l.
Proof using Type.
  induction 1 as [|s l Hs Hl IH]; csimpl; [done|]. by rewrite expandEnvVars_plain, IH.
Qed.

Definition file_holds (st : file_store Bytes) (m : gmap string Source) : Prop :=
  ∃ c l, st = FileStore (FsRegular c) None ∧ yaml_Unmarshal c = Ok l ∧ unique_names l ∧
    Forall plain l ∧ by_name l = m.

Lemma file_get st m :
  file_holds st m → ∃ l, getSources st = Ok l ∧ unique_names l ∧ Forall plain l ∧ by_name l = m.
Proof using Type.
  intros (c & l & -> & Hy & Hu & Hp & <-). exists l. split; [|done].
  unfold getSources. simpl. rewrite Hy, expand_all_plain by done. by apply Validate_unique.
Qed.

Lemma file_write st m l :
  file_holds st m → unique_names l → Forall plain l →
  ∃ st', writeSources st l = (st', None) ∧ file_holds st' (by_name l).
Proof using yaml_roundtrip.
  intros (c & l0 & -> & _) Hu Hp. eexists. split; [done|]. exists (yaml_Marshal l), l. by split_and!.
Qed.

Lemma existsb_name md (l : Sources) :
  existsb (λ db, bool_decide (Name db = Name md)) l = true ↔ Name md ∈ Name <$> l.
Proof using Type.
  rewrite existsb_exists, list_elem_of_fmap. setoid_rewrite bool_decide_eq_true.
  setoid_rewrite <-list_elem_of_In. naive_solver.
Qed.

(** The YAML store keeps the contract for sources without variables in their fields. *)
#[local] Instance file_SourcesStoreLaws : SourcesStoreLaws (file_store Bytes).
Proof using yaml_roundtrip.
  refine {| holds := file_holds; kept := plain |}; simpl;
    unfold file_DeleteSource, file_UpdateSource, file_CreateSource.
  - intros st m Hm. destruct (file_get st m Hm) as (l & ? & ? & ? & ?). eauto.
  - apply file_write.
  - intros st m name Hm. destruct (file_get st m Hm) as (l & -> & Hu & Hp & <-).
    rewrite <-by_name_delete by done. eapply file_write; [done|by apply unique_names_delete|].
    apply Forall_forall. intros x [_ Hx]%list_elem_of_filter. by eapply Forall_forall in Hp.
  - intros st m s Hm Hs. destruct (file_get st m Hm) as (l & -> & Hu & Hp & <-).
    pose proof (replace_source_spec l s Hu) as Hr. destruct (replace_source l s) as [l'|].
    + destruct Hr as (Hu' & <- & _ & Hin). eapply file_write; [done..|].
      apply Forall_forall. intros x [->|Hx]%Hin; [done|]. by eapply Forall_forall in Hp.
    + rewrite <-by_name_snoc by done. eapply file_write; [done|by apply unique_names_snoc|].
      apply Forall_app. split; [done|by constructor].
  - intros st m s Hm Hs Hnew. destruct (file_get st m Hm) as (l & -> & Hu & Hp & <-).
    apply by_name_None in Hnew. pose proof (existsb_name s l) as He.
    destruct (existsb _ l); [exfalso; by apply Hnew, He|].
    rewrite <-by_name_snoc by done. eapply file_write; [done|by apply unique_names_snoc|].
    apply Forall_app. split; [done|by constructor].
  - intros st m s Hm Hold. destruct (file_get st m Hm) as (l & -> & Hu & Hp & <-).
    pose proof (existsb_name s l) as He. destruct (existsb _ l).
    + eexists. split; [done|]. done.
    + exfalso. destruct Hold as [s' Hs']. assert (Name s ∉ Name <$> l) as Hn.
      { intros Hin. by apply He in Hin. }
      apply by_name_None in Hn. congruence.
Defined.

(** The YAML store refines a map from names to sources: for any sequence of writes,
    deletions, updates and creations of sources without variables in their fields, the file ends
    up with exactly the sources the map operations prescribe, reading it returns them, and the only
    operations refused are creations under a taken name, with [ErrSourceExists]. *)
Theorem file_store_refines st m cs :
  file_holds st m → Forall cmd_ok cs →
  let '(st', errs) := exec_cmds st cs in
  let '(m', refused) := abs_cmds m cs in
  file_holds st' m' ∧ Forall2 answers errs refused ∧
  ∃ l, getSources st' = Ok l ∧ unique_names l ∧ by_name l = m'.
Proof using yaml_roundtrip.
  intros Hst Hok. pose proof (exec_cmds_sim st m cs) as Hsim. destruct (Hsim Hst Hok) as [H1 H2].
  destruct (exec_cmds st cs) as [st' errs], (abs_cmds m cs) as [m' refused]. simpl in *.
  split_and!; [done..|]. destruct (file_get st' m' H1) as (l & ? & ? & ? & ?). eauto.
Qed.
End file_store.

(** ** The table of the configuration database *)

(** A row of [pgwatch.source]; [None] is SQL [NULL]. *)
Record source_row := {
  r_name : string; r_group : string; r_dbtype : string; r_connstr : string;
  r_config : option (gmap string Z); r_config_standby : option (gmap string Z);
  r_preset_config : option string; r_preset_config_standby : option string;
  r_include_pattern : string; r_exclude_pattern : string;
  r_custom_tags : option (gmap string string); r_only_if_master : bool; r_is_enabled : bool;
}.

(** [db.MarshallParamToJSONB] on a map: an empty or nil map becomes [NULL]. *)
Definition MarshallParamToJSONB {A} (m : option (gmap string A)) : option (gmap string A) :=
  match m with
  | None => None
  | Some m => if bool_decide (size m = 0%nat) then None else Some m
  end.

Definition NULLIF_empty (s : string) : option string := if bool_decide (s = "") then None else Some s.

(** The parameters of the [insert] statement. *)
Definition to_row (md : Source) : source_row := {|
  r_name := Name md; r_group := Group md; r_dbtype := Kind md; r_connstr := ConnStr md;
  r_config := MarshallParamToJSONB (SrcMetrics md);
  r_config_standby := MarshallParamToJSONB (MetricsStandby md);
  r_preset_config := NULLIF_empty (PresetMetrics md);
  r_preset_config_standby := NULLIF_empty (PresetMetricsStandby md);
  r_include_pattern := IncludePattern md; r_exclude_pattern := ExcludePattern md;
  r_custom_tags := MarshallParamToJSONB (SrcCustomTags md);
  r_only_if_master := OnlyIfMaster md; r_is_enabled := IsEnabled md |}.

(** The [select] of [GetSources], with its [coalesce]s. *)
Definition of_row (r : source_row) : Source := {|
  Name := r_name r; Group := r_group r; ConnStr := r_connstr r;
  SrcMetrics := Some (default ∅ (r_config r));
  MetricsStandby := Some (default ∅ (r_config_standby r)); Kind := r_dbtype r;
  IncludePattern := r_include_pattern r; ExcludePattern := r_exclude_pattern r;
  PresetMetrics := default "" (r_preset_config r);
  PresetMetricsStandby := default "" (r_preset_config_standby r); IsEnabled := r_is_enabled r;
  SrcCustomTags := Some (default ∅ (r_custom_tags r)); OnlyIfMaster := r_only_if_master r |}.

(** The table, keyed by name; the order in which the server returns its rows; and the statements
    that fail. *)
Record db_store := DbStore {
  dbs_rows : gmap string source_row;
  dbs_order : range_order;
  dbs_fail : string → option error;
}.

Definition with_rows (st : db_store) (rows : gmap string source_row) : db_store :=
  DbStore rows (dbs_order st) (dbs_fail st).

Definition updateSource (st : db_store) (md : Source) : db_store * option error :=
  match dbs_fail st ("upsert " +:+ Name md) with
  | Some e => (st, Some e)
  | None => (with_rows st (<[Name md := to_row md]> (dbs_rows st)), None)
  end.

(** The insert fails with a unique violation when the name is taken. *)
Definition createSource (st : db_store) (md : Source) : db_store * option error :=
  let '(st, err) :=
    match dbs_fail st ("insert " +:+ Name md) with
    | Some e => (st, Some e)
    | None =>
        match dbs_rows st !! Name md with
        | Some _ => (st, Some (PgError "23505"))
        | None => (with_rows st (<[Name md := to_row md]> (dbs_rows st)), None)
        end
    end in
  match err with
  | None => (st, None)
  | Some e =>
      if bool_decide (errors_As_PgError e = Some "23505") then (st, Some (Sentinel ErrSourceExists))
      else (st, Some e)
  end.

(** The loop of [WriteSources] inside the transaction. *)
Fixpoint write_all (st : db_store) (dbs : Sources) : db_store * option error :=
  match dbs with
  | [] => (st, None)
  | md :: dbs' =>
      let '(st, err) := updateSource st md in
      match err with
      | Some e => (st, Some e)
      | None => write_all st dbs'
      end
  end.

(** [WriteSources]: a transaction that is rolled back unless it commits. *)
Definition db_WriteSources (st : db_store) (dbs : Sources) : db_store * option error :=
  match dbs_fail st "begin" with
  | Some e => (st, Some e)
  | None =>
      match dbs_fail st "truncate" with
      | Some e => (st, Some e)
      | None =>
          let '(tx, err) := write_all (with_rows st ∅) dbs in
          match err with
          | Some e => (st, Some e)
          | None =>
              match dbs_fail st "commit" with
              | Some e => (st, Some e)
              | None => (tx, None)
              end
          end
      end
  end.

Definition db_DeleteSource (st : db_store) (name : string) : db_store * option error :=
  match dbs_fail st ("delete " +:+ name) with
  | Some e => (st, Some e)
  | None => (with_rows st (delete name (dbs_rows st)), None)
  end.

Definition db_GetSources (st : db_store) : result Sources :=
  match dbs_fail st "select" with
  | Some e => Err e
  | None => Ok (of_row <$> (range (dbs_order st) (dbs_rows st)).*2)
  end.

#[export] Instance db_SourcesStore : SourcesStore db_store := {
  GetSources := db_GetSources;
  WriteSources := db_WriteSources;
  DeleteSource := db_DeleteSource;
  UpdateSource := updateSource;
  CreateSource := createSource;
}.

(** *** The contract *)

(** What is read back after writing [md]: nil maps have become empty ones. *)
Lemma of_to_row md :
  of_row (to_row md) =
  {| Name := Name md; Group := Group md; ConnStr := ConnStr md;
     SrcMetrics := Some (default ∅ (SrcMetrics md));
     MetricsStandby := Some (default ∅ (MetricsStandby md)); Kind := Kind md;
     IncludePattern := IncludePattern md; ExcludePattern := ExcludePattern md;
     PresetMetrics := PresetMetrics md; PresetMetricsStandby := PresetMetricsStandby md;
     IsEnabled := IsEnabled md; SrcCustomTags := Some (default ∅ (SrcCustomTags md));
     OnlyIfMaster := OnlyIfMaster md |}.
Proof.
  assert (∀ A (m : option (gmap string A)), default ∅ (MarshallParamToJSONB m) = default ∅ m) as Hm.
  { intros A [m|]; [|done]. simpl. case_bool_decide as Hs; [|done].
    by apply map_size_empty_iff in Hs as ->. }
  assert (∀ s, default "" (NULLIF_empty s) = s) as Hn.
  { intros s. unfold NULLIF_empty. by case_bool_decide. }
  unfold of_row. simpl. by rewrite !Hm, !Hn.
Qed.

(** The sources without nil maps. *)
Definition no_nil (md : Source) : Prop :=
  is_Some (SrcMetrics md) ∧ is_Some (MetricsStandby md) ∧ is_Some (SrcCustomTags md).

Lemma of_to_row_id md : no_nil md → of_row (to_row md) = md.
Proof. intros ([? H1] & [? H2] & [? H3]). rewrite of_to_row. destruct md; simpl in *. by subst. Qed.

(** The table holds the sources, and no statement fails. *)
Definition db_holds (st : db_store) (m : gmap string Source) : Prop :=
  of_row <$> dbs_rows st = m ∧ map_Forall (λ n r, r_name r = n) (dbs_rows st) ∧
  ∀ s, dbs_fail st s = None.

Lemma db_holds_insert st m s :
  db_holds st m → no_nil s →
  db_holds (with_rows st (<[Name s := to_row s]> (dbs_rows st))) (<[Name s := s]> m).
Proof.
  intros (<- & Hn & Hf) Hs. split_and!; [|by apply map_Forall_insert_2|done].
  simpl. by rewrite fmap_insert, of_to_row_id.
Qed.

Lemma write_all_holds l st m :
  db_holds st m → unique_names l → Forall no_nil l → (∀ s, s ∈ l → m !! Name s = None) →
  ∃ st', write_all st l = (st', None) ∧ db_holds st' (by_name l ∪ m).
Proof.
  revert st m. induction l as [|s l IH]; intros st m Hst Hu Hk Hnew; simpl.
  { exists st. split; [done|]. change (by_name []) with (∅ : gmap string Source).
    by rewrite (left_id_L ∅ (∪)). }
  unfold unique_names in Hu. csimpl in Hu. apply NoDup_cons in Hu as [Hs Hu].
  apply Forall_cons in Hk as [Hks Hk]. unfold updateSource.
  pose proof Hst as (_ & _ & Hf). rewrite Hf.
  destruct (IH (with_rows st (<[Name s := to_row s]> (dbs_rows st))) (<[Name s := s]> m))
    as (st' & -> & Hst'); [by apply db_holds_insert|done|done| |].
  { intros s' Hin. rewrite lookup_insert_ne; [apply Hnew; by right|].
    intros Heq. apply Hs. rewrite Heq. by apply list_elem_of_fmap_2. }
  exists st'. split; [done|]. replace (by_name (s :: l) ∪ m) with (by_name l ∪ <[Name s := s]> m);
    [done|]. unfold by_name at 2. csimpl. fold (by_name l). rewrite <-insert_union_l.
  symmetry. apply insert_union_r. by apply by_name_None.
Qed.

(** The table keeps the contract for sources without nil maps. *)
#[export] Instance db_SourcesStoreLaws : SourcesStoreLaws db_store.
Proof.
  refine {| holds := db_holds; kept := no_nil |}; simpl.
  - intros st m (<- & Hn & Hf). unfold db_GetSources. rewrite Hf. eexists. split; [done|].
    assert ((λ s, (Name s, s)) <$> (of_row <$> (range (dbs_order st) (dbs_rows st)).*2) =
            (λ p, (p.1, of_row p.2)) <$> range (dbs_order st) (dbs_rows st)) as Heq.
    { rewrite <-!list_fmap_compose. apply list_fmap_ext. intros i [n r] Hl. simpl.
      apply list_elem_of_lookup_2, elem_of_range in Hl. by rewrite (Hn n r Hl). }
    split.
    + unfold unique_names. replace (Name <$> (of_row <$> (range (dbs_order st) (dbs_rows st)).*2))
        with (((λ s, (Name s, s)) <$> (of_row <$> (range (dbs_order st) (dbs_rows st)).*2)).*1)
        by (by rewrite <-list_fmap_compose).
      rewrite Heq, <-list_fmap_compose. apply (NoDup_range_keys (dbs_order st)).
    + unfold by_name. rewrite Heq. apply map_eq. intros n. apply option_eq. intros s.
      rewrite <-elem_of_list_to_map.
      * rewrite list_elem_of_fmap, lookup_fmap_Some. setoid_rewrite (surjective_pairing (A := string)).
        split.
        -- intros ([n' r] & [= -> ->] & Hin%elem_of_range). eauto.
        -- intros (r & <- & Hr). exists (n, r). split; [done|]. by apply elem_of_range.
      * rewrite <-list_fmap_compose. apply (NoDup_range_keys (dbs_order st)).
  - intros st m l (Hm & Hn & Hf) Hu Hk. unfold db_WriteSources. rewrite !Hf.
    destruct (write_all_holds l (with_rows st ∅) ∅) as (st' & -> & Hst'); [|done|done| |].
    + split_and!; [by simpl; rewrite fmap_empty|apply map_Forall_empty|done].
    + intros. apply lookup_empty.
    + eexists. split; [done|]. by rewrite (right_id_L ∅ (∪)) in Hst'.
  - intros st m name (<- & Hn & Hf). unfold db_DeleteSource. rewrite Hf. eexists. split; [done|].
    split_and!; [by simpl; rewrite fmap_delete|by apply map_Forall_delete|done].
  - intros st m s Hst Hs. unfold updateSource. pose proof Hst as (_ & _ & Hf). rewrite Hf.
    eexists. split; [done|]. by apply db_holds_insert.
  - intros st m s Hst Hs Hnew. unfold createSource. pose proof Hst as (<- & _ & Hf). rewrite Hf.
    rewrite lookup_fmap, fmap_None in Hnew. rewrite Hnew. eexists. split; [done|].
    by apply db_holds_insert.
  - intros st m s Hst [s' Hold]. unfold createSource. pose proof Hst as (<- & _ & Hf). rewrite Hf.
    rewrite lookup_fmap, fmap_Some in Hold. destruct Hold as (r & -> & _). eexists. split; [done|]. done.
Defined.

(** C32.  The table of the configuration database refines the same map, for sources without nil
    maps (which come back as empty ones).  When a statement fails, the table is unchanged: in
    particular a failed [WriteSources] never leaves the table truncated. *)
Theorem db_store_refines st m cs :
  (db_holds st m → Forall cmd_ok cs →
   let '(st', errs) := exec_cmds st cs in
   let '(m', refused) := abs_cmds m cs in
   db_holds st' m' ∧ Forall2 answers errs refused ∧
   ∃ l, db_GetSources st' = Ok l ∧ unique_names l ∧ by_name l = m') ∧
  (∀ c, is_Some (exec_cmd st c).2 → (exec_cmd st c).1 = st).
Proof.
  split.
  - intros Hst Hok. pose proof (exec_cmds_sim st m cs) as Hsim.
    destruct (Hsim Hst Hok) as [H1 H2].
    destruct (exec_cmds st cs) as [st' errs], (abs_cmds m cs) as [m' refused]. simpl in *.
    split_and!; [done..|]. exact (get_holds (SourcesStoreLaws := db_SourcesStoreLaws) st' m' H1).
  - intros [l|name|s|s]; simpl; intros [e He]; revert He;
      unfold db_WriteSources, db_DeleteSource, updateSource, createSource.
    + repeat case_match; simpl; intros; by simplify_eq.
    + case_match; simpl; intros; by simplify_eq.
    + case_match; simpl; intros; by simplify_eq.
    + repeat case_match; simpl; intros; by simplify_eq.
Qed.

(** ** Examples *)

Definition empty_table : db_store := DbStore ∅ tree_order (λ _, None).

Definition full_source (name connstr : string) : Source := {|
  Name := name; Group := "g"; ConnStr := connstr; SrcMetrics := Some {["wal" := 60]};
  MetricsStandby := Some ∅; Kind := SourcePostgres; IncludePattern := ""; ExcludePattern := "";
  PresetMetrics := ""; PresetMetricsStandby := ""; IsEnabled := true; SrcCustomTags := Some ∅;
  OnlyIfMaster := false |}.

Lemma full_source_no_nil n c : no_nil (full_source n c).
Proof. split_and!; by eexists. Qed.

Lemma empty_table_holds : db_holds empty_table ∅.
Proof. split_and!; [by simpl; rewrite fmap_empty|apply map_Forall_empty|done]. Qed.

Lemma store_lifecycle_witness :
  let s := full_source "a" "host=x" in let s' := full_source "a" "host=y" in
  ∃ st1 st2 st3 st4 l1 l2 e,
    CreateSource empty_table s = (st1, None) ∧ GetSources st1 = Ok l1 ∧ s ∈ l1 ∧
    CreateSource st1 s' = (st1, Some e) ∧ errors_Is e ErrSourceExists = true ∧
    UpdateSource st1 s' = (st2, None) ∧ GetSources st2 = Ok l2 ∧ s' ∈ l2 ∧ (s ≠ s' → s ∉ l2) ∧
    DeleteSource st2 (Name s) = (st3, None) ∧ CreateSource st3 s = (st4, None).
Proof.
  apply (store_lifecycle empty_table ∅); [exact empty_table_holds|apply full_source_no_nil..| |];
    reflexivity.
Defined.

Definition sample_cmds : list store_cmd :=
  [CmdCreate (full_source "a" "host=x"); CmdCreate (full_source "a" "host=y");
   CmdUpdate (full_source "b" "host=z"); CmdDelete "a"].

Lemma db_store_refines_witness :
  let '(st', errs) := exec_cmds empty_table sample_cmds in
  let '(m', refused) := abs_cmds ∅ sample_cmds in
  db_holds st' m' ∧ Forall2 answers errs refused ∧
  ∃ l, db_GetSources st' = Ok l ∧ unique_names l ∧ by_name l = m'.
Proof.
  apply (db_store_refines empty_table ∅ sample_cmds); [exact empty_table_holds|].
  repeat constructor; by eexists.
Defined.

Definition empty_file : file_store Sources := FileStore (FsRegular []) None.

Lemma file_store_refines_witness :
  let '(st', errs) := @exec_cmds _ (file_SourcesStore (λ l, l) (λ l, Ok l) sample_env) empty_file
                        sample_cmds in
  let '(m', refused) := abs_cmds ∅ sample_cmds in
  file_holds (λ l, Ok l) st' m' ∧ Forall2 answers errs refused ∧
  ∃ l, getSources (λ l, Ok l) sample_env st' = Ok l ∧ unique_names l ∧ by_name l = m'.
Proof.
  apply (file_store_refines (λ l, l) (λ l, Ok l) sample_env (λ l, eq_refl) empty_file ∅ sample_cmds).
  - exists [], []. split_and!; try done; constructor.
  - repeat constructor; reflexivity.
Defined.
