(* ===== verification/MetricStore.v ===== *)
(** * The stores of metric definitions ([internal/metrics/yaml.go], [postgres.go], [default.go])

    The class [MetricsStore] is the interface the collector and the web server use.  Its laws say
    that a store behaves like a pair of maps, metrics and presets; two points are left to the store:
    what writing a whole set of definitions does to the ones already there, and whether deleting a
    metric removes it from the presets.  The YAML file replaces its contents and leaves the presets
    alone; the configuration database adds to its tables and prunes the presets (a trigger of
    [postgres_schema.sql]).  The built-in definitions are read-only. *)

From S2P Require Import Prelude GoStrings Metrics Sources SourceStores.
From stdpp Require Import options.

Local Open Scope Z_scope.

(** ** The interface *)

Class MetricsStore (St : Type) := {
  GetMetrics : St → result Metrics;
  WriteMetrics : St → Metrics → St * option error;
  DeleteMetric : St → string → St * option error;
  UpdateMetric : St → string → Metric → St * option error;
  CreateMetric : St → string → Metric → St * option error;
  DeletePreset : St → string → St * option error;
  UpdatePreset : St → string → Preset → St * option error;
  CreatePreset : St → string → Preset → St * option error;
}.

Inductive metric_cmd :=
  | McWrite (d : Metrics)
  | McDeleteMetric (name : string)
  | McUpdateMetric (name : string) (m : Metric)
  | McCreateMetric (name : string) (m : Metric)
  | McDeletePreset (name : string)
  | McUpdatePreset (name : string) (p : Preset)
  | McCreatePreset (name : string) (p : Preset).

Definition exec_metric_cmd `{MetricsStore St} (st : St) (c : metric_cmd) : St * option error :=
  match c with
  | McWrite d => WriteMetrics st d
  | McDeleteMetric n => DeleteMetric st n
  | McUpdateMetric n m => UpdateMetric st n m
  | McCreateMetric n m => CreateMetric st n m
  | McDeletePreset n => DeletePreset st n
  | McUpdatePreset n p => UpdatePreset st n p
  | McCreatePreset n p => CreatePreset st n p
  end.

Definition set_metric (d : Metrics) (n : string) (m : Metric) : Metrics :=
  {| MetricDefs := <[n := m]> (MetricDefs d); PresetDefs := PresetDefs d |}.
Definition set_preset (d : Metrics) (n : string) (p : Preset) : Metrics :=
  {| MetricDefs := MetricDefs d; PresetDefs := <[n := p]> (PresetDefs d) |}.

(** The effect of an operation on the definitions, and the error that refuses it. *)
Definition abs_metric_cmd (write : Metrics → Metrics → Metrics)
    (prune : string → Metrics → gmap string Preset) (d : Metrics) (c : metric_cmd) :
    Metrics * option sentinel :=
  match c with
  | McWrite d' => (write d d', None)
  | McDeleteMetric n =>
      ({| MetricDefs := delete n (MetricDefs d); PresetDefs := prune n d |}, None)
  | McUpdateMetric n m => (set_metric d n m, None)
  | McCreateMetric n m =>
      match MetricDefs d !! n with Some _ => (d, Some ErrMetricExists) | None => (set_metric d n m, None) end
  | McDeletePreset n => ({| MetricDefs := MetricDefs d; PresetDefs := delete n (PresetDefs d) |}, None)
  | McUpdatePreset n p => (set_preset d n p, None)
  | McCreatePreset n p =>
      match PresetDefs d !! n with Some _ => (d, Some ErrPresetExists) | None => (set_preset d n p, None) end
  end.

(** What a store promises, for the commands it allows. *)
Class MetricsStoreLaws (St : Type) `{MetricsStore St} := {
  mholds : St → Metrics → Prop;
  allowed : metric_cmd → Prop;
  written_over : Metrics → Metrics → Metrics;
  pruned : string → Metrics → gmap string Preset;
  get_defs st d : mholds st d → GetMetrics st = Ok d;
  step_holds st d c : mholds st d → allowed c →
    mholds (exec_metric_cmd st c).1 (abs_metric_cmd written_over pruned d c).1 ∧
    (exec_metric_cmd st c).2 = Sentinel <$> (abs_metric_cmd written_over pruned d c).2;
  written_over_all d d' n m : MetricDefs d' !! n = Some m → MetricDefs (written_over d d') !! n = Some m;
}.

Fixpoint exec_metric_cmds `{MetricsStore St} (st : St) (cs : list metric_cmd) : St * list (option error) :=
  match cs with
  | [] => (st, [])
  | c :: cs' =>
      let '(st, e) := exec_metric_cmd st c in
      let '(st, es) := exec_metric_cmds st cs' in (st, e :: es)
  end.

Fixpoint abs_metric_cmds (write : Metrics → Metrics → Metrics)
    (prune : string → Metrics → gmap string Preset) (d : Metrics) (cs : list metric_cmd) :
    Metrics * list (option sentinel) :=
  match cs with
  | [] => (d, [])
  | c :: cs' =>
      let '(d, r) := abs_metric_cmd write prune d c in
      let '(d, rs) := abs_metric_cmds write prune d cs' in (d, r :: rs)
  end.

Lemma exec_metric_cmds_sim `{MetricsStoreLaws St} (st : St) d cs :
  mholds st d → Forall allowed cs →
  let '(st', errs) := exec_metric_cmds st cs in
  let '(d', refused) := abs_metric_cmds written_over pruned d cs in
  mholds st' d' ∧ errs = fmap (M := option) Sentinel <$> refused.
Proof.
  revert st d. induction cs as [|c cs IH]; intros st d Hst Hok; simpl; [done|].
  apply Forall_cons in Hok as [Hc Hok]. destruct (step_holds st d c Hst Hc) as [H1 H2].
  destruct (exec_metric_cmd st c) as [st1 e], (abs_metric_cmd _ _ d c) as [d1 r]. simpl in H1, H2.
  specialize (IH st1 d1 H1 Hok). destruct (exec_metric_cmds st1 cs), (abs_metric_cmds _ _ d1 cs).
  destruct IH as [? ->]. split; [done|]. csimpl. by rewrite H2.
Qed.

(** ** The YAML file *)

Section file_metrics.
Context {Bytes : Type} (yaml_Unmarshal : Bytes → result Metrics) (yaml_Marshal : Metrics → Bytes).

Definition loadMetricsFromFile (content : result Bytes) : result Metrics :=
  match content with Err e => Err e | Ok c => yaml_Unmarshal c end.

(** [maps.Copy] of the definitions of a file into the ones collected so far. *)
Definition copy_defs (metrics m : Metrics) : Metrics :=
  {| MetricDefs := MetricDefs m ∪ MetricDefs metrics; PresetDefs := PresetDefs m ∪ PresetDefs metrics |}.

Fixpoint load_metric_entries (metrics : Metrics) (entries : list (string * result Bytes)) : result Metrics :=
  match entries with
  | [] => Ok metrics
  | (name, content) :: entries' =>
      let ext := strings_ToLower (filepath_Ext name) in
      if bool_decide (ext ≠ ".yaml" ∧ ext ≠ ".yml") then load_metric_entries metrics entries'
      else
        match loadMetricsFromFile content with
        | Err e => Err e
        | Ok m => load_metric_entries (copy_defs metrics m) entries'
        end
  end.

Definition getMetrics (st : file_store Bytes) : result Metrics :=
  let empty := {| MetricDefs := ∅; PresetDefs := ∅ |} in
  match fs_at_path st with
  | FsError e => Err e
  | FsDir entries => load_metric_entries empty entries
  | FsRegular content => loadMetricsFromFile (Ok content)
  | FsOther => Ok empty
  end.

Definition writeMetrics (st : file_store Bytes) (d : Metrics) : file_store Bytes * option error :=
  match fs_write_error st, fs_at_path st with
  | Some e, _ => (st, Some e)
  | None, FsDir _ => (st, Some (ErrorString "is a directory"))
  | None, _ => (FileStore (FsRegular (yaml_Marshal d)) None, None)
  end.

(** The common shape of the modifying operations: read, change or refuse, write back. *)
Definition edit (st : file_store Bytes) (f : Metrics → Metrics + sentinel) : file_store Bytes * option error :=
  match getMetrics st with
  | Err e => (st, Some e)
  | Ok d =>
      match f d with
      | inl d' => writeMetrics st d'
      | inr s => (st, Some (Sentinel s))
      end
  end.

Definition file_DeleteMetric (st : file_store Bytes) (n : string) :=
  edit st (λ d, inl {| MetricDefs := delete n (MetricDefs d); PresetDefs := PresetDefs d |}).
Definition file_UpdateMetric (st : file_store Bytes) (n : string) (m : Metric) :=
  edit st (λ d, inl (set_metric d n m)).
Definition file_CreateMetric (st : file_store Bytes) (n : string) (m : Metric) :=
  edit st (λ d, match MetricDefs d !! n with Some _ => inr ErrMetricExists | None => inl (set_metric d n m) end).
Definition file_DeletePreset (st : file_store Bytes) (n : string) :=
  edit st (λ d, inl {| MetricDefs := MetricDefs d; PresetDefs := delete n (PresetDefs d) |}).
Definition file_UpdatePreset (st : file_store Bytes) (n : string) (p : Preset) :=
  edit st (λ d, inl (set_preset d n p)).
Definition file_CreatePreset (st : file_store Bytes) (n : string) (p : Preset) :=
  edit st (λ d, match PresetDefs d !! n with Some _ => inr ErrPresetExists | None => inl (set_preset d n p) end).

#[local] Instance file_MetricsStore : MetricsStore (file_store Bytes) := {
  GetMetrics := getMetrics; WriteMetrics := writeMetrics;
  DeleteMetric := file_DeleteMetric; UpdateMetric := file_UpdateMetric; CreateMetric := file_CreateMetric;
  DeletePreset := file_DeletePreset; UpdatePreset := file_UpdatePreset; CreatePreset := file_CreatePreset;
}.

(** Presets whose intervals are a map, possibly empty, and not nil: YAML has no nil map. *)
Definition yaml_defs (d : Metrics) : Prop := map_Forall (λ _ p, is_Some (Preset_Metrics p)) (PresetDefs d).

Hypothesis yaml_roundtrip : ∀ d, yaml_defs d → yaml_Unmarshal (yaml_Marshal d) = Ok d.

Definition file_mholds (st : file_store Bytes) (d : Metrics) : Prop :=
  ∃ c, st = FileStore (FsRegular c) None ∧ yaml_Unmarshal c = Ok d ∧ yaml_defs d.

Definition file_allowed (c : metric_cmd) : Prop :=
  match c with
  | McWrite d => yaml_defs d
  | McUpdatePreset _ p | McCreatePreset _ p => is_Some (Preset_Metrics p)
  | _ => True
  end.

Lemma file_edit st d f :
  file_mholds st d →
  match f d with
  | inl d' => yaml_defs d' → file_mholds (edit st f).1 d' ∧ (edit st f).2 = None
  | inr s => edit st f = (st, Some (Sentinel s))
  end.
Proof using yaml_roundtrip.
  intros (c & -> & Hc & Hd). unfold edit, getMetrics. simpl. rewrite Hc. destruct (f d) as [d'|s]; [|done].
  intros Hd'. split; [|done]. exists (yaml_Marshal d'). split_and!; [done|by apply yaml_roundtrip|done].
Qed.

#[local] Instance file_MetricsStoreLaws : MetricsStoreLaws (file_store Bytes).
Proof using yaml_roundtrip.
  refine {| mholds := file_mholds; allowed := file_allowed; written_over := λ _ d', d'; pruned := λ _ d, PresetDefs d |};
    [| |done].
  { intros st d (c & -> & Hc & _). exact Hc. }
  intros st d c Hst Hok. pose proof Hst as (c0 & -> & Hc0 & Hd).
  pose proof (λ f, file_edit _ d f Hst) as He. destruct c as [d'|n|n m|n m|n|n p|n p]; simpl in Hok |- *.
  - split; [|done]. exists (yaml_Marshal d'). split_and!; [done|by apply yaml_roundtrip|done].
  - apply (He (λ d, inl _)). done.
  - apply (He (λ d, inl _)). done.
  - unfold file_CreateMetric.
    specialize (He (λ d, match MetricDefs d !! n with Some _ => inr ErrMetricExists | None => inl (set_metric d n m) end)).
    simpl in He. destruct (MetricDefs d !! n); [by rewrite He|by apply He].
  - apply (He (λ d, inl _)). by apply map_Forall_delete.
  - apply (He (λ d, inl _)). by apply map_Forall_insert_2.
  - unfold file_CreatePreset.
    specialize (He (λ d, match PresetDefs d !! n with Some _ => inr ErrPresetExists | None => inl (set_preset d n p) end)).
    simpl in He. destruct (PresetDefs d !! n); [by rewrite He|]. apply He. by apply map_Forall_insert_2.
Defined.

(** The YAML store of metric definitions refines a pair of maps.  For any run of operations on
    definitions without nil maps, the file ends up with exactly the metrics and presets the map
    operations prescribe, a write replaces everything, reading returns them, and the only operations
    refused are creations under a taken name. *)
Theorem file_metrics_refine st d cs :
  file_mholds st d → Forall file_allowed cs →
  let '(st', errs) := exec_metric_cmds st cs in
  let '(d', refused) := abs_metric_cmds (λ _ d', d') (λ _ d, PresetDefs d) d cs in
  getMetrics st' = Ok d' ∧ errs = fmap (M := option) Sentinel <$> refused.
Proof using yaml_roundtrip.
  intros Hst Hok. pose proof (exec_metric_cmds_sim st d cs Hst Hok) as Hsim. simpl in Hsim.
  destruct (exec_metric_cmds st cs) as [st' errs]. destruct (abs_metric_cmds _ _ d cs) as [d' refused].
  destruct Hsim as [Hh ->]. split; [|done]. exact (get_defs st' d' Hh).
Qed.
End file_metrics.

(** ** The configuration database *)

Record preset_row := { pr_description : string; pr_metrics : gmap string Z }.

(** The tables [pgwatch.metric] and [pgwatch.preset]; the presets that rows of [pgwatch.source]
    refer to; the order in which rows are returned; the statements that fail. *)
Record metric_db := MetricDb {
  t_metric : gmap string Metric;
  t_preset : gmap string preset_row;
  t_refs : gset string;
  t_order : range_order;
  t_fail : string → option error;
}.

Definition with_metric (st : metric_db) (t : gmap string Metric) : metric_db :=
  MetricDb t (t_preset st) (t_refs st) (t_order st) (t_fail st).
Definition with_preset (st : metric_db) (t : gmap string preset_row) : metric_db :=
  MetricDb (t_metric st) t (t_refs st) (t_order st) (t_fail st).

(** Run a statement unless it fails. *)
Definition statement (st : metric_db) (name : string) (run : metric_db * option error) :
    metric_db * option error :=
  match t_fail st name with Some e => (st, Some e) | None => run end.

(** [upsert] of one row.  The columns [sqls] and [metrics] are not null.  A successful upsert
    affects one row, so the source's test for no affected rows never fires. *)
Definition upsert_metric (st : metric_db) (n : string) (sqls : option (gmap Z string)) (m : Metric) :
    metric_db * option error :=
  match sqls with
  | None => (st, Some (PgError "23502"))
  | Some _ => (with_metric st (<[n := m]> (t_metric st)), None)
  end.

Definition upsert_preset (st : metric_db) (n : string) (p : Preset) (metrics : option (gmap string Z)) :
    metric_db * option error :=
  match metrics with
  | None => (st, Some (PgError "23502"))
  | Some ms => (with_preset st (<[n := {| pr_description := Preset_Description p; pr_metrics := ms |}]>
                                  (t_preset st)), None)
  end.

(** [db.MarshallParamToJSONB] of the SQL map. *)
Definition marshall_sqls (sqls : gmap Z string) : option (gmap Z string) :=
  if bool_decide (size sqls = 0%nat) then None else Some sqls.

Fixpoint write_metric_rows (st : metric_db) (ms : list (string * Metric)) : metric_db * option error :=
  match ms with
  | [] => (st, None)
  | (n, m) :: ms' =>
      let '(st, err) := statement st ("upsert metric " +:+ n) (upsert_metric st n (Some (SQLs m)) m) in
      match err with Some e => (st, Some e) | None => write_metric_rows st ms' end
  end.

Fixpoint write_preset_rows (st : metric_db) (ps : list (string * Preset)) : metric_db * option error :=
  match ps with
  | [] => (st, None)
  | (n, p) :: ps' =>
      let '(st, err) := statement st ("upsert preset " +:+ n) (upsert_preset st n p (Preset_Metrics p)) in
      match err with Some e => (st, Some e) | None => write_preset_rows st ps' end
  end.

(** A transaction that is rolled back unless it commits. *)
Definition writeMetricsToPostgres (st : metric_db) (d : Metrics) : metric_db * option error :=
  match t_fail st "begin" with
  | Some e => (st, Some e)
  | None =>
      let '(tx, err) := write_metric_rows st (range (t_order st) (MetricDefs d)) in
      match err with
      | Some e => (st, Some e)
      | None =>
          let '(tx, err) := write_preset_rows tx (range (t_order st) (PresetDefs d)) in
          match err with
          | Some e => (st, Some e)
          | None => match t_fail st "commit" with Some e => (st, Some e) | None => (tx, None) end
          end
      end
  end.

Definition db_GetMetrics (st : metric_db) : result Metrics :=
  match t_fail st "select metric", t_fail st "select preset" with
  | Some e, _ => Err e
  | None, Some e => Err e
  | None, None =>
      Ok {| MetricDefs := t_metric st;
            PresetDefs := (λ r, {| Preset_Description := pr_description r;
                                   Preset_Metrics := Some (pr_metrics r) |}) <$> t_preset st |}
  end.

(** Deleting a metric; the trigger removes it from the presets. *)
Definition db_DeleteMetric (st : metric_db) (n : string) : metric_db * option error :=
  statement st ("delete metric " +:+ n)
    (let st' := with_metric st (delete n (t_metric st)) in
     match t_metric st !! n with
     | None => (st', None)
     | Some _ =>
         (with_preset st' ((λ r, {| pr_description := pr_description r;
                                    pr_metrics := delete n (pr_metrics r) |}) <$> t_preset st), None)
     end).

Definition db_UpdateMetric (st : metric_db) (n : string) (m : Metric) : metric_db * option error :=
  statement st ("upsert metric " +:+ n) (upsert_metric st n (marshall_sqls (SQLs m)) m).

(** An insert that fails with a unique violation is reported as [exists]. *)
Definition insert_unique (run : metric_db * option error) (s : sentinel) : metric_db * option error :=
  match run with
  | (st', Some e) =>
      if bool_decide (errors_As_PgError e = Some "23505") then (st', Some (Sentinel s)) else (st', Some e)
  | _ => run
  end.

Definition db_CreateMetric (st : metric_db) (n : string) (m : Metric) : metric_db * option error :=
  insert_unique (statement st ("insert metric " +:+ n)
    (match marshall_sqls (SQLs m), t_metric st !! n with
     | Some _, Some _ => (st, Some (PgError "23505"))
     | sqls, _ => upsert_metric st n sqls m
     end)) ErrMetricExists.

(** The reference of [pgwatch.source] forbids deleting a preset that is in use. *)
Definition db_DeletePreset (st : metric_db) (n : string) : metric_db * option error :=
  statement st ("delete preset " +:+ n)
    (if bool_decide (n ∈ t_refs st) && bool_decide (is_Some (t_preset st !! n)) then (st, Some (PgError "23503"))
     else (with_preset st (delete n (t_preset st)), None)).

Definition db_UpdatePreset (st : metric_db) (n : string) (p : Preset) : metric_db * option error :=
  statement st ("upsert preset " +:+ n) (upsert_preset st n p (MarshallParamToJSONB (Preset_Metrics p))).

Definition db_CreatePreset (st : metric_db) (n : string) (p : Preset) : metric_db * option error :=
  insert_unique (statement st ("insert preset " +:+ n)
    (match MarshallParamToJSONB (Preset_Metrics p), t_preset st !! n with
     | Some _, Some _ => (st, Some (PgError "23505"))
     | ms, _ => upsert_preset st n p ms
     end)) ErrPresetExists.

#[export] Instance db_MetricsStore : MetricsStore metric_db := {
  GetMetrics := db_GetMetrics; WriteMetrics := writeMetricsToPostgres;
  DeleteMetric := db_DeleteMetric; UpdateMetric := db_UpdateMetric; CreateMetric := db_CreateMetric;
  DeletePreset := db_DeletePreset; UpdatePreset := db_UpdatePreset; CreatePreset := db_CreatePreset;
}.

(** ** The built-in definitions *)

Record builtin_store := { builtin_defs : Metrics }.

Definition unsupported (st : builtin_store) : builtin_store * option error := (st, Some (Sentinel ErrUnsupported)).

#[export] Instance builtin_MetricsStore : MetricsStore builtin_store := {
  GetMetrics st := Ok (builtin_defs st); WriteMetrics st _ := unsupported st;
  DeleteMetric st _ := unsupported st; UpdateMetric st _ _ := unsupported st; CreateMetric st _ _ := unsupported st;
  DeletePreset st _ := unsupported st; UpdatePreset st _ _ := unsupported st; CreatePreset st _ _ := unsupported st;
}.

(** ** The contract of the configuration database *)

Section db_metrics.
Context (refs : gset string).

Definition db_defs (st : metric_db) : Metrics :=
  {| MetricDefs := t_metric st;
     PresetDefs := (λ r, {| Preset_Description := pr_description r;
                            Preset_Metrics := Some (pr_metrics r) |}) <$> t_preset st |}.

Definition db_mholds (st : metric_db) (d : Metrics) : Prop :=
  (∀ s, t_fail st s = None) ∧ t_refs st = refs ∧ db_defs st = d.

(** Metrics have SQL, presets have metrics, and a preset in use is not deleted. *)
Definition db_allowed (c : metric_cmd) : Prop :=
  match c with
  | McWrite d => yaml_defs d
  | McUpdateMetric _ m | McCreateMetric _ m => SQLs m ≠ ∅
  | McUpdatePreset _ p | McCreatePreset _ p => ∃ ms, Preset_Metrics p = Some ms ∧ ms ≠ ∅
  | McDeletePreset n => n ∉ refs
  | McDeleteMetric _ => True
  end.

Definition db_write_over (d d' : Metrics) : Metrics :=
  {| MetricDefs := MetricDefs d' ∪ MetricDefs d; PresetDefs := PresetDefs d' ∪ PresetDefs d |}.

Definition db_prune (n : string) (d : Metrics) : gmap string Preset :=
  match MetricDefs d !! n with
  | None => PresetDefs d
  | Some _ => (λ p, {| Preset_Description := Preset_Description p;
                       Preset_Metrics := delete n <$> Preset_Metrics p |}) <$> PresetDefs d
  end.

Lemma statement_ok st name run : (∀ s, t_fail st s = None) → statement st name run = run.
Proof using Type. intros Hf. unfold statement. by rewrite Hf. Qed.

Lemma range_list_to_map (ro : range_order) {V} (m : gmap string V) : list_to_map (range ro m) = m.
Proof using Type.
  rewrite <-(list_to_map_to_list m) at 2. apply list_to_map_proper; [|apply range_perm].
  apply NoDup_range_keys.
Qed.

Lemma list_to_map_cons_union {V} (k : string) (v : V) (l : list (string * V)) (t : gmap string V) :
  k ∉ l.*1 → list_to_map l ∪ <[k := v]> t = list_to_map ((k, v) :: l) ∪ t.
Proof using Type.
  intros Hk. simpl. rewrite <-insert_union_l. rewrite <-insert_union_r; [done|].
  by apply not_elem_of_list_to_map_1.
Qed.

Lemma write_metric_rows_spec st l :
  (∀ s, t_fail st s = None) → NoDup l.*1 →
  write_metric_rows st l = (with_metric st (list_to_map l ∪ t_metric st), None).
Proof using Type.
  revert st. induction l as [|[n m] l IH]; intros st Hf Hnd; simpl.
  { destruct st. unfold with_metric. simpl. by rewrite map_empty_union. }
  rewrite statement_ok by done. csimpl in Hnd. apply NoDup_cons in Hnd as [Hn Hnd]. simpl.
  rewrite IH by done. unfold with_metric. simpl. f_equal. f_equal. by apply list_to_map_cons_union.
Qed.

Definition to_preset_row (p : Preset) : preset_row :=
  {| pr_description := Preset_Description p; pr_metrics := default ∅ (Preset_Metrics p) |}.

Lemma write_preset_rows_spec st l :
  (∀ s, t_fail st s = None) → NoDup l.*1 → Forall (λ np, is_Some (Preset_Metrics np.2)) l →
  write_preset_rows st l =
  (with_preset st (list_to_map (prod_map id to_preset_row <$> l) ∪ t_preset st), None).
Proof using Type.
  revert st. induction l as [|[n p] l IH]; intros st Hf Hnd Hp; simpl.
  { destruct st. unfold with_preset. simpl. by rewrite map_empty_union. }
  rewrite statement_ok by done. csimpl in Hnd. apply NoDup_cons in Hnd as [Hn Hnd].
  apply Forall_cons in Hp as [[ms Hms] Hp]. simpl in Hms. rewrite Hms. simpl. rewrite IH by done.
  unfold with_preset. simpl. f_equal. f_equal. unfold to_preset_row at 2. rewrite Hms.
  rewrite (list_to_map_cons_union n); [done|]. rewrite <-list_fmap_compose.
  by rewrite (list_fmap_ext (fst ∘ prod_map id to_preset_row) fst l) by done.
Qed.

Lemma db_write_spec st d :
  (∀ s, t_fail st s = None) → yaml_defs d →
  writeMetricsToPostgres st d =
  (MetricDb (MetricDefs d ∪ t_metric st) ((to_preset_row <$> PresetDefs d) ∪ t_preset st) (t_refs st)
     (t_order st) (t_fail st), None).
Proof using Type.
  intros Hf Hd. unfold writeMetricsToPostgres. rewrite Hf.
  rewrite write_metric_rows_spec by (done || apply NoDup_range_keys). rewrite range_list_to_map.
  rewrite write_preset_rows_spec.
  - rewrite Hf. unfold with_preset, with_metric. simpl. f_equal. f_equal. f_equal.
    rewrite list_to_map_fmap. by rewrite range_list_to_map.
  - done.
  - apply NoDup_range_keys.
  - apply Forall_forall. intros [n p] Hin%elem_of_range. by apply (Hd n p).
Qed.

Lemma of_to_preset_row p :
  is_Some (Preset_Metrics p) →
  {| Preset_Description := pr_description (to_preset_row p);
     Preset_Metrics := Some (pr_metrics (to_preset_row p)) |} = p.
Proof using Type. destruct p as [desc [ms|]]; simpl; [done|by intros []]. Qed.

Lemma db_upsert_preset st d n p ms :
  db_mholds st d → Preset_Metrics p = Some ms → ms ≠ ∅ →
  MarshallParamToJSONB (Preset_Metrics p) = Some ms ∧
  db_mholds (upsert_preset st n p (Some ms)).1 (set_preset d n p).
Proof using Type.
  intros (Hf & Hr & <-) Hp Hms. split.
  - rewrite Hp. simpl. rewrite bool_decide_false; [done|]. by rewrite map_size_empty_iff.
  - split_and!; [done..|]. unfold db_defs, set_preset. simpl. rewrite fmap_insert. simpl. f_equal. f_equal.
    destruct p; simpl in *. by subst.
Qed.

Lemma db_upsert_metric st d n m :
  db_mholds st d → SQLs m ≠ ∅ →
  marshall_sqls (SQLs m) = Some (SQLs m) ∧ db_mholds (upsert_metric st n (Some (SQLs m)) m).1 (set_metric d n m).
Proof using Type.
  intros (Hf & Hr & <-) Hm. split; [|done]. unfold marshall_sqls.
  rewrite bool_decide_false; [done|]. by rewrite map_size_empty_iff.
Qed.

#[local] Instance db_MetricsStoreLaws : MetricsStoreLaws metric_db.
Proof using refs.
  refine {| mholds := db_mholds; allowed := db_allowed; written_over := db_write_over; pruned := db_prune |}.
  - intros st d (Hf & _ & <-). simpl. unfold db_GetMetrics. by rewrite !Hf.
  - intros st d c Hst. pose proof Hst as (Hf & Hr & Hd). destruct c as [d'|n|n m|n m|n|n p|n p]; simpl.
    + intros Hy. rewrite db_write_spec by done. split; [|done]. split_and!; [done..|]. subst d.
      unfold db_defs, db_write_over. simpl. f_equal. rewrite map_fmap_union. f_equal.
      rewrite <-map_fmap_compose. rewrite <-(map_fmap_id (PresetDefs d')) at 2.
      apply map_fmap_ext. intros k p Hk. simpl. apply of_to_preset_row. by apply (Hy k p).
    + intros _. unfold db_DeleteMetric. rewrite statement_ok by done. subst d. unfold db_prune. simpl.
      destruct (t_metric st !! n) eqn:E; split; try done. split_and!; [done..|]. unfold db_defs. simpl.
      f_equal. by rewrite <-!map_fmap_compose.
    + intros Hm. destruct (db_upsert_metric st d n m Hst Hm) as [He Hh].
      unfold db_UpdateMetric. by rewrite statement_ok, He.
    + intros Hm. destruct (db_upsert_metric st d n m Hst Hm) as [He Hh].
      unfold db_CreateMetric. rewrite statement_ok, He by done. subst d. simpl.
      by destruct (t_metric st !! n).
    + intros Hn. unfold db_DeletePreset. rewrite statement_ok by done. subst d.
      rewrite Hr, bool_decide_false by done. simpl. split; [|done]. split_and!; [done..|]. unfold db_defs. simpl.
      by rewrite fmap_delete.
    + intros (ms & Hp & Hms). destruct (db_upsert_preset st d n p ms Hst Hp Hms) as [He Hh].
      unfold db_UpdatePreset. by rewrite statement_ok, He.
    + intros (ms & Hp & Hms). destruct (db_upsert_preset st d n p ms Hst Hp Hms) as [He Hh].
      unfold db_CreatePreset. rewrite statement_ok, He by done. subst d. simpl. rewrite lookup_fmap.
      by destruct (t_preset st !! n).
  - intros d d' n m Hm. simpl. by apply lookup_union_Some_l.
Defined.

(** The configuration database refines a pair of maps as well, with two differences: writing a
    whole set of definitions keeps the ones that are not in it, and deleting a metric removes it from
    every preset.  It needs metrics with SQL, presets with metrics, and presets in use are not
    deleted; the statements succeed. *)
Theorem db_metrics_refine st d cs :
  db_mholds st d → Forall db_allowed cs →
  let '(st', errs) := exec_metric_cmds st cs in
  let '(d', refused) := abs_metric_cmds db_write_over db_prune d cs in
  db_GetMetrics st' = Ok d' ∧ errs = fmap (M := option) Sentinel <$> refused.
Proof using Type.
  intros Hst Hok. pose proof (exec_metric_cmds_sim st d cs Hst Hok) as Hsim. simpl in Hsim.
  destruct (exec_metric_cmds st cs) as [st' errs]. destruct (abs_metric_cmds _ _ d cs) as [d' refused].
  destruct Hsim as [Hh ->]. split; [|done]. exact (get_defs st' d' Hh).
Qed.
End db_metrics.

(** ** Examples *)

Definition sample_preset : Preset := {| Preset_Description := "p"; Preset_Metrics := Some {["wal" := 60]} |}.
Definition sample_metric_cmds : list metric_cmd :=
  [McCreateMetric "wal" sample_metric; McCreatePreset "basic" sample_preset;
   McCreateMetric "wal" sample_metric; McUpdatePreset "full" sample_preset; McDeleteMetric "wal"].

Lemma sample_metric_cmds_allowed : Forall file_allowed sample_metric_cmds ∧ Forall (db_allowed ∅) sample_metric_cmds.
Proof.
  split; repeat constructor; simpl; try done; try (by eexists); try discriminate;
    (eexists; split; [done|apply insert_non_empty]).
Qed.

(** A file whose bytes are the definitions themselves. *)
Lemma file_metrics_refine_witness :
  let empty := {| MetricDefs := ∅; PresetDefs := ∅ |} in
  let st := FileStore (FsRegular empty) None in
  let '(st', errs) := exec_metric_cmds (H := file_MetricsStore inl id) st sample_metric_cmds in
  let '(d', refused) := abs_metric_cmds (λ _ d', d') (λ _ d, PresetDefs d) empty sample_metric_cmds in
  getMetrics inl st' = Ok d' ∧ errs = fmap (M := option) Sentinel <$> refused.
Proof.
  apply (file_metrics_refine inl id (λ d _, eq_refl)
           (FileStore (FsRegular {| MetricDefs := ∅; PresetDefs := ∅ |}) None)
           {| MetricDefs := ∅; PresetDefs := ∅ |} sample_metric_cmds).
  - eexists. split_and!; [done..|]. apply map_Forall_empty.
  - apply sample_metric_cmds_allowed.
Defined.

Lemma db_metrics_refine_witness :
  let empty := {| MetricDefs := ∅; PresetDefs := ∅ |} in
  let st := MetricDb ∅ ∅ ∅ tree_order (λ _, None) in
  let '(st', errs) := exec_metric_cmds st sample_metric_cmds in
  let '(d', refused) := abs_metric_cmds db_write_over db_prune empty sample_metric_cmds in
  db_GetMetrics st' = Ok d' ∧ errs = fmap (M := option) Sentinel <$> refused.
Proof.
  apply (db_metrics_refine ∅ (MetricDb ∅ ∅ ∅ tree_order (λ _, None))
           {| MetricDefs := ∅; PresetDefs := ∅ |} sample_metric_cmds).
  - by split_and!.
  - apply sample_metric_cmds_allowed.
Defined.
