(* ===== verification/Web.v ===== *)
(** * The web server ([internal/webserver/jwt.go], [source.go], [metric.go], [webserver.go])

    The REST handlers over the stores of sources and metrics, the log-in, and the middleware in
    front of them, as functions from a request and the state of the stores to a response and the new
    state.  The stores are used through their interfaces, so the theorems hold for the YAML files and
    for the configuration database alike.  The JSON codec, the signature of tokens and the
    connection test are parameters.

    The theorems show what the source resource answers and does for every method, that nobody
    without a valid token changes anything or reaches a protected handler, and that the token handed
    out at log-in is accepted for eight hours and not longer. *)

From S2P Require Import Prelude GoStrings Metrics Sources SourceStores MetricStore.
From stdpp Require Import options.

Local Open Scope Z_scope.

(** ** Requests and responses *)

Inductive http_method := GET | POST | PUT | DELETE | OPTIONS | OtherMethod (name : string).

#[export] Instance http_method_eq_dec : EqDecision http_method.
Proof. solve_decision. Defined.

(** What the routes of [Init] match, after the base path. *)
Inductive route :=
  | RSources | RSourceItem (name : string)
  | RMetrics | RMetricItem (name : string)
  | RPresets | RPresetItem (name : string)
  | RTestConnect | RLog | RLogin | RLiveness | RReadiness | RStatic.

Record request := {
  r_route : route;
  r_method : http_method;
  r_body : result string;               (* [io.ReadAll(r.Body)] *)
  r_header_token : option (list string);
  r_query_token : string;
}.

Record response := {
  rs_status : Z;
  rs_allow : string;                    (* the [Allow] header *)
  rs_body : string;
}.

Definition StatusOK : Z := 200.
Definition StatusCreated : Z := 201.
Definition StatusBadRequest : Z := 400.
Definition StatusUnauthorized : Z := 401.
Definition StatusNotFound : Z := 404.
Definition StatusMethodNotAllowed : Z := 405.
Definition StatusConflict : Z := 409.
Definition StatusInternalServerError : Z := 500.
Definition StatusServiceUnavailable : Z := 503.

Definition respond (status : Z) (body : string) : response :=
  {| rs_status := status; rs_allow := ""; rs_body := body |}.
Definition with_allow (allow : string) (r : response) : response :=
  {| rs_status := rs_status r; rs_allow := allow; rs_body := rs_body r |}.

(** The server: the two stores and the configured credentials. *)
Record WebUIServer (S M : Type) := {
  sourcesReaderWriter : S;
  metricsReaderWriter : M;
  WebUser : string;
  WebPassword : string;
  uiEnabled : bool;                     (* [opts.WebDisable != WebDisableUI] *)
}.
Arguments sourcesReaderWriter {S M}.
Arguments metricsReaderWriter {S M}.
Arguments WebUser {S M}.
Arguments WebPassword {S M}.
Arguments uiEnabled {S M}.

(** Claims of a token; [exp] is absent or in seconds. *)
Record claims := { c_username : string; c_exp : option Z }.

(** What the program uses of other packages and of its surroundings. *)
Record web_env := {
  error_Error : error → string;
  json_Marshal_sources : Sources → string;
  json_Marshal_source : Source → string;
  json_Marshal_metrics : gmap string Metric → string;
  json_Marshal_metric : Metric → string;
  json_Marshal_presets : gmap string Preset → string;
  json_Marshal_preset : Preset → string;
  json_source : string → result Source;
  json_metric : string → result Metric;
  json_metrics : string → result (gmap string Metric);
  json_preset : string → result Preset;
  json_presets : string → result (gmap string Preset);
  json_login : string → result (string * string);
  db_Ping : string → option error;
  jwt_sign : claims → result string;    (* HS256 with the key of the process *)
  jwt_verify : string → option claims;  (* the claims of a token with that signature *)
  ws_log : request → response;
  static_file : request → response;
  ready : bool;
  ctx_done : bool;
  map_order : range_order;
}.

Section handlers.
Context {S M : Type} `{SourcesStore S} `{MetricsStore M} (env : web_env).
Implicit Types (s : WebUIServer S M) (r : request).

Definition set_sources s (x : S) : WebUIServer S M := {|
  sourcesReaderWriter := x; metricsReaderWriter := metricsReaderWriter s; WebUser := WebUser s;
  WebPassword := WebPassword s; uiEnabled := uiEnabled s |}.
Definition set_metrics s (x : M) : WebUIServer S M := {|
  sourcesReaderWriter := sourcesReaderWriter s; metricsReaderWriter := x; WebUser := WebUser s;
  WebPassword := WebPassword s; uiEnabled := uiEnabled s |}.

(** [http.Error] with the text of an error. *)
Definition http_error (status : Z) (e : error) : response := respond status (error_Error env e).

Definition allow_collection : string := "GET, POST, OPTIONS".
Definition allow_item : string := "GET, PUT, DELETE, OPTIONS".

Definition options_response (allow : string) : response := with_allow allow (respond StatusOK "").
Definition not_allowed (allow : string) : response :=
  with_allow allow (respond StatusMethodNotAllowed "method not allowed").

(** ** Sources *)

Definition web_GetSources s : result string :=
  match GetSources (sourcesReaderWriter s) with
  | Err e => Err e
  | Ok dbs => Ok (json_Marshal_sources env dbs)
  end.

Definition web_DeleteSource s (database : string) : WebUIServer S M * option error :=
  let '(st, err) := DeleteSource (sourcesReaderWriter s) database in (set_sources s st, err).

Definition web_UpdateSource s (params : string) : WebUIServer S M * option error :=
  match json_source env params with
  | Err e => (s, Some e)
  | Ok md => let '(st, err) := UpdateSource (sourcesReaderWriter s) md in (set_sources s st, err)
  end.


Definition web_CreateSource s (params : string) : WebUIServer S M * option error :=
  match json_source env params with
  | Err e => (s, Some e)
  | Ok md => let '(st, err) := CreateSource (sourcesReaderWriter s) md in (set_sources s st, err)
  end.

Definition handleSources s r : WebUIServer S M * response :=
  match r_method r with
  | GET =>
      (s, match web_GetSources s with
          | Err e => http_error StatusInternalServerError e
          | Ok res => respond StatusOK res
          end)
  | POST =>
      match r_body r with
      | Err e => (s, http_error StatusInternalServerError e)
      | Ok params =>
          match web_CreateSource s params with
          | (s, None) => (s, respond StatusCreated "")
          | (s, Some e) =>
              (s, http_error (if errors_Is e ErrSourceExists then StatusConflict
                              else StatusInternalServerError) e)
          end
      end
  | OPTIONS => (s, options_response allow_collection)
  | _ => (s, not_allowed allow_collection)
  end.

Definition getSourceByName s (name : string) : response :=
  match GetSources (sourcesReaderWriter s) with
  | Err e => http_error StatusInternalServerError e
  | Ok srcs =>
      match list_find (λ src, Name src = name) srcs with
      | Some (_, src) => respond StatusOK (json_Marshal_source env src)
      | None => http_error StatusNotFound (Sentinel ErrSourceNotFound)
      end
  end.

Definition updateSourceByName s r (name : string) : WebUIServer S M * response :=
  match r_body r with
  | Err _ => (s, respond StatusBadRequest "invalid request body")
  | Ok params =>
      match json_source env params with
      | Err _ => (s, respond StatusBadRequest "invalid JSON format")
      | Ok md =>
          if bool_decide (Name md ≠ name) then (s, respond StatusBadRequest "name in URL and body must match")
          else
            match UpdateSource (sourcesReaderWriter s) md with
            | (st, Some e) => (set_sources s st, http_error StatusInternalServerError e)
            | (st, None) => (set_sources s st, respond StatusOK "")
            end
      end
  end.

Definition deleteSourceByName s (name : string) : WebUIServer S M * response :=
  match DeleteSource (sourcesReaderWriter s) name with
  | (st, Some e) => (set_sources s st, http_error StatusInternalServerError e)
  | (st, None) => (set_sources s st, respond StatusOK "")
  end.

Definition handleSourceItem s r (name : string) : WebUIServer S M * response :=
  if bool_decide (name = "") then (s, respond StatusBadRequest "source name is required")
  else
    match r_method r with
    | GET => (s, getSourceByName s name)
    | PUT => updateSourceByName s r name
    | DELETE => deleteSourceByName s name
    | OPTIONS => (s, options_response allow_item)
    | _ => (s, not_allowed allow_item)
    end.

(** ** Metrics *)

(** Create the entries of a map until one fails. *)
Fixpoint create_each {A} (create : M → string → A → M * option error) (st : M) (l : list (string * A)) :
    M * option error :=
  match l with
  | [] => (st, None)
  | (n, x) :: l' =>
      match create st n x with
      | (st, Some e) => (st, Some e)
      | (st, None) => create_each create st l'
      end
  end.

Definition web_GetMetrics s : result string :=
  match GetMetrics (metricsReaderWriter s) with
  | Err e => Err e
  | Ok mr => Ok (json_Marshal_metrics env (MetricDefs mr))
  end.

Definition web_UpdateMetric s (name params : string) : WebUIServer S M * option error :=
  match json_metric env params with
  | Err e => (s, Some e)
  | Ok m => let '(st, err) := UpdateMetric (metricsReaderWriter s) name m in (set_metrics s st, err)
  end.

Definition web_DeleteMetric s (name : string) : WebUIServer S M * option error :=
  let '(st, err) := DeleteMetric (metricsReaderWriter s) name in (set_metrics s st, err).

Definition web_CreateMetric s (params : string) : WebUIServer S M * option error :=
  match json_metrics env params with
  | Err e => (s, Some e)
  | Ok named =>
      if bool_decide (size named = 0%nat) then (s, Some (Sentinel ErrInvalidMetric))
      else let '(st, err) := create_each CreateMetric (metricsReaderWriter s) (range (map_order env) named) in
           (set_metrics s st, err)
  end.

Definition handleMetrics s r : WebUIServer S M * response :=
  match r_method r with
  | GET =>
      (s, match web_GetMetrics s with
          | Err e => http_error StatusInternalServerError e
          | Ok res => respond StatusOK res
          end)
  | POST =>
      match r_body r with
      | Err e => (s, http_error StatusInternalServerError e)
      | Ok params =>
          match web_CreateMetric s params with
          | (s, None) => (s, respond StatusCreated "")
          | (s, Some e) =>
              (s, http_error (if errors_Is e ErrMetricExists then StatusConflict
                              else StatusInternalServerError) e)
          end
      end
  | OPTIONS => (s, options_response allow_collection)
  | _ => (s, not_allowed allow_collection)
  end.

Definition getMetricByName s (name : string) : response :=
  match GetMetrics (metricsReaderWriter s) with
  | Err e => http_error StatusInternalServerError e
  | Ok mr =>
      match MetricDefs mr !! name with
      | Some metric => respond StatusOK (json_Marshal_metric env metric)
      | None => http_error StatusNotFound (Sentinel ErrMetricNotFound)
      end
  end.

Definition updateMetricByName s r (name : string) : WebUIServer S M * response :=
  match r_body r with
  | Err e => (s, http_error StatusBadRequest e)
  | Ok params =>
      match json_metric env params with
      | Err e => (s, http_error StatusBadRequest e)
      | Ok m =>
          match UpdateMetric (metricsReaderWriter s) name m with
          | (st, Some e) => (set_metrics s st, http_error StatusInternalServerError e)
          | (st, None) => (set_metrics s st, respond StatusOK "")
          end
      end
  end.

Definition deleteMetricByName s (name : string) : WebUIServer S M * response :=
  match DeleteMetric (metricsReaderWriter s) name with
  | (st, Some e) => (set_metrics s st, http_error StatusInternalServerError e)
  | (st, None) => (set_metrics s st, respond StatusOK "")
  end.

Definition handleMetricItem s r (name : string) : WebUIServer S M * response :=
  if bool_decide (name = "") then (s, respond StatusBadRequest "metric name is required")
  else
    match r_method r with
    | GET => (s, getMetricByName s name)
    | PUT => updateMetricByName s r name
    | DELETE => deleteMetricByName s name
    | OPTIONS => (s, options_response allow_item)
    | _ => (s, not_allowed allow_item)
    end.

(** ** Presets *)

Definition web_GetPresets s : result string :=
  match GetMetrics (metricsReaderWriter s) with
  | Err e => Err e
  | Ok mr => Ok (json_Marshal_presets env (PresetDefs mr))
  end.

Definition web_UpdatePreset s (name params : string) : WebUIServer S M * option error :=
  match json_preset env params with
  | Err e => (s, Some e)
  | Ok p => let '(st, err) := UpdatePreset (metricsReaderWriter s) name p in (set_metrics s st, err)
  end.

Definition web_DeletePreset s (name : string) : WebUIServer S M * option error :=
  let '(st, err) := DeletePreset (metricsReaderWriter s) name in (set_metrics s st, err).

Definition web_CreatePreset s (params : string) : WebUIServer S M * option error :=
  match json_presets env params with
  | Err e => (s, Some e)
  | Ok named =>
      if bool_decide (size named = 0%nat) then (s, Some (Sentinel ErrInvalidPreset))
      else let '(st, err) := create_each CreatePreset (metricsReaderWriter s) (range (map_order env) named) in
           (set_metrics s st, err)
  end.

Definition handlePresets s r : WebUIServer S M * response :=
  match r_method r with
  | GET =>
      (s, match web_GetPresets s with
          | Err e => http_error StatusInternalServerError e
          | Ok res => respond StatusOK res
          end)
  | POST =>
      match r_body r with
      | Err e => (s, http_error StatusInternalServerError e)
      | Ok params =>
          match web_CreatePreset s params with
          | (s, None) => (s, respond StatusCreated "")
          | (s, Some e) =>
              (s, http_error (if errors_Is e ErrPresetExists then StatusConflict
                              else StatusInternalServerError) e)
          end
      end
  | OPTIONS => (s, options_response allow_collection)
  | _ => (s, not_allowed allow_collection)
  end.

Definition getPresetByName s (name : string) : response :=
  match GetMetrics (metricsReaderWriter s) with
  | Err e => http_error StatusInternalServerError e
  | Ok mr =>
      match PresetDefs mr !! name with
      | Some preset => respond StatusOK (json_Marshal_preset env preset)
      | None => respond StatusNotFound "preset not found"
      end
  end.

Definition updatePresetByName s r (name : string) : WebUIServer S M * response :=
  match r_body r with
  | Err _ => (s, respond StatusBadRequest "invalid request body")
  | Ok params =>
      match json_preset env params with
      | Err _ => (s, respond StatusBadRequest "invalid JSON format")
      | Ok p =>
          match UpdatePreset (metricsReaderWriter s) name p with
          | (st, Some e) => (set_metrics s st, http_error StatusInternalServerError e)
          | (st, None) => (set_metrics s st, respond StatusOK "")
          end
      end
  end.

Definition deletePresetByName s (name : string) : WebUIServer S M * response :=
  match DeletePreset (metricsReaderWriter s) name with
  | (st, Some e) => (set_metrics s st, http_error StatusInternalServerError e)
  | (st, None) => (set_metrics s st, respond StatusOK "")
  end.

Definition handlePresetItem s r (name : string) : WebUIServer S M * response :=
  if bool_decide (name = "") then (s, respond StatusBadRequest "preset name is required")
  else
    match r_method r with
    | GET => (s, getPresetByName s name)
    | PUT => updatePresetByName s r name
    | DELETE => deletePresetByName s name
    | OPTIONS => (s, options_response allow_item)
    | _ => (s, not_allowed allow_item)
    end.

(** ** Other handlers *)

Definition handleTestConnect r : response :=
  match r_method r with
  | POST =>
      match r_body r with
      | Err e => http_error StatusBadRequest e
      | Ok p => match db_Ping env p with
                | Some e => http_error StatusBadRequest e
                | None => respond StatusOK ""
                end
      end
  | _ => with_allow "POST" (respond StatusMethodNotAllowed "Method Not Allowed")
  end.

Definition quoted (s : string) : string :=
  String (Ascii.ascii_of_nat 34) (s +:+ String (Ascii.ascii_of_nat 34) "").
Definition status_json (v : string) : string := "{" +:+ quoted "status" +:+ ": " +:+ quoted v +:+ "}".

Definition handleLiveness : response :=
  if ctx_done env then respond StatusServiceUnavailable (status_json "unavailable")
  else respond StatusOK (status_json "ok").

Definition handleReadiness : response :=
  if ready env then respond StatusOK (status_json "ok")
  else respond StatusServiceUnavailable (status_json "busy").

(** ** Log-in and tokens *)

Definition IsCorrectPassword s (lr : string * string) : bool :=
  bool_decide (WebUser s +:+ WebPassword s = "") ||
  (bool_decide (WebUser s = lr.1) && bool_decide (WebPassword s = lr.2)).

(** [time.Now()] is in nanoseconds, [exp] in seconds. *)
Definition generateJWT (now : Z) (username : string) : result string :=
  jwt_sign env {| c_username := username; c_exp := Some ((now + 8 * time_Hour) / time_Second) |}.

Definition handleLogin (now : Z) s r : response :=
  match r_method r with
  | POST =>
      match r_body r with
      | Err e => http_error StatusInternalServerError e
      | Ok body =>
          match json_login env body with
          | Err e => http_error StatusInternalServerError e
          | Ok lr =>
              if negb (IsCorrectPassword s lr)
              then respond StatusUnauthorized "can not authenticate this user"
              else
                match generateJWT now lr.1 with
                | Err e => http_error StatusInternalServerError e
                | Ok token => respond StatusOK token
                end
          end
      end
  | _ => with_allow "POST" (respond StatusMethodNotAllowed "only POST method is allowed")
  end.

(** [jwt.Parse] with a required expiration: the signature must be the one of this process and the
    token must not have expired. *)
Definition jwt_Parse (now : Z) (t : string) : option error :=
  match jwt_verify env t with
  | None => Some (ErrorString "token signature is invalid")
  | Some c =>
      match c_exp c with
      | None => Some (ErrorString "token is missing required claim: exp claim is required")
      | Some exp => if now <? exp * time_Second then None else Some (ErrorString "token is expired")
      end
  end.

(** The first [Token] header wins over the query; an empty header list cannot occur. *)
Definition request_token r : string :=
  match r_header_token r with
  | None => r_query_token r
  | Some ts => default "" (head ts)
  end.

Definition validateToken (now : Z) r : option error :=
  let t := request_token r in
  if bool_decide (t = "") then Some (ErrorString "can not find token in header") else jwt_Parse now t.

Definition EnsureAuth_ServeHTTP (now : Z) s r (handler : WebUIServer S M * response) :
    WebUIServer S M * response :=
  match validateToken now r with
  | Some e => (s, http_error StatusUnauthorized e)
  | None => handler
  end.

(** ** The multiplexer of [Init] behind the CORS middleware *)

Definition mux (now : Z) s r : WebUIServer S M * response :=
  match r_route r with
  | RSources => EnsureAuth_ServeHTTP now s r (handleSources s r)
  | RSourceItem name => EnsureAuth_ServeHTTP now s r (handleSourceItem s r name)
  | RTestConnect => EnsureAuth_ServeHTTP now s r (s, handleTestConnect r)
  | RMetrics => EnsureAuth_ServeHTTP now s r (handleMetrics s r)
  | RMetricItem name => EnsureAuth_ServeHTTP now s r (handleMetricItem s r name)
  | RPresets => EnsureAuth_ServeHTTP now s r (handlePresets s r)
  | RPresetItem name => EnsureAuth_ServeHTTP now s r (handlePresetItem s r name)
  | RLog => EnsureAuth_ServeHTTP now s r (s, ws_log env r)
  | RLogin => (s, handleLogin now s r)
  | RLiveness => (s, handleLiveness)
  | RReadiness => (s, handleReadiness)
  | RStatic => (s, if uiEnabled s then static_file env r else respond StatusNotFound "404 page not found")
  end.

(** [corsMiddleware] answers every OPTIONS request itself. *)
Definition serve (now : Z) s r : WebUIServer S M * response :=
  if bool_decide (r_method r = OPTIONS) then (s, respond StatusOK "") else mux now s r.
(** The handlers of one item have the effect of the methods of the server that no handler calls. *)
Lemma items_by_methods s r name body :
  r_body r = Ok body →
  (updateMetricByName s r name).1 = (web_UpdateMetric s name body).1 ∧ (deleteMetricByName s name).1 = (web_DeleteMetric s name).1 ∧
  (updatePresetByName s r name).1 = (web_UpdatePreset s name body).1 ∧ (deletePresetByName s name).1 = (web_DeletePreset s name).1 ∧
  (deleteSourceByName s name).1 = (web_DeleteSource s name).1 ∧
  (∀ md, json_source env body = Ok md → Name md = name → (updateSourceByName s r name).1 = (web_UpdateSource s body).1).
Proof using Type.
  intros Hb. unfold updateMetricByName, web_UpdateMetric, deleteMetricByName, web_DeleteMetric, updatePresetByName, web_UpdatePreset,
    deletePresetByName, web_DeletePreset, deleteSourceByName, web_DeleteSource, updateSourceByName, web_UpdateSource. rewrite Hb.
  split_and!.
  - destruct (json_metric env body); [|done]. by destruct (UpdateMetric _ _ _) as [st [e|]].
  - by destruct (DeleteMetric _ _) as [st [e|]].
  - destruct (json_preset env body); [|done]. by destruct (UpdatePreset _ _ _) as [st [e|]].
  - by destruct (DeletePreset _ _) as [st [e|]].
  - by destruct (DeleteSource _ _) as [st [e|]].
  - intros md -> <-. rewrite bool_decide_false by tauto. by destruct (UpdateSource _ _) as [st [e|]].
Qed.
End handlers.

(** ** Theorems *)

Definition protected (rt : route) : bool :=
  match rt with RLogin | RLiveness | RReadiness | RStatic => false | _ => true end.

(** The token of a request is signed by this process and has not expired. *)
Definition authorised (env : web_env) (now : Z) (r : request) : Prop :=
  request_token r ≠ "" ∧
  ∃ c exp, jwt_verify env (request_token r) = Some c ∧ c_exp c = Some exp ∧ now < exp * time_Second.

Lemma validateToken_spec env now r : validateToken env now r = None ↔ authorised env now r.
Proof.
  unfold validateToken, authorised, jwt_Parse. case_bool_decide as Ht; [by split; [|intros []]|].
  destruct (jwt_verify env (request_token r)) as [c|]; [|by split; [|intros (_ & ? & ? & ? & _)]].
  destruct (c_exp c) as [exp|] eqn:Ee; [|split; [done|]; intros (_ & c' & ? & ? & ? & _); congruence].
  destruct (now <? exp * time_Second) eqn:E; boolify; split; try done.
  - intros _. eauto 10.
  - intros (_ & c' & exp' & [= <-] & Hexp & Hlt). simplify_eq. lia.
Qed.

Lemma mux_unauthorised {S M} `{SourcesStore S} `{MetricsStore M} env now (s : WebUIServer S M) r :
  ~ authorised env now r →
  (mux env now s r).1 = s ∧ (protected (r_route r) = true → ∃ e, (mux env now s r).2 = http_error env StatusUnauthorized e).
Proof.
  rewrite <-validateToken_spec. intros Hv. unfold mux, EnsureAuth_ServeHTTP.
  destruct (validateToken env now r) as [e|]; [|done]. destruct (r_route r); simpl; naive_solver.
Qed.

(** Access control.  A request without a valid token never changes a store; on the routes of the
    sources, metrics, presets, the connection test and the log it is answered with 401, before its
    body is looked at, or by the middleware if its method is OPTIONS; and no route changes a store
    without a valid token. *)
Theorem unauthorised_changes_nothing {S M} `{SourcesStore S} `{MetricsStore M} env now
    (s : WebUIServer S M) r :
  ~ authorised env now r →
  (serve env now s r).1 = s ∧
  (protected (r_route r) = true → r_method r ≠ OPTIONS →
   ∃ e, (serve env now s r).2 = http_error env StatusUnauthorized e).
Proof.
  intros Hv. unfold serve. case_bool_decide as Hm; [done|]. destruct (mux_unauthorised env now s r Hv). naive_solver.
Qed.

(** C37: the log-in.  The credentials are required exactly when a user or a password is configured.
    With the signature of the process verifying what it signed, the token it answers is accepted on
    every protected route from then on until eight hours later, rounded down to a second, and not
    after; a wrong password gives 401 and no token. *)
Theorem login_round_trip {S M} env now now' (s : WebUIServer S M) r user pass body t r' :
  (∀ c t, jwt_sign env c = Ok t → t ≠ "" ∧ jwt_verify env t = Some c) →
  r_method r = POST → r_body r = Ok body → json_login env body = Ok (user, pass) →
  jwt_sign env {| c_username := user; c_exp := Some ((now + 8 * time_Hour) / time_Second) |} = Ok t →
  r_header_token r' = Some [t] →
  let granted := (WebUser s = "" ∧ WebPassword s = "") ∨ (WebUser s = user ∧ WebPassword s = pass) in
  (granted → handleLogin env now s r = respond StatusOK t) ∧
  (~ granted → rs_status (handleLogin env now s r) = StatusUnauthorized) ∧
  (validateToken env now' r' = None ↔ now' < (now + 8 * time_Hour) / time_Second * time_Second).
Proof.
  intros Hjwt Hm Hb Hj Hs Ht granted. destruct (Hjwt _ _ Hs) as [Hne Hv].
  assert (IsCorrectPassword s (user, pass) = true ↔ granted) as Hg.
  { unfold IsCorrectPassword, granted. rewrite orb_true_iff, andb_true_iff, !bool_decide_eq_true. simpl.
    assert (WebUser s +:+ WebPassword s = "" ↔ WebUser s = "" ∧ WebPassword s = "") as ->; [|done].
    destruct (WebUser s); [|split; [done|by intros []]]. rewrite string_app_nil_l. naive_solver. }
  unfold handleLogin. rewrite Hm, Hb, Hj. unfold generateJWT. cbn [fst]. rewrite Hs. split_and!.
  - intros ->%Hg. done.
  - intros Hn. destruct (IsCorrectPassword s (user, pass)); [|done]. exfalso. by apply Hn, Hg.
  - rewrite validateToken_spec. unfold authorised, request_token. rewrite Ht. simpl. rewrite Hv. naive_solver.
Qed.

(** The source resource, over any store that keeps its contract.  Creating answers 201 and adds
    the source, or 409 without a change if the name is taken; reading answers 200 with the source, or
    404; replacing answers 200 and stores the source, or 400 without a change if the name in the body
    is another one; deleting answers 200 and removes it. *)
Theorem source_resource {S M} `{SourcesStoreLaws S} `{MetricsStore M} env
    (s : WebUIServer S M) m r name md body :
  holds (sourcesReaderWriter s) m → name ≠ "" →
  r_body r = Ok body → json_source env body = Ok md → kept md →
  (r_method r = POST →
   let '(s', rs) := handleSources env s r in
   match m !! Name md with
   | None => rs_status rs = StatusCreated ∧ holds (sourcesReaderWriter s') (<[Name md := md]> m)
   | Some _ => rs_status rs = StatusConflict ∧ s' = s
   end) ∧
  (r_method r = GET →
   let '(s', rs) := handleSourceItem env s r name in
   s' = s ∧
   match m !! name with
   | Some src => rs = respond StatusOK (json_Marshal_source env src)
   | None => rs_status rs = StatusNotFound
   end) ∧
  (r_method r = PUT →
   let '(s', rs) := handleSourceItem env s r name in
   if decide (Name md = name) then rs_status rs = StatusOK ∧ holds (sourcesReaderWriter s') (<[name := md]> m)
   else rs_status rs = StatusBadRequest ∧ s' = s) ∧
  (r_method r = DELETE →
   let '(s', rs) := handleSourceItem env s r name in
   rs_status rs = StatusOK ∧ holds (sourcesReaderWriter s') (delete name m)).
Proof.
  intros Hst Hname Hb Hj Hk.
  unfold handleSourceItem. rewrite (bool_decide_false (name = "")) by done. split_and!; intros Hm.
  - unfold handleSources. rewrite Hm, Hb. unfold web_CreateSource. rewrite Hj.
    destruct (m !! Name md) as [old|] eqn:E.
    + destruct (create_refused _ m md Hst) as (e & -> & He); [by eauto|]. rewrite He. split; [done|]. by destruct s.
    + destruct (create_holds _ m md Hst Hk E) as (st' & -> & Hh). done.
  - rewrite Hm. split; [done|]. unfold getSourceByName.
    destruct (get_holds _ m Hst) as (l & -> & Hu & <-).
    destruct (list_find (λ src, Name src = name) l) as [[i src]|] eqn:E.
    + apply list_find_Some in E as (Hi & Hn & _).
      assert (by_name l !! name = Some src) as ->; [|done].
      apply by_name_lookup; [done|]. split; [by eapply list_elem_of_lookup_2|done].
    + apply list_find_None in E. assert (by_name l !! name = None) as ->; [|done].
      apply by_name_None. intros (x & -> & Hx)%list_elem_of_fmap. rewrite Forall_forall in E. by apply (E x Hx).
  - rewrite Hm. unfold updateSourceByName. rewrite Hb, Hj. case_bool_decide as Hn; case_decide as Hn'; try done.
    destruct (update_holds _ m md Hst Hk) as (st' & -> & Hh). subst name. done.
  - rewrite Hm. unfold deleteSourceByName.
    destruct (delete_holds _ m name Hst) as (st' & -> & Hh). done.
Qed.

(** ** Examples *)

Definition sample_claims : claims := {| c_username := "admin"; c_exp := Some 1700028800 |}.

Definition sample_web_env : web_env := {|
  error_Error := λ _, "error"; json_Marshal_sources := λ _, "[]"; json_Marshal_source := Name;
  json_Marshal_metrics := λ _, "{}"; json_Marshal_metric := λ _, "{}"; json_Marshal_presets := λ _, "{}";
  json_Marshal_preset := λ _, "{}"; json_source := λ body, Ok (full_source body "host=x");
  json_metric := λ _, Ok sample_metric; json_metrics := λ _, Ok ∅; json_preset := λ _, Ok sample_preset;
  json_presets := λ _, Ok ∅; json_login := λ body, Ok ("admin", body); db_Ping := λ _, None;
  jwt_sign := λ c, if bool_decide (c_username c = "admin" ∧ c_exp c = Some 1700028800)
                   then Ok "tok" else Err (ErrorString "key");
  jwt_verify := λ t, if bool_decide (t = "tok") then Some sample_claims else None;
  ws_log := λ _, respond StatusOK ""; static_file := λ _, respond StatusOK ""; ready := true;
  ctx_done := false; map_order := tree_order |}.

Definition sample_server : WebUIServer db_store builtin_store := {|
  sourcesReaderWriter := empty_table;
  metricsReaderWriter := {| builtin_defs := {| MetricDefs := ∅; PresetDefs := ∅ |} |};
  WebUser := "admin"; WebPassword := "secret"; uiEnabled := true |}.

Definition sample_request (rt : route) (m : http_method) (body : string) (tokens : option (list string)) :
    request := {|
  r_route := rt; r_method := m; r_body := Ok body; r_header_token := tokens; r_query_token := "" |}.

(** Log in, create a source with the token, and read it back. *)
Example sample_session :
  let now := 1700000000 * time_Second in
  let '(s1, r1) := serve sample_web_env now sample_server (sample_request RLogin POST "secret" None) in
  let '(s2, r2) := serve sample_web_env now s1 (sample_request RSources POST "a" (Some [rs_body r1])) in
  let '(s3, r3) := serve sample_web_env now s2 (sample_request (RSourceItem "a") GET "" (Some [rs_body r1])) in
  let '(_, r4) := serve sample_web_env now s3 (sample_request (RSourceItem "a") DELETE "" None) in
  (rs_status r1, rs_status r2, rs_body r3, rs_status r4) = (200, 201, "a", 401).
Proof. vm_compute. reflexivity. Qed.

Lemma unauthorised_changes_nothing_witness :
  (serve sample_web_env 0 sample_server (sample_request RSources POST "a" None)).1 = sample_server ∧
  ∃ e, (serve sample_web_env 0 sample_server (sample_request RSources POST "a" None)).2 =
       http_error sample_web_env StatusUnauthorized e.
Proof.
  destruct (unauthorised_changes_nothing sample_web_env 0 sample_server (sample_request RSources POST "a" None))
    as [H1 H2].
  - by intros [[] _].
  - split; [exact H1|]. apply H2; [reflexivity|discriminate].
Defined.

Lemma login_round_trip_witness :
  let now := 1700000000 * time_Second in
  handleLogin sample_web_env now sample_server (sample_request RLogin POST "secret" None) = respond StatusOK "tok" ∧
  validateToken sample_web_env (now + time_Hour) (sample_request RSources GET "" (Some ["tok"])) = None.
Proof.
  destruct (login_round_trip sample_web_env (1700000000 * time_Second) (1700000000 * time_Second + time_Hour)
    sample_server (sample_request RLogin POST "secret" None) "admin" "secret" "secret" "tok"
    (sample_request RSources GET "" (Some ["tok"]))) as (H1 & _ & H3).
  - intros [u e] t. simpl. case_bool_decide as Hc; [|done]. destruct Hc as [-> ->]. intros [= <-]. done.
  - reflexivity.
  - reflexivity.
  - reflexivity.
  - reflexivity.
  - reflexivity.
  - split; [apply H1; right; split; reflexivity|]. apply H3. vm_compute. reflexivity.
Defined.

Lemma source_resource_witness :
  let '(s', rs) := handleSources sample_web_env sample_server (sample_request RSources POST "a" None) in
  rs_status rs = StatusCreated ∧ db_holds (sourcesReaderWriter s') {["a" := full_source "a" "host=x"]}.
Proof.
  destruct (source_resource sample_web_env sample_server ∅ (sample_request RSources POST "a" None) "a"
    (full_source "a" "host=x") "a") as [H _].
  - exact empty_table_holds.
  - discriminate.
  - reflexivity.
  - reflexivity.
  - apply full_source_no_nil.
  - exact (H eq_refl).
Defined.
