(* ===== verification/Conn.v ===== *)
(** * Connections to monitored databases ([internal/sources/conn.go], [internal/db/deadlines.go])

    A [DbConn] is a source together with its connection state and what was learnt about the
    server.  The connection pool and the answers of the server are parameters.  The theorems show
    that the interval used for a metric is the one of the active configuration, that the cached
    runtime information is refreshed only when it is old and remembered only when complete, that
    version strings are read as documented, and that the creation of missing extensions reports
    exactly what it did. *)

From S2P Require Import Prelude GoStrings Metrics Sources Changes.
From stdpp Require Import options.

Local Open Scope Z_scope.

(** ** State *)

Record RuntimeInfo := {
  IsInRecovery : bool;
  VersionStr : string;
  Version : Z;
  RealDbname : string;
  SystemIdentifier : string;
  IsSuperuser : bool;
  Extensions : gmap string Z;
  ExecEnv : string;
  ApproxDbSize : Z;
  RtChangeState : ChangeState;
}.

(** The part of a parsed connection string the program reads. *)
Record conn_config := {
  cc_Host : string;
  cc_Port : Z;
  cc_Database : string;
  cc_ConnectTimeout : Z;
}.

(** The connection pool of a [DbConn]: not created yet, usable, or closed.  A closed pool stays
    closed: every operation on it fails. *)
Inductive pool := PoolNil | PoolOpen | PoolClosed.

#[export] Instance pool_eq_dec : EqDecision pool.
Proof. solve_decision. Defined.

Record DbConn := {
  md_Source : Source;
  md_Conn : pool;
  md_ConnConfig : option conn_config;
  md_Info : RuntimeInfo;
  lastCheckedNs : Z;
}.

Definition NewDbConn (s : Source) : DbConn := {|
  md_Source := s; md_Conn := PoolNil; md_ConnConfig := None;
  md_Info := {| IsInRecovery := false; VersionStr := ""; Version := 0; RealDbname := "";
                SystemIdentifier := ""; IsSuperuser := false; Extensions := ∅; ExecEnv := "";
                ApproxDbSize := 0; RtChangeState := ∅ |};
  lastCheckedNs := 0 |}.

Definition with_source (md : DbConn) (s : Source) : DbConn := {|
  md_Source := s; md_Conn := md_Conn md; md_ConnConfig := md_ConnConfig md; md_Info := md_Info md;
  lastCheckedNs := lastCheckedNs md |}.
Definition with_conn (md : DbConn) (c : pool) : DbConn := {|
  md_Source := md_Source md; md_Conn := c; md_ConnConfig := md_ConnConfig md; md_Info := md_Info md;
  lastCheckedNs := lastCheckedNs md |}.
Definition with_config (md : DbConn) (c : option conn_config) : DbConn := {|
  md_Source := md_Source md; md_Conn := md_Conn md; md_ConnConfig := c; md_Info := md_Info md;
  lastCheckedNs := lastCheckedNs md |}.
Definition with_info (md : DbConn) (i : RuntimeInfo) : DbConn := {|
  md_Source := md_Source md; md_Conn := md_Conn md; md_ConnConfig := md_ConnConfig md;
  md_Info := i; lastCheckedNs := lastCheckedNs md |}.
Definition with_checked (md : DbConn) (t : Z) : DbConn := {|
  md_Source := md_Source md; md_Conn := md_Conn md; md_ConnConfig := md_ConnConfig md;
  md_Info := md_Info md; lastCheckedNs := t |}.

(** ** Metric intervals *)

(** [len(m) > 0] for a possibly nil map. *)
Definition nonempty_map {A} (m : option (gmap string A)) : bool :=
  match m with Some m => bool_decide (size m ≠ 0%nat) | None => false end.

Definition ActiveMetrics (md : DbConn) : MetricIntervals :=
  if IsInRecovery (md_Info md) && nonempty_map (MetricsStandby (md_Source md))
  then MetricsStandby (md_Source md)
  else SrcMetrics (md_Source md).

Definition set_metrics (s : Source) (main standby : MetricIntervals) : Source := {|
  Name := Name s; Group := Group s; ConnStr := ConnStr s;
  SrcMetrics := match main with Some _ => main | None => SrcMetrics s end;
  MetricsStandby := match standby with Some _ => standby | None => MetricsStandby s end;
  Kind := Kind s; IncludePattern := IncludePattern s; ExcludePattern := ExcludePattern s;
  PresetMetrics := PresetMetrics s; PresetMetricsStandby := PresetMetricsStandby s;
  IsEnabled := IsEnabled s; SrcCustomTags := SrcCustomTags s; OnlyIfMaster := OnlyIfMaster s |}.

Definition SetMetricIntervals (md : DbConn) (main standby : MetricIntervals) : DbConn :=
  with_source md (set_metrics (md_Source md) main standby).

(** Reading a missing key, or a nil map, gives 0. *)
Definition interval_of (m : MetricIntervals) (name : string) : Z := default 0 (default ∅ m !! name).

Definition GetMetricInterval (md : DbConn) (name : string) : Z :=
  if IsInRecovery (md_Info md) && nonempty_map (MetricsStandby (md_Source md))
  then seconds (interval_of (MetricsStandby (md_Source md)) name)
  else seconds (interval_of (SrcMetrics (md_Source md)) name).

(** ** Connection configuration *)

Section config.
(** [pgxpool.ParseConfig]. *)
Context (parse_config : string → result conn_config).

Definition ParseConfig (md : DbConn) : DbConn * option error :=
  match md_ConnConfig md with
  | Some _ => (md, None)
  | None =>
      match parse_config (ConnStr (md_Source md)) with
      | Ok c => (with_config md (Some c), None)
      | Err e => (md, Some e)
      end
  end.

Definition GetClusterIdentifier (md : DbConn) : DbConn * string :=
  let '(md, err) := ParseConfig md in
  match err, md_ConnConfig md with
  | None, Some c =>
      (md, SystemIdentifier (md_Info md) +:+ ":" +:+ cc_Host c +:+ ":" +:+ pretty (cc_Port c))
  | _, _ => (md, "")
  end.

Definition Source_GetDatabaseName (s : Source) : string :=
  match parse_config (ConnStr s) with Ok c => cc_Database c | Err _ => "" end.

Definition GetDatabaseName (md : DbConn) : DbConn * string :=
  let '(md, err) := ParseConfig md in
  match err, md_ConnConfig md with
  | None, Some c => (md, cc_Database c)
  | _, _ => (md, "")
  end.

Definition clear_connstr (s : Source) : Source := {|
  Name := Name s; Group := Group s; ConnStr := ""; SrcMetrics := SrcMetrics s;
  MetricsStandby := MetricsStandby s; Kind := Kind s; IncludePattern := IncludePattern s;
  ExcludePattern := ExcludePattern s; PresetMetrics := PresetMetrics s;
  PresetMetricsStandby := PresetMetricsStandby s; IsEnabled := IsEnabled s;
  SrcCustomTags := SrcCustomTags s; OnlyIfMaster := OnlyIfMaster s |}.

Definition SetDatabaseName (md : DbConn) (name : string) : DbConn :=
  let '(md, err) := ParseConfig md in
  match err, md_ConnConfig md with
  | None, Some c =>
      with_config (with_source md (clear_connstr (md_Source md)))
        (Some {| cc_Host := cc_Host c; cc_Port := cc_Port c; cc_Database := name;
                 cc_ConnectTimeout := cc_ConnectTimeout c |})
  | _, _ => md
  end.

(** ** Connecting *)

Definition PingTimeoutMargin : Z := 5 * time_Second.
Definition MinFetchTimeout : Z := 30 * time_Second.

(** The deadlines of the round trips. *)
Definition WithFetchTimeout (interval : Z) : Z := Z.max interval MinFetchTimeout.
Definition deadlineCause (op : string) : error := ErrorString (op +:+ " deadline").

(** The bound [Ping] puts on its round trip; [SHOW VERSION] is sent to pgbouncer, a plain ping to
    everything else. *)
Definition Ping_timeout (md : DbConn) : Z :=
  match md_ConnConfig md with
  | Some c => wrap64 (cc_ConnectTimeout c + PingTimeoutMargin)
  | None => 10 * time_Second
  end.

Context (exec_show_version ping : Z → option error).

Definition DbConn_Ping (md : DbConn) : outcome (option error) :=
  match md_Conn md with
  | PoolNil => Panics
  | PoolClosed => Returns (Some (ErrorString "closed pool"))
  | PoolOpen =>
      Returns (if bool_decide (Kind (md_Source md) = SourcePgBouncer)
               then exec_show_version (Ping_timeout md) else ping (Ping_timeout md))
  end.

Definition DbConn_Close (md : DbConn) : DbConn :=
  match md_Conn md with
  | PoolNil => md
  | _ => with_conn md PoolClosed
  end.

(** [Connect]: [new_pool] is the result of creating the pool; creating it fills in the default
    connect timeout. *)
Context (new_pool : option error).

Definition default_timeout (c : conn_config) : conn_config := {|
  cc_Host := cc_Host c; cc_Port := cc_Port c; cc_Database := cc_Database c;
  cc_ConnectTimeout := if cc_ConnectTimeout c =? 0 then 5 * time_Second else cc_ConnectTimeout c |}.

Definition DbConn_Connect (md : DbConn) : outcome (DbConn * option error) :=
  let ping md := match DbConn_Ping md with
                 | Returns err => Returns (md, err)
                 | Panics => Panics
                 | NoFuel => NoFuel
                 end in
  match md_Conn md with
  | PoolNil =>
      let '(md, err) := ParseConfig md in
      match err with
      | Some e => Returns (md, Some e)
      | None =>
          let md := with_config md (default_timeout <$> md_ConnConfig md) in
          match new_pool with
          | Some e => Returns (md, Some e)
          | None => ping (with_conn md PoolOpen)
          end
      end
  | _ => ping md
  end.

(** Connecting never changes the source. *)
Lemma ParseConfig_source md : md_Source (ParseConfig md).1 = md_Source md.
Proof using Type. unfold ParseConfig. by split_matches. Qed.

Lemma Connect_source md md' err : DbConn_Connect md = Returns (md', err) → md_Source md' = md_Source md.
Proof using Type.
  unfold DbConn_Connect, DbConn_Ping. destruct (md_Conn md); [|intros; by simplify_eq..].
  pose proof (ParseConfig_source md) as Hp. destruct (ParseConfig md) as [md1 err1]. simpl in *.
  destruct err1; [intros; by simplify_eq|]. destruct new_pool; intros; by simplify_eq/=.
Qed.
End config.

Definition IsPostgresSource (s : Source) : bool :=
  bool_decide (Kind s = SourcePostgres ∨ Kind s = SourcePatroniDiscovery ∨
               Kind s = SourcePostgresDiscovery).

(** ** Versions *)

Definition is_digit (c : Ascii.ascii) : bool :=
  let n := Ascii.nat_of_ascii c in bool_decide (48 ≤ n ∧ n ≤ 57)%nat.

Fixpoint take_digits (s : string) : string * string :=
  match s with
  | String c s' => if is_digit c then let '(a, b) := take_digits s' in (String c a, b) else ("", s)
  | "" => ("", "")
  end.

Fixpoint drop_to_digit (s : string) : string :=
  match s with
  | String c s' => if is_digit c then s else drop_to_digit s'
  | "" => ""
  end.

(** [.?] consumes one character, if there is one that is not a line feed: a byte below 192, or a
    leading byte with its continuation bytes. *)
Fixpoint drop_continuation (s : string) : string :=
  match s with
  | String c s' =>
      let n := Ascii.nat_of_ascii c in
      if bool_decide (128 ≤ n ∧ n ≤ 191)%nat then drop_continuation s' else s
  | "" => ""
  end.
Definition skip_rune (s : string) : string :=
  match s with
  | String c s' =>
      let n := Ascii.nat_of_ascii c in
      if bool_decide (n = 10)%nat then s
      else if bool_decide (192 ≤ n)%nat then drop_continuation s' else s'
  | "" => ""
  end.

(** [strconv.Atoi] with its error ignored: the empty string gives 0, a number out of range the
    largest [int]. *)
Fixpoint digits_value (acc : Z) (s : string) : Z :=
  match s with
  | String c s' => digits_value (acc * 10 + (Z.of_nat (Ascii.nat_of_ascii c) - 48)) s'
  | "" => acc
  end.
Definition Atoi (s : string) : Z := Z.min (2 ^ 63 - 1) (digits_value 0 s).

(** [VersionToInt] looks for up to three groups of digits, separated by at most one character
    each.  The first digit starts the match, and as every part after the first group is optional
    the match never backtracks. *)
Definition VersionToInt (version : string) : Z :=
  let '(d1, s) := take_digits (drop_to_digit version) in
  if bool_decide (d1 = "") then 0
  else
    let '(d2, s) := take_digits (skip_rune s) in
    let '(d3, _) := take_digits (skip_rune s) in
    wrap64 (Atoi d1 * 10000 + Atoi d2 * 100 + Atoi d3).

Example VersionToInt_doc :
  VersionToInt "v1.2" = 10200 ∧ VersionToInt "v9.6.3" = 90603 ∧ VersionToInt "v11" = 110000 ∧
  VersionToInt "PgBouncer 1.23.1" = 12301 ∧ VersionToInt "none" = 0.
Proof. by vm_compute. Qed.

(** ** Runtime information *)

(** The answers of the server to the queries of [FetchRuntimeInfo]. *)
Record server := {
  sv_control : result (Z * string * bool * string * string * bool);
  sv_platform : result string;
  sv_size : result Z;
  sv_extensions : result (list (string * string));
  sv_version : string → result string;   (* [SHOW VERSION] and [SHOW POOL_VERSION] *)
}.

Definition FetchControlInfo (sv : server) (i : RuntimeInfo) : RuntimeInfo * option error :=
  match sv_control sv with
  | Err e => (i, Some e)
  | Ok (ver, verstr, recovery, dbname, sysid, super) =>
      ({| IsInRecovery := recovery; VersionStr := verstr; Version := ver; RealDbname := dbname;
          SystemIdentifier := sysid; IsSuperuser := super; Extensions := Extensions i;
          ExecEnv := ExecEnv i; ApproxDbSize := ApproxDbSize i; RtChangeState := RtChangeState i |},
       None)
  end.

Definition with_extension (i : RuntimeInfo) (ext : string) (ver : Z) : RuntimeInfo := {|
  IsInRecovery := IsInRecovery i; VersionStr := VersionStr i; Version := Version i;
  RealDbname := RealDbname i; SystemIdentifier := SystemIdentifier i; IsSuperuser := IsSuperuser i;
  Extensions := <[ext := ver]> (Extensions i); ExecEnv := ExecEnv i; ApproxDbSize := ApproxDbSize i;
  RtChangeState := RtChangeState i |}.

(** The rows are read until one of them is unexpected. *)
Fixpoint store_extensions (rows : list (string * string)) (i : RuntimeInfo)
    : RuntimeInfo * option error :=
  match rows with
  | [] => (i, None)
  | (ext, ver) :: rows' =>
      let extver := VersionToInt ver in
      if extver =? 0 then
        (i, Some (ErrorString ("unexpected extension " +:+ ext +:+ " version input: " +:+ ver)))
      else store_extensions rows' (with_extension i ext extver)
  end.

Definition FetchExtensions (sv : server) (i : RuntimeInfo) : RuntimeInfo * option error :=
  match sv_extensions sv with
  | Err e => (i, Some e)
  | Ok rows => store_extensions rows i
  end.

Definition FetchVersion (sv : server) (kind : string) (i : RuntimeInfo) : RuntimeInfo * option error :=
  let sql := if bool_decide (kind = SourcePgBouncer) then "SHOW VERSION"
             else if bool_decide (kind = SourcePgPool) then "SHOW POOL_VERSION" else "" in
  match sv_version sv sql with
  | Err e => (i, Some e)
  | Ok v =>
      ({| IsInRecovery := IsInRecovery i; VersionStr := v; Version := VersionToInt v;
          RealDbname := RealDbname i; SystemIdentifier := SystemIdentifier i;
          IsSuperuser := IsSuperuser i; Extensions := Extensions i; ExecEnv := ExecEnv i;
          ApproxDbSize := ApproxDbSize i; RtChangeState := RtChangeState i |}, None)
  end.

Definition with_env_size (i : RuntimeInfo) (env : string) (size : Z) : RuntimeInfo := {|
  IsInRecovery := IsInRecovery i; VersionStr := VersionStr i; Version := Version i;
  RealDbname := RealDbname i; SystemIdentifier := SystemIdentifier i; IsSuperuser := IsSuperuser i;
  Extensions := Extensions i; ExecEnv := env; ApproxDbSize := size;
  RtChangeState := RtChangeState i |}.

Definition DiscoverPlatform (sv : server) (i : RuntimeInfo) : RuntimeInfo * option error :=
  if bool_decide (ExecEnv i ≠ "") then (i, None)
  else match sv_platform sv with
       | Err e => (i, Some e)
       | Ok env => (with_env_size i env (ApproxDbSize i), None)
       end.

Definition FetchApproxSize (sv : server) (i : RuntimeInfo) : RuntimeInfo * option error :=
  match sv_size sv with
  | Err e => (i, Some e)
  | Ok size => (with_env_size i (ExecEnv i) size, None)
  end.

(** [pg_procs] are the functions of the database with their schemas; a failure counts as absence. *)
Definition FunctionExists (pg_procs : result (list (string * string))) (functionName : string) : bool :=
  match pg_procs with
  | Ok procs => existsb (λ p, bool_decide (p = ("public", functionName))) procs
  | Err _ => false
  end.

(** [FetchRuntimeInfo] at time [now] (nanoseconds); [now2] is the time when the answers are in. *)
Definition FetchRuntimeInfo (sv : server) (ctx_err : option error) (now now2 : Z)
    (md : DbConn) (forceRefetch : bool) : DbConn * option error :=
  if negb forceRefetch && (wrap64 (now - lastCheckedNs md) <? 5 * time_Minute) then (md, None)
  else
    match ctx_err with
    | Some e => (md, Some e)
    | None =>
        let i := md_Info md in
        let kind := Kind (md_Source md) in
        let '(i, err) :=
          if bool_decide (kind = SourcePgBouncer ∨ kind = SourcePgPool) then FetchVersion sv kind i
          else
            let '(i, e1) := FetchControlInfo sv i in
            let '(i, e2) := DiscoverPlatform sv i in
            let '(i, e3) := FetchApproxSize sv i in
            let '(i, e4) := FetchExtensions sv i in
            (i, errors_Join [e1; e2; e3; e4]) in
        let md := with_info md i in
        match err with
        | None => (with_checked md now2, None)
        | Some e => (md, Some e)
        end
    end.

(** ** Extensions and helpers *)

(** [slices.BinarySearch]: the first position whose element is not below the target. *)
Fixpoint bsearch (fuel : nat) (l : list string) (target : string) (i j : nat) : nat :=
  match fuel with
  | O => i
  | S fuel =>
      if bool_decide (i < j)%nat then
        let h := ((i + j) / 2)%nat in
        match l !! h with
        | Some x => if bool_decide (String.le target x) then bsearch fuel l target i h
                    else bsearch fuel l target (S h) j
        | None => i
        end
      else i
  end.
Definition BinarySearch (l : list string) (target : string) : bool :=
  let i := bsearch (S (length l)) l target 0 (length l) in bool_decide (l !! i = Some target).

Section extensions.
(** [create extension if not exists]. *)
Context (create_extension : string → option error).

Fixpoint create_missing (known : gmap string Z) (available : list string) (extensions : list string)
    (err : option error) : list string * option error :=
  match extensions with
  | [] => ([], err)
  | ext :: extensions' =>
      match known !! ext with
      | Some _ => create_missing known available extensions' err
      | None =>
          if BinarySearch available ext then
            match create_extension ext with
            | Some e =>
                create_missing known available extensions'
                  (errors_Join [err; Some (WrapError ("failed to create extension " +:+ ext) e)])
            | None =>
                let '(created, err) := create_missing known available extensions' err in
                (ext :: created, err)
            end
          else
            create_missing known available extensions'
              (errors_Join [err; Some (ErrorString ("requested extension " +:+ ext +:+
                                                    " is not available on instance"))])
      end
  end.

Definition TryCreateMissingExtensions (available : result (list string)) (md : DbConn)
    (extensions : list string) : string * option error :=
  match available with
  | Err e => ("", Some e)
  | Ok availableExts =>
      let '(created, err) :=
        create_missing (Extensions (md_Info md)) availableExts extensions None in
      (strings_Join created ",", err)
  end.
End extensions.

(** [maps.Clone] followed by [maps.Insert]: inserting into a nil map panics. *)
Definition merged_intervals (main standby : MetricIntervals) : option (gmap string Z) :=
  match main with
  | Some m => Some (default ∅ standby ∪ m)
  | None => if nonempty_map standby then None else Some ∅
  end.

(** [TryCreateMetricsHelpers]: [exec] runs the statement of a metric.  The result also lists the
    statements that were run. *)
Definition TryCreateMetricsHelpers (ro : range_order) (getSQLFn : string → string)
    (exec : string → option error) (md : DbConn) : outcome (list string * option error) :=
  match merged_intervals (SrcMetrics (md_Source md)) (MetricsStandby (md_Source md)) with
  | None => Panics
  | Some metricsMap =>
      Returns (foldl (λ '(ran, err) metricName,
        let sql := getSQLFn metricName in
        if bool_decide (sql = "") then (ran, err)
        else match exec sql with
             | None => (ran ++ [sql], err)
             | Some e =>
                 (ran ++ [sql],
                  errors_Join [err; Some (WrapError ("failed to create helper for metric " +:+
                                                     metricName) e)])
             end) ([], None) (range_keys ro metricsMap))
  end.

(** ** Properties *)

(** The interval under which a metric is fetched is the one of the active configuration. *)
Lemma GetMetricInterval_active md name :
  GetMetricInterval md name = seconds (interval_of (ActiveMetrics md) name).
Proof. unfold GetMetricInterval, ActiveMetrics. by case_match. Qed.

(** *** Binary search *)

Definition sorted_strings (l : list string) : Prop := StronglySorted String.le l.

Lemma sorted_lookup l i j x y :
  sorted_strings l → l !! i = Some x → l !! j = Some y → (i < j)%nat → String.le x y.
Proof.
  intros Hs. revert i j. induction Hs as [|z l Hs IH Hall]; intros [|i] [|j] Hi Hj Hlt; simplify_eq/=;
    try lia.
  - rewrite Forall_lookup in Hall. by eapply Hall.
  - apply (IH i j); [done..|lia].
Qed.

(** Invariant of the search: everything before [i] is below the target, nothing from [j] on is. *)
Lemma bsearch_spec l target fuel i j :
  sorted_strings l → (i ≤ j ≤ length l)%nat → (j - i < fuel)%nat →
  (∀ k x, l !! k = Some x → (k < i)%nat → ¬ String.le target x) →
  (∀ k x, l !! k = Some x → (j ≤ k)%nat → String.le target x) →
  let r := bsearch fuel l target i j in
  (∀ k x, l !! k = Some x → (k < r)%nat → ¬ String.le target x) ∧
  (∀ k x, l !! k = Some x → (r ≤ k)%nat → String.le target x).
Proof.
  intros Hs. revert i j. induction fuel as [|fuel IH]; intros i j Hij Hf Hlo Hhi; [lia|]. cbn [bsearch].
  case_bool_decide as Hlt.
  2: { assert (i = j) as -> by lia. by split. }
  set (h := ((i + j) / 2)%nat). assert (i ≤ h < j)%nat as Hh.
  { unfold h. split; [apply Nat.div_le_lower_bound; lia|apply Nat.div_lt_upper_bound; lia]. }
  destruct (lookup_lt_is_Some_2 l h) as [x Hx]; [lia|]. rewrite Hx. case_bool_decide as Hle.
  - apply IH; [lia|lia|done|]. intros k y Hk Hge. destruct (decide (k = h)) as [->|]; [congruence|].
    etrans; [exact Hle|]. apply (sorted_lookup l h k); [done..|lia].
  - apply IH; [lia|lia| |done]. intros k y Hk Hkl Hty. destruct (decide (k = h)) as [->|]; [congruence|].
    apply Hle. etrans; [exact Hty|]. apply (sorted_lookup l k h); [done..|lia].
Qed.

Lemma BinarySearch_sorted l target :
  sorted_strings l → BinarySearch l target = true ↔ target ∈ l.
Proof.
  intros Hs. unfold BinarySearch. rewrite bool_decide_eq_true.
  destruct (bsearch_spec l target (S (length l)) 0 (length l)) as [Hlo Hhi]; [done|lia|lia|lia| |].
  { intros k x Hk%lookup_lt_Some ?. lia. }
  set (r := bsearch _ _ _ _ _) in *. split; [apply list_elem_of_lookup_2|].
  intros [k Hk]%list_elem_of_lookup. destruct (decide (k < r)%nat) as [Hlt|Hge].
  { exfalso. by apply (Hlo k target Hk Hlt). }
  destruct (lookup_lt_is_Some_2 l r) as [x Hx].
  { apply lookup_lt_Some in Hk. lia. }
  rewrite Hx. f_equal. destruct (decide (k = r)) as [->|]; [congruence|].
  apply (anti_symm String.le).
  - apply (sorted_lookup l r k); [done..|lia].
  - by apply (Hhi r x).
Qed.

(** *** Missing extensions *)

Section missing.
Context (create_extension : string → option error) (known : gmap string Z) (available : list string).

(** The extension is requested, not installed, offered by the server, and could be created. *)
Definition creatable (ext : string) : Prop :=
  known !! ext = None ∧ ext ∈ available ∧ create_extension ext = None.
#[export] Instance creatable_dec ext : Decision (creatable ext).
Proof.
  unfold creatable. destruct (create_extension ext); [right; naive_solver|].
  destruct (decide (known !! ext = None ∧ ext ∈ available)); [left|right]; naive_solver.
Defined.

(** A request for it is an error. *)
Definition missing_failure (ext : string) : Prop :=
  known !! ext = None ∧ (ext ∉ available ∨ is_Some (create_extension ext)).

Lemma create_missing_spec extensions err :
  sorted_strings available →
  (create_missing create_extension known available extensions err).1 = filter creatable extensions ∧
  ((create_missing create_extension known available extensions err).2 = None ↔
   err = None ∧ Forall (λ ext, ¬ missing_failure ext) extensions).
Proof using Type.
  intros Hs. revert err. induction extensions as [|ext exts IH]; intros err; simpl.
  { split; [done|]. split; [by intros ->|by intros [-> _]]. }
  rewrite filter_cons, Forall_cons. pose proof (BinarySearch_sorted available ext Hs) as Hb.
  unfold missing_failure at 1. destruct (known !! ext) as [v|] eqn:Ek.
  { rewrite decide_False by (unfold creatable; naive_solver). destruct (IH err) as [-> ->].
    split; [done|]. naive_solver. }
  destruct (BinarySearch available ext).
  - destruct (create_extension ext) as [e|] eqn:Ec.
    + rewrite decide_False by (unfold creatable; naive_solver).
      edestruct IH as [-> ->]. split; [done|]. rewrite errors_Join_None, !Forall_cons. naive_solver.
    + rewrite decide_True by (unfold creatable; naive_solver). destruct (IH err) as [<- Hn].
      destruct (create_missing _ _ _ exts err) as [created err']. simpl in *. split; [done|].
      rewrite Hn. split; [|naive_solver]. intros [-> Hall]. split_and!; [done| |done].
      intros [_ [Hnot|[? ?]]]; [|done]. by apply Hnot, Hb.
  - rewrite decide_False by (unfold creatable; naive_solver).
    edestruct IH as [-> ->]. split; [done|]. rewrite errors_Join_None, !Forall_cons.
    split; [naive_solver|]. intros [_ [Hf _]]. exfalso. apply Hf. split; [done|left].
    intros Hin. apply Hb in Hin. done.
Qed.
End missing.

(** When the server lists the available extensions in byte order, exactly the requested
    extensions that are not installed, are available, and could be created are reported as created,
    in the order of the request; the error is nil exactly when no request failed.  A failure does
    not keep the others from being created. *)
Theorem TryCreateMissingExtensions_spec create_extension available md extensions :
  sorted_strings available →
  let '(created, err) := TryCreateMissingExtensions create_extension (Ok available) md extensions in
  let known := Extensions (md_Info md) in
  created = strings_Join (filter (creatable create_extension known available) extensions) "," ∧
  (err = None ↔ Forall (λ ext, ¬ missing_failure create_extension known available ext) extensions).
Proof.
  intros Hs. unfold TryCreateMissingExtensions.
  pose proof (create_missing_spec create_extension (Extensions (md_Info md)) available extensions None Hs)
    as [H1 H2].
  destruct (create_missing _ _ _ _ _) as [created err]. simpl in *. rewrite H1. split; [done|].
  rewrite H2. naive_solver.
Qed.

Definition sample_server : server := {|
  sv_control := Ok (16, "PostgreSQL 16.2", true, "db", "7001", false); sv_platform := Ok "UNKNOWN";
  sv_size := Ok 4096; sv_extensions := Ok [("pg_stat_statements", "1.10")];
  sv_version := λ _, Err (ErrorString "syntax error") |}.

Lemma TryCreateMissingExtensions_spec_witness :
  let create ext := if bool_decide (ext = "plpython") then Some (ErrorString "denied") else None in
  let available := ["pg_stat_statements"; "plpgsql"; "plpython"] in
  let md := NewDbConn (sample_source "a") in
  let extensions := ["plpython"; "nosuch"; "plpgsql"] in
  let '(created, err) := TryCreateMissingExtensions create (Ok available) md extensions in
  let known := Extensions (md_Info md) in
  created = strings_Join (filter (creatable create known available) extensions) "," ∧
  (err = None ↔ Forall (λ ext, ¬ missing_failure create known available ext) extensions).
Proof. apply TryCreateMissingExtensions_spec. repeat constructor. Defined.

(** *** Runtime information *)

Lemma FetchRuntimeInfo_frame sv ctx_err now now2 md force :
  let md' := (FetchRuntimeInfo sv ctx_err now now2 md force).1 in
  md_Source md' = md_Source md ∧ md_Conn md' = md_Conn md ∧
  RtChangeState (md_Info md') = RtChangeState (md_Info md).
Proof.
  unfold FetchRuntimeInfo. destruct (_ && _); [done|]. destruct ctx_err as [e|]; [done|].
  destruct (if bool_decide (_ ∨ _) then _ else _) as [i err] eqn:Ei.
  assert (RtChangeState i = RtChangeState (md_Info md)) as Hcs; [|by destruct err].
  assert (∀ rows i, RtChangeState (store_extensions rows i).1 = RtChangeState i) as Hext.
  { induction rows as [|[ext ver] rows IH]; intros i'; cbn [store_extensions];
      [done|]. destruct (VersionToInt ver =? 0); [done|]. by rewrite IH. }
  revert Ei. unfold FetchVersion, FetchControlInfo, DiscoverPlatform, FetchApproxSize, FetchExtensions.
  case_bool_decide; [intros; repeat case_match; by simplify_eq|].
  repeat case_match; intros; simplify_eq/=; try done;
    match goal with H : store_extensions ?r ?j = _ |- _ =>
      pose proof (Hext r j) as Hx; rewrite H in Hx; done end.
Qed.

(** A refresh that succeeds at [now2] is good for five minutes: until then an unforced call
    changes nothing, whatever the server would answer.  A refresh that fails in part keeps what it
    learnt but not the time stamp, so that the next call asks again; the source, the pool and the
    stored object hashes are never touched. *)
Theorem FetchRuntimeInfo_cache sv ctx_err now now2 md force :
  let '(md', err) := FetchRuntimeInfo sv ctx_err now now2 md force in
  md_Source md' = md_Source md ∧ md_Conn md' = md_Conn md ∧
  RtChangeState (md_Info md') = RtChangeState (md_Info md) ∧
  match err with
  | Some _ => lastCheckedNs md' = lastCheckedNs md
  | None => md' = md ∨
      (lastCheckedNs md' = now2 ∧
       ∀ sv' ctx_err' later now3, in_int64 (later - now2) → later - now2 < 5 * time_Minute →
         FetchRuntimeInfo sv' ctx_err' later now3 md' false = (md', None))
  end.
Proof.
  pose proof (FetchRuntimeInfo_frame sv ctx_err now now2 md force) as Hframe.
  destruct (FetchRuntimeInfo sv ctx_err now now2 md force) as [md' err] eqn:E.
  destruct Hframe as (? & ? & ?). split_and!; [done..|]. revert E. unfold FetchRuntimeInfo at 1.
  destruct (_ && _); [intros; simplify_eq; by left|].
  destruct ctx_err as [e|]; [intros; by simplify_eq|].
  destruct (if bool_decide (_ ∨ _) then _ else _) as [i [e|]]; intros; simplify_eq; [done|].
  right. split; [done|]. intros sv' ctx_err' later now3 Hr Hlt. unfold FetchRuntimeInfo. simpl.
  rewrite wrap64_id by done. apply Z.ltb_lt in Hlt. by rewrite Hlt.
Qed.

(** *** Versions *)

Lemma pretty_N_char_digit x : (x < 10)%N →
  is_digit (pretty_N_char x) = true ∧ Z.of_nat (Ascii.nat_of_ascii (pretty_N_char x)) - 48 = Z.of_N x.
Proof.
  intros. assert (x = 0 ∨ x = 1 ∨ x = 2 ∨ x = 3 ∨ x = 4 ∨ x = 5 ∨ x = 6 ∨ x = 7 ∨ x = 8 ∨ x = 9)%N
    as Hx by lia. destruct_or! Hx; subst; by vm_compute.
Qed.

Lemma pretty_N_go_app x s t : pretty_N_go x s +:+ t = pretty_N_go x (s +:+ t).
Proof.
  revert s. induction (N.lt_wf_0 x) as [x _ IH]; intros s.
  assert (x = 0 ∨ 0 < x)%N as [->|?] by lia; [done|].
  rewrite !(pretty_N_go_step x) by done. rewrite IH by (by apply N.div_lt). done.
Qed.

Lemma take_digits_pretty_go x s :
  take_digits (pretty_N_go x s) = (pretty_N_go x (take_digits s).1, (take_digits s).2).
Proof.
  revert s. induction (N.lt_wf_0 x) as [x _ IH]; intros s.
  assert (x = 0 ∨ 0 < x)%N as [->|?] by lia.
  { rewrite !pretty_N_go_0. by destruct (take_digits s). }
  rewrite !(pretty_N_go_step x) by done. rewrite IH by (by apply N.div_lt). simpl.
  destruct (pretty_N_char_digit (x `mod` 10)) as [-> _]; [by apply N.mod_lt|].
  by destruct (take_digits s).
Qed.

Lemma digits_value_pretty_go x s : digits_value 0 (pretty_N_go x s) = digits_value (Z.of_N x) s.
Proof.
  revert s. induction (N.lt_wf_0 x) as [x _ IH]; intros s.
  assert (x = 0 ∨ 0 < x)%N as [->|?] by lia; [done|].
  rewrite (pretty_N_go_step x) by done. rewrite IH by (by apply N.div_lt). simpl.
  destruct (pretty_N_char_digit (x `mod` 10)) as [_ ->]; [by apply N.mod_lt|].
  f_equal. pose proof (N.div_mod x 10). lia.
Qed.

(** A decimal number followed by something that is not a digit. *)
Lemma take_digits_pretty (x : N) s :
  (take_digits s).1 = "" → take_digits (pretty x +:+ s) = (pretty x, (take_digits s).2).
Proof.
  intros Hs. unfold pretty, pretty_N. case_decide as Hx.
  - rewrite string_app_cons. cbn [take_digits].
    replace (is_digit _) with true by reflexivity. rewrite string_app_nil_l.
    destruct (take_digits s). simpl in *. by subst.
  - by rewrite pretty_N_go_app, take_digits_pretty_go, string_app_nil_l, Hs.
Qed.

Lemma Atoi_pretty (x : N) : Z.of_N x < 2 ^ 63 → Atoi (pretty x) = Z.of_N x.
Proof.
  intros Hx. unfold Atoi. replace (digits_value 0 (pretty x)) with (Z.of_N x); [lia|].
  unfold pretty, pretty_N. case_decide as H0; [by subst|]. by rewrite digits_value_pretty_go.
Qed.

Lemma pretty_first_digit (x : N) s : drop_to_digit (pretty x +:+ s) = pretty x +:+ s ∧ pretty x ≠ "".
Proof.
  assert (∀ x s, (take_digits s).1 ≠ "" → (take_digits (pretty_N_go x s)).1 ≠ "") as Hgo.
  { intros y t. rewrite take_digits_pretty_go. simpl. generalize (take_digits t).1 as a. clear.
    intros a. revert a. induction (N.lt_wf_0 y) as [y _ IH]; intros a Ha.
    assert (y = 0 ∨ 0 < y)%N as [->|?] by lia; [done|].
    rewrite pretty_N_go_step by done. apply IH; [by apply N.div_lt|done]. }
  assert ((take_digits (pretty x)).1 ≠ "") as Hd.
  { unfold pretty, pretty_N. case_decide; [done|]. rewrite pretty_N_go_step by lia. apply Hgo. simpl.
    destruct (pretty_N_char_digit (x `mod` 10)) as [-> _]; [by apply N.mod_lt|]. done. }
  destruct (pretty x) as [|c p]; [done|]. simpl in Hd. split; [|done]. rewrite string_app_cons. simpl.
  by destruct (is_digit c).
Qed.

(** A version printed as three decimal numbers with dots between them, whatever text without
    digits precedes it, is read back as [major * 10000 + minor * 100 + patch]; with minor and patch
    below 100 the order of versions is the order of these numbers. *)
Theorem VersionToInt_dotted (prefix : string) (a b c : N) :
  drop_to_digit (prefix +:+ pretty a +:+ "." +:+ pretty b +:+ "." +:+ pretty c) =
    pretty a +:+ "." +:+ pretty b +:+ "." +:+ pretty c →
  Z.of_N a < 10 ^ 14 → Z.of_N b < 100 → Z.of_N c < 100 →
  VersionToInt (prefix +:+ pretty a +:+ "." +:+ pretty b +:+ "." +:+ pretty c) =
    Z.of_N a * 10000 + Z.of_N b * 100 + Z.of_N c.
Proof.
  intros Hp Ha Hb Hc. unfold VersionToInt. rewrite Hp.
  rewrite take_digits_pretty by done. rewrite bool_decide_eq_false_2 by (by apply (pretty_first_digit a "")).
  replace (skip_rune (take_digits ("." +:+ pretty b +:+ "." +:+ pretty c)).2)
    with (pretty b +:+ "." +:+ pretty c) by done.
  rewrite take_digits_pretty by done.
  replace (skip_rune (take_digits ("." +:+ pretty c)).2) with (pretty c) by done.
  rewrite <-(string_app_nil_r (pretty c)), take_digits_pretty by done.
  rewrite !Atoi_pretty by lia. apply wrap64_id. unfold in_int64. lia.
Qed.

Lemma VersionToInt_dotted_witness : VersionToInt ("PgBouncer " +:+ "1" +:+ "." +:+ "23" +:+ "." +:+ "1") = 12301.
Proof. apply (VersionToInt_dotted "PgBouncer " 1 23 1); reflexivity. Defined.
