(* ===== verification/PromConn.v ===== *)
(** * Connections to Prometheus exporters ([internal/sources/conn.go], [PromConn])

    The connection string of an exporter is a URL that may carry a user, a password and two
    parameters for TLS, which are not meant for the exporter.  [ParseConfig] separates them once;
    [Ping] and [Scrape] send the remaining URL with basic authentication.

    Splitting a URL into its parts and printing it ([url.Parse], [URL.String]), reading a file and
    the exchange with the server are parameters; the query part of a URL ([url.ParseQuery],
    [Values.Encode]) is modelled, because what reaches the exporter depends on it.  The theorems
    show that the request carries the parameters of the connection string except those for TLS, and
    the credentials in the header only, and that a connection parses its URL once. *)

From Stdlib Require Import Ascii.
From S2P Require Import Prelude GoStrings Metrics Sources Changes Conn.
From stdpp Require Import options.

Local Open Scope Z_scope.

(** ** Query strings *)

Abbreviation url_Values := (gmap string (list string)).

Definition code (a : ascii) : Z := Z.of_nat (nat_of_ascii a).
Definition byte (z : Z) : ascii := ascii_of_nat (Z.to_nat z).

Definition in_range (lo hi : ascii) (a : ascii) : bool := (code lo <=? code a) && (code a <=? code hi).
Definition unreserved (a : ascii) : bool :=
  in_range "a" "z" a || in_range "A" "Z" a || in_range "0" "9" a ||
  bool_decide (a ∈ ["-"%char; "_"%char; "."%char; "~"%char]).

Definition hex_digit (z : Z) : ascii := if z <? 10 then byte (48 + z) else byte (55 + z).
Definition unhex (a : ascii) : option Z :=
  if in_range "0" "9" a then Some (code a - 48)
  else if in_range "A" "F" a then Some (code a - 55)
  else if in_range "a" "f" a then Some (code a - 87)
  else None.

(** [url.QueryEscape]. *)
Fixpoint QueryEscape (s : string) : string :=
  match s with
  | "" => ""
  | String a s =>
      if unreserved a then String a (QueryEscape s)
      else if bool_decide (a = " "%char) then String "+" (QueryEscape s)
      else String "%" (String (hex_digit (code a / 16)) (String (hex_digit (code a `mod` 16)) (QueryEscape s)))
  end.

(** [url.QueryUnescape]; [None] is a malformed escape. *)
Fixpoint QueryUnescape (s : string) : option string :=
  match s with
  | "" => Some ""
  | String a s =>
      if bool_decide (a = "%"%char) then
        match s with
        | String h (String l s) =>
            h ← unhex h; l ← unhex l; s ← QueryUnescape s; Some (String (byte (16 * h + l)) s)
        | _ => None
        end
      else String (if bool_decide (a = "+"%char) then " "%char else a) <$> QueryUnescape s
  end.

(** One pair of a query; a malformed one is left out. *)
Definition add_pair (m : url_Values) (part : string) : url_Values :=
  if contains ";" part then m
  else if bool_decide (part = "") then m
  else
    let '(key, value) := match str_cut "=" part with Some kv => kv | None => (part, "") end in
    match QueryUnescape key, QueryUnescape value with
    | Some key, Some value => <[key := default [] (m !! key) ++ [value]]> m
    | _, _ => m
    end.

(** [URL.Query], which ignores the errors of [url.ParseQuery]. *)
Definition ParseQuery (query : string) : url_Values := foldl add_pair ∅ (strings_Split query "&").

Definition Values_Get (q : url_Values) (key : string) : string :=
  match q !! key with Some (v :: _) => v | _ => "" end.
Definition Values_Del (q : url_Values) (key : string) : url_Values := delete key q.

(** [Values.Encode]: the keys sorted, the values of a key in their order. *)
Definition pairs_of (kv : string * list string) : list string :=
  (λ v, QueryEscape kv.1 +:+ "=" +:+ QueryEscape v) <$> kv.2.
Definition Values_Encode (q : url_Values) : string :=
  strings_Join (concat (pairs_of <$> sort_with (merge_sort_func fst) (map_to_list q))) "&".

(** ** URLs, files and the network *)

Record Userinfo := { username : string; password : option string }.

Record URL := {
  Scheme : string; Opaque : string; User : option Userinfo; Host : string; Path : string;
  RawQuery : string; Fragment : string;
}.

Record tls_Config := { InsecureSkipVerify : bool; RootCAs : option string }.

Record http_request := { req_URL : string; req_Accept : option string; req_BasicAuth : option (string * string) }.

Record http_response := { StatusCode : Z; Status : string; ContentType : string; Body : string }.

(** What the standard library and the network do. *)
Record net := {
  url_Parse : string → result URL;
  url_String : URL → string;
  os_ReadFile : string → result string;
  NewRequest : string → option error;
  Do : tls_Config → http_request → result http_response;
}.

(** ** The connection *)

Record promConnConfig := { cfg_URL : string; cfg_Userinfo : option Userinfo; cfg_TLSConfig : tls_Config }.

(** [HTTPClient] is known by the TLS configuration of its transport. *)
Record PromConn := {
  pc_Source : Source;
  pc_connConfig : option promConnConfig;
  pc_HTTPClient : option tls_Config;
}.

Definition NewPromConn (s : Source) : PromConn :=
  {| pc_Source := s; pc_connConfig := None; pc_HTTPClient := None |}.

Definition not_connected : error := ErrorString "prometheus source not connected: call Connect first".

Section conn.
Context (io : net).
Implicit Types (pc : PromConn).

Definition RedactURL (rawURL : string) : string :=
  match url_Parse io rawURL with
  | Err _ => rawURL
  | Ok u =>
      match User u with
      | Some {| username := name; password := Some _ |} =>
          url_String io {| Scheme := Scheme u; Opaque := Opaque u;
            User := Some {| username := name; password := Some "xxxxx" |}; Host := Host u; Path := Path u;
            RawQuery := RawQuery u; Fragment := Fragment u |}
      | _ => rawURL
      end
  end.

Definition PromConn_ParseConfig pc : PromConn * option error :=
  match pc_connConfig pc with
  | Some _ => (pc, None)
  | None =>
      match url_Parse io (ConnStr (pc_Source pc)) with
      | Err e => (pc, Some (WrapError "parsing prometheus source URL" e))
      | Ok u =>
          let q := ParseQuery (RawQuery u) in
          let tlsRootCert := Values_Get q "tlsrootcert" in
          let tlsSkipVerify := bool_decide (Values_Get q "tlsskipverify" = "true") in
          let q := Values_Del (Values_Del q "tlsrootcert") "tlsskipverify" in
          let bare := {| Scheme := Scheme u; Opaque := Opaque u; User := None; Host := Host u; Path := Path u;
                         RawQuery := Values_Encode q; Fragment := Fragment u |} in
          match (if bool_decide (tlsRootCert = "") then Ok None
                 else match os_ReadFile io tlsRootCert with Err e => Err e | Ok caCert => Ok (Some caCert) end) with
          | Err e => (pc, Some (WrapError "reading tlsrootcert" e))
          | Ok pool =>
              ({| pc_Source := pc_Source pc;
                  pc_connConfig := Some {| cfg_URL := url_String io bare; cfg_Userinfo := User u;
                    cfg_TLSConfig := {| InsecureSkipVerify := tlsSkipVerify; RootCAs := pool |} |};
                  pc_HTTPClient := pc_HTTPClient pc |}, None)
          end
      end
  end.

(** [req.SetBasicAuth] with the user of the connection string, if there is one. *)
Definition basic_auth (u : option Userinfo) : option (string * string) :=
  match u with Some u => Some (username u, default "" (password u)) | None => None end.

Definition Scrape pc : result http_response :=
  match pc_HTTPClient pc, pc_connConfig pc with
  | Some client, Some cfg =>
      match NewRequest io (cfg_URL cfg) with
      | Some e => Err e
      | None => Do io client {| req_URL := cfg_URL cfg; req_Accept := Some "text/plain";
                                req_BasicAuth := basic_auth (cfg_Userinfo cfg) |}
      end
  | _, _ => Err not_connected
  end.

Definition PromConn_Ping pc : option error :=
  match pc_HTTPClient pc, pc_connConfig pc with
  | Some client, Some cfg =>
      match NewRequest io (cfg_URL cfg) with
      | Some e => Some e
      | None =>
          match Do io client {| req_URL := cfg_URL cfg; req_Accept := None;
                                req_BasicAuth := basic_auth (cfg_Userinfo cfg) |} with
          | Err e => Some e
          | Ok resp => if 300 <=? StatusCode resp then Some (ErrorString "prometheus ping: unexpected status") else None
          end
      end
  | _, _ => Some not_connected
  end.

Definition PromConn_Connect pc : PromConn * option error :=
  match pc_HTTPClient pc with
  | Some _ => (pc, PromConn_Ping pc)
  | None =>
      match PromConn_ParseConfig pc with
      | (pc, Some e) => (pc, Some e)
      | (pc, None) =>
          let pc := {| pc_Source := pc_Source pc; pc_connConfig := pc_connConfig pc;
                       pc_HTTPClient := cfg_TLSConfig <$> pc_connConfig pc |} in
          (pc, PromConn_Ping pc)
      end
  end.
End conn.

(** The methods that a connection to an exporter has for the sake of the interface. *)
Definition PromConn_IsPostgresSource (pc : PromConn) : bool := false.
Definition PromConn_GetSource (pc : PromConn) : Source := pc_Source pc.
Definition PromConn_FetchRuntimeInfo (pc : PromConn) : PromConn * option error := (pc, None).
Definition PromConn_Close (pc : PromConn) : PromConn := pc.

Definition PromConn_GetMetricInterval (pc : PromConn) (name : string) : Z :=
  seconds (interval_of (SrcMetrics (pc_Source pc)) name).

Definition PromConn_SetMetricIntervals (pc : PromConn) (main : MetricIntervals) : PromConn := {|
  pc_Source := set_metrics (pc_Source pc) main None;
  pc_connConfig := pc_connConfig pc; pc_HTTPClient := pc_HTTPClient pc |}.

(** ** Query strings survive encoding *)

Definition query_char (a : ascii) : bool := unreserved a || bool_decide (a = "+"%char) || bool_decide (a = "%"%char).

(** All bytes have a property that can be computed. *)
Ltac all_bytes := intros [[] [] [] [] [] [] [] []]; vm_compute; try done; eauto.

Lemma hex_digits_char a :
  query_char (hex_digit (code a / 16)) && query_char (hex_digit (code a `mod` 16)) = true.
Proof. revert a. all_bytes. Qed.

Lemma hex_digits_decode a :
  unhex (hex_digit (code a / 16)) = Some (code a / 16) ∧
  unhex (hex_digit (code a `mod` 16)) = Some (code a `mod` 16) ∧
  byte (16 * (code a / 16) + code a `mod` 16) = a.
Proof. revert a. all_bytes. Qed.

Lemma unreserved_plain a : unreserved a = true → a ≠ "%"%char ∧ a ≠ "+"%char.
Proof. revert a. all_bytes. Qed.

Lemma QueryEscape_chars s : str_forall query_char (QueryEscape s) = true.
Proof.
  induction s as [|a s IH]; [done|]. cbn [QueryEscape]. destruct (unreserved a) eqn:Ea.
  - cbn [str_forall]. rewrite IH. unfold query_char. by rewrite Ea.
  - case_bool_decide; cbn [str_forall]; rewrite IH; [done|].
    pose proof (hex_digits_char a) as [H1 H2]%andb_prop. by rewrite H1, H2.
Qed.

Lemma QueryEscape_free a s : query_char a = false → free_of a (QueryEscape s).
Proof.
  intros Ha. eapply str_forall_impl; [|apply QueryEscape_chars]. intros b Hb. simpl.
  apply negb_true_iff, bool_decide_eq_false. congruence.
Qed.

Lemma QueryUnescape_Escape s : QueryUnescape (QueryEscape s) = Some s.
Proof.
  induction s as [|a s IH]; [done|]. cbn [QueryEscape]. destruct (unreserved a) eqn:Ea.
  - destruct (unreserved_plain a Ea). cbn [QueryUnescape]. by rewrite !bool_decide_false, IH by done.
  - case_bool_decide as Hs; cbn [QueryUnescape].
    + by rewrite IH, Hs.
    + destruct (hex_digits_decode a) as (-> & -> & Hb). rewrite bool_decide_true by done. simpl.
      by rewrite IH, Hb.
Qed.

Lemma add_pair_encoded m k v :
  add_pair m (QueryEscape k +:+ "=" +:+ QueryEscape v) = <[k := default [] (m !! k) ++ [v]]> m.
Proof.
  unfold add_pair. unfold contains. rewrite str_cut_free.
  2:{ rewrite !free_of_app. split_and!; [by apply QueryEscape_free|done|by apply QueryEscape_free]. }
  rewrite bool_decide_false by apply is_Some_None. rewrite bool_decide_false.
  2:{ intros H%(f_equal String.length). rewrite !string_length_app in H. simpl in H. lia. }
  pose proof (str_cut_at "=" (QueryEscape k) (QueryEscape v)) as Hcut.
  change (String "=" (QueryEscape v)) with ("=" +:+ QueryEscape v) in Hcut. rewrite Hcut by (by apply QueryEscape_free).
  by rewrite !QueryUnescape_Escape.
Qed.

Lemma add_values m k vs ws :
  m !! k = Some ws →
  foldl add_pair m (pairs_of (k, vs)) = <[k := ws ++ vs]> m.
Proof.
  revert m ws. induction vs as [|v vs IH]; intros m ws Hm; unfold pairs_of; simpl.
  - by rewrite app_nil_r, insert_id.
  - rewrite add_pair_encoded, Hm. simpl. rewrite (IH _ (ws ++ [v])) by (by rewrite lookup_insert_eq).
    by rewrite insert_insert_eq, <-app_assoc.
Qed.

Lemma add_groups (l : list (string * list string)) m :
  NoDup l.*1 → Forall (λ kv, kv.2 ≠ [] ∧ m !! kv.1 = None) l →
  foldl add_pair m (concat (pairs_of <$> l)) = list_to_map l ∪ m.
Proof.
  revert m. induction l as [|[k vs] l IH]; intros m Hnd Hl; simpl.
  - by rewrite (left_id_L ∅ _).
  - apply NoDup_cons in Hnd as [Hk Hnd]. apply Forall_cons in Hl as [[Hvs Hm] Hl]. simpl in *.
    destruct vs as [|v vs]; [done|]. unfold pairs_of at 1. simpl.
    rewrite foldl_app, add_pair_encoded, Hm. simpl.
    rewrite (add_values _ k vs [v]) by (by rewrite lookup_insert_eq). rewrite insert_insert_eq, IH; [|done|].
    + rewrite <-insert_union_l, insert_union_r; [done|]. by apply not_elem_of_list_to_map_1.
    + apply Forall_forall. intros [k' vs'] Hin. rewrite Forall_forall in Hl. destruct (Hl _ Hin) as [? ?].
      split; [done|]. simpl in *. rewrite lookup_insert_ne; [done|]. intros ->. apply Hk.
      by apply (list_elem_of_fmap_2' fst _ (k', vs')).
Qed.

(** Encoding a set of parameters, each with some value, and reading it back gives the same. *)
Lemma ParseQuery_Encode (q : url_Values) :
  map_Forall (λ _ vs, vs ≠ []) q → ParseQuery (Values_Encode q) = q.
Proof.
  intros Hq. unfold ParseQuery, Values_Encode. set (l := sort_with _ _).
  assert (l ≡ₚ map_to_list q) as Hl by apply sort_perm.
  assert (Forall (λ kv : string * list string, kv.2 ≠ []) l) as Hne.
  { rewrite Hl. apply map_Forall_to_list in Hq. eapply Forall_impl; [exact Hq|]. by intros []. }
  assert (NoDup l.*1) as Hnd by (rewrite Hl; apply NoDup_fst_map_to_list).
  destruct (decide (l = [])) as [Hnil|Hnn].
  { rewrite Hnil in *. symmetry in Hl. apply Permutation_nil_r, map_to_list_empty_iff in Hl. by subst. }
  rewrite (strings_Split_Join_free "&").
  - rewrite add_groups; [|done|].
    + rewrite (right_id_L ∅ _), <-(list_to_map_to_list q). by apply list_to_map_proper.
    + eapply Forall_impl; [exact Hne|]. intros kv ?. split; [done|apply lookup_empty].
  - destruct l as [|[k [|v vs]] l]; [done|by apply Forall_cons in Hne as [[] _]|done].
  - apply Forall_concat, Forall_fmap, Forall_forall. intros [k vs] _. apply Forall_fmap, Forall_forall.
    intros v _. simpl. rewrite !free_of_app. split_and!; [by apply QueryEscape_free|done|by apply QueryEscape_free].
Qed.

Lemma ParseQuery_values query : map_Forall (λ _ vs, vs ≠ []) (ParseQuery query).
Proof.
  unfold ParseQuery. generalize (strings_Split query "&"). intros parts.
  assert (map_Forall (λ _ vs, vs ≠ []) (∅ : url_Values)) as H0 by apply map_Forall_empty. revert H0.
  generalize (∅ : url_Values). induction parts as [|part parts IH]; intros m Hm; simpl; [done|].
  apply IH. unfold add_pair. do 2 (case_match; [done|]).
  destruct (match str_cut "=" part with Some kv => kv | None => (part, "") end) as [k v].
  destruct (QueryUnescape k), (QueryUnescape v); try done. apply map_Forall_insert_2; [|done].
  by destruct (default [] (m !! _)).
Qed.

(** ** What reaches the exporter *)

Definition tls_keys : gset string := {["tlsrootcert"; "tlsskipverify"]}.

(** The parameters of [u] without those for TLS, and no credentials. *)
Definition bare_of (u u' : URL) : Prop :=
  User u' = None ∧ Scheme u' = Scheme u ∧ Host u' = Host u ∧ Path u' = Path u ∧
  ∀ k, ParseQuery (RawQuery u') !! k = if decide (k ∈ tls_keys) then None else ParseQuery (RawQuery u) !! k.

Section requests.
Context (io : net).

Lemma ParseConfig_fresh pc pc' u :
  pc_connConfig pc = None → url_Parse io (ConnStr (pc_Source pc)) = Ok u →
  PromConn_ParseConfig io pc = (pc', None) →
  ∃ u' tls, pc_connConfig pc' = Some {| cfg_URL := url_String io u'; cfg_Userinfo := User u; cfg_TLSConfig := tls |} ∧
    bare_of u u' ∧ InsecureSkipVerify tls = bool_decide (Values_Get (ParseQuery (RawQuery u)) "tlsskipverify" = "true").
Proof.
  intros Hn Hu. unfold PromConn_ParseConfig. rewrite Hn, Hu. destruct (if bool_decide _ then _ else _) as [pool|e]; [|done].
  intros [= <-]. do 2 eexists. split; [reflexivity|]. split; [|done]. unfold bare_of. cbn [User Scheme Host Path RawQuery]. split_and!; [done..|].
  intros k. unfold Values_Del. rewrite ParseQuery_Encode by (do 2 apply map_Forall_delete; apply ParseQuery_values).
  unfold tls_keys. case_decide as Hk.
  - assert (k = "tlsrootcert" ∨ k = "tlsskipverify") as [->| ->] by set_solver.
    + rewrite lookup_delete_ne by done. by rewrite lookup_delete_eq.
    + by rewrite lookup_delete_eq.
  - rewrite !lookup_delete_ne by set_solver. done.
Qed.

(** Connecting keeps the source. *)
Lemma PromConn_Connect_source pc : pc_Source (PromConn_Connect io pc).1 = pc_Source pc.
Proof.
  unfold PromConn_Connect, PromConn_ParseConfig. repeat case_match; simplify_eq/=; done.
Qed.

(** C38.  After a first [Connect] that could parse the connection string (whether or not the exporter
    answered), [Scrape] sends the URL without the user and without the parameters for TLS, with every
    other parameter as it was, and with the credentials as basic authentication; connecting again
    changes nothing: the URL is parsed once. *)
Theorem scrape_request pc u :
  pc_HTTPClient pc = None → pc_connConfig pc = None → url_Parse io (ConnStr (pc_Source pc)) = Ok u →
  (∀ f, Values_Get (ParseQuery (RawQuery u)) "tlsrootcert" = f → f ≠ "" → ∃ c, os_ReadFile io f = Ok c) →
  let pc' := (PromConn_Connect io pc).1 in
  (PromConn_Connect io pc').1 = pc' ∧
  ∃ u' tls, bare_of u u' ∧
    InsecureSkipVerify tls = bool_decide (Values_Get (ParseQuery (RawQuery u)) "tlsskipverify" = "true") ∧
    (NewRequest io (url_String io u') = None →
     Scrape io pc' = Do io tls {| req_URL := url_String io u'; req_Accept := Some "text/plain";
                                  req_BasicAuth := (λ i, (username i, default "" (password i))) <$> User u |}).
Proof.
  intros Hc Hcfg Hu Hfile. simpl.
  destruct (PromConn_ParseConfig io pc) as [pc1 [e|]] eqn:Ep.
  { exfalso. unfold PromConn_ParseConfig in Ep. rewrite Hcfg, Hu in Ep. case_bool_decide as Hroot; [done|].
    by destruct (Hfile _ eq_refl Hroot) as [c Hf]; rewrite Hf in Ep. }
  destruct (ParseConfig_fresh pc pc1 u Hcfg Hu Ep) as (u' & tls & Hcfg1 & Hbare & Htls).
  assert (∃ pc2, (PromConn_Connect io pc).1 = pc2 ∧ pc_HTTPClient pc2 = Some tls ∧ pc_connConfig pc2 = pc_connConfig pc1)
    as (pc2 & -> & Hcl & Hcf).
  { unfold PromConn_Connect. rewrite Hc, Ep. eexists. split; [reflexivity|]. simpl. by rewrite Hcfg1. }
  split; [unfold PromConn_Connect; by rewrite Hcl|]. exists u', tls. split_and!; [done..|].
  intros Hreq. unfold Scrape. rewrite Hcl, Hcf, Hcfg1. simpl. rewrite Hreq. by destruct (User u).
Qed.
End requests.

(** *** Witness *)

Definition sample_url : URL := {|
  Scheme := "https"; Opaque := ""; User := Some {| username := "u"; password := Some "secret" |};
  Host := "exporter:9187"; Path := "/metrics"; RawQuery := "collect[]=a%2Bb&tlsskipverify=true&x=1+2";
  Fragment := "" |}.

Definition sample_net : net := {|
  url_Parse := λ _, Ok sample_url;
  url_String := λ u, Scheme u +:+ "://" +:+ Host u +:+ Path u +:+ "?" +:+ RawQuery u;
  os_ReadFile := λ _, Err (ErrorString "no such file"); NewRequest := λ _, None;
  Do := λ _ r, Ok {| StatusCode := 200; Status := "200 OK"; ContentType := "text/plain"; Body := req_URL r |} |}.

Definition exporter : PromConn := NewPromConn (with_kind (sample_source "node") SourcePrometheus).

Example sample_scrape :
  Body <$> match Scrape sample_net (PromConn_Connect sample_net exporter).1 with Ok r => Some r | Err _ => None end =
  Some "https://exporter:9187/metrics?collect%5B%5D=a%2Bb&x=1+2".
Proof. vm_compute. reflexivity. Qed.

Lemma scrape_request_witness :
  let pc' := (PromConn_Connect sample_net exporter).1 in
  (PromConn_Connect sample_net pc').1 = pc' ∧
  ∃ u' tls, bare_of sample_url u' ∧ InsecureSkipVerify tls = true ∧
    (NewRequest sample_net (url_String sample_net u') = None →
     Scrape sample_net pc' = Do sample_net tls {| req_URL := url_String sample_net u'; req_Accept := Some "text/plain";
                                                  req_BasicAuth := Some ("u", "secret") |}).
Proof.
  apply (scrape_request sample_net exporter sample_url); try reflexivity.
  intros f Hf Hne. exfalso. apply Hne. rewrite <-Hf. vm_compute. reflexivity.
Defined.
