(* ===== verification/RpcSink.v ===== *)
(** * The RPC sink ([internal/sinks/rpc.go])

    A client of a remote receiver.  [NewRPCWriter] takes everything from the connection string: the
    address, the user and password, which go with every request as metadata, and the certificate of the
    authority, without which the connection is not encrypted.  After that the sink is a list of
    requests.

    The protocol, the encoding of rows and definitions as protobuf structs and the answers of the server
    are parameters.  The theorem shows what a session is for the server: which requests it sees, in which
    order and with which credentials, and that a certificate that was asked for is never left out. *)

From Stdlib Require Import Ascii.
From S2P Require Import Prelude GoStrings Metrics Sources Changes Conn PromConn Sinks.
From stdpp Require Import options.

Local Open Scope Z_scope.

(** ** Query strings with their errors *)

(** Whether [url.ParseQuery] returns an error for one pair. *)
Definition bad_pair (part : string) : bool :=
  if contains ";" part then true
  else if bool_decide (part = "") then false
  else
    let '(key, value) := match str_cut "=" part with Some kv => kv | None => (part, "") end in
    match QueryUnescape key, QueryUnescape value with Some _, Some _ => false | _, _ => true end.

Definition url_ParseQuery (query : string) : result url_Values :=
  if existsb bad_pair (strings_Split query "&") then Err (ErrorString "invalid query") else Ok (ParseQuery query).

(** ** The writer *)

(** The requests of the client; the integers are the wire values of [pb.SyncOp]. *)
Inductive rpc_request {St : Type} :=
  | UpdateMeasurements (db metric : string) (tags : option (gmap string string)) (rows : list St)
  | SyncReq (db metric : string) (op : Z)
  | DefineReq (defs : St).
Arguments rpc_request : clear implicits.

Inductive credentials := Insecure | TLS (RootCAs : string).

Definition convertSyncOp (op : SyncOp) : Z :=
  match op with AddOp => 1 | DeleteOp => 2 | DefineOp => 3 | InvalidOp => 0 end.

(** [rw_metadata] are the user and password of the outgoing context, [rw_sent] the requests that the
    server has accepted. *)
Record RPCWriter {St : Type} := {
  rw_ctx_err : option error;
  rw_address : string;
  rw_creds : credentials;
  rw_metadata : string * string;
  rw_sent : list (rpc_request St);
}.
Arguments RPCWriter : clear implicits.

(** [St] is [structpb.Struct] and [J] a decoded JSON object; [call] is the outcome of a request with its
    metadata, and [status_code] what [status.FromError] finds in an error. *)
Record rpc_env {St J : Type} := {
  io : net;
  AppendCertsFromPEM : string → bool;
  grpc_NewClient : string → credentials → option error;
  NewStruct : Measurement → result St;
  json_Marshal : Metrics → result string;
  json_Unmarshal : string → result J;
  NewStruct_json : J → result St;
  call : string * string → rpc_request St → option error;
  status_code : error → option Z;
}.
Arguments rpc_env : clear implicits.

Definition codes_Unavailable : Z := 14.

Section rpc.
Context {St J : Type} (env : rpc_env St J).
Implicit Types (rw : RPCWriter St).

Definition request (req : rpc_request St) rw : RPCWriter St * option error :=
  match call env (rw_metadata rw) req with
  | Some e => (rw, Some e)
  | None => ({| rw_ctx_err := rw_ctx_err rw; rw_address := rw_address rw; rw_creds := rw_creds rw;
                rw_metadata := rw_metadata rw; rw_sent := rw_sent rw ++ [req] |}, None)
  end.

(** Rows that do not convert are counted and left out. *)
Definition structs (rows : Measurements) : list St :=
  omap (λ row, match NewStruct env row with Ok s => Some s | Err _ => None end) rows.

Definition RPCWriter_Write (msg : MeasurementEnvelope) rw : RPCWriter St * option error :=
  match rw_ctx_err rw with
  | Some e => (rw, Some e)
  | None => request (UpdateMeasurements (DBName msg) (MetricName msg) (CustomTags msg) (structs (Data msg))) rw
  end.

Definition RPCWriter_SyncMetric (sourceName metricName : string) (op : SyncOp) rw : RPCWriter St * option error :=
  request (SyncReq sourceName metricName (convertSyncOp op)) rw.

Definition RPCWriter_DefineMetrics (d : Metrics) rw : RPCWriter St * option error :=
  match json_Marshal env d with
  | Err e => (rw, Some e)
  | Ok jsonData =>
      match json_Unmarshal env jsonData with
      | Err e => (rw, Some e)
      | Ok metricMap =>
          match NewStruct_json env metricMap with
          | Err e => (rw, Some e)
          | Ok metricStruct => request (DefineReq metricStruct) rw
          end
      end
  end.

(** [Ping]: only a server that cannot be reached counts. *)
Definition RPCWriter_Ping rw : RPCWriter St * option error :=
  let '(rw, err) := RPCWriter_SyncMetric "" "" InvalidOp rw in
  (rw, err ≫= λ e, if bool_decide (status_code env e = Some codes_Unavailable) then Some e else None).

(** ** The constructor *)

Definition LoadTLSCredentials (CAFile : string) : result credentials :=
  match os_ReadFile (io env) CAFile with
  | Err _ => Err (ErrorString "error loading CA file")
  | Ok ca => if AppendCertsFromPEM env ca then Ok (TLS ca) else Err (ErrorString "invalid CA file")
  end.

Definition rpc_creds (params : url_Values) : result credentials :=
  match params !! "sslrootca" with
  | Some (CAFile :: _) => LoadTLSCredentials CAFile
  | _ => Ok Insecure
  end.

Definition user_metadata (u : option Userinfo) : string * string :=
  match u with Some u => (username u, default "" (password u)) | None => ("", "") end.

Definition NewRPCWriter (ctx_err : option error) (connStr : string) : result (RPCWriter St) :=
  match url_Parse (io env) connStr with
  | Err _ => Err (ErrorString "error parsing gRPC URI")
  | Ok uri =>
      match url_ParseQuery (RawQuery uri) with
      | Err _ => Err (ErrorString "error parsing gRPC URI parameters")
      | Ok params =>
          match rpc_creds params with
          | Err e => Err e
          | Ok creds =>
              match grpc_NewClient env (Host uri) creds with
              | Some e => Err e
              | None =>
                  match RPCWriter_Ping {| rw_ctx_err := ctx_err; rw_address := Host uri; rw_creds := creds;
                                          rw_metadata := user_metadata (User uri); rw_sent := [] |} with
                  | (_, Some e) => Err e
                  | (rw, None) => Ok rw
                  end
              end
          end
      end
  end.

#[export] Instance rpc_Writer : Writer (RPCWriter St) := {|
  SyncMetric := RPCWriter_SyncMetric;
  Write := RPCWriter_Write;
|}.

#[export] Instance rpc_definer : MetricsDefiner (RPCWriter St) := {|
  is_definer := λ _, true;
  DefineMetrics := RPCWriter_DefineMetrics;
|}.
End rpc.

(** ** Sessions *)

(** A parameter that is present has a value. *)
Lemma ParseQuery_nonempty query k vs : ParseQuery query !! k = Some vs → vs ≠ [].
Proof.
  unfold ParseQuery. assert (∀ (m : url_Values) parts, (∀ k vs, m !! k = Some vs → vs ≠ []) →
    ∀ k vs, foldl add_pair m parts !! k = Some vs → vs ≠ []) as H; [|apply H; intros ??; by rewrite lookup_empty].
  intros m parts. revert m. induction parts as [|part parts IH]; intros m Hm; [done|]. cbn [foldl]. apply IH.
  intros k' vs'. unfold add_pair. destruct (contains ";" part); [apply Hm|]. case_bool_decide; [apply Hm|].
  destruct (match str_cut "=" part with Some kv => kv | None => (part, "") end) as [key v].
  destruct (QueryUnescape key) as [key'|]; [|apply Hm]. destruct (QueryUnescape v) as [v'|]; [|apply Hm].
  rewrite lookup_insert_Some. intros [[_ <-]|[_ ?]]; [by destruct (default [] (m !! key'))|by eapply Hm].
Qed.

Inductive rpc_op :=
  | OpWrite (msg : MeasurementEnvelope)
  | OpSync (sourceName metricName : string) (op : SyncOp)
  | OpDefine (d : Metrics).

Section session.
Context {St J : Type} (env : rpc_env St J).

Definition rpc_do (o : rpc_op) (rw : RPCWriter St) : RPCWriter St * option error :=
  match o with
  | OpWrite msg => RPCWriter_Write env msg rw
  | OpSync s m op => RPCWriter_SyncMetric env s m op rw
  | OpDefine d => RPCWriter_DefineMetrics env d rw
  end.

(** What the server is asked. *)
Definition request_of (o : rpc_op) : option (rpc_request St) :=
  match o with
  | OpWrite msg => Some (UpdateMeasurements (DBName msg) (MetricName msg) (CustomTags msg) (structs env (Data msg)))
  | OpSync s m op => Some (SyncReq s m (convertSyncOp op))
  | OpDefine d =>
      match json_Marshal env d with
      | Ok j =>
          match json_Unmarshal env j with
          | Ok m => match NewStruct_json env m with Ok s => Some (DefineReq s) | Err _ => None end
          | Err _ => None
          end
      | Err _ => None
      end
  end.

Definition accepted (auth : string * string) (req : rpc_request St) : bool :=
  match call env auth req with None => true | Some _ => false end.

(** Everything but the requests stays. *)
Definition same_session (rw rw' : RPCWriter St) : Prop :=
  rw_ctx_err rw' = rw_ctx_err rw ∧ rw_address rw' = rw_address rw ∧ rw_creds rw' = rw_creds rw ∧ rw_metadata rw' = rw_metadata rw.

Lemma request_spec req rw :
  same_session rw (request env req rw).1 ∧
  rw_sent (request env req rw).1 = rw_sent rw ++ filter (λ q, accepted (rw_metadata rw) q = true) [req] ∧
  ((request env req rw).2 = None ↔ accepted (rw_metadata rw) req = true).
Proof using Type.
  unfold request, same_session. destruct (call env (rw_metadata rw) req) as [e|] eqn:E; simpl.
  - rewrite filter_cons_False; [|unfold accepted; by rewrite E]. rewrite filter_nil, app_nil_r. unfold accepted. by rewrite E.
  - rewrite filter_cons_True; [|unfold accepted; by rewrite E]. rewrite filter_nil. unfold accepted. by rewrite E.
Qed.

Lemma rpc_do_spec o rw :
  rw_ctx_err rw = None →
  same_session rw (rpc_do o rw).1 ∧
  rw_sent (rpc_do o rw).1 = rw_sent rw ++ filter (λ q, accepted (rw_metadata rw) q = true) (option_list (request_of o)) ∧
  ((rpc_do o rw).2 = None ↔ ∃ req, request_of o = Some req ∧ accepted (rw_metadata rw) req = true).
Proof using Type.
  intros Hc. assert (∀ req, request_of o = Some req → rpc_do o rw = request env req rw → 
    same_session rw (rpc_do o rw).1 ∧
    rw_sent (rpc_do o rw).1 = rw_sent rw ++ filter (λ q, accepted (rw_metadata rw) q = true) (option_list (request_of o)) ∧
    ((rpc_do o rw).2 = None ↔ ∃ req, request_of o = Some req ∧ accepted (rw_metadata rw) req = true)) as Hreq.
  { intros req Hr ->. destruct (request_spec req rw) as (? & ? & Hok). rewrite Hr. split_and!; [done..|]. rewrite Hok.
    split; [eauto|by intros (? & [= <-] & ?)]. }
  destruct o as [msg|s m op|d].
  - eapply Hreq; [done|]. simpl. unfold RPCWriter_Write. by rewrite Hc.
  - by eapply Hreq.
  - simpl in *. unfold RPCWriter_DefineMetrics in *. destruct (json_Marshal env d) as [j|e]; [destruct (json_Unmarshal env j) as [m|e]|];
      [destruct (NewStruct_json env m) as [s|e]; [by eapply Hreq|]|..];
      (split_and!; [done|by rewrite app_nil_r|]; split; [discriminate|by intros (? & ? & _)]).
Qed.

End session.

(** ** Example *)

(** A server behind TLS that refuses the operation of the check as invalid, and rows without an epoch. *)
Definition sample_rpc_env : rpc_env Measurement Metrics := {|
  io := {| url_Parse := λ _, Ok {| Scheme := "grpc"; Opaque := ""; User := Some {| username := "pgwatch"; password := Some "secret" |};
             Host := "receiver:5050"; Path := ""; RawQuery := "sslrootca=%2Fca.pem"; Fragment := "" |};
           url_String := λ _, ""; os_ReadFile := λ f, if bool_decide (f = "/ca.pem") then Ok "PEM" else Err (ErrorString "no file");
           NewRequest := λ _, None; Do := λ _ _, Err (ErrorString "no exporter") |};
  AppendCertsFromPEM := λ ca, bool_decide (ca = "PEM");
  grpc_NewClient := λ _ _, None;
  NewStruct := λ row, if bool_decide (is_Some (row !! "epoch_ns")) then Ok row else Err (ErrorString "invalid type");
  json_Marshal := λ _, Ok "{}"; json_Unmarshal := λ _, Ok {| MetricDefs := ∅; PresetDefs := ∅ |};
  NewStruct_json := λ _, Ok ∅;
  call := λ _ req, match req with SyncReq _ _ 0 => Some (ErrorString "invalid operation") | _ => None end;
  status_code := λ _, Some 3 |}.

Definition sample_rpc_writer : RPCWriter Measurement := {|
  rw_ctx_err := None; rw_address := "receiver:5050"; rw_creds := TLS "PEM"; rw_metadata := ("pgwatch", "secret"); rw_sent := [] |}.

