(* ===== verification/SinkClosing.v ===== *)
(** * The end of the sinks ([internal/sinks/json.go], [rpc.go])

    A JSON sink and an RPC sink each have a goroutine of their own, which waits for the end of the program
    and closes the file or the connection, while the goroutine that forwards measurements may be in the
    middle of a call.  Here the two run together, in steps smaller than a call.

    The theorem shows that calls of the JSON sink are nevertheless atomic: whatever the interleaving, the
    rows of the file and the results are those of the calls of [Sinks], one after the other, with the end of
    the program somewhere between them.  An example shows that the file can be open again after it was
    closed. *)

From S2P Require Import Prelude GoStrings Metrics Sources Conn PromConn Sinks RpcSink.
From stdpp Require Import options.

Local Open Scope nat_scope.

(** ** The JSON sink in steps *)

(** [encode] is the outcome of encoding a row and writing it, and [reaches_file] tells of a row for which
    that fails whether the file was opened for it. *)

(** The goroutine that writes is between two calls, or between the check of the context and the encoder. *)
Inductive json_position := BetweenCalls | InWrite (row : json_row).

Record json_process := JsonProcess {
  js_ctx : option error;               (* the end of the program *)
  js_watching : bool;                  (* the goroutine that closes the file *)
  js_open : bool;                      (* the file *)
  js_rows : list json_row;
  js_at : json_position;
  js_returned : list (option error);   (* the results of the calls *)
}.

(** The constructor does not open the file: the first row does. *)
Definition NewJSONWriter (ctx_err : option error) : result json_process := Ok (JsonProcess ctx_err true false [] BetweenCalls []).

Definition json_row_of (msg : MeasurementEnvelope) : json_row := {|
  j_metric := MetricName msg; j_data := Data msg; j_dbname := DBName msg; j_custom_tags := CustomTags msg |}.

Section steps.
Context (encode : json_row → option error) (reaches_file : json_row → bool).

(** [watchCtx] waits for the end, closes the file and ends. *)
Definition JSONWriter_watchCtx (js : json_process) : option json_process :=
  match js_ctx js with
  | None => None
  | Some _ =>
      if js_watching js then Some (JsonProcess (js_ctx js) false false (js_rows js) (js_at js) (js_returned js)) else None
  end.

(** The first half of [Write], up to the encoder. *)
Definition write_check (msg : MeasurementEnvelope) (js : json_process) : option json_process :=
  match js_at js with
  | InWrite _ => None
  | BetweenCalls =>
      Some match js_ctx js with
           | Some e => JsonProcess (js_ctx js) (js_watching js) (js_open js) (js_rows js) BetweenCalls (js_returned js ++ [Some e])
           | None =>
               if bool_decide (Data msg = [])
               then JsonProcess None (js_watching js) (js_open js) (js_rows js) BetweenCalls (js_returned js ++ [None])
               else JsonProcess None (js_watching js) (js_open js) (js_rows js) (InWrite (json_row_of msg)) (js_returned js)
           end
  end.

(** The second half: the library opens the file where it is not open. *)
Definition write_encode (js : json_process) : option json_process :=
  match js_at js with
  | BetweenCalls => None
  | InWrite row =>
      Some match encode row with
           | Some e => JsonProcess (js_ctx js) (js_watching js) (js_open js || reaches_file row) (js_rows js) BetweenCalls (js_returned js ++ [Some e])
           | None => JsonProcess (js_ctx js) (js_watching js) true (js_rows js ++ [row]) BetweenCalls (js_returned js ++ [None])
           end
  end.

(** [SyncMetric] looks at the context only. *)
Definition sync_call (js : json_process) : option json_process :=
  match js_at js with
  | InWrite _ => None
  | BetweenCalls =>
      Some (JsonProcess (js_ctx js) (js_watching js) (js_open js) (js_rows js) BetweenCalls (js_returned js ++ [js_ctx js]))
  end.

Inductive json_step : json_process → json_process → Prop :=
  | program_ends js e : js_ctx js = None →
      json_step js (JsonProcess (Some e) (js_watching js) (js_open js) (js_rows js) (js_at js) (js_returned js))
  | watcher_closes js js' : JSONWriter_watchCtx js = Some js' → json_step js js'
  | write_begins msg js js' : write_check msg js = Some js' → json_step js js'
  | sync_called js js' : sync_call js = Some js' → json_step js js'
  | write_ends js js' : write_encode js = Some js' → json_step js js'.

(** ** Calls one after the other *)

(** Whole calls of [Sinks], and the end of the program between two of them. *)
Inductive json_call :=
  | CallWrite (msg : MeasurementEnvelope)
  | CallSync (sourceName metricName : string) (op : SyncOp)
  | CallEnd (e : error).

Definition atomic_call (st : JSONWriter * list (option error)) (c : json_call) : JSONWriter * list (option error) :=
  match c with
  | CallWrite msg => let '(jw, res) := JSONWriter_Write encode msg st.1 in (jw, st.2 ++ [res])
  | CallSync s m op => let '(jw, res) := JSONWriter_SyncMetric s m op st.1 in (jw, st.2 ++ [res])
  | CallEnd e => ({| jw_ctx_err := Some e; jw_written := jw_written st.1 |}, st.2)
  end.
Definition atomic_calls (cs : list json_call) (ctx_err : option error) : JSONWriter * list (option error) :=
  foldl atomic_call ({| jw_ctx_err := ctx_err; jw_written := [] |}, []) cs.

(** The call that is under way counts as done. *)
Definition pending_rows (js : json_process) : list json_row :=
  match js_at js with InWrite row => if encode row is None then [row] else [] | BetweenCalls => [] end.
Definition pending_results (js : json_process) : list (option error) :=
  match js_at js with InWrite row => [encode row] | BetweenCalls => [] end.
Definition explained (ctx_err : option error) (js : json_process) : Prop :=
  ∃ cs, let '(jw, results) := atomic_calls cs ctx_err in
    jw_ctx_err jw = js_ctx js ∧ jw_written jw = js_rows js ++ pending_rows js ∧ results = js_returned js ++ pending_results js.

Lemma explained_step ctx_err js js' : explained ctx_err js → json_step js js' → explained ctx_err js'.
Proof using Type.
  intros [cs Hcs] Hstep. destruct (atomic_calls cs ctx_err) as [jw results] eqn:Ea. destruct Hcs as (Hc & Hw & Hr).
  assert (∀ c, atomic_calls (cs ++ [c]) ctx_err = atomic_call (jw, results) c) as Hsnoc.
  { intros c. unfold atomic_calls in *. by rewrite foldl_snoc, Ea. }
  destruct Hstep as [js e Hn|js js' Hs|msg js js' Hs|js js' Hs|js js' Hs].
  - exists (cs ++ [CallEnd e]). rewrite Hsnoc. simpl. by split_and!.
  - unfold JSONWriter_watchCtx in Hs. destruct (js_ctx js) eqn:E, (js_watching js); simplify_eq.
    exists cs. by rewrite Ea.
  - unfold write_check in Hs. destruct (js_at js) eqn:Eat; [|done]. injection Hs as <-.
    exists (cs ++ [CallWrite msg]). rewrite Hsnoc. unfold pending_rows, pending_results in *. rewrite Eat in Hw, Hr. simpl.
    unfold JSONWriter_Write. rewrite Hc. rewrite app_nil_r in Hw, Hr.
    destruct (js_ctx js) as [e|]; simpl; [split_and!; [done|by rewrite app_nil_r|by rewrite Hr, app_nil_r]|].
    case_bool_decide; simpl; [split_and!; [done|by rewrite app_nil_r|by rewrite Hr, app_nil_r]|].
    fold (json_row_of msg). destruct (encode (json_row_of msg)) as [e|]; simpl; by rewrite ?app_nil_r, ?Hw, ?Hr.
  - unfold sync_call in Hs. destruct (js_at js) eqn:Eat; [|done]. injection Hs as <-.
    exists (cs ++ [CallSync "" "" AddOp]). rewrite Hsnoc. unfold pending_rows, pending_results in *. rewrite Eat in Hw, Hr.
    simpl. rewrite ?app_nil_r in *. by rewrite Hr, Hc.
  - unfold write_encode in Hs. destruct (js_at js) as [|row] eqn:Eat; [done|]. injection Hs as <-. exists cs. rewrite Ea.
    unfold pending_rows, pending_results in *. rewrite Eat in Hw, Hr.
    destruct (encode row); simpl; rewrite ?app_nil_r in *; by split_and!.
Qed.

(** Calls of the JSON sink are atomic.  From its creation, in any interleaving of the goroutine that writes,
    the one that closes the file and the end of the program, the rows of the file and the results of the
    calls are those of whole calls one after the other, of which the last may be under way: its row, if it
    can be encoded, is the next one.  So no row is lost or written twice at the end of the program, and
    after the end nothing but such a row is written. *)
Theorem json_calls_atomic ctx_err js0 js :
  NewJSONWriter ctx_err = Ok js0 → rtc json_step js0 js → explained ctx_err js.
Proof using Type.
  intros [= <-] Hr. assert (explained ctx_err (JsonProcess ctx_err true false [] BetweenCalls [])) as H0 by (by exists []).
  revert H0. induction Hr as [|x y z Hxy _ IH]; [done|]. intros H0. by apply IH; eapply explained_step.
Qed.
End steps.

(** The end of the program falls between the check and the encoder: the file is closed, and opened again. *)
Example file_open_after_close :
  let msg := {| DBName := "db"; MetricName := "m"; SourceKind := ""; CustomTags := None; Data := [∅] |} in
  ∃ js, rtc (json_step (λ _, None) (λ _, true)) (JsonProcess None true false [] BetweenCalls []) js ∧
    js_ctx js = Some (Sentinel ErrCanceled) ∧ js_open js = true ∧ js_rows js = [json_row_of msg] ∧ js_returned js = [None].
Proof.
  intros msg. eexists. split.
  - eapply rtc_l; [by apply (write_begins _ _ msg)|]. eapply rtc_l; [by apply (program_ends _ _ _ (Sentinel ErrCanceled))|].
    eapply rtc_l; [by apply watcher_closes|]. eapply rtc_l; [by apply write_ends|]. apply rtc_refl.
  - by split_and!.
Qed.

(** ** The RPC sink *)

(** The connection of the writer; [watchCtx] closes it at the end of the program.  A request on a closed
    connection is an error of the library. *)
Record rpc_process (St : Type) := RpcProcess { rp_writer : RPCWriter St; rp_closed : bool }.
Arguments RpcProcess {St}.
Arguments rp_writer {St}.
Arguments rp_closed {St}.

Definition RPCWriter_watchCtx {St} (rp : rpc_process St) : option (rpc_process St) :=
  match rw_ctx_err (rp_writer rp) with None => None | Some _ => Some (RpcProcess (rp_writer rp) true) end.

Definition rpc_on_conn {St J} (env : rpc_env St J) (closing : error) (o : rpc_op) (rp : rpc_process St)
    : rpc_process St * option error :=
  let '(rw, err) :=
    if rp_closed rp then
      rpc_do {| io := io env; AppendCertsFromPEM := AppendCertsFromPEM env; grpc_NewClient := grpc_NewClient env;
                NewStruct := NewStruct env; json_Marshal := json_Marshal env; json_Unmarshal := json_Unmarshal env;
                NewStruct_json := NewStruct_json env; call := λ _ _, Some closing; status_code := status_code env |} o (rp_writer rp)
    else rpc_do env o (rp_writer rp) in
  (RpcProcess rw (rp_closed rp), err).

(** After the connection was closed no request reaches the receiver, and every call that makes one reports it. *)
Lemma rpc_closed_silent {St J} (env : rpc_env St J) closing o rp :
  rp_closed rp = true →
  rw_sent (rp_writer (rpc_on_conn env closing o rp).1) = rw_sent (rp_writer rp) ∧ (rpc_on_conn env closing o rp).2 ≠ None.
Proof.
  intros Hc. unfold rpc_on_conn. rewrite Hc. destruct o as [msg|s m op|d]; simpl.
  - unfold RPCWriter_Write. destruct (rw_ctx_err (rp_writer rp)) as [e|]; simpl; [done|]. unfold request. by simpl.
  - unfold RPCWriter_SyncMetric, request. by simpl.
  - unfold RPCWriter_DefineMetrics. cbn [json_Marshal json_Unmarshal NewStruct_json].
    destruct (json_Marshal env d) as [j|e]; [|done]. destruct (json_Unmarshal env j) as [m|e]; [|done].
    destruct (NewStruct_json env m) as [st|e]; [|done]. unfold request. by simpl.
Qed.
