(* ===== verification/WebServer.v ===== *)
(** * The front of the web server ([internal/webserver/webserver.go])

    [Init] registers the handlers of [Web] below a base path, and the files of the user interface.  Here
    are the way of a request from its path to a handler, through the patterns and the redirections of
    [http.ServeMux], and the handler of the files.

    The theorems show which handler a path reaches, for every base path without slashes at its ends; that
    no spelling of a path gets a request without a token to a protected handler; and that with a base path
    that starts with a slash, which the documentation gives as the example, nothing can be reached. *)

From Stdlib Require Import Ascii.
From S2P Require Import Prelude GoStrings Metrics Sources Changes Conn SourceStores MetricStore PromConn Web.
From stdpp Require Import options.

Local Open Scope Z_scope.

(** ** Paths *)

Local Notation slash := "/"%char.

(** [url.PathUnescape]; [None] is a malformed escape. *)
Fixpoint PathUnescape (s : string) : option string :=
  match s with
  | "" => Some ""
  | String a s =>
      if bool_decide (a = "%"%char) then
        match s with
        | String h (String l s) => h ← unhex h; l ← unhex l; s ← PathUnescape s; Some (String (byte (16 * h + l)) s)
        | _ => None
        end
      else String a <$> PathUnescape s
  end.

(** The segments of a path that starts with a slash. *)
Definition split_path (p : string) : list string :=
  match p with String _ p => strings_Split p "/" | "" => [] end.

(** [path.Clean] of a rooted path, on its segments. *)
Definition clean_step (acc : list string) (seg : string) : list string :=
  if bool_decide (seg = "" ∨ seg = ".") then acc
  else if bool_decide (seg = "..") then take (length acc - 1) acc
  else acc ++ [seg].

Definition ends_with_slash (p : string) : bool := bool_decide (last (strings_Split p "/") = Some "").

(** [cleanPath] of the multiplexer: a trailing slash is kept. *)
Definition cleanPath (p : string) : string :=
  if bool_decide (p = "") then "/"
  else
    let p := if has_prefix "/" p then p else String slash p in
    let np := String slash (strings_Join (foldl clean_step [] (split_path p)) "/") in
    if ends_with_slash p && negb (bool_decide (np = "/")) then np +:+ "/" else np.

(** ** Patterns *)

(** The segments of a pattern.  A literal segment that is empty shares its place in the tree with the
    wildcard, as in the implementation of the multiplexer. *)
Inductive pat_seg := Lit (s : string) | Wild.

Record pattern := { pt_segs : list pat_seg; pt_multi : bool (* ends in a slash: everything below *) }.

Definition pathUnescape (s : string) : string := default s (PathUnescape s).

Definition pattern_seg (s : string) : pat_seg :=
  if bool_decide (s = "{name}") then Wild
  else if bool_decide (s = "") then Wild
  else Lit (pathUnescape s).

Definition parsePattern (p : string) : pattern :=
  let segs := split_path p in
  if bool_decide (last segs = Some "")
  then {| pt_segs := pattern_seg <$> take (length segs - 1) segs; pt_multi := true |}
  else {| pt_segs := pattern_seg <$> segs; pt_multi := false |}.

(** The segments that the tree is searched with; a trailing slash is a segment of its own. *)
Fixpoint request_segs (segs : list string) : list string :=
  match segs with
  | [] => []
  | [""] => ["/"]
  | s :: segs' => pathUnescape s :: request_segs segs'
  end.

Section tree.
Context {H : Type}.

Definition strip (seg : pat_seg → bool) (ph : pattern * H) : option (pattern * H) :=
  match pt_segs ph.1 with
  | s :: ss => if seg s then Some ({| pt_segs := ss; pt_multi := pt_multi ph.1 |}, ph.2) else None
  | [] => None
  end.

Definition is_lit (s : string) (p : pat_seg) : bool := match p with Lit t => bool_decide (t = s) | Wild => false end.
Definition is_wild (p : pat_seg) : bool := match p with Wild => true | Lit _ => false end.

Definition ends (multi : bool) (ph : pattern * H) : bool :=
  match pt_segs ph.1 with [] => Bool.eqb (pt_multi ph.1) multi | _ => false end.

Definition find_first (f : pattern * H → bool) (ps : list (pattern * H)) : option H := snd <$> (list_find f ps ≫= λ p, Some p.2).

(** [matchPath]: literal segments first, then wildcards, then a pattern for everything below. *)
Fixpoint matchPath (ps : list (pattern * H)) (segs : list string) (matches : list string) : option (H * list string) :=
  match segs with
  | [] => (λ h, (h, matches)) <$> find_first (ends false) ps
  | seg :: rest =>
      match matchPath (omap (strip (is_lit seg)) ps) rest matches with
      | Some res => Some res
      | None =>
          match (if bool_decide (seg = "/") then None else matchPath (omap (strip is_wild) ps) rest (matches ++ [seg])) with
          | Some res => Some res
          | None => (λ h, (h, matches)) <$> find_first (ends true) ps
          end
      end
  end.
End tree.

(** ** [Init] *)

(** Handlers before the name in the path is known. *)
Inductive handler :=
  | HSources | HSourceItem | HTestConnect | HMetrics | HMetricItem | HPresets | HPresetItem | HLog | HLogin
  | HLiveness | HReadiness | HStatic.

(** The handler with [r.PathValue]; the name is the first match. *)
Definition route_of (h : handler) (matches : list string) : route :=
  let name := default "" (head matches) in
  match h with
  | HSources => RSources | HSourceItem => RSourceItem name | HTestConnect => RTestConnect
  | HMetrics => RMetrics | HMetricItem => RMetricItem name | HPresets => RPresets | HPresetItem => RPresetItem name
  | HLog => RLog | HLogin => RLogin | HLiveness => RLiveness | HReadiness => RReadiness | HStatic => RStatic
  end.

Definition basePath (WebBasePath : string) : string :=
  String slash WebBasePath +:+ (if bool_decide (WebBasePath = "") then "" else "/").

Definition api_patterns : list (string * handler) :=
  [("source", HSources); ("source/{name}", HSourceItem); ("test-connect", HTestConnect); ("metric", HMetrics);
   ("metric/{name}", HMetricItem); ("preset", HPresets); ("preset/{name}", HPresetItem); ("log", HLog);
   ("login", HLogin); ("liveness", HLiveness); ("readiness", HReadiness)].

(** The patterns with what is registered for them. *)
Definition patterns (WebBasePath : string) (ui : bool) : list (pattern * (pattern * handler)) :=
  let register '(p, h) := let p := parsePattern (basePath WebBasePath +:+ p) in (p, (p, h)) in
  (register <$> api_patterns) ++ if ui then [register ("", HStatic)] else [].

Inductive found_handler := Handler (rt : route) | RedirectTo (path : string) | NotFoundHandler.

(** [exactMatch]: only a pattern that ends in a slash can match more than itself. *)
Definition exactMatch (n : option (pattern * handler * list string)) (path : string) : bool :=
  match n with
  | None => false
  | Some (p, _, _) =>
      if pt_multi p then ends_with_slash path && bool_decide (S (length (pt_segs p)) = length (split_path path))
      else true
  end.

Definition lookup_path (WebBasePath : string) (ui : bool) (path : string) : option (pattern * handler * list string) :=
  matchPath (patterns WebBasePath ui) (request_segs (split_path path)) [].

(** [findHandler]: a pattern [/tree/] answers a request for [/tree] with a redirection, and so is a path
    redirected that is not clean. *)
Definition findHandler (WebBasePath : string) (ui : bool) (escapedPath : string) : found_handler :=
  let path := cleanPath escapedPath in
  let n := lookup_path WebBasePath ui path in
  if negb (exactMatch n path) && negb (ends_with_slash path) && exactMatch (lookup_path WebBasePath ui (path +:+ "/")) (path +:+ "/")
  then RedirectTo (cleanPath (pathUnescape escapedPath) +:+ "/")
  else if negb (bool_decide (path = escapedPath)) then RedirectTo path
  else
    match n with
    | Some (_, h, matches) => Handler (route_of h matches)
    | None => NotFoundHandler
    end.

(** ** Files *)

Record http_req := {
  hq_method : http_method;
  hq_escapedPath : string;
  hq_body : result string;
  hq_header_token : option (list string);
  hq_query_token : string;
}.

Record reply := { rp_status : Z; rp_headers : gmap string string; rp_body : string }.

(** What opening a file of the user interface gives. *)
Inductive fs_open := FsFile (content : string) | FsDir | FsNotExist | FsError.

Definition cacheControlRevalidate : string := "no-cache".
Definition cacheControlImmutable : string := "public, max-age=31536000, immutable".

Definition TrimPrefix (s p : string) : string := default s (cut_prefix p s).

(** [filepath.Ext]. *)
Definition filepath_Ext (path : string) : string :=
  match rev (strings_Split (default "" (last (strings_Split path "/"))) ".") with
  | ext :: _ :: _ => "." +:+ ext
  | _ => ""
  end.

Definition http_reply (status : Z) (text : string) : reply := {| rp_status := status; rp_headers := ∅; rp_body := text |}.

(** The server that [Init] starts. *)
Record web_front := { fr_base : string; fr_ui : bool; fr_index : string }.

Definition ui_routes : list string := ["/"; "/sources"; "/metrics"; "/presets"; "/logs"].

Section front.
Context {S M : Type} `{SourcesStore S} `{MetricsStore M} (env : web_env).
Context (uiFS : string → fs_open) (TypeByExtension : string → string).

Definition handleStatic (f : web_front) (q : http_req) : reply :=
  if negb (bool_decide (hq_method q = GET)) then http_reply StatusMethodNotAllowed "Method Not Allowed"
  else
    let prefix := if bool_decide (fr_base f = "") then "" else String slash (fr_base f) in
    let path := TrimPrefix (pathUnescape (hq_escapedPath q)) prefix in
    if bool_decide (path ∈ ui_routes) then
      {| rp_status := StatusOK; rp_body := fr_index f;
         rp_headers := {["Content-Type" := "text/html; charset=utf-8";
                         "Content-Length" := pretty (N.of_nat (String.length (fr_index f)));
                         "Cache-Control" := cacheControlRevalidate]} |}
    else
      let path := TrimPrefix path "/" in
      let headers (content : string) : gmap string string :=
        {["Content-Type" := TypeByExtension (filepath_Ext path);
          "Cache-Control" := if has_prefix "static/" path || has_prefix "assets/" path then cacheControlImmutable else cacheControlRevalidate]} ∪
        (if bool_decide (content = "") then ∅ else {["Content-Length" := pretty (N.of_nat (String.length content))]}) in
      match uiFS path with
      | FsNotExist => http_reply StatusNotFound "404 page not found"
      | FsError => http_reply StatusInternalServerError "Internal Server Error"
      | FsFile content => {| rp_status := StatusOK; rp_headers := headers content; rp_body := content |}
      | FsDir => {| rp_status := StatusOK; rp_headers := headers ""; rp_body := "" |}
      end.

(** ** The server *)

(** [prepareIndexHTML]: [tmpl] is the parsed template. *)
Definition prepareIndexHTML (tmpl : result (string → result string)) (WebBasePath : string) : result string :=
  match tmpl with Err e => Err e | Ok t => t WebBasePath end.

Definition Init (WebDisable WebBasePath : string) (tmpl : result (string → result string)) (listen : option error)
    : result (option web_front) :=
  if bool_decide (WebDisable = "all") then Ok None
  else
    let ui := negb (bool_decide (WebDisable = "ui")) in
    match (if ui then prepareIndexHTML tmpl WebBasePath else Ok "") with
    | Err e => Err e
    | Ok index =>
        match listen with
        | Some e => Err e
        | None => Ok (Some {| fr_base := WebBasePath; fr_ui := ui; fr_index := index |})
        end
    end.

Definition cors_headers : gmap string string :=
  {["Access-Control-Allow-Origin" := "http://localhost:4000";
    "Access-Control-Allow-Methods" := "POST, GET, OPTIONS, PUT, DELETE";
    "Access-Control-Allow-Headers" := "Accept, Content-Type, Content-Length, Accept-Encoding, X-CSRF-Token, Authorization, token"]}.

Definition with_cors (r : reply) : reply :=
  {| rp_status := rp_status r; rp_headers := rp_headers r ∪ cors_headers; rp_body := rp_body r |}.

Definition reply_of (r : response) : reply := {|
  rp_status := rs_status r; rp_body := rs_body r;
  rp_headers := if bool_decide (rs_allow r = "") then ∅ else {["Allow" := rs_allow r]} |}.

Definition request_of (rt : route) (q : http_req) : request := {|
  r_route := rt; r_method := hq_method q; r_body := hq_body q; r_header_token := hq_header_token q;
  r_query_token := hq_query_token q |}.

Definition StatusMovedPermanently : Z := 301.

(** A request through [corsMiddleware], the multiplexer and the handler. *)
Definition ServeHTTP (f : web_front) (now : Z) (s : WebUIServer S M) (q : http_req) : WebUIServer S M * reply :=
  if bool_decide (hq_method q = OPTIONS) then (s, with_cors (http_reply StatusOK ""))
  else
    match findHandler (fr_base f) (fr_ui f) (hq_escapedPath q) with
    | NotFoundHandler => (s, with_cors (http_reply StatusNotFound "404 page not found"))
    | RedirectTo path =>
        (s, with_cors {| rp_status := StatusMovedPermanently; rp_headers := {["Location" := path]}; rp_body := "" |})
    | Handler RStatic => (s, with_cors (handleStatic f q))
    | Handler rt => let '(s, r) := mux env now s (request_of rt q) in (s, with_cors (reply_of r))
    end.
End front.

(** ** Paths that are clean *)

(** A segment of a base path: no escapes, no wildcards. *)
Definition plain (b : string) : Prop :=
  b ≠ "" ∧ b ≠ "." ∧ b ≠ ".." ∧ free_of slash b ∧ free_of "%" b ∧ free_of "{" b.

#[export] Instance plain_dec b : Decision (plain b).
Proof. unfold plain. apply _. Defined.

(** A segment of a clean path, as it is escaped. *)
Definition clean (e : string) : Prop := e ≠ "" ∧ e ≠ "." ∧ e ≠ ".." ∧ free_of slash e.

#[export] Instance clean_dec e : Decision (clean e).
Proof. unfold clean. apply _. Defined.

(** The segments of a clean path; the last one is empty if the path ends in a slash. *)
Definition clean_segs (es : list string) : Prop :=
  ∃ init e, es = init ++ [e] ∧ Forall clean init ∧ (clean e ∨ e = "").

Definition path_of (segs : list string) : string := String slash (strings_Join segs "/").

Lemma plain_clean b : plain b → clean b.
Proof. intros (?&?&?&?&_). done. Qed.

Lemma clean_segs_app bs es : Forall plain bs → clean_segs es → clean_segs (bs ++ es).
Proof.
  intros Hb (init & e & -> & Hi & He). exists (bs ++ init), e. rewrite app_assoc. split_and!; [done| |done].
  apply Forall_app. split; [|done]. eapply Forall_impl; [exact Hb|]. intros ?; apply plain_clean.
Qed.

Lemma clean_segs_free es : clean_segs es → es ≠ [] ∧ Forall (free_of slash) es.
Proof.
  intros (init & e & -> & Hi & He). split; [by destruct init|]. apply Forall_app. split.
  - eapply Forall_impl; [exact Hi|]. by intros ? (_ & _ & _ & ?).
  - apply Forall_singleton. by destruct He as [(_ & _ & _ & ?)| ->].
Qed.

Lemma split_path_of es : clean_segs es → split_path (path_of es) = es.
Proof. intros [Hne Hf]%clean_segs_free. by apply strings_Split_Join_free. Qed.

Lemma join_cons x xs : xs ≠ [] → strings_Join (x :: xs) "/" = x +:+ String slash (strings_Join xs "/").
Proof. by destruct xs. Qed.

Lemma ends_with_slash_of es : clean_segs es → ends_with_slash (path_of es) = bool_decide (last es = Some "").
Proof.
  intros H. pose proof (clean_segs_free es H) as [Hne Hf]. unfold ends_with_slash, path_of.
  assert (strings_Split (String slash (strings_Join es "/")) "/" = "" :: es) as ->.
  { pose proof (join_cons "" es Hne) as Hj. rewrite string_app_nil_l in Hj. rewrite <-Hj.
    apply (strings_Split_Join_free slash); [done|]. by constructor. }
  f_equal. by destruct es.
Qed.

Lemma clean_steps init acc : Forall clean init → foldl clean_step acc init = acc ++ init.
Proof.
  intros H. revert acc. induction H as [|x init (H1 & H2 & H3 & _) _ IH]; intros acc; cbn [foldl]; [by rewrite app_nil_r|].
  rewrite IH. unfold clean_step. rewrite bool_decide_false by naive_solver. rewrite bool_decide_false by done.
  by rewrite <-app_assoc.
Qed.

Lemma join_slash init : init ≠ [] → strings_Join (init ++ [""]) "/" = strings_Join init "/" +:+ "/".
Proof.
  induction init as [|x init IH]; [done|]. intros _. destruct init as [|y init]; [done|].
  change ((x :: y :: init) ++ [""]) with (x :: ((y :: init) ++ [""])). rewrite join_cons by done. rewrite IH by done.
  rewrite (join_cons x (y :: init)) by done. by rewrite string_app_assoc, string_app_cons.
Qed.

Lemma clean_one s : clean s → clean_segs [s].
Proof. intros ?. exists [], s. split_and!; [done|constructor|by left]. Qed.
Lemma clean_two s t : clean s → clean t → clean_segs [s; t].
Proof. intros ??. exists [s], t. split_and!; [done|by constructor|by left]. Qed.
Lemma clean_root : clean_segs [""].
Proof. exists [], "". split_and!; [done|constructor|by right]. Qed.

Lemma path_of_cons x init : Forall clean (x :: init) → path_of (x :: init) ≠ "/".
Proof.
  intros [(Hx & _) _]%Forall_cons. unfold path_of. intros [= Hj]. destruct x as [|a x]; [done|].
  destruct init; [done|]. rewrite join_cons, string_app_cons in Hj by done. discriminate.
Qed.

Lemma cleanPath_of es : clean_segs es → cleanPath (path_of es) = path_of es.
Proof.
  intros H. unfold cleanPath. rewrite bool_decide_false by done.
  replace (has_prefix "/" (path_of es)) with true by (symmetry; unfold has_prefix; apply bool_decide_eq_true; by eexists).
  cbv zeta iota. rewrite (split_path_of es), (ends_with_slash_of es) by exact H. destruct H as (init & e & -> & Hi & He).
  rewrite last_snoc, foldl_app, (clean_steps init []) by done. cbn [foldl app]. unfold clean_step. destruct He as [(H1 & H2 & H3 & _)| ->].
  - rewrite (bool_decide_false (e = "" ∨ e = ".")) by naive_solver. rewrite (bool_decide_false (e = "..")) by done.
    rewrite (bool_decide_false (Some e = Some "")) by congruence. done.
  - rewrite (bool_decide_true ("" = "" ∨ "" = ".")) by auto. rewrite (bool_decide_true (Some "" = Some "")) by done. cbn [andb].
    destruct init as [|x init]; [done|]. rewrite bool_decide_false; [|by apply path_of_cons].
    cbn [negb]. unfold path_of. rewrite (join_slash (x :: init)) by done. by rewrite string_app_cons.
Qed.

(** ** Patterns below a base path *)

(** The registered patterns by their segments, below the base path. *)
Definition core_patterns (ui : bool) : list (list string * handler) :=
  [(["source"], HSources); (["source"; "{name}"], HSourceItem); (["test-connect"], HTestConnect); (["metric"], HMetrics);
   (["metric"; "{name}"], HMetricItem); (["preset"], HPresets); (["preset"; "{name}"], HPresetItem); (["log"], HLog);
   (["login"], HLogin); (["liveness"], HLiveness); (["readiness"], HReadiness)] ++ if ui then [([""], HStatic)] else [].

Definition below (bs : list string) (p : pattern) : pattern :=
  {| pt_segs := (Lit <$> bs) ++ pt_segs p; pt_multi := pt_multi p |}.

Definition core (bs : list string) (ui : bool) : list (pattern * (pattern * handler)) :=
  (λ '(segs, h), let p := parsePattern (path_of segs) in (p, (below bs p, h))) <$> core_patterns ui.

Lemma unescape_free s : free_of "%" s → PathUnescape s = Some s.
Proof.
  induction s as [|a s IH]; [done|]. intros [Ha Hs]%free_of_cons. simpl. rewrite bool_decide_false by done. by rewrite (IH Hs).
Qed.

Lemma pathUnescape_plain b : plain b → pathUnescape b = b.
Proof. intros (_ & _ & _ & _ & Hf & _). unfold pathUnescape. by rewrite unescape_free. Qed.

Lemma pattern_seg_plain b : plain b → pattern_seg b = Lit b.
Proof.
  intros H. pose proof H as (? & _ & _ & _ & _ & Hb). unfold pattern_seg. rewrite (bool_decide_false (b = "{name}")).
  - rewrite bool_decide_false by done. by rewrite pathUnescape_plain.
  - intros ->. discriminate Hb.
Qed.

Lemma take_snoc {A} (xs : list A) x : take (length (xs ++ [x]) - 1) (xs ++ [x]) = xs.
Proof. rewrite length_app. simpl. by rewrite Nat.add_sub, take_app_length. Qed.

Lemma parse_below bs ps :
  Forall plain bs → clean_segs ps → parsePattern (path_of (bs ++ ps)) = below bs (parsePattern (path_of ps)).
Proof.
  intros Hb Hp. unfold parsePattern. rewrite !split_path_of by (try apply clean_segs_app; done).
  destruct Hp as (init & e & -> & _). rewrite !app_assoc, !last_snoc, !take_snoc.
  assert (pattern_seg <$> bs = Lit <$> bs) as Hlit.
  { rewrite Forall_lookup in Hb. apply list_fmap_ext. intros i b Hi. by eapply pattern_seg_plain, Hb. }
  unfold below. case_bool_decide; simpl; f_equal; by rewrite !fmap_app, Hlit, ?app_assoc.
Qed.

Lemma base_join bs ps :
  Forall plain bs → ps ≠ [] → basePath (strings_Join bs "/") +:+ strings_Join ps "/" = path_of (bs ++ ps).
Proof.
  intros Hb Hp. unfold basePath, path_of. destruct Hb as [|b bs Hb0 Hb]; [done|].
  rewrite bool_decide_false.
  - rewrite !string_app_cons. f_equal. clear Hb Hb0. revert b. induction bs as [|b' bs IH]; intros b.
    + cbn [app]. rewrite (join_cons b ps) by done. rewrite string_app_assoc. done.
    + change ((b :: b' :: bs) ++ ps) with (b :: ((b' :: bs) ++ ps)). rewrite (join_cons b (b' :: bs)), (join_cons b ((b' :: bs) ++ ps)) by done.
      rewrite <-IH, !string_app_assoc, !string_app_cons. done.
  - intros Hj. destruct (path_of_cons b bs); [|by unfold path_of; rewrite Hj].
    constructor; [by apply plain_clean|]. eapply Forall_impl; [exact Hb|]. intros ?; apply plain_clean.
Qed.

Lemma patterns_core bs ui :
  Forall plain bs → patterns (strings_Join bs "/") ui = (λ ph, (below bs ph.1, ph.2)) <$> core bs ui.
Proof.
  intros Hb. assert (∀ p segs h, p = strings_Join segs "/" → clean_segs segs →
    (let p := parsePattern (basePath (strings_Join bs "/") +:+ p) in (p, (p, h))) =
    (below bs (parsePattern (path_of segs)), (below bs (parsePattern (path_of segs)), h : handler))) as Hone.
  { intros p segs h -> Hs. rewrite base_join, parse_below; try done. by apply clean_segs_free in Hs as []. }
  unfold patterns, core, core_patterns, api_patterns. rewrite fmap_app, fmap_app. f_equal.
  - rewrite <-list_fmap_compose. cbn [fmap list_fmap compose fst snd].
    repeat first [apply (f_equal2 cons); [eapply Hone; [reflexivity|by first [apply clean_one|apply clean_two]]|]]. done.
  - destruct ui; [|done]. cbn [fmap list_fmap fst snd]. f_equal. apply (Hone "" [""]); [done|]. apply clean_root.
Qed.

(** ** Matching *)

Lemma matchPath_nil {H} segs ms : matchPath ([] : list (pattern * H)) segs ms = None.
Proof. revert ms. induction segs as [|seg segs IH]; intros ms; cbn [matchPath]; [done|]. csimpl. rewrite !IH. by case_bool_decide. Qed.

(** Patterns that all start with the same literal. *)
Lemma matchPath_lit {H} b (ps : list (pattern * H)) seg segs ms :
  matchPath ((λ ph, ({| pt_segs := Lit b :: pt_segs ph.1; pt_multi := pt_multi ph.1 |}, ph.2)) <$> ps) (seg :: segs) ms =
  if bool_decide (b = seg) then matchPath ps segs ms else None.
Proof.
  set (qs := _ <$> ps). assert (omap (strip (is_lit seg)) qs = if bool_decide (b = seg) then ps else []) as Hlit.
  { unfold qs. clear qs. induction ps as [|[[ss m] h] ps IH]; [by case_bool_decide|]. csimpl.
    unfold strip at 1. cbn [fst snd pt_segs pt_multi is_lit]. destruct (bool_decide (b = seg)); [f_equal|]; exact IH. }
  assert (omap (strip is_wild) qs = []) as Hwild by (unfold qs; clear; induction ps as [|[[ss m] h] ps IH]; [done|]; csimpl; exact IH).
  assert (find_first (ends true) qs = None) as Hend.
  { unfold find_first, qs. clear. assert (list_find (ends true) ((λ ph : pattern * H,
      ({| pt_segs := Lit b :: pt_segs ph.1; pt_multi := pt_multi ph.1 |}, ph.2)) <$> ps) = None) as ->; [|done].
    apply list_find_None, Forall_fmap, Forall_true. intros [[ss m] h]. simpl. by intros []. }
  cbn [matchPath]. rewrite Hlit, Hwild, Hend, matchPath_nil. case_bool_decide; [|rewrite matchPath_nil; by case_bool_decide].
  destruct (matchPath ps segs ms); [done|]. by case_bool_decide.
Qed.

Lemma matchPath_below {H} bs (ps : list (pattern * H)) segs ms :
  matchPath ((λ ph, (below bs ph.1, ph.2)) <$> ps) (bs ++ segs) ms = matchPath ps segs ms.
Proof.
  induction bs as [|b bs IH]; cbn [app].
  - f_equal. induction ps as [|[[ss m] h] ps IHp]; [done|]. csimpl. f_equal. exact IHp.
  - rewrite <-IH. transitivity (if bool_decide (b = b) then matchPath ((λ ph, (below bs ph.1, ph.2)) <$> ps) (bs ++ segs) ms else None);
      [|by rewrite bool_decide_true].
    rewrite <-matchPath_lit. f_equal. rewrite <-list_fmap_compose. apply list_fmap_ext. by intros i [[ss m] h] _.
Qed.

(** The routes by their segments below the base path. *)
Definition api_route (segs : list string) : option route :=
  match segs with
  | [s] =>
      if bool_decide (s = "source") then Some RSources else if bool_decide (s = "test-connect") then Some RTestConnect
      else if bool_decide (s = "metric") then Some RMetrics else if bool_decide (s = "preset") then Some RPresets
      else if bool_decide (s = "log") then Some RLog else if bool_decide (s = "login") then Some RLogin
      else if bool_decide (s = "liveness") then Some RLiveness else if bool_decide (s = "readiness") then Some RReadiness
      else None
  | [s; name] =>
      if bool_decide (name = "/") then None
      else if bool_decide (s = "source") then Some (RSourceItem name) else if bool_decide (s = "metric") then Some (RMetricItem name)
      else if bool_decide (s = "preset") then Some (RPresetItem name) else None
  | _ => None
  end.

Definition static_pattern (bs : list string) : pattern := {| pt_segs := Lit <$> bs; pt_multi := true |}.

(** The patterns as they are. *)
Lemma core_eq bs ui :
  core bs ui =
  ((λ '(segs, h), let p := {| pt_segs := segs; pt_multi := false |} in (p, (below bs p, h))) <$>
    [([Lit "source"], HSources); ([Lit "source"; Wild], HSourceItem); ([Lit "test-connect"], HTestConnect); ([Lit "metric"], HMetrics);
     ([Lit "metric"; Wild], HMetricItem); ([Lit "preset"], HPresets); ([Lit "preset"; Wild], HPresetItem); ([Lit "log"], HLog);
     ([Lit "login"], HLogin); ([Lit "liveness"], HLiveness); ([Lit "readiness"], HReadiness)]) ++
  if ui then [({| pt_segs := []; pt_multi := true |}, (static_pattern bs, HStatic))] else [].
Proof.
  unfold static_pattern. rewrite <-(app_nil_r (Lit <$> bs)). by destruct ui.
Qed.

(** What is left of the patterns after the first segment. *)
Definition rests (bs : list string) (seg : string) : list (pattern * (pattern * handler)) :=
  let at_end h := let p := {| pt_segs := [Lit seg]; pt_multi := false |} in ({| pt_segs := []; pt_multi := false |}, (below bs p, h)) in
  let item h := let p := {| pt_segs := [Lit seg; Wild]; pt_multi := false |} in ({| pt_segs := [Wild]; pt_multi := false |}, (below bs p, h)) in
  if bool_decide (seg = "source") then [at_end HSources; item HSourceItem]
  else if bool_decide (seg = "test-connect") then [at_end HTestConnect]
  else if bool_decide (seg = "metric") then [at_end HMetrics; item HMetricItem]
  else if bool_decide (seg = "preset") then [at_end HPresets; item HPresetItem]
  else if bool_decide (seg = "log") then [at_end HLog]
  else if bool_decide (seg = "login") then [at_end HLogin]
  else if bool_decide (seg = "liveness") then [at_end HLiveness]
  else if bool_decide (seg = "readiness") then [at_end HReadiness]
  else [].

Lemma core_strip bs ui seg :
  omap (strip (is_lit seg)) (core bs ui) = rests bs seg ∧ omap (strip is_wild) (core bs ui) = [] ∧
  find_first (ends true) (core bs ui) = if ui then Some (static_pattern bs, HStatic) else None.
Proof.
  rewrite core_eq. split_and!; [|by destruct ui..]. unfold rests.
  rewrite omap_app. assert (omap (strip (is_lit seg)) (if ui then [({| pt_segs := []; pt_multi := true |}, (static_pattern bs, HStatic))] else [])
    = []) as -> by (by destruct ui). rewrite app_nil_r.
  repeat (case_bool_decide; [subst seg; reflexivity|]). cbn [fmap list_fmap omap list_omap strip is_lit fst snd pt_segs].
  rewrite !bool_decide_false by congruence. done.
Qed.

Lemma core_match bs ui seg rest :
  (∃ p h ms, matchPath (core bs ui) (seg :: rest) [] = Some (p, h, ms) ∧ pt_multi p = false ∧
     api_route (seg :: rest) = Some (route_of h ms)) ∨
  api_route (seg :: rest) = None ∧
  matchPath (core bs ui) (seg :: rest) [] = if ui then Some (static_pattern bs, HStatic, []) else None.
Proof.
  destruct (core_strip bs ui seg) as (Hlit & Hwild & Hend). cbn [matchPath]. rewrite Hlit, Hwild, Hend, matchPath_nil.
  replace (if bool_decide (seg = "/") then None else None) with (@None (pattern * handler * list string)) by (by case_bool_decide).
  assert ((λ h : pattern * handler, (h, [] : list string)) <$> (if ui then Some (static_pattern bs, HStatic) else None) =
    if ui then Some (static_pattern bs, HStatic, []) else None) as -> by (by destruct ui). unfold rests.
  destruct rest as [|n [|m rest]].
  - cbn [matchPath api_route]. repeat (case_bool_decide; [left; do 3 eexists; (split; [reflexivity|]); by split|]). by right.
  - cbn [matchPath api_route]. destruct (decide (n = "/")) as [->|Hn].
    { right. rewrite (bool_decide_true ("/" = "/")) by done. split; [done|]. repeat (case_bool_decide; [reflexivity|]). reflexivity. }
    rewrite !(bool_decide_false (n = "/")) by done.
    repeat (case_bool_decide; [first [left; do 3 eexists; (split; [reflexivity|]); by split|right; subst; split; reflexivity]|]).
    right. by split.
  - right. split; [done|]. repeat (case_bool_decide; [subst; cbn; rewrite ?matchPath_nil; by repeat case_bool_decide|]).
    by rewrite matchPath_nil.
Qed.

(** ** From a path to a route *)

Lemma request_segs_app bs es : Forall plain bs → es ≠ [] → request_segs (bs ++ es) = bs ++ request_segs es.
Proof.
  intros Hb He. induction Hb as [|b bs Hp Hb IH]; [done|]. cbn [app]. rewrite <-IH.
  transitivity (pathUnescape b :: request_segs (bs ++ es)); [|by rewrite pathUnescape_plain].
  destruct (bs ++ es) as [|x xs] eqn:E; [by apply app_eq_nil in E as []|]. by destruct b; [destruct Hp|].
Qed.

Lemma lookup_below bs ui es :
  Forall plain bs → clean_segs es → lookup_path (strings_Join bs "/") ui (path_of (bs ++ es)) = matchPath (core bs ui) (request_segs es) [].
Proof.
  intros Hb He. unfold lookup_path. rewrite split_path_of by (by apply clean_segs_app).
  rewrite request_segs_app, patterns_core by (try done; by apply clean_segs_free in He as []). apply matchPath_below.
Qed.

(** The path with a slash behind it. *)
Lemma clean_snoc es : clean_segs es → last es ≠ Some "" → clean_segs (es ++ [""]) ∧ path_of es +:+ "/" = path_of (es ++ [""]).
Proof.
  intros (init & e & -> & Hi & He) Hl. rewrite last_snoc in Hl. destruct He as [He| ->]; [|done]. split.
  - exists (init ++ [e]), "". split_and!; [done|apply Forall_app; split; [done|by apply Forall_singleton]|by right].
  - unfold path_of. rewrite (join_slash (init ++ [e])) by (by destruct init). by rewrite string_app_cons.
Qed.

Lemma request_segs_cons es : es ≠ [] → ∃ seg rest, request_segs es = seg :: rest.
Proof. destruct es as [|[|] []]; simpl; naive_solver. Qed.

Lemma request_segs_snoc es : request_segs (es ++ [""]) = (pathUnescape <$> es) ++ ["/"].
Proof. induction es as [|e es IH]; [done|]. csimpl. rewrite <-IH. by destruct e, es. Qed.

(** A path of a route does not end in a slash. *)
Lemma api_route_slash segs : api_route (segs ++ ["/"]) = None.
Proof. by destruct segs as [|s [|s' [|s'' segs]]]. Qed.

(** An inexact match is not redirected: with the slash the path still goes beyond the base path. *)
Lemma no_redirect bs ui es :
  Forall plain bs → clean_segs es → last es ≠ Some "" →
  exactMatch (lookup_path (strings_Join bs "/") ui (path_of (bs ++ es) +:+ "/")) (path_of (bs ++ es) +:+ "/") = false.
Proof.
  intros Hb He Hl. destruct (clean_snoc (bs ++ es)) as [Hc Hp]; [by apply clean_segs_app|destruct He as (i & e & -> & _); by rewrite app_assoc, last_snoc in *|].
  rewrite Hp. rewrite <-app_assoc in *. destruct (clean_snoc es He Hl) as [He' _]. rewrite !lookup_below by done.
  destruct (clean_segs_free es He) as [Hne _].
  destruct (request_segs_cons (es ++ [""])) as (seg & rest & Hr); [by destruct es|]. rewrite Hr.
  destruct (core_match bs ui seg rest) as [(p & h & ms & _ & _ & Hroute)|[_ ->]].
  - exfalso. rewrite <-Hr, request_segs_snoc, api_route_slash in Hroute. discriminate.
  - destruct ui; [|done]. unfold exactMatch. cbn [pt_multi static_pattern]. rewrite split_path_of by done.
    cbn [pt_segs static_pattern]. rewrite (bool_decide_false (S _ = _)); [apply andb_false_r|].
    rewrite length_fmap, !length_app. destruct es; [done|]. simpl. lia.
Qed.

Lemma find_below bs es ui :
  Forall plain bs → clean_segs es →
  findHandler (strings_Join bs "/") ui (path_of (bs ++ es)) =
    match api_route (request_segs es) with
    | Some rt => Handler rt
    | None => if ui then Handler RStatic else NotFoundHandler
    end.
Proof.
  intros Hb He. unfold findHandler. pose proof (clean_segs_app bs es Hb He) as Hbe. rewrite cleanPath_of by done.
  rewrite (bool_decide_true (path_of (bs ++ es) = path_of (bs ++ es))) by done. cbn [negb]. rewrite ends_with_slash_of by done.
  assert (last (bs ++ es) = last es) as ->.
  { destruct He as (init & e & -> & _). by rewrite app_assoc, !last_snoc. }
  match goal with |- context [if ?c then RedirectTo _ else _] => assert (c = false) as -> end.
  { destruct (decide (last es = Some "")) as [Hl|Hl]; [|by rewrite no_redirect, andb_false_r].
    rewrite (bool_decide_true (last es = Some "")) by done. by rewrite andb_false_r. }
  rewrite lookup_below by done. destruct (clean_segs_free es He) as [Hne _].
  destruct (request_segs_cons es Hne) as (seg & rest & Hr). rewrite Hr.
  destruct (core_match bs ui seg rest) as [(p & h & ms & -> & _ & ->)|[-> ->]]; [done|]. by destruct ui.
Qed.

(** ** A base path that starts with a slash *)

Ltac registered H segs :=
  apply Forall_cons; split; [apply H; exists segs; (split; [reflexivity|first [by apply clean_one|by apply clean_two]])|].

Lemma patterns_slash q ui :
  plain q →
  Forall (λ ph, ∃ ss, pt_segs ph.1 = Wild :: Lit q :: ss) (patterns (String slash q) ui).
Proof.
  intros Hq. assert (∀ segs, clean_segs segs → ∃ ss m,
    parsePattern (basePath (String slash q) +:+ strings_Join segs "/") = {| pt_segs := Wild :: Lit q :: ss; pt_multi := m |}) as Hone.
  { intros segs Hs. unfold basePath. rewrite bool_decide_false by done. rewrite !string_app_cons.
    pose proof (clean_segs_free segs Hs) as [Hne Hf].
    assert (split_path (String slash (String slash ((q +:+ "/") +:+ strings_Join segs "/"))) = "" :: q :: segs) as Hsplit.
    { unfold split_path. rewrite string_app_assoc, string_app_cons, string_app_nil_l. rewrite <-(join_cons q segs) by done.
      change (String slash (strings_Join (q :: segs) "/")) with ("" +:+ String slash (strings_Join (q :: segs) "/")).
      rewrite <-(join_cons "" (q :: segs)) by done. apply (strings_Split_Join_free slash); [done|].
      constructor; [done|]. constructor; [apply Hq|done]. }
    unfold parsePattern. rewrite Hsplit. destruct Hs as (init & e & -> & _).
    change ("" :: q :: init ++ [e]) with (("" :: q :: init) ++ [e]). rewrite last_snoc, take_snoc.
    case_bool_decide; csimpl; rewrite (pattern_seg_plain q) by done; by do 2 eexists. }
  assert (∀ p h, (∃ segs, p = strings_Join segs "/" ∧ clean_segs segs) →
    let p' := parsePattern (basePath (String slash q) +:+ p) in ∃ ss, pt_segs (p', (p', h : handler)).1 = Wild :: Lit q :: ss) as Hp.
  { intros p h (segs & -> & Hs). destruct (Hone segs Hs) as (ss & m & Hs1). cbv zeta. rewrite Hs1. by exists ss. }
  unfold patterns. apply Forall_app. split.
  - apply Forall_fmap. unfold api_patterns.
    registered Hp ["source"]. registered Hp ["source"; "{name}"]. registered Hp ["test-connect"]. registered Hp ["metric"].
    registered Hp ["metric"; "{name}"]. registered Hp ["preset"]. registered Hp ["preset"; "{name}"]. registered Hp ["log"].
    registered Hp ["login"]. registered Hp ["liveness"]. registered Hp ["readiness"]. constructor.
  - destruct ui; [|constructor]. apply Forall_singleton. apply Hp. exists [""]. split; [done|]. apply clean_root.
Qed.

Lemma omap_none {A B} (f : A → option B) l : Forall (λ x, f x = None) l → omap f l = [].
Proof. induction 1 as [|x l Hx _ IH]; [done|]. simpl. rewrite Hx. exact IH. Qed.

Lemma find_first_none {H} f (ps : list (pattern * H)) : Forall (λ ph, f ph = false) ps → find_first f ps = None.
Proof.
  intros Hf. unfold find_first. assert (list_find f ps = None) as ->; [|done]. apply list_find_None.
  eapply Forall_impl; [exact Hf|]. intros ph Hph. cbn beta. rewrite Hph. by intros [].
Qed.

Lemma lookup_slash q ui es :
  plain q → clean_segs es → head (request_segs es) ≠ Some q → lookup_path (String slash q) ui (path_of (q :: es)) = None.
Proof.
  intros Hq He Hh. unfold lookup_path. rewrite (split_path_of (q :: es)) by (apply (clean_segs_app [q]); [by constructor|done]).
  destruct (clean_segs_free es He) as [Hne _]. change (q :: es) with ([q] ++ es).
  rewrite (request_segs_app [q] es) by (done || by constructor).
  pose proof (patterns_slash q ui Hq) as Hps. cbn [app matchPath].
  rewrite (omap_none (strip (is_lit q))), matchPath_nil by (eapply Forall_impl; [exact Hps|]; intros ph [ss Hss]; unfold strip; by rewrite Hss).
  rewrite (find_first_none (ends true)) by (eapply Forall_impl; [exact Hps|]; intros ph [ss Hss]; unfold ends; by rewrite Hss).
  rewrite bool_decide_false by (intros ->; by destruct Hq as (_ & _ & _ & Hf & _)).
  destruct (request_segs_cons es Hne) as (seg & rest & Hr). rewrite Hr in Hh |- *.
  assert (Forall (λ ph, ∃ ss, pt_segs ph.1 = Lit q :: ss) (omap (strip is_wild) (patterns (String slash q) ui))) as Hps2.
  { apply Forall_forall. intros ph (ph0 & Hin & Hst)%list_elem_of_omap. rewrite Forall_forall in Hps. destruct (Hps ph0 Hin) as [ss Hss].
    unfold strip in Hst. rewrite Hss in Hst. injection Hst as <-. by exists ss. }
  set (ps := omap (strip is_wild) _) in *. cbn [matchPath].
  rewrite (omap_none (strip (is_lit seg))), matchPath_nil.
  2: { eapply Forall_impl; [exact Hps2|]. intros ph [ss Hss]. unfold strip. rewrite Hss. cbn [is_lit]. rewrite bool_decide_false; [done|].
       intros ->. by apply Hh. }
  rewrite (omap_none (strip is_wild)), matchPath_nil by (eapply Forall_impl; [exact Hps2|]; intros ph [ss Hss]; unfold strip; by rewrite Hss).
  rewrite (find_first_none (ends true)) by (eapply Forall_impl; [exact Hps2|]; intros ph [ss Hss]; unfold ends; by rewrite Hss).
  by case_bool_decide.
Qed.

(** ** Theorems *)

(** C36.  Which handler a request reaches.  With a base path of plain segments (or none), a clean path below
    it reaches the handler of the API that is registered for its segments, with the decoded name of the
    source, metric or preset; every other path below it reaches the files of the user interface, or nothing
    if that is disabled. *)
Theorem web_routes bs es ui :
  Forall plain bs → clean_segs es →
  findHandler (strings_Join bs "/") ui (path_of (bs ++ es)) =
    match api_route (request_segs es) with
    | Some rt => Handler rt
    | None => if ui then Handler RStatic else NotFoundHandler
    end.
Proof. apply find_below. Qed.

(** A base path that starts with a slash disables the web server, although the documentation of the option
    gives one as its example.  With the base path [/q] no path below [/q] reaches any handler, whatever
    comes next (unless that is [q] again): the patterns start with an empty segment, and the paths of requests
    are cleaned. *)
Theorem leading_slash_unreachable q es ui :
  plain q → clean_segs es → head (request_segs es) ≠ Some q →
  findHandler (String slash q) ui (path_of (q :: es)) = NotFoundHandler.
Proof.
  intros Hq He Hh. assert (clean_segs (q :: es)) as Hc by (apply (clean_segs_app [q]); [by constructor|done]).
  unfold findHandler. rewrite cleanPath_of by done. rewrite lookup_slash by done.
  rewrite (bool_decide_true (path_of (q :: es) = path_of (q :: es))) by done. cbn [negb].
  rewrite ends_with_slash_of by done. destruct (decide (last (q :: es) = Some "")) as [Hl|Hl].
  { by rewrite bool_decide_true. }
  destruct (clean_snoc (q :: es) Hc Hl) as [_ Hp]. rewrite Hp. cbn [app].
  assert (last es ≠ Some "") as Hle by (by destruct es).
  destruct (clean_snoc es He Hle) as [Hc' _]. rewrite lookup_slash; [by rewrite andb_false_r|done|done|].
  rewrite request_segs_snoc. destruct (clean_segs_free es He) as [Hne _]. destruct es as [|e es]; [done|]. csimpl.
  intros [= Heq]. apply Hh. destruct e; [|by destruct es; simpl; rewrite Heq].
  destruct es; [by destruct Hle|]. simpl. by rewrite Heq.
Qed.

(** C35.  Access control over the network.  A request that carries no valid token changes neither store, whatever its
    method, path and body; if its path is one of the sources, the metrics, the presets, the connection test or the log below the
    base path, it is answered with 401 (the middleware answers OPTIONS itself). *)
Theorem unauthorised_request {S M} `{SourcesStore S} `{MetricsStore M} env uiFS mime f now (s : WebUIServer S M) q :
  ~ authorised env now (request_of RSources q) →
  (ServeHTTP env uiFS mime f now s q).1 = s ∧
  ∀ bs es rt, fr_base f = strings_Join bs "/" → Forall plain bs → clean_segs es → hq_escapedPath q = path_of (bs ++ es) →
    api_route (request_segs es) = Some rt → protected rt = true → hq_method q ≠ OPTIONS →
    ∃ e, (ServeHTTP env uiFS mime f now s q).2 = with_cors (reply_of (http_error env StatusUnauthorized e)).
Proof.
  intros Hna. assert (∀ rt, rt ≠ RStatic → (mux env now s (request_of rt q)).1 = s ∧
    (protected rt = true → ∃ e, (mux env now s (request_of rt q)).2 = http_error env StatusUnauthorized e)) as Hmux.
  { intros rt Hrt. apply (mux_unauthorised env now s (request_of rt q)). exact Hna. }
  unfold ServeHTTP. split.
  - case_bool_decide; [done|]. destruct (findHandler _ _ _) as [rt| |]; [|done..].
    assert (rt = RStatic ∨ rt ≠ RStatic) as [->|Hne] by (destruct rt; (by left) || (by right)); [done|].
    destruct (Hmux rt Hne) as [Hs _]. destruct rt; try done; by destruct (mux env now s _).
  - intros bs es rt Hbase Hb He Hpath Hroute Hprot Hopt. rewrite bool_decide_false by done.
    rewrite Hbase, Hpath, find_below, Hroute by done. destruct (Hmux rt) as [_ H401]; [by intros ->|].
    destruct (H401 Hprot) as [e Hr]. exists e. destruct rt; try discriminate; destruct (mux env now s _); simpl in *; by rewrite Hr.
Qed.

(** The pages of the user interface are one document, rendered at the start, that browsers ask for again each
    time; they are there below every base path, without a token. *)
Theorem ui_pages {S M} `{SourcesStore S} `{MetricsStore M} env uiFS mime f now (s : WebUIServer S M) q bs page :
  fr_base f = strings_Join bs "/" → Forall plain bs → fr_ui f = true → page ∈ [""; "sources"; "metrics"; "presets"; "logs"] →
  hq_escapedPath q = path_of (bs ++ [page]) → hq_method q = GET →
  ServeHTTP env uiFS mime f now s q =
  (s, with_cors {| rp_status := StatusOK; rp_body := fr_index f;
     rp_headers := {["Content-Type" := "text/html; charset=utf-8";
                     "Content-Length" := pretty (N.of_nat (String.length (fr_index f)));
                     "Cache-Control" := cacheControlRevalidate]} |}).
Proof.
  intros Hbase Hb Hui Hpage Hpath Hget. unfold ServeHTTP. rewrite Hget. rewrite bool_decide_false by done.
  assert (clean_segs [page] ∧ api_route (request_segs [page]) = None ∧ free_of "%" page ∧ String slash page ∈ ui_routes)
    as (Hc & Hr & Hf & Hin).
  { repeat (apply elem_of_cons in Hpage as [->|Hpage]; [split_and!; [first [apply clean_root|by apply clean_one]|done|done|];
      apply (bool_decide_unpack _); vm_compute; exact I|]). by apply elem_of_nil in Hpage. }
  rewrite Hbase, Hpath, find_below, Hr, Hui by done. f_equal. f_equal. unfold handleStatic. rewrite Hget, Hpath, Hbase.
  rewrite (bool_decide_true (GET = GET)) by done. cbn [negb]. unfold pathUnescape. rewrite unescape_free.
  - cbv zeta. cbn [from_option id]. assert (TrimPrefix (path_of (bs ++ [page])) (if bool_decide (strings_Join bs "/" = "") then "" else
      String slash (strings_Join bs "/")) = String slash page) as ->; [|by rewrite bool_decide_true].
    pose proof (base_join bs [page] Hb) as Hj. rewrite <-Hj by done. unfold TrimPrefix, basePath. case_bool_decide as He.
    + rewrite He. done.
    + rewrite (string_app_assoc (String slash _)), cut_prefix_app. done.
  - apply free_of_cons. split; [done|]. clear -Hb Hf. induction Hb as [|b bs Hp Hb IH]; [done|]. cbn [app].
    rewrite join_cons by (by destruct bs). apply free_of_app. split; [apply Hp|]. by apply free_of_cons.
Qed.

(** ** Examples *)

Example sample_paths :
  findHandler "pgwatch" true "/pgwatch/source/a%2Fb" = Handler (RSourceItem "a/b") ∧
  findHandler "pgwatch" true "/pgwatch" = RedirectTo "/pgwatch/" ∧
  findHandler "" true "/source/../metric" = RedirectTo "/metric" ∧
  findHandler "" false "/" = NotFoundHandler.
Proof. vm_compute. done. Qed.

(** With the base path of the documentation some paths outside of it do reach a handler, with a wrong name. *)
Example documented_base_path : findHandler "/pgwatch" true "/x/pgwatch/source/a" = Handler (RSourceItem "x").
Proof. vm_compute. reflexivity. Qed.

Definition sample_front : web_front := {| fr_base := "pgwatch"; fr_ui := true; fr_index := "<html>" |}.

Definition sample_req (m : http_method) (path : string) : http_req := {|
  hq_method := m; hq_escapedPath := path; hq_body := Ok "a"; hq_header_token := None; hq_query_token := "" |}.

Definition sample_fs (path : string) : fs_open :=
  if bool_decide (path = "index.html") then FsFile "<base href={{.BasePath}}>"
  else if bool_decide (path = "assets") then FsDir
  else if bool_decide (path = "assets/app.js") then FsFile "js"
  else if bool_decide (path = "../x") then FsError else FsNotExist.

(** The template itself is a file too, and a directory is answered with an empty document. *)
Example sample_files :
  let get p := let r := handleStatic sample_fs (λ _, "") sample_front (sample_req GET p) in (rp_status r, rp_body r) in
  get "/pgwatch/index.html" = (200, "<base href={{.BasePath}}>") ∧ get "/pgwatch/assets" = (200, "") ∧
  get "/pgwatch/assets/app.js" = (200, "js") ∧ get "/pgwatch/%2e%2e/x" = (500, "Internal Server Error").
Proof. vm_compute. done. Qed.

Lemma web_routes_witness :
  findHandler "pgwatch" true (path_of ["pgwatch"; "source"; "a%2Fb"]) = Handler (RSourceItem "a/b").
Proof.
  apply (web_routes ["pgwatch"] ["source"; "a%2Fb"] true).
  - apply (bool_decide_unpack _). vm_compute. exact I.
  - apply clean_two; apply (bool_decide_unpack _); vm_compute; exact I.
Defined.

Lemma leading_slash_unreachable_witness : findHandler "/pgwatch" true (path_of ["pgwatch"; "source"]) = NotFoundHandler.
Proof.
  apply (leading_slash_unreachable "pgwatch" ["source"] true).
  - apply (bool_decide_unpack _). vm_compute. exact I.
  - apply clean_one. apply (bool_decide_unpack _). vm_compute. exact I.
  - discriminate.
Defined.

Lemma unauthorised_request_witness :
  let q := sample_req POST "/pgwatch/source" in
  (ServeHTTP sample_web_env sample_fs (λ _, "") sample_front 0 sample_server q).1 = sample_server ∧
  ∃ e, (ServeHTTP sample_web_env sample_fs (λ _, "") sample_front 0 sample_server q).2 =
    with_cors (reply_of (http_error sample_web_env StatusUnauthorized e)).
Proof.
  destruct (unauthorised_request sample_web_env sample_fs (λ _, "") sample_front 0 sample_server (sample_req POST "/pgwatch/source"))
    as [H1 H2].
  - by intros [[] _].
  - split; [exact H1|]. apply (H2 ["pgwatch"] ["source"] RSources); try reflexivity; try discriminate.
    + apply (bool_decide_unpack _). vm_compute. exact I.
    + apply clean_one. apply (bool_decide_unpack _). vm_compute. exact I.
Defined.
