(* ===== verification/InstanceCache.v ===== *)
(** * The instance-level metric cache ([internal/reaper/cache.go], [DeepCopy] of [internal/metrics/types.go])

    Databases of one server share the results of instance-level metrics through a cache.  The rows
    are Go maps that their receivers go on to modify (system information is added to them), so the
    cache copies rows on the way in and on the way out.  The first part models the cache as a map
    of values; the second part models rows as references into a store, as in the program, and
    shows that the copying makes it behave like the first: no write by a client to a row it
    passed in or received is visible in the cache, and vice versa. *)

From S2P Require Import Prelude GoStrings Metrics.
From stdpp Require Import options.

Local Open Scope Z_scope.

(** ** As values *)

Abbreviation InstanceMetricCache := (gmap string Measurements).

Definition NewInstanceMetricCache : InstanceMetricCache := ∅.

Definition imc_Put (now : Z) (cache : InstanceMetricCache) (key : string) (data : Measurements)
    : InstanceMetricCache :=
  if bool_decide (data = [] ∨ key = "") then cache
  else <[key := if IsEpochSet data then data else Touch now data]> cache.

(** [Get] at time [now1] (and [now2], when the age is computed).  Reading the epoch of rows that
    carry none sets it, in the cache. *)
Definition imc_Get (now1 now2 : Z) (cache : InstanceMetricCache) (key : string) (age : Z)
    : InstanceMetricCache * Measurements :=
  if bool_decide (key = "") then (cache, [])
  else
    match cache !! key with
    | None => (cache, [])
    | Some data =>
        let '(epoch, data) := GetEpoch now1 data in
        let cache := <[key := data]> cache in
        if age <? wrap64 (now2 - epoch) then (cache, []) else (cache, data)
    end.

(** ** As references *)

(** The store of rows. *)
Record store := Store { rows : gmap nat Measurement; next : nat }.

Definition deref (h : store) (locs : list nat) : Measurements := (λ l, default ∅ (rows h !! l)) <$> locs.

(** [DeepCopy]: every row is cloned into a new map. *)
Fixpoint DeepCopy (h : store) (locs : list nat) : store * list nat :=
  match locs with
  | [] => (h, [])
  | l :: locs' =>
      let h := Store (<[next h := default ∅ (rows h !! l)]> (rows h)) (S (next h)) in
      let '(h, copies) := DeepCopy h locs' in (h, (next h - S (length locs'))%nat :: copies)
  end.

(** Assignment to the rows at [locs], in order. *)
Definition overwrite (h : store) (locs : list nat) (data : Measurements) : store :=
  Store (foldl (λ m p, <[p.1 := p.2]> m) (rows h) (zip locs data)) (next h).

Abbreviation ref_cache := (gmap string (list nat)).

Definition ref_Put (now : Z) (h : store) (cache : ref_cache) (key : string) (data : list nat)
    : store * ref_cache :=
  if bool_decide (data = [] ∨ key = "") then (h, cache)
  else
    let '(h, m) := DeepCopy h data in
    let h := if IsEpochSet (deref h m) then h else overwrite h m (Touch now (deref h m)) in
    (h, <[key := m]> cache).

Definition ref_Get (now1 now2 : Z) (h : store) (cache : ref_cache) (key : string) (age : Z)
    : store * list nat :=
  if bool_decide (key = "") then (h, [])
  else
    match cache !! key with
    | None => (h, [])
    | Some locs =>
        let '(epoch, data) := GetEpoch now1 (deref h locs) in
        let h := overwrite h locs data in
        if age <? wrap64 (now2 - epoch) then (h, []) else DeepCopy h locs
    end.

(** ** Refinement *)

Definition abs (h : store) (cache : ref_cache) : InstanceMetricCache := deref h <$> cache.

(** The cached rows exist, and no row belongs to two entries or twice to one. *)
Definition wf (h : store) (cache : ref_cache) : Prop :=
  (∀ key locs, cache !! key = Some locs → NoDup locs ∧ Forall (λ l, (l < next h)%nat) locs) ∧
  (∀ k1 k2 locs1 locs2 l, cache !! k1 = Some locs1 → cache !! k2 = Some locs2 →
     l ∈ locs1 → l ∈ locs2 → k1 = k2).

(** The rows the cache owns. *)
Definition owned (cache : ref_cache) (l : nat) : Prop := ∃ key locs, cache !! key = Some locs ∧ l ∈ locs.

Lemma DeepCopy_spec h locs :
  (∀ l, l ∈ locs → (l < next h)%nat) →
  let '(h', copies) := DeepCopy h locs in
  copies = seq (next h) (length locs) ∧ next h' = (next h + length locs)%nat ∧
  deref h' copies = deref h locs ∧ ∀ l, (l < next h)%nat → rows h' !! l = rows h !! l.
Proof.
  revert h. induction locs as [|l locs IH]; intros h Hlocs; simpl; [by split_and!; auto|].
  set (h1 := Store _ _). specialize (IH h1).
  assert (∀ l, l ∈ locs → (l < next h1)%nat) as Hl.
  { intros l' Hl'. simpl. specialize (Hlocs l'). set_solver by lia. }
  specialize (IH Hl). destruct (DeepCopy h1 locs) as [h' copies].
  destruct IH as (-> & Hnext & Hd & Hold). subst h1. simpl in *.
  assert ((next h' - S (length locs))%nat = next h) as -> by lia.
  split_and!; [done|lia| |].
  - unfold deref in *. csimpl. rewrite Hold by lia. simpl. rewrite lookup_insert_eq. simpl. f_equal.
    rewrite Hd. apply list_fmap_ext. intros i l' Hl'%list_elem_of_lookup_2.
    simpl. rewrite lookup_insert_ne; [done|]. assert (l' < next h)%nat; [|lia].
    apply Hlocs. by right.
  - intros l' Hlt. rewrite Hold by lia. rewrite lookup_insert_ne by lia. done.
Qed.

Lemma overwrite_spec h locs data :
  NoDup locs → length data = length locs →
  deref (overwrite h locs data) locs = data ∧
  ∀ l, l ∉ locs → rows (overwrite h locs data) !! l = rows h !! l.
Proof.
  unfold overwrite, deref. simpl. generalize (rows h) as m. clear h. revert data.
  induction locs as [|l locs IH]; intros [|d data] m Hnd Hlen; try done; simpl in *.
  apply NoDup_cons in Hnd as [Hl Hnd]. injection Hlen as Hlen.
  destruct (IH data (<[l := d]> m) Hnd Hlen) as [Hd Ho]. split.
  - csimpl. f_equal; [by rewrite Ho, lookup_insert_eq|exact Hd].
  - intros l' [Hne Hl']%not_elem_of_cons. rewrite Ho by done. by rewrite lookup_insert_ne.
Qed.

(** Two stores that agree on the owned rows represent the same cache. *)
Lemma abs_ext h1 h2 cache :
  (∀ l, owned cache l → rows h1 !! l = rows h2 !! l) → abs h1 cache = abs h2 cache.
Proof.
  intros Heq. unfold abs. apply map_fmap_ext. intros key locs Hk. unfold deref.
  apply list_fmap_ext. intros i l Hl%list_elem_of_lookup_2. f_equal. apply Heq. by exists key, locs.
Qed.

(** Storing rows: the cache then represents the map in which a copy of the rows, with an
    epoch if they had none, is filed under the key.  The copy shares nothing with the rows that were
    passed in: whatever is later written to any row the clients knew before (that is not owned by
    the cache), the cache still represents that map. *)
Theorem ref_Put_refines now h cache key data :
  wf h cache → (∀ l, l ∈ data → (l < next h)%nat) →
  let '(h', cache') := ref_Put now h cache key data in
  wf h' cache' ∧ abs h' cache' = imc_Put now (abs h cache) key (deref h data) ∧
  ∀ h'', (∀ l, owned cache l ∨ (next h ≤ l)%nat → rows h'' !! l = rows h' !! l) →
    abs h'' cache' = abs h' cache'.
Proof.
  intros [Hwf1 Hwf2] Hdata. unfold ref_Put, imc_Put.
  assert (deref h data = [] ↔ data = []) as Hnil by (unfold deref; by destruct data).
  case_bool_decide as Hk.
  { rewrite bool_decide_eq_true_2 by tauto. split_and!; [done..|].
    intros h'' Hh. apply abs_ext. intros l Ho. apply Hh. by left. }
  rewrite bool_decide_eq_false_2 by tauto.
  pose proof (DeepCopy_spec h data Hdata) as Hc. destruct (DeepCopy h data) as [h1 m].
  destruct Hc as (Hm & Hnext & Hd & Hold).
  set (h2 := if IsEpochSet (deref h1 m) then h1 else _).
  assert (NoDup m) as Hnd by (rewrite Hm; apply NoDup_seq).
  assert (∀ l, l ∈ m ↔ (next h ≤ l < next h1)%nat) as Hin by (intros; rewrite Hm, elem_of_seq; lia).
  assert (next h2 = next h1) as Hn2 by (unfold h2; by destruct (IsEpochSet _)).
  assert (deref h2 m = (if IsEpochSet (deref h data) then deref h data else Touch now (deref h data)) ∧
          ∀ l, (l < next h)%nat → rows h2 !! l = rows h !! l) as [Hd2 Ho2].
  { unfold h2. rewrite Hd. destruct (IsEpochSet (deref h data)); [done|].
    destruct (overwrite_spec h1 m (Touch now (deref h data))) as [H1 H2]; [done| |].
    { rewrite Hm, length_seq. unfold Touch, deref. by rewrite !length_fmap. }
    split; [done|]. intros l Hl. rewrite H2; [by apply Hold|]. rewrite Hin. lia. }
  assert (∀ l, owned cache l → (l < next h)%nat) as Hown.
  { intros l (k & locs & Hkl & Hl). destruct (Hwf1 k locs Hkl) as [_ Hall].
    by eapply Forall_forall in Hall. }
  split_and!.
  - split.
    + intros k locs [[<- <-]|[_ Hl]]%lookup_insert_Some; [split; [done|]|].
      * apply Forall_forall. intros l Hl%Hin. lia.
      * destruct (Hwf1 k locs Hl) as [? Hall]. split; [done|].
        eapply Forall_impl; [exact Hall|]. simpl. lia.
    + intros k1 k2 l1 l2 l [[<- <-]|[Hne1 H1]]%lookup_insert_Some
        [[<- <-]|[Hne2 H2]]%lookup_insert_Some Hl1 Hl2; [done| | |by eapply Hwf2].
      * apply Hin in Hl1. assert (l < next h)%nat; [apply Hown; by exists k2, l2|lia].
      * apply Hin in Hl2. assert (l < next h)%nat; [apply Hown; by exists k1, l1|lia].
  - unfold abs. rewrite fmap_insert, Hd2. f_equal.
    apply (abs_ext h2 h cache). intros l Hl. by apply Ho2, Hown.
  - intros h'' Hh. apply abs_ext. intros l (k & locs & Hkl & Hl).
    apply lookup_insert_Some in Hkl as [[<- <-]|[_ Hkl]]; apply Hh.
    + right. apply Hin in Hl. lia.
    + left. by exists k, locs.
Qed.

(** C18.  Reading: the rows returned are those of the map, no older than the given age, or none;
    they are fresh copies, so that writing to them, or to any other row not owned by the cache,
    leaves the cache as it is. *)
Theorem ref_Get_refines now1 now2 h cache key age :
  wf h cache →
  let '(h', result) := ref_Get now1 now2 h cache key age in
  let '(cache_abs, data) := imc_Get now1 now2 (abs h cache) key age in
  wf h' cache ∧ abs h' cache = cache_abs ∧ deref h' result = data ∧
  (∀ l, l ∈ result → ¬ owned cache l ∧ (next h ≤ l)%nat) ∧
  ∀ h'', (∀ l, owned cache l → rows h'' !! l = rows h' !! l) → abs h'' cache = cache_abs.
Proof.
  intros Hwf. pose proof Hwf as [Hwf1 Hwf2]. unfold ref_Get, imc_Get. case_bool_decide as Hk.
  { split_and!; try done; [set_solver|]. intros. by apply abs_ext. }
  replace (abs h cache !! key) with (deref h <$> cache !! key) by (symmetry; apply lookup_fmap).
  destruct (cache !! key) as [locs|] eqn:E; simpl.
  2: { split_and!; try done; [set_solver|]. intros. by apply abs_ext. }
  destruct (Hwf1 key locs E) as [Hnd Hlt].
  pose proof (length_GetEpoch now1 (deref h locs)) as Hlen.
  destruct (GetEpoch now1 (deref h locs)) as [epoch data]. simpl in Hlen.
  destruct (overwrite_spec h locs data Hnd) as [Hd Ho].
  { rewrite Hlen. unfold deref. by rewrite length_fmap. }
  set (h1 := overwrite h locs data) in *.
  assert (abs h1 cache = <[key := data]> (abs h cache)) as Habs.
  { apply map_eq. intros k. unfold abs. destruct (decide (k = key)) as [->|Hne].
    - rewrite lookup_insert_eq, lookup_fmap, E. simpl. by rewrite Hd.
    - rewrite lookup_insert_ne, !lookup_fmap by done. destruct (cache !! k) as [locs'|] eqn:E'; [|done].
      simpl. f_equal. unfold deref. apply list_fmap_ext. intros i l Hl%list_elem_of_lookup_2.
      rewrite Ho; [done|]. intros Hl'. apply Hne. by eapply Hwf2. }
  destruct (age <? wrap64 (now2 - epoch)).
  { split_and!; try done; [set_solver|]. intros h'' Hh. rewrite <-Habs. by apply abs_ext. }
  pose proof (DeepCopy_spec h1 locs) as Hc. destruct (DeepCopy h1 locs) as [h2 copies].
  destruct Hc as (-> & Hn & Hd2 & Ho2); [by rewrite Forall_forall in Hlt|]. simpl in Hn.
  assert (∀ l, owned cache l → (l < next h)%nat) as Hown.
  { intros l (k & locs' & Hkl & Hl). destruct (Hwf1 k locs' Hkl) as [_ Hall].
    by eapply Forall_forall in Hall. }
  assert (abs h2 cache = abs h1 cache) as Habs2.
  { apply abs_ext. intros l Hl. apply Ho2. simpl. by apply Hown. }
  split_and!.
  - split; [|done]. intros k l Hl. destruct (Hwf1 k l Hl) as [? Hall]. split; [done|].
    eapply Forall_impl; [exact Hall|]. simpl. lia.
  - by rewrite Habs2.
  - by rewrite Hd2.
  - intros l Hl%elem_of_seq. simpl in Hl. split; [|lia]. intros Ho'%Hown. lia.
  - intros h'' Hh. rewrite <-Habs, <-Habs2. by apply abs_ext.
Qed.

(** ** Example *)

Definition sample_store : store :=
  Store {[0%nat := {["epoch_ns" := VInt64 100; "n" := VInt64 1]}; 1%nat := {["n" := VInt64 2]}]} 2.

Lemma empty_wf h : wf h ∅.
Proof. split; intros *; by rewrite lookup_empty. Qed.

Lemma ref_Put_refines_witness :
  let '(h', cache') := ref_Put 7 sample_store ∅ "sys:wal" [0; 1]%nat in
  wf h' cache' ∧ abs h' cache' = imc_Put 7 (abs sample_store ∅) "sys:wal" (deref sample_store [0; 1]%nat) ∧
  ∀ h'', (∀ l, owned ∅ l ∨ (next sample_store ≤ l)%nat → rows h'' !! l = rows h' !! l) →
    abs h'' cache' = abs h' cache'.
Proof.
  apply (ref_Put_refines 7 sample_store ∅ "sys:wal" [0; 1]%nat); [apply empty_wf|].
  intros l Hl. simpl. set_solver by lia.
Defined.

Definition sample_cached : store * ref_cache := ref_Put 7 sample_store ∅ "sys:wal" [0; 1]%nat.

Lemma sample_cached_wf : wf sample_cached.1 sample_cached.2.
Proof.
  split.
  - intros k locs. vm_compute. intros Hl.
    assert (locs = [2; 3]%nat) as ->.
    { revert Hl. change ((({["sys:wal" := [2; 3]%nat]} : ref_cache) !! k) = Some locs → locs = [2; 3]%nat).
      by intros [_ ?]%lookup_singleton_Some. }
    split; [apply (bool_decide_unpack _); vm_compute; exact I|].
    apply (bool_decide_unpack _). vm_compute. exact I.
  - intros k1 k2 l1 l2 l H1 H2 _ _.
    change ((({["sys:wal" := [2; 3]%nat]} : ref_cache) !! k1) = Some l1) in H1.
    change ((({["sys:wal" := [2; 3]%nat]} : ref_cache) !! k2) = Some l2) in H2.
    apply lookup_singleton_Some in H1 as [<- _]. by apply lookup_singleton_Some in H2 as [<- _].
Qed.

Lemma ref_Get_refines_witness :
  let '(h', result) := ref_Get 150 160 sample_cached.1 sample_cached.2 "sys:wal" 100 in
  let '(cache_abs, data) := imc_Get 150 160 (abs sample_cached.1 sample_cached.2) "sys:wal" 100 in
  wf h' sample_cached.2 ∧ abs h' sample_cached.2 = cache_abs ∧ deref h' result = data ∧
  (∀ l, l ∈ result → ¬ owned sample_cached.2 l ∧ (next sample_cached.1 ≤ l)%nat) ∧
  ∀ h'', (∀ l, owned sample_cached.2 l → rows h'' !! l = rows h' !! l) →
    abs h'' sample_cached.2 = cache_abs.
Proof. apply (ref_Get_refines 150 160 sample_cached.1 sample_cached.2). exact sample_cached_wf. Defined.
