(* ===== verification/Scheduler.v ===== *)
(** * The worker of a monitored database ([internal/reaper/database.go], [file.go])

    One worker per source wakes up at a tick derived from the intervals of its metrics, decides
    which metrics are due, serves them from the instance-level cache, the operating system, the
    change detectors or SQL queries, and sends the results to the measurement channel.  SQL queries
    of one tick share a batch; an entry that fails there is retried alone, and one that fails again
    is fetched alone from then on until it recovers.

    The connection, the operating system and the clock are parameters.  The theorems show that the
    tick divides every interval, that a metric is fetched when and only when it is due, that a
    failing query affects its own metric only, and how metrics enter and leave the degraded set. *)

From S2P Require Import Prelude GoStrings Metrics Sources Changes Conn InstanceCache.
From stdpp Require Import options.

Local Open Scope Z_scope.

(** ** Tick interval *)

Definition minTickInterval : Z := 1.

(** The inner loop of [GCDSlice]. *)
Fixpoint gcd_loop (fuel : nat) (g v : Z) : Z :=
  match fuel with
  | O => g
  | S fuel => if v =? 0 then g else gcd_loop fuel v (Z.rem g v)
  end.

(** [|v|] shrinks in every round, so [|v| + 1] rounds are enough. *)
Definition GCDSlice (vals : list Z) : Z :=
  match vals with
  | [] => 0
  | v0 :: vs => foldl (λ g v, gcd_loop (S (Z.to_nat (Z.abs v))) g v) v0 vs
  end.

Definition activeMetrics (md : DbConn) : gmap string Z := seconds <$> default ∅ (ActiveMetrics md).

(** [int(d.Seconds())]; exact for durations below [2^53] seconds. *)
Definition duration_Seconds (d : Z) : Z := Z.quot d time_Second.

Definition calcTickInterval (ro : range_order) (md : DbConn) : Z :=
  let am := activeMetrics md in
  let intervals := (λ p, Z.max (duration_Seconds p.2) minTickInterval) <$> range ro am in
  seconds (Z.max (GCDSlice intervals) minTickInterval).

(** ** State of a worker *)

Record DbConnReaper := {
  sr_md : DbConn;
  lastFetch : gmap string Z;
  lastUptimeS : Z;
  logParserStarted : bool;
  degradedMetrics : gset string;
  (* shared with the other workers *)
  measurementCache : InstanceMetricCache;
  measurementCh : list MeasurementEnvelope;
}.

Definition NewDbConnReaper (cache : InstanceMetricCache) (md : DbConn) : DbConnReaper := {|
  sr_md := md; lastFetch := ∅; lastUptimeS := 0; logParserStarted := false; degradedMetrics := ∅;
  measurementCache := cache; measurementCh := [] |}.

Section setters.
Implicit Types (sr : DbConnReaper).
Definition set_md sr x := {| sr_md := x; lastFetch := lastFetch sr; lastUptimeS := lastUptimeS sr;
  logParserStarted := logParserStarted sr; degradedMetrics := degradedMetrics sr;
  measurementCache := measurementCache sr; measurementCh := measurementCh sr |}.
Definition set_lastFetch sr x := {| sr_md := sr_md sr; lastFetch := x; lastUptimeS := lastUptimeS sr;
  logParserStarted := logParserStarted sr; degradedMetrics := degradedMetrics sr;
  measurementCache := measurementCache sr; measurementCh := measurementCh sr |}.
Definition set_uptime sr x := {| sr_md := sr_md sr; lastFetch := lastFetch sr; lastUptimeS := x;
  logParserStarted := logParserStarted sr; degradedMetrics := degradedMetrics sr;
  measurementCache := measurementCache sr; measurementCh := measurementCh sr |}.
Definition set_logParser sr x := {| sr_md := sr_md sr; lastFetch := lastFetch sr;
  lastUptimeS := lastUptimeS sr; logParserStarted := x; degradedMetrics := degradedMetrics sr;
  measurementCache := measurementCache sr; measurementCh := measurementCh sr |}.
Definition set_degraded sr x := {| sr_md := sr_md sr; lastFetch := lastFetch sr;
  lastUptimeS := lastUptimeS sr; logParserStarted := logParserStarted sr; degradedMetrics := x;
  measurementCache := measurementCache sr; measurementCh := measurementCh sr |}.
Definition set_cache sr x := {| sr_md := sr_md sr; lastFetch := lastFetch sr;
  lastUptimeS := lastUptimeS sr; logParserStarted := logParserStarted sr;
  degradedMetrics := degradedMetrics sr; measurementCache := x; measurementCh := measurementCh sr |}.
Definition send sr (es : list MeasurementEnvelope) := {| sr_md := sr_md sr; lastFetch := lastFetch sr;
  lastUptimeS := lastUptimeS sr; logParserStarted := logParserStarted sr;
  degradedMetrics := degradedMetrics sr; measurementCache := measurementCache sr;
  measurementCh := measurementCh sr ++ es |}.
Definition isDegraded sr (name : string) : bool := bool_decide (name ∈ degradedMetrics sr).
Definition markDegraded sr (name : string) := set_degraded sr ({[name]} ∪ degradedMetrics sr).
Definition clearDegraded sr (name : string) := set_degraded sr (degradedMetrics sr ∖ {[name]}).
Definition fetched_at sr (name : string) (t : Z) := set_lastFetch sr (<[name := t]> (lastFetch sr)).
End setters.

(** ** The surroundings of a tick *)

(** What a query returns: an error when it is sent, an error while its rows are collected, or rows. *)
Inductive answer :=
  | QueryError (e : error)
  | CollectError (e : error)
  | Rows (rs : list (list (string * value))).

Record surroundings := {
  metricDefs : gmap string Metric;
  cacheAge : Z;
  RealDbnameField : string;
  SystemIdentifierField : string;
  parse_config : string → result conn_config;
  query_simple : string → answer;            (* a query on its own *)
  query_batch : list string → nat → answer;  (* the answers to a batch *)
  change_query : string → result Measurements;
  settings_query : string → result (list (option (Z * string * string)));
  ping_error : option error;
  same_host : bool;
  os_stats : string → result Measurements;
  fmt_float : value → string;
  now : Z;                                   (* the start of the tick *)
  clock : string → Z;                        (* when the given metric is handled *)
  batch_end : Z;
  map_order : range_order;
}.

Definition specialMetricChangeEvents : string := "change_events".
Definition specialMetricServerLogEventCounts : string := "server_log_event_counts".
Definition specialMetricInstanceUp : string := "instance_up".

Definition directlyFetchableOSMetrics : list string :=
  ["psutil_cpu"; "psutil_disk"; "psutil_disk_io_total"; "psutil_mem"; "cpu_load"].

Section worker.
Context (env : surroundings).
Implicit Types (sr : DbConnReaper) (name : string) (metric : Metric) (data : Measurements).

Definition IsDirectlyFetchableMetric name : bool :=
  bool_decide (name ∈ directlyFetchableOSMetrics) && same_host env.

(** [cacheKey]: instance-level metrics that are fetched more often than the cache expires. *)
Definition cacheKey sr metric name : DbConnReaper * string :=
  if IsInstanceLevel metric && (0 <? cacheAge env) && (GetMetricInterval (sr_md sr) name <? cacheAge env)
  then let '(md, id) := GetClusterIdentifier (parse_config env) (sr_md sr) in
       (set_md sr md, id +:+ ":" +:+ name)
  else (sr, "").

Definition isRoleExcluded sr metric : bool :=
  let rec := IsInRecovery (md_Info (sr_md sr)) in
  (PrimaryOnly metric && rec) || (StandbyOnly metric && negb rec).

Definition add_field (field v : string) (dr : Measurement) : Measurement :=
  if bool_decide (field ≠ "" ∧ v ≠ "") then <[field := VString v]> dr else dr.

Definition AddSysinfoToMeasurements data (md : DbConn) : Measurements :=
  (λ dr, add_field (SystemIdentifierField env) (SystemIdentifier (md_Info md))
           (add_field (RealDbnameField env) (RealDbname (md_Info md)) dr)) <$> data.

Definition envelope sr (metric : string) data : MeasurementEnvelope := {|
  DBName := Name (md_Source (sr_md sr)); MetricName := metric; SourceKind := "";
  CustomTags := SrcCustomTags (md_Source (sr_md sr)); Data := data |}.

(** [cmp.Or(storageName, name)]. *)
Definition storage_name (storageName name : string) : string :=
  if bool_decide (storageName = "") then name else storageName.

(** [sendEnvelope] returns the rows too: they are modified in place. *)
Definition sendEnvelope sr name (storageName : string) data : DbConnReaper * Measurements :=
  let data := AddSysinfoToMeasurements data (sr_md sr) in
  (send sr [envelope sr (storage_name storageName name) data], data).

Definition restart_message : string := "Detected server restart (or failover)".

Definition detectServerRestart sr (t : Z) data : DbConnReaper :=
  match data with
  | [] => sr
  | row :: _ =>
      match row !! "postmaster_uptime_s" with
      | Some (VInt64 uptimeS) =>
          let prev := lastUptimeS sr in
          let sr := set_uptime sr uptimeS in
          if (0 <? prev) && (uptimeS <? prev) then
            let entry := <["details" := VString restart_message]>
                           (NewMeasurement (GetEpoch t data).1) in
            send sr [envelope sr "object_changes" [entry]]
          else sr
      | _ => sr
      end
  end.

Definition dispatchMetricData sr name metric data : DbConnReaper :=
  let '(sr, key) := cacheKey sr metric name in
  let sr := if bool_decide (key ≠ "")
            then set_cache sr (imc_Put (clock env name) (measurementCache sr) key data) else sr in
  let '(sr, data) := sendEnvelope sr name (StorageName metric) data in
  if bool_decide (name = "db_stats") then detectServerRestart sr (clock env name) data else sr.

Record batchEntry := { metricName : string; be_metric : Metric; be_sql : string }.

(** [CollectAndDispatch]; the rows are scanned when the metric is handled. *)
Definition CollectAndDispatch sr (a : answer) name metric : DbConnReaper * option error :=
  match a with
  | QueryError e | CollectError e => (sr, Some e)
  | Rows rs =>
      let data := RowToMeasurement (clock env name) <$> rs in
      if bool_decide (data = []) then (sr, None) else (dispatchMetricData sr name metric data, None)
  end.

Definition fetchMetricOnce sr (entry : batchEntry) : DbConnReaper * option error :=
  match query_simple env (be_sql entry) with
  | QueryError e => (sr, Some e)
  | a => CollectAndDispatch sr a (metricName entry) (be_metric entry)
  end.

Definition fetchMetric sr (entry : batchEntry) : DbConnReaper * option error :=
  let '(sr, err) := fetchMetricOnce sr entry in
  match err with
  | Some e => (sr, Some (WrapError ("fetch " +:+ metricName entry) e))
  | None => (sr, None)
  end.

(** The first loop of [executeBatch]: results are dispatched as they arrive. *)
Fixpoint batch_results sr (answers : nat → answer) (i : nat) (entries : list batchEntry)
    : DbConnReaper * option error * list batchEntry :=
  match entries with
  | [] => (sr, None, [])
  | e :: entries' =>
      match answers i with
      | QueryError _ =>
          let '(sr, errs, retries) := batch_results sr answers (S i) entries' in
          (sr, errs, e :: retries)
      | a =>
          let '(sr, err) := CollectAndDispatch sr a (metricName e) (be_metric e) in
          let '(sr, errs, retries) := batch_results sr answers (S i) entries' in
          (sr, errors_Join [err; errs], retries)
      end
  end.

(** The second loop: retries, one by one. *)
Fixpoint batch_retries sr (errs : option error) (entries : list batchEntry)
    : DbConnReaper * option error :=
  match entries with
  | [] => (sr, errs)
  | e :: entries' =>
      let '(sr, err) := fetchMetric sr e in
      match err with
      | None => batch_retries sr errs entries'
      | Some _ =>
          batch_retries (markDegraded sr (metricName e))
            (errors_Join [errs; Some (ErrorString ("failed to fetch metric " +:+ metricName e))]) entries'
      end
  end.

Definition executeBatch sr (entries : list batchEntry) : DbConnReaper * option error :=
  let '(sr, errs, retries) := batch_results sr (query_batch env (be_sql <$> entries)) 0 entries in
  batch_retries sr errs retries.

Definition FetchStatsDirectlyFromOS sr name : result (option MeasurementEnvelope) :=
  let data := if bool_decide (name ∈ directlyFetchableOSMetrics) then os_stats env name else Ok [] in
  match data with
  | Err e => Err e
  | Ok data => Ok (Some (envelope sr name (AddSysinfoToMeasurements data (sr_md sr))))
  end.

Definition fetchOSMetric sr name : DbConnReaper * option error :=
  match FetchStatsDirectlyFromOS sr name with
  | Err e => (sr, Some (ErrorString "could not read metric from OS"))
  | Ok (Some msg) => if bool_decide (Data msg = []) then (sr, None) else (send sr [msg], None)
  | Ok None => (sr, None)
  end.

Definition set_changes (md : DbConn) (cs : ChangeState) : DbConn :=
  let i := md_Info md in
  with_info md {|
    IsInRecovery := IsInRecovery i; VersionStr := VersionStr i; Version := Version i;
    RealDbname := RealDbname i; SystemIdentifier := SystemIdentifier i;
    IsSuperuser := IsSuperuser i; Extensions := Extensions i; ExecEnv := ExecEnv i;
    ApproxDbSize := ApproxDbSize i; RtChangeState := cs |}.

(** [fetchSpecialMetric]; [None] is a panic of a change detector. *)
Definition fetchSpecialMetric sr name (storageName : string) : option (DbConnReaper * option error) :=
  '(sr, data) ←
    (if bool_decide (name = specialMetricChangeEvents) then
       let md := sr_md sr in
       '(cs, data, out) ← GetObjectChangesMeasurement (metricDefs env) (map_order env)
          (Version (md_Info md)) (change_query env) (map_order env) (λ _, clock env name)
          (Name (md_Source md)) (SrcCustomTags (md_Source md)) (fmt_float env) (settings_query env)
          (clock env name) (RtChangeState (md_Info md));
       Some (send (set_md sr (set_changes md cs)) out, data)
     else if bool_decide (name = specialMetricInstanceUp) then
       Some (sr, GetInstanceUpMeasurement (clock env name) (ping_error env))
     else Some (sr, []));
  if bool_decide (data = []) then Some (sr, None)
  else Some ((sendEnvelope sr name storageName data).1, None).

(** ** One tick *)

(** [!lf.IsZero() && now.Sub(lf) < interval] makes a metric wait. *)
Definition is_due sr name (interval : Z) : bool :=
  (0 <? interval) &&
  negb (match lastFetch sr !! name with
        | Some lf => negb (time_IsZero lf) && (time_Sub (now env) lf <? interval)
        | None => false
        end).

(** The [default] branch: cache, version, degraded metrics, batch. *)
Definition handle_sql sr name metric : DbConnReaper * list batchEntry :=
  let '(sr, key) := cacheKey sr metric name in
  let '(cache, cached) := imc_Get (clock env name) (clock env name) (measurementCache sr) key (cacheAge env) in
  let sr := set_cache sr cache in
  if bool_decide (cached ≠ []) then
    (fetched_at (sendEnvelope sr name (StorageName metric) cached).1 name (clock env name), [])
  else
    let sql := GetSQL (map_order env) metric (Version (md_Info (sr_md sr))) in
    if bool_decide (sql = "") then (fetched_at sr name (clock env name), [])
    else
      let entry := {| metricName := name; be_metric := metric; be_sql := sql |} in
      if isDegraded sr name then
        let '(sr, err) := fetchMetric sr entry in
        let sr := match err with Some _ => sr | None => clearDegraded sr name end in
        (fetched_at sr name (clock env name), [])
      else (sr, [entry]).

(** One round of the loop over the active metrics. *)
Definition handle_metric sr name (interval : Z) : option (DbConnReaper * list batchEntry) :=
  if negb (is_due sr name interval) then Some (sr, [])
  else
    match metricDefs env !! name with
    | None => Some (sr, [])
    | Some metric =>
        if isRoleExcluded sr metric then Some (sr, [])
        else if bool_decide (name = specialMetricServerLogEventCounts) then
          Some (set_logParser sr true, [])
        else if IsDirectlyFetchableMetric name then
          Some (fetched_at (fetchOSMetric sr name).1 name (clock env name), [])
        else if bool_decide (name = specialMetricChangeEvents ∨ name = specialMetricInstanceUp) then
          '(sr, _) ← fetchSpecialMetric sr name (StorageName metric);
          Some (fetched_at sr name (clock env name), [])
        else Some (handle_sql sr name metric)
    end.

Fixpoint handle_metrics sr (metrics : list (string * Z)) : option (DbConnReaper * list batchEntry) :=
  match metrics with
  | [] => Some (sr, [])
  | (name, interval) :: metrics' =>
      '(sr, b1) ← handle_metric sr name interval;
      '(sr, b2) ← handle_metrics sr metrics';
      Some (sr, b1 ++ b2)
  end.

(** The batch: one round trip for PostgreSQL, one query after the other for poolers. *)
Definition run_batch sr (batch : list batchEntry) : DbConnReaper :=
  let sr :=
    if IsPostgresSource (md_Source (sr_md sr)) then (executeBatch sr batch).1
    else foldl (λ sr e, (fetchMetric sr e).1) sr batch in
  foldl (λ sr e, fetched_at sr (metricName e) (batch_end env)) sr batch.

(** The body of the loop of [Reap], after the refresh of the runtime information. *)
Definition reap_tick sr : option DbConnReaper :=
  '(sr, batch) ← handle_metrics sr (range (map_order env) (activeMetrics (sr_md sr)));
  Some (if bool_decide (length batch = 0%nat) then sr else run_batch sr batch).
End worker.

(** ** The tick divides the intervals *)

Lemma gcd_loop_gcd fuel g v :
  0 ≤ g → 0 ≤ v → (Z.to_nat v < fuel)%nat → gcd_loop fuel g v = Z.gcd g v.
Proof.
  revert g v. induction fuel as [|fuel IH]; intros g v Hg Hv Hf; [lia|]. simpl.
  destruct (Z.eqb_spec v 0) as [->|Hne]; [rewrite Z.gcd_0_r, Z.abs_eq; lia|].
  rewrite Z.rem_mod_nonneg by lia. assert (0 ≤ g `mod` v < v) by (apply Z.mod_pos_bound; lia).
  rewrite IH by lia. rewrite Z.gcd_comm, Z.gcd_mod by lia. apply Z.gcd_comm.
Qed.

Lemma GCDSlice_fold g vs :
  0 ≤ g → Forall (λ v, 0 ≤ v) vs →
  let r := foldl (λ g v, gcd_loop (S (Z.to_nat (Z.abs v))) g v) g vs in
  0 ≤ r ∧ (r | g) ∧ Forall (λ v, (r | v)) vs ∧ ∀ d, (d | g) → Forall (λ v, (d | v)) vs → (d | r).
Proof.
  revert g. induction vs as [|v vs IH]; intros g Hg Hvs; cbn [foldl].
  { split_and!; [done|done|constructor|done]. }
  apply Forall_cons in Hvs as [Hv Hvs]. rewrite gcd_loop_gcd by lia.
  destruct (IH (Z.gcd g v) (Z.gcd_nonneg g v) Hvs) as (H0 & H1 & H2 & H3).
  set (r := foldl _ _ _) in *. split_and!; [done| | |].
  - etrans; [exact H1|apply Z.gcd_divide_l].
  - constructor; [|done]. etrans; [exact H1|apply Z.gcd_divide_r].
  - intros d Hd [Hdv Hds]%Forall_cons. apply H3; [by apply Z.gcd_greatest|done].
Qed.

Lemma GCDSlice_spec vals :
  vals ≠ [] → Forall (λ v, 1 ≤ v) vals →
  1 ≤ GCDSlice vals ∧ Forall (λ v, (GCDSlice vals | v)) vals ∧
  ∀ d, Forall (λ v, (d | v)) vals → (d | GCDSlice vals).
Proof.
  destruct vals as [|g vs]; [done|]. intros _ [Hg Hvs]%Forall_cons.
  destruct (GCDSlice_fold g vs) as (H0 & H1 & H2 & H3).
  { lia. } { eapply Forall_impl; [exact Hvs|]. simpl. lia. }
  unfold GCDSlice. set (r := foldl _ _ _) in *. split_and!.
  - destruct (decide (r = 0)) as [Hr|]; [|lia]. rewrite Hr in H1. apply Z.divide_0_l in H1. lia.
  - by constructor.
  - intros d [Hd Hds]%Forall_cons. by apply H3.
Qed.

(** The tick is the gcd of the active intervals. *)
Lemma calcTickInterval_spec ro md :
  map_Forall (λ _ v, -9223372036 ≤ v ≤ 9223372036) (default ∅ (ActiveMetrics md)) →
  ∃ g, calcTickInterval ro md = g * time_Second ∧ 1 ≤ g ∧
    map_Forall (λ _ v, (g | Z.max v 1)) (default ∅ (ActiveMetrics md)) ∧
    ∀ d, (∃ name, is_Some (default ∅ (ActiveMetrics md) !! name)) →
      map_Forall (λ _ v, (d | Z.max v 1)) (default ∅ (ActiveMetrics md)) → (d | g).
Proof.
  intros Hrange. unfold calcTickInterval, activeMetrics.
  set (am := default ∅ (ActiveMetrics md)) in *.
  set (intervals := (λ p, Z.max (duration_Seconds p.2) minTickInterval) <$> range ro (seconds <$> am)).
  assert (∀ x, x ∈ intervals ↔ ∃ name v, am !! name = Some v ∧ x = Z.max v 1) as Hin.
  { intros x. unfold intervals. rewrite list_elem_of_fmap. split.
    - intros ([name d] & -> & Hp%elem_of_range). rewrite lookup_fmap_Some in Hp.
      destruct Hp as (v & <- & Hv). exists name, v. split; [done|]. simpl.
      specialize (Hrange _ _ Hv). simpl in Hrange. unfold duration_Seconds, minTickInterval, seconds.
      rewrite wrap64_id by (unfold in_int64, time_Second; lia). rewrite Z.quot_mul; [done|].
      unfold time_Second. lia.
    - intros (name & v & Hv & ->). exists (name, seconds v). split.
      + specialize (Hrange _ _ Hv). simpl in Hrange. simpl.
        unfold duration_Seconds, minTickInterval, seconds.
        rewrite wrap64_id by (unfold in_int64, time_Second; lia). rewrite Z.quot_mul; [done|].
        unfold time_Second. lia.
      + apply elem_of_range. rewrite lookup_fmap, Hv. done. }
  destruct (decide (intervals = [])) as [Hnil|Hne].
  - exists 1. rewrite Hnil. split_and!; [done|done| |].
    + intros name v Hv. apply Z.divide_1_l.
    + intros d [name [v Hv]] _. exfalso. assert (Z.max v 1 ∈ intervals) as Hx by (apply Hin; eauto).
      rewrite Hnil in Hx. by apply not_elem_of_nil in Hx.
  - destruct (GCDSlice_spec intervals Hne) as (H1 & H2 & H3).
    { apply Forall_forall. intros x (name & v & _ & ->)%Hin. lia. }
    exists (GCDSlice intervals). unfold minTickInterval.
    replace (Z.max (GCDSlice intervals) 1) with (GCDSlice intervals) by lia.
    assert (GCDSlice intervals ≤ 9223372036) as Hup.
    { destruct intervals as [|x xs] eqn:Ei; [done|]. apply Forall_cons in H2 as [Hx _].
      destruct (proj1 (Hin x)) as (name & v & Hv & ->); [by left|].
      specialize (Hrange _ _ Hv). simpl in Hrange. apply Z.divide_pos_le in Hx; lia. }
    rewrite Forall_forall in H2. split_and!.
    + apply seconds_small. lia.
    + done.
    + intros name v Hv. apply H2, Hin. eauto.
    + intros d _ Hd. apply H3, Forall_forall. intros x (name & v & Hv & ->)%Hin. by apply (Hd name v).
Qed.

(** C11.  The worker ticks at the greatest common divisor of the active intervals (counted as at
    least one second each): at least once a second apart, and at a divisor of every interval, so
    that every metric becomes due on a tick; a divisor of all intervals divides the tick. *)
Theorem calcTickInterval_gcd ro md :
  map_Forall (λ _ v, -9223372036 ≤ v ≤ 9223372036) (default ∅ (ActiveMetrics md)) →
  ∃ g, calcTickInterval ro md = g * time_Second ∧ 1 ≤ g ∧
    map_Forall (λ _ v, (g | Z.max v 1)) (default ∅ (ActiveMetrics md)) ∧
    ∀ d, (∃ name, is_Some (default ∅ (ActiveMetrics md) !! name)) →
      map_Forall (λ _ v, (d | Z.max v 1)) (default ∅ (ActiveMetrics md)) → (d | g).
Proof. apply calcTickInterval_spec. Qed.

(** ** What the steps of a tick leave alone *)

(** [sr'] differs from [sr] at most by what was sent, cached and learnt about restarts. *)
Definition keeps (sr sr' : DbConnReaper) : Prop :=
  lastFetch sr' = lastFetch sr ∧ degradedMetrics sr' = degradedMetrics sr ∧
  md_Source (sr_md sr') = md_Source (sr_md sr) ∧
  IsInRecovery (md_Info (sr_md sr')) = IsInRecovery (md_Info (sr_md sr)) ∧
  Version (md_Info (sr_md sr')) = Version (md_Info (sr_md sr)) ∧
  ∃ out, measurementCh sr' = measurementCh sr ++ out.

#[export] Instance keeps_refl : Reflexive keeps.
Proof. intros sr. split_and!; try done. exists []. by rewrite app_nil_r. Qed.

#[export] Instance keeps_trans : Transitive keeps.
Proof.
  intros a b c (?&?&?&?&?&o1&Ho1) (?&?&?&?&?&o2&Ho2). split_and!; try congruence.
  exists (o1 ++ o2). by rewrite Ho2, Ho1, app_assoc.
Qed.

Section keeps.
Context (env : surroundings).
Implicit Types (sr : DbConnReaper).

Lemma send_keeps sr es : keeps sr (send sr es).
Proof using Type. split_and!; try done. by exists es. Qed.
Hint Resolve send_keeps : pgwatch.

Lemma ParseConfig_info pc md :
  md_Info (ParseConfig pc md).1 = md_Info md ∧ md_Source (ParseConfig pc md).1 = md_Source md.
Proof using Type. unfold ParseConfig. by split_matches. Qed.

Lemma cacheKey_keeps sr metric name : keeps sr (cacheKey env sr metric name).1.
Proof using Type.
  unfold cacheKey, GetClusterIdentifier. destruct (_ && _); [|done].
  pose proof (ParseConfig_info (parse_config env) (sr_md sr)) as [Hi Hs].
  destruct (ParseConfig (parse_config env) (sr_md sr)) as [md err]. simpl in *.
  assert (keeps sr (set_md sr md)) as Hk.
  { split_and!; simpl; try congruence. exists []. by rewrite app_nil_r. }
  by destruct err, (md_ConnConfig md).
Qed.

Lemma set_cache_keeps sr c : keeps sr (set_cache sr c).
Proof using Type. split_and!; try done. exists []. by rewrite app_nil_r. Qed.
Hint Resolve set_cache_keeps : pgwatch.

Lemma set_uptime_keeps sr u : keeps sr (set_uptime sr u).
Proof using Type. split_and!; try done. exists []. by rewrite app_nil_r. Qed.
Hint Resolve set_uptime_keeps : pgwatch.

Lemma detectServerRestart_keeps sr t data : keeps sr (detectServerRestart sr t data).
Proof using Type.
  unfold detectServerRestart. destruct data as [|row data]; [done|].
  destruct (row !! _) as [[]|]; try done. case_match; [|auto with pgwatch].
  etrans; [apply set_uptime_keeps|apply send_keeps].
Qed.
Hint Resolve detectServerRestart_keeps : pgwatch.

(** Dispatching non-empty data sends it under the storage name of the metric. *)
Definition delivered (sr sr' : DbConnReaper) (metric : string) (rows : nat) : Prop :=
  ∃ pre post e, measurementCh sr' = measurementCh sr ++ pre ++ e :: post ∧
    DBName e = Name (md_Source (sr_md sr)) ∧ MetricName e = metric ∧ length (Data e) = rows.

Lemma dispatchMetricData_spec sr name metric data :
  keeps sr (dispatchMetricData env sr name metric data) ∧
  delivered sr (dispatchMetricData env sr name metric data)
    (storage_name (StorageName metric) name) (length data).
Proof using Type.
  unfold dispatchMetricData. pose proof (cacheKey_keeps sr metric name) as Hk.
  assert (measurementCh (cacheKey env sr metric name).1 = measurementCh sr) as Hch.
  { unfold cacheKey. destruct (_ && _); [|done]. by destruct (GetClusterIdentifier _ _). }
  destruct (cacheKey env sr metric name) as [sr1 key]. simpl in Hk, Hch.
  set (sr2 := if bool_decide (key ≠ "") then _ else sr1).
  assert (keeps sr1 sr2) as Hk2 by (unfold sr2; case_bool_decide; auto with pgwatch; reflexivity).
  assert (measurementCh sr2 = measurementCh sr) as Hch2 by (unfold sr2; by case_bool_decide).
  assert (keeps sr sr2) as Hk3 by (by etrans).
  destruct (sendEnvelope env sr2 name (StorageName metric) data) as [sr3 data3] eqn:E.
  injection E as <- <-. set (sr3 := send sr2 _). set (data3 := AddSysinfoToMeasurements _ _ _).
  assert (keeps sr sr3) as Hk4 by (etrans; [exact Hk3|apply send_keeps]).
  set (sr4 := if bool_decide (name = "db_stats") then _ else sr3).
  assert (keeps sr3 sr4) as Hk5 by (unfold sr4; case_bool_decide; auto with pgwatch; reflexivity).
  split; [by etrans|]. destruct Hk5 as (_&_&_&_&_&out&Hout).
  exists [], out, (envelope sr2 (storage_name (StorageName metric) name) data3).
  split_and!; [|by rewrite <-(proj1 (proj2 (proj2 Hk3)))|done|].
  - rewrite Hout. unfold sr3. simpl. by rewrite Hch2, <-app_assoc.
  - unfold data3, AddSysinfoToMeasurements. simpl. by rewrite length_fmap.
Qed.

Lemma CollectAndDispatch_keeps sr a name metric : keeps sr (CollectAndDispatch env sr a name metric).1.
Proof using Type.
  unfold CollectAndDispatch. destruct a as [e|e|rs]; [done..|]. case_bool_decide; [done|]. simpl.
  apply dispatchMetricData_spec.
Qed.

Lemma fetchMetric_keeps sr entry : keeps sr (fetchMetric env sr entry).1.
Proof using Type.
  unfold fetchMetric, fetchMetricOnce.
  pose proof (CollectAndDispatch_keeps sr (query_simple env (be_sql entry)) (metricName entry)
    (be_metric entry)) as Hk.
  destruct (query_simple env (be_sql entry)) as [e|e|rs]; [done|done|].
  destruct (CollectAndDispatch _ _ _ _ _) as [sr' [e|]]; done.
Qed.

Lemma fetchOSMetric_keeps sr name : keeps sr (fetchOSMetric env sr name).1.
Proof using Type.
  unfold fetchOSMetric. destruct (FetchStatsDirectlyFromOS env sr name) as [[msg|]|e]; simpl; try done.
  case_bool_decide; simpl; [done|auto with pgwatch].
Qed.

Lemma fetchSpecialMetric_keeps sr name sn sr' err :
  fetchSpecialMetric env sr name sn = Some (sr', err) → keeps sr sr'.
Proof using Type.
  unfold fetchSpecialMetric. intros H.
  destruct (if bool_decide (name = specialMetricChangeEvents) then _ else _) as [[sr1 data]|] eqn:E;
    simpl in H; [|done].
  assert (keeps sr sr1) as Hk.
  { destruct (bool_decide _) in E.
    - destruct (GetObjectChangesMeasurement _ _ _ _ _ _ _ _ _ _ _ _) as [[[cs d] out]|]; simplify_eq/=.
      split_and!; try done. by exists out.
    - destruct (bool_decide _) in E; by simplify_eq/=. }
  case_bool_decide; simplify_eq/=; [done|]. etrans; [exact Hk|apply send_keeps].
Qed.
End keeps.

(** ** Batches *)

#[global] Arguments CollectAndDispatch : simpl never.

Section batch.
Context (env : surroundings).
Implicit Types (sr : DbConnReaper) (e : batchEntry).

Definition is_query_error (a : answer) : Prop := ∃ err, a = QueryError err.
Definition simple_fails e : Prop := ∀ rs, query_simple env (be_sql e) ≠ Rows rs.

Lemma delivered_weaken sr sr1 sr2 sr3 metric n :
  keeps sr sr1 → delivered sr1 sr2 metric n → keeps sr2 sr3 → delivered sr sr3 metric n.
Proof using Type.
  intros (_&_&Hs&_&_&o1&Ho1) (pre & post & env' & Hch & Hdb & Hm & Hl) (_&_&_&_&_&o3&Ho3).
  exists (o1 ++ pre), (post ++ o3), env'. split_and!; [|congruence|done..].
  rewrite Ho3, Hch, Ho1. by rewrite <-!app_assoc.
Qed.

(** The entries that the first loop leaves for a retry. *)
Fixpoint to_retry (answers : nat → answer) (i : nat) (entries : list batchEntry) : list batchEntry :=
  match entries with
  | [] => []
  | e :: entries' =>
      match answers i with
      | QueryError _ => e :: to_retry answers (S i) entries'
      | _ => to_retry answers (S i) entries'
      end
  end.

Lemma elem_of_to_retry answers i entries e :
  e ∈ to_retry answers i entries ↔
    ∃ j, entries !! j = Some e ∧ is_query_error (answers (i + j)%nat).
Proof using Type.
  revert i. induction entries as [|e0 entries IH]; intros i; simpl.
  { split; [by intros ?%not_elem_of_nil|]. by intros (j & ? & _). }
  assert ((∃ j, (e0 :: entries) !! j = Some e ∧ is_query_error (answers (i + j)%nat)) ↔
          (e = e0 ∧ is_query_error (answers i)) ∨
          (∃ j, entries !! j = Some e ∧ is_query_error (answers (S i + j)%nat))) as ->.
  { split.
    - intros ([|j] & Hj & He); simpl in Hj.
      + left. rewrite Nat.add_0_r in He. by simplify_eq.
      + right. exists j. by replace (S i + j)%nat with (i + S j)%nat by lia.
    - intros [[-> He]|(j & Hj & He)].
      + exists 0%nat. by rewrite Nat.add_0_r.
      + exists (S j). by replace (i + S j)%nat with (S i + j)%nat by lia. }
  unfold is_query_error at 1. destruct (answers i) as [err|err|rs].
  - rewrite elem_of_cons, IH. naive_solver.
  - rewrite IH. naive_solver.
  - rewrite IH. naive_solver.
Qed.

Lemma batch_results_spec sr answers i entries :
  let '(sr', _, retries) := batch_results env sr answers i entries in
  keeps sr sr' ∧ retries = to_retry answers i entries ∧
  ∀ j e rs, entries !! j = Some e → answers (i + j)%nat = Rows rs → rs ≠ [] →
    delivered sr sr' (storage_name (StorageName (be_metric e)) (metricName e)) (length rs).
Proof using Type.
  revert sr i. induction entries as [|e entries IH]; intros sr i; simpl.
  { split_and!; [done|done|]. by intros j e rs Hj. }
  pose proof (CollectAndDispatch_keeps env sr (answers i) (metricName e) (be_metric e)) as Hk.
  destruct (answers i) as [err|err|rs] eqn:Ea.
  - specialize (IH sr (S i)). destruct (batch_results _ _ _ _ _) as [[sr' errs] retries].
    destruct IH as (Hk' & -> & Hd). split_and!; [done|done|].
    intros [|j] e' rs Hj Hans Hrs; simpl in Hj; [rewrite Nat.add_0_r in Hans; congruence|].
    apply (Hd j e' rs); [done| |done]. by replace (S i + j)%nat with (i + S j)%nat by lia.
  - specialize (IH sr (S i)). unfold CollectAndDispatch. simpl in IH |- *.
    destruct (batch_results _ _ _ _ _) as [[sr' errs] retries].
    destruct IH as (Hk' & -> & Hd). split_and!; [done|done|].
    intros [|j] e' rs Hj Hans Hrs; simpl in Hj; [rewrite Nat.add_0_r in Hans; congruence|].
    apply (Hd j e' rs); [done| |done]. by replace (S (i + j)) with (i + S j)%nat by lia.
  - destruct (CollectAndDispatch env sr (Rows rs) (metricName e) (be_metric e)) as [sr1 err] eqn:Ec.
    simpl in Hk. specialize (IH sr1 (S i)). destruct (batch_results _ _ _ _ _) as [[sr' errs] retries].
    destruct IH as (Hk' & -> & Hd). split_and!; [exact (transitivity Hk Hk')|done|].
    intros [|j] e' rs' Hj Hans Hrs; simpl in Hj.
    + rewrite Nat.add_0_r, Ea in Hans. simplify_eq. unfold CollectAndDispatch in Ec.
      rewrite bool_decide_eq_false_2 in Ec by (by destruct rs'). simplify_eq.
      eapply delivered_weaken; [reflexivity| |exact Hk'].
      rewrite <-(length_fmap (RowToMeasurement (clock env (metricName e'))) rs').
      apply dispatchMetricData_spec.
    + eapply delivered_weaken; [exact Hk| |reflexivity]. apply (Hd j e' rs'); [done| |done].
      by replace (S i + j)%nat with (i + S j)%nat by lia.
Qed.

Lemma fetchMetric_result sr e :
  (is_Some (fetchMetric env sr e).2 ↔ simple_fails e) ∧
  ∀ rs, query_simple env (be_sql e) = Rows rs → rs ≠ [] →
    delivered sr (fetchMetric env sr e).1 (storage_name (StorageName (be_metric e)) (metricName e))
      (length rs).
Proof using Type.
  unfold fetchMetric, fetchMetricOnce, CollectAndDispatch, simple_fails.
  destruct (query_simple env (be_sql e)) as [err|err|rs]; simpl; [by split; eauto..|].
  split.
  - split; [|intros Hf; exfalso; by apply (Hf rs)]. case_bool_decide; simpl; by intros [? [=]].
  - intros rs' [= <-] Hrs. rewrite bool_decide_eq_false_2 by (by destruct rs). simpl.
    rewrite <-(length_fmap (RowToMeasurement (clock env (metricName e))) rs).
    apply dispatchMetricData_spec.
Qed.

(** Everything but the degraded set is kept by a retry. *)
Definition keeps_but_degraded sr sr' : Prop := keeps (set_degraded sr ∅) (set_degraded sr' ∅).

#[local] Instance keeps_but_degraded_preorder : PreOrder keeps_but_degraded.
Proof using Type.
  split; [intros sr; unfold keeps_but_degraded; reflexivity|].
  intros a b c. unfold keeps_but_degraded. apply transitivity.
Qed.

Lemma batch_retries_spec sr errs entries :
  let sr' := (batch_retries env sr errs entries).1 in
  keeps_but_degraded sr sr' ∧
  (∀ name, name ∈ degradedMetrics sr' ↔
     name ∈ degradedMetrics sr ∨ ∃ e, e ∈ entries ∧ metricName e = name ∧ simple_fails e) ∧
  ∀ e rs, e ∈ entries → query_simple env (be_sql e) = Rows rs → rs ≠ [] →
    delivered sr sr' (storage_name (StorageName (be_metric e)) (metricName e)) (length rs).
Proof using Type.
  revert sr errs. induction entries as [|e entries IH]; intros sr errs; simpl.
  { split_and!; [done| |by intros e rs ?%not_elem_of_nil].
    intros name. split; [by left|]. intros [?|(e & ?%not_elem_of_nil & _)]; done. }
  pose proof (fetchMetric_keeps env sr e) as Hk. pose proof (fetchMetric_result sr e) as [Hf Hd].
  destruct (fetchMetric env sr e) as [sr1 err]. simpl in Hk, Hf, Hd.
  set (sr2 := match err with Some _ => markDegraded sr1 (metricName e) | None => sr1 end).
  set (errs2 := match err with
    | Some _ => errors_Join [errs; Some (ErrorString ("failed to fetch metric " +:+ metricName e))]
    | None => errs end).
  assert ((batch_retries env sr2 errs2 entries).1 =
    (match err with
     | Some _ => batch_retries env (markDegraded sr1 (metricName e))
          (errors_Join [errs; Some (ErrorString ("failed to fetch metric " +:+ metricName e))]) entries
     | None => batch_retries env sr1 errs entries end).1) as <- by (by destruct err).
  destruct (IH sr2 errs2) as (Hk' & Hdeg & Hdel).
  assert (keeps_but_degraded sr sr2) as Hk2.
  { destruct Hk as (?&?&?&?&?&?). unfold sr2. by destruct err; split_and!. }
  assert (∀ name, name ∈ degradedMetrics sr2 ↔
    name ∈ degradedMetrics sr ∨ (metricName e = name ∧ simple_fails e)) as Hd2.
  { intros name. destruct Hk as (_ & Hdg & _). unfold sr2. destruct err as [err|].
    - assert (simple_fails e) by (apply Hf; eauto). simpl. rewrite Hdg. set_solver.
    - assert (¬ simple_fails e) by (intros ?%Hf; by destruct H). rewrite Hdg. tauto. }
  assert (keeps_but_degraded sr (batch_retries env sr2 errs2 entries).1) as Hk3 by (by etrans).
  split_and!; [done| |].
  - intros name. rewrite Hdeg, Hd2. setoid_rewrite elem_of_cons. naive_solver.
  - intros e' rs [->|Hin]%elem_of_cons Hq Hrs.
    + specialize (Hd rs Hq Hrs). destruct Hd as (pre & post & m & Hch & ?).
      destruct Hk' as (_&_&_&_&_&out&Hout). simpl in Hout.
      assert (measurementCh sr2 = measurementCh sr1) as Hc by (unfold sr2; by destruct err).
      exists pre, (post ++ out), m. split; [|done]. rewrite Hout, Hc, Hch. by rewrite <-!app_assoc.
    + destruct (Hdel e' rs Hin Hq Hrs) as (pre & post & m & Hch & Hdb & ?).
      destruct Hk2 as (_&_&Hsrc&_&_&out&Hout). simpl in Hout, Hsrc.
      exists (out ++ pre), post, m. split_and!; [|congruence|tauto..].
      rewrite Hch, Hout. by rewrite <-!app_assoc.
Qed.

(** C9.  A failing query of a batch affects its own metric only.  Every entry whose query returns
    rows, in the batch or, if the batch broke off before it, in its retry, has them sent under its
    storage name; the metrics that become degraded are exactly those that failed in the batch and
    again on their own. *)
Theorem executeBatch_isolates sr entries :
  let answers := query_batch env (be_sql <$> entries) in
  let sr' := (executeBatch env sr entries).1 in
  (∀ i e rs, entries !! i = Some e → rs ≠ [] →
     answers i = Rows rs ∨ (is_query_error (answers i) ∧ query_simple env (be_sql e) = Rows rs) →
     delivered sr sr' (storage_name (StorageName (be_metric e)) (metricName e)) (length rs)) ∧
  (∀ name, name ∈ degradedMetrics sr' ↔
     name ∈ degradedMetrics sr ∨
     ∃ i e, entries !! i = Some e ∧ metricName e = name ∧ is_query_error (answers i) ∧ simple_fails e) ∧
  lastFetch sr' = lastFetch sr.
Proof using Type.
  intros answers. unfold executeBatch. fold answers.
  pose proof (batch_results_spec sr answers 0 entries) as Hres.
  destruct (batch_results env sr answers 0 entries) as [[sr1 errs] retries].
  destruct Hres as (Hk1 & -> & Hd1).
  destruct (batch_retries_spec sr1 errs (to_retry answers 0 entries)) as (Hk2 & Hdeg & Hd2).
  set (sr' := (batch_retries env sr1 errs _).1) in *. split_and!.
  - intros i e rs Hi Hrs [Hans|[Hans Hq]].
    + destruct (Hd1 i e rs Hi Hans Hrs) as (pre & post & m & Hch & ?).
      destruct Hk2 as (_&_&_&_&_&out&Hout). simpl in Hout.
      exists pre, (post ++ out), m. split; [|done]. rewrite Hout, Hch. by rewrite <-!app_assoc.
    + eapply delivered_weaken; [exact Hk1| |reflexivity]. apply Hd2; [|done..].
      apply elem_of_to_retry. eauto.
  - intros name. rewrite Hdeg. destruct Hk1 as (_ & -> & _).
    setoid_rewrite elem_of_to_retry. simpl. naive_solver.
  - destruct Hk1 as (Hl & _). destruct Hk2 as (Hl2 & _). simpl in Hl2. congruence.
Qed.
End batch.

(** ** When a metric is fetched *)

Section due.
Context (env : surroundings).
Implicit Types (sr : DbConnReaper).

(** The metric was never fetched, or at least an interval ago. *)
Definition interval_passed sr (name : string) (interval : Z) : Prop :=
  0 < interval ∧
  match lastFetch sr !! name with
  | Some lf => lf = zero_time ∨ interval ≤ time_Sub (now env) lf
  | None => True
  end.

#[export] Instance interval_passed_dec sr name interval : Decision (interval_passed sr name interval).
Proof. unfold interval_passed. destruct (lastFetch sr !! name); apply _. Defined.

Lemma is_due_iff sr name interval :
  is_due env sr name interval = true ↔ interval_passed sr name interval.
Proof using Type.
  unfold is_due, interval_passed, time_IsZero. rewrite andb_true_iff, negb_true_iff, Z.ltb_lt.
  destruct (lastFetch sr !! name) as [lf|]; [|naive_solver].
  rewrite andb_false_iff, negb_false_iff, Z.eqb_eq, Z.ltb_ge. naive_solver.
Qed.

(** The tick handles the metric: its interval has passed, it is known, applicable to the role of the
    server, and not the log parser, which runs on its own. *)
Definition scheduled sr (name : string) (interval : Z) : Prop :=
  interval_passed sr name interval ∧ name ≠ specialMetricServerLogEventCounts ∧
  ∃ metric, metricDefs env !! name = Some metric ∧ isRoleExcluded sr metric = false.

#[export] Instance scheduled_dec sr name interval : Decision (scheduled sr name interval).
Proof.
  unfold scheduled. destruct (metricDefs env !! name) as [metric|]; [|right; naive_solver].
  destruct (decide (interval_passed sr name interval ∧ name ≠ specialMetricServerLogEventCounts ∧
    isRoleExcluded sr metric = false)); [left|right]; naive_solver.
Defined.

(** The role and version stay as they are during a tick. *)
Definition same_server sr sr' : Prop :=
  md_Source (sr_md sr') = md_Source (sr_md sr) ∧
  IsInRecovery (md_Info (sr_md sr')) = IsInRecovery (md_Info (sr_md sr)).

Lemma keeps_same sr sr' : keeps sr sr' → same_server sr sr' ∧ lastFetch sr' = lastFetch sr.
Proof using Type. by intros (?&_&?&?&_). Qed.

Lemma handle_sql_spec sr name metric :
  let '(sr', b) := handle_sql env sr name metric in
  same_server sr sr' ∧
  ((b = [] ∧ lastFetch sr' = <[name := clock env name]> (lastFetch sr)) ∨
   (∃ e, b = [e] ∧ metricName e = name ∧ lastFetch sr' = lastFetch sr)).
Proof using Type.
  unfold handle_sql. pose proof (cacheKey_keeps env sr metric name) as Hk.
  destruct (cacheKey env sr metric name) as [sr1 key]. simpl in Hk.
  destruct (imc_Get _ _ _ _ _) as [cache cached].
  assert (keeps sr (set_cache sr1 cache)) as Hk1 by (etrans; [exact Hk|apply set_cache_keeps]).
  set (sr2 := set_cache sr1 cache) in *. apply keeps_same in Hk1 as [Hs Hl].
  case_bool_decide; [|case_bool_decide; [|destruct (isDegraded sr2 name)]].
  - split; [done|]. left. split; [done|]. simpl. simpl in Hl. by rewrite Hl.
  - split; [done|]. left. split; [done|]. simpl in Hl |- *. by rewrite Hl.
  - set (entry := {| metricName := name; be_metric := metric; be_sql := _ |}).
    pose proof (fetchMetric_keeps env sr2 entry) as Hf.
    destruct (fetchMetric env sr2 entry) as [sr3 err]. apply keeps_same in Hf as [[Hs1 Hs2] Hl3].
    destruct Hs as [Hsa Hsb]. unfold sr2 in Hs1, Hs2, Hl3, Hsa, Hsb, Hl.
    simpl in Hs1, Hs2, Hl3, Hsa, Hsb, Hl.
    destruct err; (split; [split; simpl; congruence|left; split; [done|]; simpl; by rewrite Hl3, Hl]).
  - split; [done|]. right. eexists. split_and!; [done|done|]. exact Hl.
Qed.

Lemma handle_metric_spec sr name interval sr' b :
  handle_metric env sr name interval = Some (sr', b) →
  same_server sr sr' ∧
  ((¬ scheduled sr name interval ∧ b = [] ∧ lastFetch sr' = lastFetch sr) ∨
   (scheduled sr name interval ∧ b = [] ∧
    lastFetch sr' = <[name := clock env name]> (lastFetch sr)) ∨
   (scheduled sr name interval ∧ (∃ e, b = [e] ∧ metricName e = name) ∧ lastFetch sr' = lastFetch sr)).
Proof using Type.
  unfold handle_metric. intros H. destruct (is_due env sr name interval) eqn:Ed; simpl in H.
  2: { simplify_eq. split; [done|]. left. split_and!; [|done..]. intros [Hd%is_due_iff _]. congruence. }
  apply is_due_iff in Ed.
  destruct (metricDefs env !! name) as [metric|] eqn:Em.
  2: { simplify_eq. split; [done|]. left. split_and!; [|done..]. intros (_ & _ & m & Hm & _). congruence. }
  destruct (isRoleExcluded sr metric) eqn:Er.
  { simplify_eq. split; [done|]. left. split_and!; [|done..]. intros (_ & _ & m & Hm & Hr). congruence. }
  case_bool_decide as Hlog.
  { simplify_eq. split; [done|]. left. split_and!; [|done..]. intros (_ & Hn & _). by apply Hn. }
  assert (scheduled sr name interval) as Hsch by (split_and!; eauto).
  destruct (IsDirectlyFetchableMetric env name).
  { simplify_eq. pose proof (fetchOSMetric_keeps env sr name) as Hk. apply keeps_same in Hk as [Hs Hl].
    split; [done|]. right; left. split_and!; [done|done|]. simpl. by rewrite Hl. }
  case_bool_decide.
  { destruct (fetchSpecialMetric env sr name (StorageName metric)) as [[sr1 err]|] eqn:Es; simplify_eq/=.
    apply fetchSpecialMetric_keeps, keeps_same in Es as [Hs Hl].
    split; [done|]. right; left. split_and!; [done|done|]. simpl. by rewrite Hl. }
  injection H as H. pose proof (handle_sql_spec sr name metric) as Hq. rewrite H in Hq.
  destruct Hq as [Hs [[-> Hl]|(e & -> & Hn & Hl)]]; (split; [done|]); right; [left|right].
  - by split_and!.
  - split_and!; [done|by exists e|done].
Qed.

(** Handling other metrics does not change whether a metric is scheduled. *)
Lemma scheduled_frame sr sr' name interval :
  same_server sr sr' → lastFetch sr' !! name = lastFetch sr !! name →
  scheduled sr' name interval ↔ scheduled sr name interval.
Proof using Type.
  intros [_ Hr] Hl. unfold scheduled, interval_passed, isRoleExcluded. by rewrite Hl, Hr.
Qed.

Lemma handle_metrics_spec metrics sr sr' batch :
  handle_metrics env sr metrics = Some (sr', batch) → NoDup metrics.*1 →
  same_server sr sr' ∧
  (∀ e, e ∈ batch → ∃ interval, (metricName e, interval) ∈ metrics ∧ scheduled sr (metricName e) interval) ∧
  (∀ name, name ∉ metrics.*1 → lastFetch sr' !! name = lastFetch sr !! name) ∧
  ∀ name interval, (name, interval) ∈ metrics →
    if decide (scheduled sr name interval)
    then name ∈ metricName <$> batch ∨ lastFetch sr' !! name = Some (clock env name)
    else lastFetch sr' !! name = lastFetch sr !! name.
Proof using Type.
  revert sr batch. induction metrics as [|[name0 i0] metrics IH]; intros sr batch H Hnd; simpl in H.
  { simplify_eq. split_and!; [done|set_solver|done|set_solver]. }
  csimpl in Hnd. apply NoDup_cons in Hnd as [Hfresh Hnd].
  destruct (handle_metric env sr name0 i0) as [[sr1 b1]|] eqn:E1; simpl in H; [|done].
  destruct (handle_metrics env sr1 metrics) as [[sr2 b2]|] eqn:E2; simpl in H; [|done].
  injection H as <- <-. destruct (handle_metric_spec _ _ _ _ _ E1) as [Hs1 Hcase].
  destruct (IH sr1 b2 E2 Hnd) as (Hs2 & Hb2 & Hother & Hall).
  assert (∀ name, name ≠ name0 → lastFetch sr1 !! name = lastFetch sr !! name) as Hl1.
  { intros name Hne. destruct Hcase as [(_&_&->)|[(_&_&->)|(_&_&->)]]; [done| |done].
    by rewrite lookup_insert_ne. }
  assert (∀ name interval, (name, interval) ∈ metrics → name ≠ name0) as Hne.
  { intros name interval Hin ->. apply Hfresh. by apply (list_elem_of_fmap_2 fst) in Hin. }
  split_and!.
  - destruct Hs1, Hs2. split; congruence.
  - intros e [Hin|Hin]%elem_of_app.
    + destruct Hcase as [(_&->&_)|[(_&->&_)|(Hsch&(e'&->&Hn)&_)]]; [set_solver..|].
      apply list_elem_of_singleton in Hin as ->. exists i0. rewrite Hn. split; [by left|done].
    + destruct (Hb2 e Hin) as (interval & Hin' & Hsch). exists interval. split; [by right|].
      apply (scheduled_frame sr sr1); [done| |done]. apply Hl1. by eapply Hne.
  - intros name [Hn0 Hn]%not_elem_of_cons. rewrite Hother by done. by apply Hl1.
  - intros name interval [[= -> ->]|Hin]%elem_of_cons.
    + rewrite Hother by done. destruct Hcase as [(Hn&_&->)|[(Hy&_&->)|(Hy&(e&->&<-)&->)]].
      * by rewrite decide_False.
      * rewrite decide_True by done. right. by rewrite lookup_insert_eq.
      * rewrite decide_True by done. left. csimpl. by left.
    + specialize (Hall name interval Hin). rewrite <-(Hl1 name) by (by eapply Hne).
      destruct (decide (scheduled sr name interval)) as [Hy|Hn].
      * rewrite decide_True in Hall.
        -- destruct Hall as [Hin'|?]; [left; rewrite fmap_app; apply elem_of_app; by right|by right].
        -- apply (scheduled_frame sr sr1); [done| |done]. apply Hl1. by eapply Hne.
      * rewrite decide_False in Hall; [done|]. intros Hy. apply Hn.
        apply (scheduled_frame sr sr1); [done| |done]. apply Hl1. by eapply Hne.
Qed.

Lemma foldl_fetched sr (batch : list batchEntry) t :
  lastFetch (foldl (λ sr e, fetched_at sr (metricName e) t) sr batch) =
  foldl (λ m e, <[metricName e := t]> m) (lastFetch sr) batch.
Proof using Type. revert sr. induction batch as [|e batch IH]; intros sr; simpl; [done|]. by rewrite IH. Qed.

Lemma foldl_insert_lookup (batch : list batchEntry) (m : gmap string Z) t name :
  foldl (λ m e, <[metricName e := t]> m) m batch !! name =
    if decide (name ∈ metricName <$> batch) then Some t else m !! name.
Proof using Type.
  revert m. induction batch as [|e batch IH]; intros m; csimpl; [done|]. rewrite IH.
  destruct (decide (name = metricName e)) as [->|Hne].
  - rewrite lookup_insert_eq. rewrite (decide_True (P := metricName e ∈ _ :: _)) by (by left).
    by case_decide.
  - rewrite lookup_insert_ne by done. by repeat case_decide; set_solver.
Qed.

Lemma run_batch_fetched sr batch name :
  lastFetch (run_batch env sr batch) !! name =
    if decide (name ∈ metricName <$> batch) then Some (batch_end env) else lastFetch sr !! name.
Proof using Type.
  unfold run_batch. rewrite foldl_fetched, foldl_insert_lookup. case_decide; [done|].
  destruct (IsPostgresSource _).
  - unfold executeBatch. pose proof (batch_results_spec env sr (query_batch env (be_sql <$> batch)) 0 batch) as Hr.
    destruct (batch_results _ _ _ _ _) as [[sr1 errs] retries]. destruct Hr as ((Hl & _) & _ & _).
    destruct (batch_retries_spec env sr1 errs retries) as ((Hl' & _) & _). simpl in Hl'. by rewrite Hl', Hl.
  - clear. f_equal. revert sr. induction batch as [|e batch IH]; intros sr; simpl; [done|]. rewrite IH.
    by destruct (fetchMetric_keeps env sr e) as (-> & _).
Qed.

Lemma handle_metrics_returns metrics sr :
  specialMetricChangeEvents ∉ metrics.*1 → is_Some (handle_metrics env sr metrics).
Proof using Type.
  revert sr. induction metrics as [|[name i] metrics IH]; intros sr Hn; simpl; [by eexists|].
  csimpl in Hn. apply not_elem_of_cons in Hn as [Hne Hn].
  assert (is_Some (handle_metric env sr name i)) as [[sr1 b] ->].
  { unfold handle_metric, fetchSpecialMetric. rewrite (bool_decide_eq_false_2 (name = specialMetricChangeEvents)) by done.
    repeat (case_match; try by eexists); simplify_option_eq; by eexists. }
  simpl. destruct (IH sr1 Hn) as [[sr2 b2] ->]. by eexists.
Qed.

Lemma reap_tick_fetched sr sr' :
  reap_tick env sr = Some sr' →
  ∀ name,
    match activeMetrics (sr_md sr) !! name with
    | Some interval =>
        if decide (scheduled sr name interval)
        then lastFetch sr' !! name = Some (clock env name) ∨ lastFetch sr' !! name = Some (batch_end env)
        else lastFetch sr' !! name = lastFetch sr !! name
    | None => lastFetch sr' !! name = lastFetch sr !! name
    end.
Proof using Type.
  unfold reap_tick. intros H name.
  destruct (handle_metrics env sr _) as [[sr1 batch]|] eqn:E; simpl in H; [|done]. injection H as <-.
  destruct (handle_metrics_spec _ _ _ _ E (NoDup_range_keys _ _)) as (_ & Hb & Hother & Hall).
  set (sr2 := if bool_decide (length batch = 0%nat) then sr1 else _).
  assert (lastFetch sr2 !! name = if decide (name ∈ metricName <$> batch) then Some (batch_end env)
                                  else lastFetch sr1 !! name) as Hl.
  { unfold sr2. case_bool_decide as Hlen; [|apply run_batch_fetched].
    apply nil_length_inv in Hlen as ->. by rewrite decide_False by (by intros ?%not_elem_of_nil). }
  assert (∀ interval, activeMetrics (sr_md sr) !! name = Some interval ↔
            (name, interval) ∈ range (map_order env) (activeMetrics (sr_md sr))) as Hrange
    by (intros; by rewrite elem_of_range).
  assert (name ∈ metricName <$> batch → ∃ interval,
    activeMetrics (sr_md sr) !! name = Some interval ∧ scheduled sr name interval) as Hbatch.
  { intros (e & -> & He)%list_elem_of_fmap. destruct (Hb e He) as (i & Hi & Hs). exists i.
    by rewrite Hrange. }
  destruct (activeMetrics (sr_md sr) !! name) as [interval|] eqn:Ea.
  - specialize (Hall name interval (proj1 (Hrange interval) eq_refl)).
    destruct (decide (scheduled sr name interval)) as [Hy|Hn].
    + rewrite Hl. case_decide; [by right|left]. by destruct Hall.
    + rewrite Hl, decide_False; [done|]. intros (i & [= <-] & Hs)%Hbatch. done.
  - rewrite Hl, decide_False; [|by intros (i & ? & _)%Hbatch]. apply Hother. intros Hin.
    apply (elem_of_range_keys (map_order env)) in Hin as [i Hi]. congruence.
Qed.

End due.

(** ** Example *)

Definition sql_env : surroundings := {|
  metricDefs := {["wal" := sample_metric; "bgw" := sql_metric "select bgw"; "locks" := sql_metric "select locks"]};
  cacheAge := 0; RealDbnameField := "real_dbname"; SystemIdentifierField := "sys_id";
  parse_config := λ _, Err (ErrorString "unused");
  query_simple := λ sql, if bool_decide (sql = "select locks")
                         then QueryError (ErrorString "permission denied") else Rows [[("n", VInt64 1)]];
  query_batch := λ _ i, if bool_decide (i = 0%nat) then Rows [[("n", VInt64 1)]]
                        else QueryError (ErrorString "aborted");
  change_query := λ _, Err (ErrorString "unused"); settings_query := λ _, Err (ErrorString "unused");
  ping_error := None; same_host := false; os_stats := λ _, Err (ErrorString "unused");
  fmt_float := λ _, "float"; now := 1000 * time_Second; clock := λ _, 1001 * time_Second;
  batch_end := 1002 * time_Second; map_order := tree_order |}.

Definition sample_conn : DbConn :=
  with_source (NewDbConn (sample_source "db"))
    (set_metrics (with_kind (sample_source "db") SourcePostgres)
       (Some {["wal" := 60; "bgw" := 90; "locks" := 30; "unknown" := 10]}) None).

Definition sample_worker : DbConnReaper :=
  fetched_at (NewDbConnReaper ∅ sample_conn) "wal" (950 * time_Second).

(** [wal] is not due yet; of the two others, [locks] fails and becomes degraded. *)
Example sample_tick :
  match reap_tick sql_env sample_worker with
  | Some sr => (MetricName <$> measurementCh sr, elements (degradedMetrics sr), lastFetch sr !! "wal")
  | None => ([], [], None)
  end = (["bgw"], ["locks"], Some (950 * time_Second)).
Proof. vm_compute. reflexivity. Qed.

Lemma calcTickInterval_gcd_witness :
  ∃ g, calcTickInterval tree_order sample_conn = g * time_Second ∧ 1 ≤ g ∧
    map_Forall (λ _ v, (g | Z.max v 1)) (default ∅ (ActiveMetrics sample_conn)) ∧
    ∀ d, (∃ name, is_Some (default ∅ (ActiveMetrics sample_conn) !! name)) →
      map_Forall (λ _ v, (d | Z.max v 1)) (default ∅ (ActiveMetrics sample_conn)) → (d | g).
Proof.
  apply (calcTickInterval_gcd tree_order sample_conn). apply (bool_decide_unpack _). vm_compute. exact I.
Defined.

Definition sample_worker_after : DbConnReaper :=
  default sample_worker (reap_tick sql_env sample_worker).

