(* ===== verification/RowTypes.v ===== *)
(** * Values that can be stored ([internal/metrics/types.go], [internal/reaper/database.go])

    JSON has no numbers for the infinities and for [NaN].  Rows of query results are scanned with
    [sanitizeValue], which replaces them.  This file follows rows from the scan through change
    detection, the instance-level cache and the worker, and shows that what a worker sends can be
    written as JSON, provided that the measurements of the operating system can. *)

From Stdlib Require Import SpecFloat.
From S2P Require Import Prelude GoStrings Metrics Sources Changes Conn InstanceCache Scheduler.
From stdpp Require Import options.

Local Open Scope Z_scope.

(** ** The type of a row *)

Definition json_value (v : value) : Prop :=
  match v with VFloat64 f | VFloat32 f => math_IsNaN f || math_IsInf f = false | _ => True end.

#[export] Instance json_value_dec v : Decision (json_value v).
Proof. destruct v; simpl; apply _. Defined.

Definition json_row (m : Measurement) : Prop := map_Forall (λ _ v, json_value v) m.
Definition json_rows (ms : Measurements) : Prop := Forall json_row ms.
(** Envelopes with such rows, under names that satisfy [Pn]. *)
Definition json_envelopes (Pn : string → Prop) (es : list MeasurementEnvelope) : Prop :=
  Forall (λ e, json_rows (Data e) ∧ Pn (MetricName e)) es.
Definition json_cache (c : InstanceMetricCache) : Prop := map_Forall (λ _ ms, json_rows ms) c.

Create HintDb json.

Lemma json_row_insert k v m : json_value v → json_row m → json_row (<[k := v]> m).
Proof. intros Hv Hm. by apply map_Forall_insert_2. Qed.
#[export] Hint Resolve json_row_insert : json.

Lemma json_value_string s : json_value (VString s).
Proof. done. Qed.
Lemma json_value_int64 z : json_value (VInt64 z).
Proof. done. Qed.
Lemma json_value_int z : json_value (VInt z).
Proof. done. Qed.
#[export] Hint Resolve json_value_string json_value_int64 json_value_int : json.

Lemma json_row_new t : json_row (NewMeasurement t).
Proof. by apply map_Forall_singleton. Qed.
#[export] Hint Resolve json_row_new : json.

Lemma json_rows_nil : json_rows [].
Proof. constructor. Qed.
Lemma json_rows_cons m ms : json_row m → json_rows ms → json_rows (m :: ms).
Proof. by constructor. Qed.
Lemma json_rows_app ms ms' : json_rows ms → json_rows ms' → json_rows (ms ++ ms').
Proof. intros. by apply Forall_app. Qed.
#[export] Hint Resolve json_rows_nil json_rows_cons json_rows_app : json.

(** ** Scanning *)

Lemma sanitizeValue_json v : json_value (sanitizeValue v).
Proof. destruct v; simpl; try done; destruct (_ || _) eqn:E; done. Qed.
#[export] Hint Resolve sanitizeValue_json : json.

Lemma RowToMeasurement_json t row : json_row (RowToMeasurement t row).
Proof.
  unfold RowToMeasurement, ScanRow. generalize (json_row_new t). generalize (NewMeasurement t).
  induction row as [|[n v] row IH]; intros m Hm; simpl; auto with json.
Qed.
#[export] Hint Resolve RowToMeasurement_json : json.

Lemma QueryMeasurements_json answer clk cause sql data :
  QueryMeasurements answer clk cause sql = Ok data → json_rows data.
Proof.
  unfold QueryMeasurements. intros H. split_matches. apply Forall_lookup. intros i m Hm.
  rewrite list_lookup_imap in Hm. destruct (_ !! i); simplify_eq/=. apply RowToMeasurement_json.
Qed.

Lemma GetEpoch_json t ms : json_rows ms → json_rows (GetEpoch t ms).2.
Proof.
  destruct ms as [|m ms]; [done|]. intros [Hm Hms]%Forall_cons. simpl. unfold Measurement_GetEpoch.
  destruct (m !! EpochColumnName) as [[]|]; simpl; auto with json.
Qed.
#[export] Hint Resolve GetEpoch_json : json.

Lemma Touch_json t ms : json_rows ms → json_rows (Touch t ms).
Proof. intros H. apply Forall_fmap. eapply Forall_impl; [exact H|]. simpl. auto with json. Qed.
#[export] Hint Resolve Touch_json : json.

(** ** Change detection *)

Lemma json_marked (marked : list (Measurement * bool)) :
  json_rows marked.*1 → json_rows (marked ≫= λ '(row, mark), if mark : bool then [row] else []).
Proof.
  induction marked as [|[m b] marked IH]; simpl; [done|]. intros [Hm Hms]%Forall_cons.
  destruct b; simpl; [apply json_rows_cons|]; auto.
Qed.

Lemma json_zip_marked ms (bs : list bool) :
  json_rows ms → json_rows (zip ms bs ≫= λ '(row, mark), if mark : bool then [row] else []).
Proof.
  intros H. apply json_marked. revert bs. induction H as [|m ms Hm Hms IH]; intros [|b bs]; simpl; auto with json.
Qed.
#[export] Hint Resolve json_marked json_zip_marked : json.

Lemma scan_rows_json ident hash fr state data state' marked c a :
  json_rows data → scan_rows ident hash fr state data = Some (state', marked, c, a) → json_rows marked.*1.
Proof.
  intros H. revert state state' marked c a. induction H as [|m ms Hm Hms IH]; intros state state' marked c a Hs; simpl in Hs.
  { simplify_eq. constructor. }
  destruct (ident m) as [i|]; [|done]. destruct (hash m) as [h|]; [|done]. simpl in Hs.
  destruct (state !! i); [case_bool_decide|];
    (destruct (scan_rows _ _ _ _ ms) as [[[[? ?] ?] ?]|] eqn:E; [|done]); apply IH in E; simpl in Hs;
    try destruct fr; simplify_eq/=; auto with json.
Qed.

Lemma scan_grants_json ff fr state data state' marked c cur :
  json_rows data → scan_grants ff fr state data = (state', marked, c, cur) → json_rows marked.*1.
Proof.
  intros H. revert state state' marked c cur.
  induction H as [|m ms Hm Hms IH]; intros state state' marked c cur Hs; simpl in Hs.
  { simplify_eq. constructor. }
  destruct fr; [|destruct (state !! _)]; destruct (scan_grants _ _ _ ms) as [[[? ?] ?] ?] eqn:E; apply IH in E;
    simplify_eq/=; auto with json.
Qed.

(** A report of a dropped object. *)
Definition json_drop (drop_row : string → Measurement → option Measurement) : Prop :=
  ∀ i m m', json_row m → drop_row i m = Some m' → json_row m'.

Lemma scan_dropped_json drop_row clk cur stored rows rows' entries gone :
  json_drop drop_row → json_rows rows → scan_dropped drop_row clk cur stored rows = Some (rows', entries, gone) →
  json_rows rows' ∧ json_rows entries.
Proof.
  intros Hd. revert rows rows' entries gone. induction stored as [|i stored IH]; intros rows rows' entries gone Hr Hs; simpl in Hs.
  { simplify_eq. split; [done|constructor]. }
  case_bool_decide; [by eapply IH|]. pose proof (GetEpoch_json (clk (length stored)) rows Hr) as Hg.
  destruct (GetEpoch _ rows) as [epoch rows1]. destruct (drop_row i _) as [entry|] eqn:Ed; [|done]. simpl in Hs.
  destruct (scan_dropped _ _ _ stored rows1) as [[[? ?] ?]|] eqn:E; [|done]. simplify_eq/=.
  apply IH in E as [? ?]; [|done]. split; [done|]. constructor; [|done]. eapply Hd; [|exact Ed]. apply json_row_new.
Qed.

Lemma sproc_drop_json : json_drop sproc_drop.
Proof.
  intros i m m' Hm. unfold sproc_drop. destruct (_ !! 0%nat); [|done]. destruct (_ !! 1%nat); [|done]. simpl.
  intros. simplify_eq. auto with json.
Qed.
Lemma table_drop_json : json_drop table_drop.
Proof. intros i m m' Hm. unfold table_drop. intros. simplify_eq. auto with json. Qed.
Lemma index_drop_json : json_drop index_drop.
Proof. intros i m m' Hm. unfold index_drop. intros. simplify_eq. auto with json. Qed.
Lemma priv_drop_json : json_drop priv_drop.
Proof.
  intros i m m' Hm. unfold priv_drop. destruct (_ !! 0%nat); [|done]. destruct (_ !! 1%nat); [|done]. destruct (_ !! 2%nat); [|done].
  destruct (_ !! 3%nat); [|done]. cbn [mbind option_bind]. intros [= <-]. repeat (apply json_row_insert; [done|]). done.
Qed.

Lemma changes_envelope_json (Pn : string → Prop) dbname tags metric detected :
  Pn metric → json_rows detected → json_envelopes Pn (changes_envelope dbname tags metric detected).
Proof. intros Hp. destruct detected; simpl; [constructor|]. intros. by constructor. Qed.
#[export] Hint Resolve changes_envelope_json : json.

Lemma detect_hashes_json ident hash drop_row ro clk fr target state data state' counts detected :
  json_drop drop_row → json_rows data →
  detect_hashes ident hash drop_row ro clk fr target state data = Some (state', counts, detected) → json_rows detected.
Proof.
  intros Hd Hr. unfold detect_hashes. destruct (scan_rows _ _ _ _ _) as [[[[st marked] c] a]|] eqn:E; [|done].
  apply scan_rows_json in E; [|done]. simpl. destruct (_ && _).
  - destruct (current_idents _ _) as [cur|]; [|done]. simpl.
    destruct (scan_dropped _ _ _ _ _) as [[[rows entries] gone]|] eqn:Es; [|done]. intros. simplify_eq/=.
    apply scan_dropped_json in Es as [? ?]; auto with json.
  - intros. simplify_eq/=. auto with json.
Qed.

Lemma detect_privileges_json ro clk ff fr state data state' counts detected :
  json_rows data → detect_privileges ro clk ff fr state data = Some (state', counts, detected) → json_rows detected.
Proof.
  intros Hr. unfold detect_privileges. destruct (scan_grants _ _ _ _) as [[[st marked] c] cur] eqn:E.
  apply scan_grants_json in E; [|done]. destruct (_ && _).
  - destruct (scan_dropped _ _ _ _ _) as [[[rows entries] gone]|] eqn:Es; [|done]. intros. simplify_eq/=.
    apply scan_dropped_json in Es as [? ?]; [auto with json|apply priv_drop_json|done].
  - intros. simplify_eq/=. auto with json.
Qed.

Lemma setting_row_json e i v event : json_row (setting_row e i v event).
Proof. unfold setting_row. do 3 (apply json_row_insert; [done|]). apply (json_row_new e). Qed.

Lemma scan_settings_json fr state rows : json_rows (scan_settings fr state rows).1.1.1.2.
Proof.
  revert state. induction rows as [|[[[e i] v]|] rows IH]; intros state; simpl; [constructor| |constructor].
  destruct (state !! i); [case_bool_decide; [|apply IH]|];
    (specialize (IH (<[i := v]> state)); destruct (scan_settings _ _ rows) as [[[[? ?] ?] ?] ?]; simpl in *);
    try destruct fr; simpl; try done; (apply json_rows_cons; [apply setting_row_json|done]).
Qed.

(** The names of the reports of changes. *)
Definition change_metrics : list string :=
  ["sproc_changes"; "table_changes"; "index_changes"; "configuration_changes"; "privilege_changes"; "object_changes"].

Section sweep.
Context (Pn : string → Prop) (Pn_changes : Forall Pn change_metrics).
Context (metricDefs : gmap string Metric) (so : range_order) (ver : Z) (query : string → result Measurements).
Context (ro : range_order) (clk : nat → Z) (dbname : string) (tags : option (gmap string string)).
Hypothesis query_json : ∀ sql data, query sql = Ok data → json_rows data.

Lemma change_name n : n ∈ change_metrics → Pn n.
Proof using Pn_changes. by apply Forall_forall. Qed.

Lemma detect_with_json key target metric ident hash drop_row cs cs' counts out :
  Pn metric → json_drop drop_row →
  detect_with metricDefs so ver query ro clk dbname tags key target metric ident hash drop_row cs = Some (cs', counts, out) →
  json_envelopes Pn out.
Proof using query_json.
  intros Hp Hd. unfold detect_with. destruct (metricDefs !! key) as [mvp|]; [|intros; simplify_eq; constructor].
  destruct (query _) as [data|] eqn:Eq; [|intros; simplify_eq; constructor].
  destruct (detect_hashes _ _ _ _ _ _ _ _ _) as [[[st c] det]|] eqn:E; [|done]. intros. simplify_eq/=.
  apply changes_envelope_json; [done|]. eapply detect_hashes_json; eauto.
Qed.

Lemma DetectPrivilegeChanges_json ff cs cs' counts out :
  DetectPrivilegeChanges metricDefs so ver query ro clk dbname tags ff cs = Some (cs', counts, out) → json_envelopes Pn out.
Proof using query_json Pn_changes.
  unfold DetectPrivilegeChanges. destruct (metricDefs !! _) as [mvp|]; [|intros; simplify_eq; constructor].
  case_bool_decide; [intros; simplify_eq; constructor|].
  destruct (query _) as [data|] eqn:Eq; [|intros; simplify_eq; constructor].
  destruct (detect_privileges _ _ _ _ _ _) as [[[st c] det]|] eqn:E; [|done]. intros. simplify_eq/=.
  apply changes_envelope_json; [by apply change_name; do 4 right; left|]. eapply detect_privileges_json; eauto.
Qed.

Lemma DetectConfigurationChanges_json sq cs :
  json_envelopes Pn (DetectConfigurationChanges metricDefs so ver dbname tags sq cs).2.
Proof using Pn_changes.
  unfold DetectConfigurationChanges. destruct (metricDefs !! _); [|constructor]. destruct (sq _); [|constructor].
  pose proof (scan_settings_json) as Hs.
  specialize (Hs (bool_decide (cs !! "configuration_hashes" = None))).
  match goal with |- context [scan_settings ?fr ?st ?rows] => specialize (Hs st rows); destruct (scan_settings fr st rows) as [[[[? ?] ?] ?] []] end;
    simpl in *; [constructor|]. apply changes_envelope_json; [by apply change_name; do 3 right; left|done].
Qed.

Lemma GetObjectChangesMeasurement_json ff sq t cs cs' data out :
  GetObjectChangesMeasurement metricDefs so ver query ro clk dbname tags ff sq t cs = Some (cs', data, out) →
  json_rows data ∧ json_envelopes Pn out.
Proof using query_json Pn_changes.
  unfold GetObjectChangesMeasurement.
  destruct (DetectSprocChanges _ _ _ _ _ _ _ _ cs) as [[[cs1 n1] out1]|] eqn:E1; [|done]. simpl.
  destruct (DetectTableChanges _ _ _ _ _ _ _ _ cs1) as [[[cs2 n2] out2]|] eqn:E2; [|done]. simpl.
  destruct (DetectIndexChanges _ _ _ _ _ _ _ _ cs2) as [[[cs3 n3] out3]|] eqn:E3; [|done]. simpl.
  pose proof (DetectConfigurationChanges_json sq cs3) as H4.
  destruct (DetectConfigurationChanges _ _ _ _ _ _ cs3) as [[cs4 n4] out4]. simpl in H4.
  destruct (DetectPrivilegeChanges _ _ _ _ _ _ _ _ _ cs4) as [[[cs5 n5] out5]|] eqn:E5; [|done]. simpl.
  apply detect_with_json in E1; [|by apply change_name; left|apply sproc_drop_json].
  apply detect_with_json in E2; [|by apply change_name; right; left|apply table_drop_json].
  apply detect_with_json in E3; [|by apply change_name; do 2 right; left|apply index_drop_json]. apply DetectPrivilegeChanges_json in E5.
  assert (json_envelopes Pn (out1 ++ out2 ++ out3 ++ out4 ++ out5)) as Hout by (unfold json_envelopes; by rewrite !Forall_app).
  destruct (_ =? 0); intros; simplify_eq; auto with json.
Qed.
End sweep.

(** ** The cache *)

Lemma imc_Put_json t c key data : json_cache c → json_rows data → json_cache (imc_Put t c key data).
Proof.
  intros Hc Hd. unfold imc_Put. case_bool_decide; [done|]. apply map_Forall_insert_2; [|done].
  destruct (IsEpochSet data); auto with json.
Qed.

Lemma imc_Get_json t1 t2 c key age :
  json_cache c → json_cache (imc_Get t1 t2 c key age).1 ∧ json_rows (imc_Get t1 t2 c key age).2.
Proof.
  intros Hc. unfold imc_Get. case_bool_decide; [auto with json|]. destruct (c !! key) as [data|] eqn:E; [|auto with json].
  assert (json_rows data) as Hd by exact (Hc _ _ E). apply (GetEpoch_json t1) in Hd.
  destruct (GetEpoch t1 data) as [epoch data']. simpl in Hd.
  assert (json_cache (<[key := data']> c)) by (by apply map_Forall_insert_2).
  destruct (_ <? _); simpl; auto with json.
Qed.

(** ** The worker *)

Section worker.
Context (Pn : string → Prop) (Pn_changes : Forall Pn change_metrics).
Hypothesis Pn_storage : ∀ sn name, Pn name → Pn (storage_name sn name).

(** From [sr] to [sr'] the cache stays storable, and all that was sent is. *)
Definition sends_json (sr sr' : DbConnReaper) : Prop :=
  json_cache (measurementCache sr) →
  json_cache (measurementCache sr') ∧ ∃ out, measurementCh sr' = measurementCh sr ++ out ∧ json_envelopes Pn out.

#[local] Instance sends_json_refl : Reflexive sends_json.
Proof using Type. intros sr H. split; [done|]. exists []. rewrite app_nil_r. split; [done|constructor]. Qed.

#[local] Instance sends_json_trans : Transitive sends_json.
Proof using Type.
  intros a b c Hab Hbc H. destruct (Hab H) as (H1 & o1 & Ho1 & Hj1). destruct (Hbc H1) as (H2 & o2 & Ho2 & Hj2).
  split; [done|]. exists (o1 ++ o2). rewrite Ho2, Ho1, app_assoc. split; [done|]. by apply Forall_app.
Qed.

(** A step that neither sends nor writes to the cache. *)
Lemma sends_json_quiet sr sr' :
  measurementCache sr' = measurementCache sr → measurementCh sr' = measurementCh sr → sends_json sr sr'.
Proof using Type. intros Hc Hch H. rewrite Hc, Hch. by apply sends_json_refl. Qed.

Lemma sends_json_send sr es : json_envelopes Pn es → sends_json sr (send sr es).
Proof using Type. intros He H. split; [done|]. by exists es. Qed.

Lemma sends_json_fetched sr sr' name t : sends_json sr sr' → sends_json sr (fetched_at sr' name t).
Proof using Type. intros H. etrans; [exact H|]. by apply sends_json_quiet. Qed.

Context (env : surroundings).
Implicit Types (sr : DbConnReaper).
(** The queries of the change detectors are scanned like all others, and what is read from the
    operating system can be written as JSON. *)
Hypothesis change_query_json : ∀ sql data, change_query env sql = Ok data → json_rows data.
Hypothesis os_stats_json : ∀ name data, os_stats env name = Ok data → json_rows data.

Lemma AddSysinfo_json data md : json_rows data → json_rows (AddSysinfoToMeasurements env data md).
Proof using Type.
  intros H. apply Forall_fmap. eapply Forall_impl; [exact H|]. intros m Hm. simpl. unfold add_field.
  repeat case_bool_decide; auto with json.
Qed.

Lemma sendEnvelope_json sr name sn data :
  Pn name → json_rows data → sends_json sr (sendEnvelope env sr name sn data).1 ∧ json_rows (sendEnvelope env sr name sn data).2.
Proof using Pn_storage.
  intros Hp H. apply (AddSysinfo_json _ (sr_md sr)) in H. split; [|done].
  apply sends_json_send. constructor; [|constructor]. split; [done|]. by apply Pn_storage.
Qed.

Lemma detectServerRestart_json sr t data : sends_json sr (detectServerRestart sr t data).
Proof using Pn_changes.
  unfold detectServerRestart. destruct data as [|row data]; [done|]. destruct (row !! _) as [[]|]; try done.
  destruct (_ && _); [|by apply sends_json_quiet].
  etrans; [by apply (sends_json_quiet _ (set_uptime sr z))|]. apply sends_json_send.
  constructor; [|constructor]. split; [apply json_rows_cons; auto with json|].
  apply (change_name Pn Pn_changes). by do 5 right; left.
Qed.

Lemma cacheKey_json sr metric name : sends_json sr (cacheKey env sr metric name).1.
Proof using Type.
  unfold cacheKey. destruct (_ && _); [|done]. destruct (GetClusterIdentifier _ _). by apply sends_json_quiet.
Qed.

Lemma dispatchMetricData_json sr name metric data :
  Pn name → json_rows data → sends_json sr (dispatchMetricData env sr name metric data).
Proof using Pn_storage Pn_changes.
  intros Hp Hd. unfold dispatchMetricData. pose proof (cacheKey_json sr metric name) as Hk.
  destruct (cacheKey _ _ _ _) as [sr1 key]. simpl in Hk. etrans; [exact Hk|].
  set (sr2 := if bool_decide (key ≠ "") then _ else sr1).
  assert (sends_json sr1 sr2) as H2.
  { unfold sr2. case_bool_decide; [|done]. intros Hc. split; [by apply imc_Put_json|].
    exists []. rewrite app_nil_r. split; [done|constructor]. }
  etrans; [exact H2|]. destruct (sendEnvelope_json sr2 name (StorageName metric) data Hp Hd) as [H3 _].
  destruct (sendEnvelope _ _ _ _ _) as [sr3 data']. etrans; [exact H3|].
  case_bool_decide; [apply detectServerRestart_json|done].
Qed.

Lemma CollectAndDispatch_json sr a name metric : Pn name → sends_json sr (CollectAndDispatch env sr a name metric).1.
Proof using Pn_storage Pn_changes.
  intros Hp. unfold CollectAndDispatch. destruct a as [e|e|rs]; [done..|]. case_bool_decide; [done|]. apply dispatchMetricData_json; [done|].
  apply Forall_fmap, Forall_true. intros row. apply RowToMeasurement_json.
Qed.

Lemma fetchMetric_json sr entry : Pn (metricName entry) → sends_json sr (fetchMetric env sr entry).1.
Proof using Pn_storage Pn_changes.
  intros Hp. unfold fetchMetric, fetchMetricOnce.
  pose proof (CollectAndDispatch_json sr (query_simple env (be_sql entry)) (metricName entry) (be_metric entry) Hp) as H.
  destruct (query_simple _ _); [done|..]; destruct (CollectAndDispatch _ _ _ _ _) as [sr' []]; done.
Qed.

Lemma batch_results_json sr answers i entries :
  Forall (λ e, Pn (metricName e)) entries →
  sends_json sr (batch_results env sr answers i entries).1.1 ∧ Forall (λ e, Pn (metricName e)) (batch_results env sr answers i entries).2.
Proof using Pn_storage Pn_changes.
  intros Hn. revert sr i. induction Hn as [|e entries Hp Hn IH]; intros sr i; cbn [batch_results]; [done|].
  pose proof (CollectAndDispatch_json sr (answers i) (metricName e) (be_metric e) Hp) as H.
  destruct (answers i) as [err|err|rs].
  - destruct (IH sr (S i)) as [H1 H2]. destruct (batch_results _ _ _ _ _) as [[? ?] ?]. split; [done|by constructor].
  - destruct (CollectAndDispatch _ _ _ _ _) as [sr1 e1]. destruct (IH sr1 (S i)) as [H1 H2].
    destruct (batch_results _ _ _ _ _) as [[? ?] ?]. split; [by etrans|done].
  - destruct (CollectAndDispatch _ _ _ _ _) as [sr1 e1]. destruct (IH sr1 (S i)) as [H1 H2].
    destruct (batch_results _ _ _ _ _) as [[? ?] ?]. split; [by etrans|done].
Qed.

Lemma batch_retries_json sr errs entries :
  Forall (λ e, Pn (metricName e)) entries → sends_json sr (batch_retries env sr errs entries).1.
Proof using Pn_storage Pn_changes.
  intros Hn. revert sr errs. induction Hn as [|e entries Hp Hn IH]; intros sr errs; cbn [batch_retries]; [done|].
  pose proof (fetchMetric_json sr e Hp) as H. destruct (fetchMetric _ _ _) as [sr1 [err|]]; simpl in H.
  - etrans; [exact H|]. etrans; [|apply IH]. by apply sends_json_quiet.
  - etrans; [exact H|apply IH].
Qed.

Lemma run_batch_json sr batch : Forall (λ e, Pn (metricName e)) batch → sends_json sr (run_batch env sr batch).
Proof using Pn_storage Pn_changes.
  intros Hn. unfold run_batch. set (sr1 := if IsPostgresSource _ then _ else _).
  assert (sends_json sr sr1) as H.
  { unfold sr1, executeBatch. destruct (IsPostgresSource _).
    - destruct (batch_results_json sr (query_batch env (be_sql <$> batch)) 0 batch Hn) as [Hb Hr].
      destruct (batch_results _ _ _ _ _) as [[sr2 errs] retries]. etrans; [exact Hb|by apply batch_retries_json].
    - clear sr1. revert sr. induction Hn as [|e batch Hp Hn IH]; intros sr; [done|]. simpl.
      etrans; [by apply fetchMetric_json|apply IH]. }
  etrans; [exact H|]. clearbody sr1. clear H Hn. revert sr1. induction batch as [|e batch IH]; intros sr1; [done|]. simpl.
  etrans; [|apply IH]. by apply sends_json_quiet.
Qed.

Lemma fetchOSMetric_json sr name : Pn name → sends_json sr (fetchOSMetric env sr name).1.
Proof using os_stats_json.
  intros Hp. unfold fetchOSMetric, FetchStatsDirectlyFromOS.
  assert (∀ data, (if bool_decide (name ∈ directlyFetchableOSMetrics) then os_stats env name else Ok []) = Ok data →
    json_rows data) as Hd.
  { intros data. case_bool_decide; [apply os_stats_json|]. intros [= <-]. constructor. }
  destruct (if bool_decide _ then _ else _) as [data|e]; [|done]. destruct (bool_decide _); [done|].
  apply sends_json_send. constructor; [|constructor]. split; [by apply AddSysinfo_json, Hd|done].
Qed.

Lemma fetchSpecialMetric_json sr name sn sr' err :
  Pn name → fetchSpecialMetric env sr name sn = Some (sr', err) → sends_json sr sr'.
Proof using change_query_json Pn_storage Pn_changes.
  unfold fetchSpecialMetric. intros Hp H.
  destruct (if bool_decide (name = specialMetricChangeEvents) then _ else _) as [[sr1 data]|] eqn:E; [|done].
  assert (sends_json sr sr1 ∧ json_rows data) as [H1 Hd].
  { case_bool_decide.
    - destruct (GetObjectChangesMeasurement _ _ _ _ _ _ _ _ _ _ _ _) as [[[cs d] out]|] eqn:Eg; [|done]. simplify_eq/=.
      apply (GetObjectChangesMeasurement_json Pn Pn_changes) in Eg as [? ?]; [|exact change_query_json]. split; [|done].
      etrans; [|by apply sends_json_send]. by apply sends_json_quiet.
    - case_bool_decide; simplify_eq; (split; [done|]); [|constructor].
      apply json_rows_cons; [|constructor]. apply json_row_insert; [done|]. apply json_row_new. }
  simpl in H. case_bool_decide; simplify_eq; [done|].
  etrans; [exact H1|]. by apply sendEnvelope_json.
Qed.

Lemma handle_sql_json sr name metric : Pn name → sends_json sr (handle_sql env sr name metric).1.
Proof using Pn_storage Pn_changes.
  intros Hp. unfold handle_sql. pose proof (cacheKey_json sr metric name) as Hk. destruct (cacheKey _ _ _ _) as [sr1 key].
  etrans; [exact Hk|]. intros Hc.
  destruct (imc_Get_json (clock env name) (clock env name) (measurementCache sr1) key (cacheAge env) Hc) as [Hc' Hd].
  destruct (imc_Get _ _ _ _ _) as [cache cached]. simpl in Hc', Hd.
  assert (sends_json (set_cache sr1 cache) (
    if bool_decide (cached ≠ []) then
      (fetched_at (sendEnvelope env (set_cache sr1 cache) name (StorageName metric) cached).1 name (clock env name), [])
    else
      let sql := GetSQL (map_order env) metric (Version (md_Info (sr_md (set_cache sr1 cache)))) in
      if bool_decide (sql = "") then (fetched_at (set_cache sr1 cache) name (clock env name), [])
      else
        let entry := {| metricName := name; be_metric := metric; be_sql := sql |} in
        if isDegraded (set_cache sr1 cache) name then
          let '(sr, err) := fetchMetric env (set_cache sr1 cache) entry in
          let sr := match err with Some _ => sr | None => clearDegraded sr name end in
          (fetched_at sr name (clock env name), [])
        else (set_cache sr1 cache, [entry])).1) as H; [|exact (H Hc')].
  case_bool_decide; [apply sends_json_fetched; by apply sendEnvelope_json|]. cbv zeta.
  case_bool_decide; [by apply sends_json_quiet|]. destruct (isDegraded _ _); [|done].
  match goal with |- context [fetchMetric env ?s ?e] => pose proof (fetchMetric_json s e Hp) as Hf; destruct (fetchMetric env s e) as [sr2 [|]] end;
    simpl; apply sends_json_fetched; [done|]. etrans; [exact Hf|]. by apply sends_json_quiet.
Qed.

Lemma handle_sql_names sr name metric : Pn name → Forall (λ e, Pn (metricName e)) (handle_sql env sr name metric).2.
Proof using Type.
  intros Hp. unfold handle_sql. destruct (cacheKey _ _ _ _). destruct (imc_Get _ _ _ _ _). case_bool_decide; [constructor|].
  cbv zeta. case_bool_decide; [constructor|]. destruct (isDegraded _ _); [|by constructor].
  destruct (fetchMetric _ _ _). constructor.
Qed.

Lemma handle_metric_json sr name interval sr' batch :
  Pn name → handle_metric env sr name interval = Some (sr', batch) →
  sends_json sr sr' ∧ Forall (λ e, Pn (metricName e)) batch.
Proof using change_query_json os_stats_json Pn_storage Pn_changes.
  intros Hp. unfold handle_metric. destruct (negb _); [intros; by simplify_eq|].
  destruct (metricDefs env !! name) as [metric|]; [|intros; by simplify_eq].
  destruct (isRoleExcluded _ _); [intros; by simplify_eq|].
  case_bool_decide; [intros [= <- <-]; split; [by apply sends_json_quiet|constructor]|].
  destruct (IsDirectlyFetchableMetric _ _);
    [intros [= <- <-]; split; [by apply sends_json_fetched, fetchOSMetric_json|constructor]|].
  case_bool_decide.
  - destruct (fetchSpecialMetric _ _ _ _) as [[sr1 err]|] eqn:E; [|done]. intros [= <- <-].
    split; [|constructor]. apply sends_json_fetched. by eapply fetchSpecialMetric_json.
  - intros [= Hs]. pose proof (handle_sql_json sr name metric Hp) as Hj.
    pose proof (handle_sql_names sr name metric Hp) as Hn. by rewrite Hs in Hj, Hn.
Qed.

Lemma handle_metrics_json sr metrics sr' batch :
  Forall (λ p, Pn p.1) metrics → handle_metrics env sr metrics = Some (sr', batch) →
  sends_json sr sr' ∧ Forall (λ e, Pn (metricName e)) batch.
Proof using change_query_json os_stats_json Pn_storage Pn_changes.
  intros Hn. revert sr sr' batch. induction Hn as [|[name interval] metrics Hp Hn IH]; intros sr sr' batch; simpl; [intros; by simplify_eq|].
  destruct (handle_metric _ _ _ _) as [[sr1 b1]|] eqn:E1; [|done]. simpl.
  destruct (handle_metrics _ _ metrics) as [[sr2 b2]|] eqn:E2; [|done]. intros. simplify_eq/=.
  apply handle_metric_json in E1 as [? ?]; [|done]. apply IH in E2 as [? ?]. split; [by etrans|]. by apply Forall_app.
Qed.

Lemma reap_tick_json sr sr' :
  map_Forall (λ name _, Pn name) (activeMetrics (sr_md sr)) → reap_tick env sr = Some sr' → sends_json sr sr'.
Proof using change_query_json os_stats_json Pn_storage Pn_changes.
  intros Hp. unfold reap_tick. destruct (handle_metrics _ _ _) as [[sr1 batch]|] eqn:E; [|done]. simpl. intros [= <-].
  apply handle_metrics_json in E as [H1 Hn].
  - case_bool_decide; [done|]. etrans; [exact H1|]. by apply run_batch_json.
  - apply Forall_forall. intros [name v] Hin%elem_of_range. exact (Hp _ _ Hin).
Qed.
End worker.


(** *** Witness *)

(** The database answers with a [NaN] and an infinity. *)
Definition nan_env : surroundings := {|
  metricDefs := {["wal" := sample_metric; "bgw" := sql_metric "select bgw"]};
  cacheAge := 0; RealDbnameField := "real_dbname"; SystemIdentifierField := "sys_id";
  parse_config := λ _, Err (ErrorString "unused");
  query_simple := λ _, QueryError (ErrorString "unused");
  query_batch := λ _ _, Rows [[("ratio", VFloat64 S754_nan); ("rate", VFloat32 (S754_infinity true)); ("n", VInt64 1)]];
  change_query := QueryMeasurements (λ _, Ok []) (λ _, 0) (ErrorString "timeout");
  settings_query := λ _, Err (ErrorString "unused");
  ping_error := None; same_host := false; os_stats := λ _, Err (ErrorString "unused");
  fmt_float := λ _, "float"; now := 1000 * time_Second; clock := λ _, 1001 * time_Second;
  batch_end := 1002 * time_Second; map_order := tree_order |}.

Definition nan_tick : DbConnReaper := default sample_worker (reap_tick nan_env sample_worker).

