(* ===== verification/Pipeline.v ===== *)
(** * From a query to a table ([internal/reaper/database.go], [internal/sinks/postgres.go])

    The composition of a worker and the PostgreSQL sink: what a tick of a worker sends is a batch
    that the sink can encode row by row, so that whether a metric is stored depends on the database
    of the sink only, and not on the values that were measured. *)

From Stdlib Require Import SpecFloat.
From S2P Require Import Prelude GoStrings Metrics Sinks CopySource PgSink PgPoll.
From S2P Require Import Sources Changes Conn InstanceCache Scheduler RowTypes.
From stdpp Require Import options.

Local Open Scope Z_scope.

(** ** Batches that can be encoded *)

Section encode.
Context (ff : value → string).
Context (marshal_tags : gmap string string → result string) (marshal_row : Measurement → result string).
(** The JSON encoder accepts all strings, and numbers other than [NaN] and the infinities. *)
Hypothesis marshal_tags_ok : ∀ t, ∃ json, marshal_tags t = Ok json.
Hypothesis marshal_row_ok : ∀ m, json_row m → ∃ json, marshal_row m = Ok json.

(** Taking the tags out of a row leaves a part of it. *)
Lemma split_tags_json ro row tags : json_row row → json_row (split_tags ff ro row tags).1.
Proof using Type.
  intros Hr k v. destruct (split_tags_lookup ff ro row tags) as [Hk _]. rewrite Hk. case_decide; [done|]. apply Hr.
Qed.

Lemma row_at_ok e i : json_rows (Data e) → (i < length (Data e))%nat → ∃ r, row_at ff marshal_tags marshal_row (e, i) = Ok r.
Proof using marshal_tags_ok marshal_row_ok.
  intros Hj Hi. destruct (lookup_lt_is_Some_2 _ _ Hi) as [row Hrow]. unfold row_at. rewrite Hrow.
  pose proof (split_tags_json tree_order row (default ∅ (CustomTags e)) (Forall_lookup_1 _ _ _ _ Hj Hrow)) as Hs.
  destruct (split_tags _ _ _ _) as [cols tags]. destruct (marshal_row_ok cols Hs) as [j ->].
  destruct (marshal_tags_ok tags) as [t ->]. by eexists.
Qed.

(** The rows of a batch exist, one per row that was measured. *)
Lemma rows_of_ok es :
  Forall (λ e, json_rows (Data e)) es →
  ∃ rows, rows_of ff marshal_tags marshal_row es rows ∧ length rows = sum_list ((λ e, length (Data e)) <$> es).
Proof using marshal_tags_ok marshal_row_ok.
  induction 1 as [|e es He Hes (rows & Hrows & Hlen)]; [exists []; split; [constructor|done]|].
  assert (∃ rs, Forall2 (λ p r, row_at ff marshal_tags marshal_row p = Ok r) (positions e) rs) as [rs Hrs].
  { assert (Forall (λ p, ∃ r, row_at ff marshal_tags marshal_row p = Ok r) (positions e)) as Hall.
    { apply Forall_fmap, Forall_forall. intros i Hi%elem_of_seq. apply row_at_ok; [done|lia]. }
    induction Hall as [|p ps [r Hr] _ [rs IH]]; [by exists []|]. exists (r :: rs). by constructor. }
  exists (rs ++ rows). split; [by apply Forall2_app|].
  pose proof (Forall2_length _ _ _ Hrs) as Hl. rewrite length_positions in Hl.
  rewrite length_app. cbn [fmap list_fmap sum_list]. by rewrite <-Hl, Hlen.
Qed.
End encode.

(** ** What the flush does to rows *)

Lemma touched_json e e' : touched e e' → json_rows (Data e) → json_rows (Data e').
Proof. intros (_ & _ & _ & _ & Hd) Hj. destruct Hd as [[_ ->]|(_ & now & ->)]; auto with json. Qed.

Lemma touched_length e e' : touched e e' → length (Data e') = length (Data e).
Proof. intros (_ & _ & _ & _ & Hd). destruct Hd as [[-> ->]|(_ & now & ->)]; [done|apply length_GetEpoch]. Qed.

Lemma sum_list_perm (l k : list nat) : l ≡ₚ k → sum_list l = sum_list k.
Proof. induction 1; simpl; lia. Qed.

(** The number of rows of a metric is that of the batch. *)
Lemma prepared_count so clk msgs n :
  sum_list ((λ e, length (Data e)) <$> filter (λ e, MetricName e = n) (prepared so clk msgs)) =
  sum_list ((λ e, length (Data e)) <$> filter (λ e, MetricName e = n) msgs).
Proof.
  destruct (prepared_touched so clk msgs) as (sorted & Hp & Ht).
  rewrite <-(sum_list_perm _ _ (fmap_Permutation _ _ _ (filter_Permutation _ _ _ Hp))). clear Hp.
  induction Ht as [|e e' l k He Ht IH]; [done|]. rewrite !filter_cons. pose proof He as (_ & -> & _).
  case_decide; [|done]. cbn [fmap list_fmap sum_list]. by rewrite (touched_length _ _ He), IH.
Qed.

(** ** The whole way *)

(** Named envelopes, of which those of metric [n] have rows that can be written as JSON. *)
Definition storable (n : string) (es : list MeasurementEnvelope) : Prop :=
  Forall (λ e, MetricName e ≠ "" ∧ (MetricName e = n → json_rows (Data e))) es.

Lemma json_storable n es : json_envelopes (λ n, n ≠ "") es → storable n es.
Proof. intros H. eapply Forall_impl; [exact H|]. by intros e [? ?]. Qed.

Lemma prepared_storable so clk msgs n :
  storable n msgs → Forall (λ e, json_rows (Data e)) (filter (λ e, MetricName e = n) (prepared so clk msgs)).
Proof.
  intros Hj. destruct (prepared_touched so clk msgs) as (sorted & Hp & Ht). unfold storable in Hj. rewrite <-Hp in Hj. clear Hp.
  induction Ht as [|e e' l k He Ht IH]; [constructor|]. apply Forall_cons in Hj as [[_ Hj] ?]. rewrite filter_cons.
  pose proof He as (_ & -> & _). case_decide; [|by apply IH]. constructor; [eapply touched_json; eauto|by apply IH].
Qed.

(** A batch of whatever origin, as metric [n] sees it: what the other metrics measured does not matter. *)
Lemma metric_stored (ff : value → string) marshal_tags marshal_row (T T' : string → list pgrow) so clk msgs outs n :
  (∀ t, ∃ json, marshal_tags t = Ok json) → (∀ m, json_row m → ∃ json, marshal_row m = Ok json) →
  storable n msgs → stored ff marshal_tags marshal_row T (groups (prepared so clk msgs)) outs T' →
  ∃ rows,
    rows_of ff marshal_tags marshal_row (filter (λ e, MetricName e = n) (prepared so clk msgs)) rows ∧
    length rows = sum_list ((λ e, length (Data e)) <$> filter (λ e, MetricName e = n) msgs) ∧
    (T' n = T n ++ rows ∨ T' n = T n ∧ Exists (λ o, o ≠ None) outs).
Proof.
  intros Hmt Hmr Hj Hst.
  destruct (rows_of_ok ff marshal_tags marshal_row Hmt Hmr (filter (λ e, MetricName e = n) (prepared so clk msgs)))
    as (rows & Hrows & Hlen); [by apply prepared_storable|].
  exists rows. split_and!; [done|by rewrite Hlen, prepared_count|].
  destruct (stored_metric _ _ _ _ _ _ _ n Hst (prepared_groups so clk msgs)) as [(rows' & Hrows' & ->)|?]; [left|by right].
  rewrite groups_filter in Hrows'. f_equal. clear -Hrows Hrows'. unfold rows_of in *. revert rows' Hrows'.
  induction Hrows as [|p r ps rs Hr _ IH]; intros rows' Hrows'; inversion Hrows'; subst; [done|]. f_equal; [congruence|auto].
Qed.

Lemma storable_named n es : storable n es → Forall (λ e, MetricName e ≠ "") es.
Proof. intros H. eapply Forall_impl; [exact H|]. by intros e [? _]. Qed.

(** Take any batch of envelopes that one tick of a worker sent, whatever the monitored databases
    delivered (numbers that are not finite included).  The flush returns; for every metric the stored
    form of all its rows exists, one row per row that was measured; and either all of these rows are
    appended to the table of the metric, in the order of the batch, or none, and the latter only if
    the database of the sink answered a COPY with an error. *)
Theorem collected_rows_stored (ff : value → string) marshal_tags marshal_row {DB}
    `{!SinkDB DB} `{!SinkDBLaws ff marshal_tags marshal_row DB}
    env sr sr' answer clk cause so ro clk' (pgw : PostgresWriter DB) msgs :
  (∀ t, ∃ json, marshal_tags t = Ok json) → (∀ m, json_row m → ∃ json, marshal_row m = Ok json) →
  (∀ sql, change_query env sql = QueryMeasurements answer clk cause sql) →
  (∀ name data, os_stats env name = Ok data → json_rows data) →
  activeMetrics (sr_md sr) !! "" = None → json_cache (measurementCache sr) → measurementCh sr = [] →
  reap_tick env sr = Some sr' → msgs ⊆ measurementCh sr' →
  ∃ pgw' outs, flush so ro clk' pgw msgs = Returns pgw' ∧
    stored ff marshal_tags marshal_row (db_table (sinkDb pgw)) (groups (prepared so clk' msgs)) outs (db_table (sinkDb pgw')) ∧
    ∀ n, ∃ rows,
      rows_of ff marshal_tags marshal_row (filter (λ e, MetricName e = n) (prepared so clk' msgs)) rows ∧
      length rows = sum_list ((λ e, length (Data e)) <$> filter (λ e, MetricName e = n) msgs) ∧
      (db_table (sinkDb pgw') n = db_table (sinkDb pgw) n ++ rows ∨
       db_table (sinkDb pgw') n = db_table (sinkDb pgw) n ∧ Exists (λ o, o ≠ None) outs).
Proof.
  intros Hmt Hmr Hq Hos Hne Hc Hch Ht Hsub.
  assert (json_envelopes (λ n, n ≠ "") msgs) as Hj'; [|
    destruct (flush_prepared ff marshal_tags marshal_row so ro clk' pgw msgs) as (pgw' & outs & Hret & Hst);
      [by eapply storable_named, (json_storable "")|];
    exists pgw', outs; split_and!; [done..|]; intros n; apply metric_stored; [done..|by apply json_storable|done]].
  destruct (reap_tick_json (λ n, n ≠ "")) with env sr sr' as (_ & out & Hout & Hj); try done.
  - by repeat constructor.
  - intros sn name Hn. unfold storage_name. by case_bool_decide.
  - intros sql data Hd. rewrite Hq in Hd. by eapply QueryMeasurements_json.
  - intros name v Hv ->. by rewrite Hne in Hv.
  - rewrite Hch in Hout. simpl in Hout. rewrite Hout in Hsub. unfold json_envelopes in *. rewrite Forall_forall in Hj |- *.
    intros e He. by apply Hj, Hsub.
Qed.

(** *** Witness *)

Lemma strict_row_ok m : json_row m → ∃ json, strict_row m = Ok json.
Proof.
  intros Hm. unfold strict_row. rewrite bool_decide_true; [by eexists|]. intros k v Hk. specialize (Hm k v Hk).
  destruct v; simpl in *; try done; by rewrite Hm.
Qed.

(** The database delivers a [NaN] and an infinity, the encoder refuses both, the row is stored. *)
Lemma collected_rows_stored_witness :
  let pgw := mem_writer ∅ in
  let msgs := measurementCh nan_tick in
  ∃ pgw' outs, @flush _ (mem_ops strict_row) sample_sort tree_order sample_clock pgw msgs = Returns pgw' ∧
    stored (λ _, "float") show_tags strict_row (@db_table _ (mem_ops strict_row) (sinkDb pgw))
      (groups (prepared sample_sort sample_clock msgs)) outs (@db_table _ (mem_ops strict_row) (sinkDb pgw')) ∧
    ∀ n, ∃ rows,
      rows_of (λ _, "float") show_tags strict_row (filter (λ e, MetricName e = n) (prepared sample_sort sample_clock msgs)) rows ∧
      length rows = sum_list ((λ e, length (Data e)) <$> filter (λ e, MetricName e = n) msgs) ∧
      (@db_table _ (mem_ops strict_row) (sinkDb pgw') n = @db_table _ (mem_ops strict_row) (sinkDb pgw) n ++ rows ∨
       @db_table _ (mem_ops strict_row) (sinkDb pgw') n = @db_table _ (mem_ops strict_row) (sinkDb pgw) n ∧
       Exists (λ o, o ≠ None) outs).
Proof.
  intros pgw msgs.
  apply (@collected_rows_stored (λ _, "float") show_tags strict_row mem_db (mem_ops strict_row) (mem_laws strict_row)
    nan_env sample_worker nan_tick (λ _, Ok []) (λ _, 0) (ErrorString "timeout")).
  - by eexists.
  - exact strict_row_ok.
  - reflexivity.
  - done.
  - vm_compute. reflexivity.
  - apply map_Forall_empty.
  - reflexivity.
  - vm_compute. reflexivity.
  - done.
Defined.

Example nan_row_stored :
  match @flush _ (mem_ops strict_row) sample_sort tree_order sample_clock (mem_writer ∅) (measurementCh nan_tick) with
  | Returns pgw => length (@db_table _ (mem_ops strict_row) (sinkDb pgw) "bgw")
  | _ => 0%nat
  end = 1%nat.
Proof. vm_compute. reflexivity. Qed.
