(* ===== verification/Reaper.v ===== *)
(** * The main loop ([internal/reaper/reaper.go], [metric.go])

    The reaper reloads the sources and the metric definitions, connects to every source, decides
    whether it is to be monitored, and keeps one worker per source.  Connections are shared objects:
    the list of monitored sources, the list of the previous loop and the workers refer to the same
    ones, so they live in a store and the lists hold references.

    The sources of one sweep are processed concurrently in the program; every step of [process_source]
    on the shared state is under a lock and concerns the entries of that source only, and the model
    processes them in an arbitrary order.

    The theorems show that a worker runs only for a source that is configured and reads the
    connection that is monitored under its name, that an unchanged source keeps its connection and
    its worker over a reload while a changed one is restarted, that a failed reload changes nothing,
    that the emergency pause stops every worker, and that a source that was filtered out once can
    never be connected again. *)

From S2P Require Import Prelude GoStrings Metrics Sources Changes Conn PromConn Sinks.
From stdpp Require Import options.

Local Open Scope Z_scope.

(** ** State *)

Inductive source_conn :=
  | ConnDb (md : DbConn)
  | ConnProm (pc : PromConn).

Definition GetSource (c : source_conn) : Source :=
  match c with ConnDb md => md_Source md | ConnProm pc => pc_Source pc end.

Definition NewSourceConn (s : Source) : source_conn :=
  if bool_decide (Kind s = SourcePrometheus)
  then ConnProm (NewPromConn s) else ConnDb (NewDbConn s).

Definition conn_Close (c : source_conn) : source_conn :=
  match c with ConnDb md => ConnDb (DbConn_Close md) | ConnProm pc => ConnProm (PromConn_Close pc) end.

Definition conn_SetMetricIntervals (c : source_conn) (main standby : MetricIntervals) : source_conn :=
  match c with
  | ConnDb md => ConnDb (SetMetricIntervals md main standby)
  | ConnProm pc => ConnProm (PromConn_SetMetricIntervals pc main)
  end.

(** What the main loop tells the sinks: metrics that start or stop being collected, and new
    definitions (a sink that does not take definitions ignores them). *)
Inductive sink_call :=
  | CallSyncMetric (sourceName metricName : string) (op : SyncOp)
  | CallDefineMetrics (d : Metrics).

Record reaper := Reaper {
  objs : gmap nat source_conn;               (* the connections, by reference *)
  next_obj : nat;
  monitoredSources : list nat;
  prevLoopMonitoredDBs : list nat;
  srcRecoveryStatus : gmap string bool;
  cancelFuncs : gmap string nat;             (* the running workers and the connection they read *)
  defs : Metrics;
  synced : list sink_call;                   (* the calls of the sinks, in order *)
  out : list MeasurementEnvelope;
}.

(** The definitions in use, [ConcurrentMetricDefs].  [Assign] clones the maps, so that what happens to
    [newDefs] later is not seen. *)
Definition NewConcurrentMetricDefs : Metrics := {| MetricDefs := ∅; PresetDefs := ∅ |}.
Definition GetMetricDef (cmd : Metrics) (name : string) : option Metric := MetricDefs cmd !! name.
Definition GetPresetMetrics (cmd : Metrics) (name : string) : MetricIntervals := PresetDefs cmd !! name ≫= Preset_Metrics.
Definition Assign (_ newDefs : Metrics) : Metrics := newDefs.

Section setters.
Implicit Types (r : reaper).
Definition set_objs r x := Reaper x (next_obj r) (monitoredSources r) (prevLoopMonitoredDBs r)
  (srcRecoveryStatus r) (cancelFuncs r) (defs r) (synced r) (out r).
Definition set_monitored r x := Reaper (objs r) (next_obj r) x (prevLoopMonitoredDBs r)
  (srcRecoveryStatus r) (cancelFuncs r) (defs r) (synced r) (out r).
Definition set_prev r x := Reaper (objs r) (next_obj r) (monitoredSources r) x
  (srcRecoveryStatus r) (cancelFuncs r) (defs r) (synced r) (out r).
Definition set_recovery r x := Reaper (objs r) (next_obj r) (monitoredSources r)
  (prevLoopMonitoredDBs r) x (cancelFuncs r) (defs r) (synced r) (out r).
Definition set_cancel r x := Reaper (objs r) (next_obj r) (monitoredSources r)
  (prevLoopMonitoredDBs r) (srcRecoveryStatus r) x (defs r) (synced r) (out r).
Definition set_defs r x := Reaper (objs r) (next_obj r) (monitoredSources r)
  (prevLoopMonitoredDBs r) (srcRecoveryStatus r) (cancelFuncs r) x (synced r) (out r).
Definition add_sync r x := Reaper (objs r) (next_obj r) (monitoredSources r)
  (prevLoopMonitoredDBs r) (srcRecoveryStatus r) (cancelFuncs r) (defs r) (synced r ++ x) (out r).
Definition add_out r x := Reaper (objs r) (next_obj r) (monitoredSources r)
  (prevLoopMonitoredDBs r) (srcRecoveryStatus r) (cancelFuncs r) (defs r) (synced r) (out r ++ x).
Definition update_obj r (l : nat) (c : source_conn) := set_objs r (<[l := c]> (objs r)).
End setters.

(** The name of the source behind a reference. *)
Definition obj_name (r : reaper) (l : nat) : option string := Name ∘ GetSource <$> objs r !! l.

(** [GetMonitoredDatabase]: the first connection of that name. *)
Definition GetMonitoredDatabase (r : reaper) (mds : list nat) (name : string) : option nat :=
  list_find (λ l, obj_name r l = Some name) mds ≫= λ p, Some p.2.

(** ** Workers *)

Definition close_at (r : reaper) (l : nat) : reaper :=
  match objs r !! l with Some c => update_obj r l (conn_Close c) | None => r end.

Definition ShutdownWorker (r : reaper) (name : string) : reaper :=
  let r := set_cancel r (delete name (cancelFuncs r)) in
  let r := match GetMonitoredDatabase r (monitoredSources r) name with
           | Some l => close_at r l
           | None => r
           end in
  add_sync r [CallSyncMetric name "" DeleteOp].

Definition StartWorker (r : reaper) (name : string) (l : nat) : reaper :=
  match cancelFuncs r !! name with
  | Some _ => r
  | None => set_cancel r (<[name := l]> (cancelFuncs r))
  end.

(** ** Surroundings *)

Record loop_env := {
  parse : string → result conn_config;
  show_version : string → Z → option error;    (* by source name *)
  ping : string → Z → option error;
  new_pool : string → option error;
  prom_net : net;
  servers : string → server;
  available_extensions : string → result (list string);
  create_extension : string → string → option error;
  exec_helper : string → string → option error;
  Groups : list string;
  MinDbSizeMB : Z;
  TryCreateListedExtsIfMissing : string;
  CreateHelpers : bool;
  loop_now : Z;
  order : range_order;
}.

Definition instance_down (env : loop_env) (name : string) : MeasurementEnvelope := {|
  DBName := name; MetricName := "instance_up"; SourceKind := ""; CustomTags := None;
  Data := [<["instance_up" := VInt 0]> {[EpochColumnName := VInt64 (loop_now env)]}] |}.

Definition WriteInstanceDown (env : loop_env) (r : reaper) (name : string) : reaper :=
  add_out r [instance_down env name].

(** ** Processing one source *)

Section process.
Context (env : loop_env).
Implicit Types (r : reaper) (md : DbConn).

(** [FilterSource]: the flag tells whether the source is skipped. *)
Definition FilterSource r md : reaper * bool :=
  let isInRecovery := IsInRecovery (md_Info md) in
  let DBSizeMB := Z.quot (ApproxDbSize (md_Info md)) 1048576 in
  if isInRecovery && OnlyIfMaster (md_Source md) then (ShutdownWorker r (Name (md_Source md)), true)
  else if negb (DBSizeMB =? 0) && (DBSizeMB <? MinDbSizeMB env)
  then (ShutdownWorker r (Name (md_Source md)), true)
  else (r, false).

Definition TrackRecoveryStatus r md : reaper :=
  set_recovery r (<[Name (md_Source md) := IsInRecovery (md_Info md)]> (srcRecoveryStatus r)).

Definition isSpecialMetric (name : string) : bool :=
  bool_decide (name = "change_events" ∨ name = "server_log_event_counts").

Definition SyncMetricsToSinks r md : reaper :=
  foldl (λ r metricName,
    match GetMetricDef (defs r) metricName with
    | None => r
    | Some mvp =>
        let stored := if negb (isSpecialMetric metricName) && bool_decide (StorageName mvp ≠ "")
                      then StorageName mvp else metricName in
        add_sync r [CallSyncMetric (Name (md_Source md)) stored AddOp]
    end) r (range_keys (order env) (default ∅ (ActiveMetrics md))).

(** [CreateSourceHelpers] only talks to the database; its panics are the ones of
    [TryCreateMetricsHelpers].  The result lists the extensions and the statements. *)
Definition CreateSourceHelpers r md : outcome (string * list string) :=
  let name := Name (md_Source md) in
  match GetMonitoredDatabase r (prevLoopMonitoredDBs r) name with
  | Some _ => Returns ("", [])
  | None =>
      if negb (IsPostgresSource (md_Source md)) || IsInRecovery (md_Info md) then Returns ("", [])
      else
        let exts :=
          if bool_decide (TryCreateListedExtsIfMissing env ≠ "") then
            (TryCreateMissingExtensions (create_extension env name) (available_extensions env name) md
               (strings_Split (TryCreateListedExtsIfMissing env) ",")).1
          else "" in
        if CreateHelpers env then
          match TryCreateMetricsHelpers (order env)
                  (λ m, match GetMetricDef (defs r) m with Some d => InitSQL d | None => "" end)
                  (exec_helper env name) md with
          | Returns (ran, _) => Returns (exts, ran)
          | Panics => Panics
          | NoFuel => NoFuel
          end
        else Returns (exts, [])
  end.

(** [Connect] of either kind of connection. *)
Definition connect (c : source_conn) : outcome (source_conn * option error) :=
  let name := Name (GetSource c) in
  match c with
  | ConnDb md =>
      match DbConn_Connect (parse env) (show_version env name) (ping env name) (new_pool env name) md with
      | Returns (md, err) => Returns (ConnDb md, err)
      | Panics => Panics
      | NoFuel => NoFuel
      end
  | ConnProm pc =>
      let '(pc, err) := PromConn_Connect (prom_net env) pc in
      Returns (ConnProm pc, err)
  end.

(** The function the main loop runs for every monitored source. *)
Definition process_source r (l : nat) : outcome reaper :=
  match objs r !! l with
  | None => Panics
  | Some c =>
      let name := Name (GetSource c) in
      match connect c with
      | Panics => Panics
      | NoFuel => NoFuel
      | Returns (c, Some _) => Returns (WriteInstanceDown env (update_obj r l c) name)
      | Returns (c, None) =>
          let r := update_obj r l c in
          match c with
          | ConnProm pc => Returns (StartWorker r name l)
          | ConnDb md =>
              let '(md, err) :=
                FetchRuntimeInfo (servers env name) None (loop_now env) (loop_now env) md true in
              let r := update_obj r l (ConnDb md) in
              match err with
              | Some _ => Returns r
              | None =>
                  let '(r, skip) := FilterSource r md in
                  if skip : bool then Returns r
                  else
                    match CreateSourceHelpers r md with
                    | Panics => Panics
                    | NoFuel => NoFuel
                    | Returns _ =>
                        let r := TrackRecoveryStatus r md in
                        let r := SyncMetricsToSinks r md in
                        Returns (StartWorker r name l)
                    end
              end
          end
      end
  end.

(** All sources of the sweep, in some order. *)
Fixpoint sweep r (ls : list nat) : outcome reaper :=
  match ls with
  | [] => Returns r
  | l :: ls' =>
      match process_source r l with
      | Returns r => sweep r ls'
      | Panics => Panics
      | NoFuel => NoFuel
      end
  end.

(** ** Clean-up *)

Definition cleanup_worker (ctx_done : bool) r (name : string) : reaper :=
  match GetMonitoredDatabase r (monitoredSources r) name with
  | Some _ => if ctx_done then ShutdownWorker r name else r
  | None => ShutdownWorker r name
  end.

Definition cleanup_prev r (l : nat) : reaper :=
  match obj_name r l with
  | None => r
  | Some name =>
      match GetMonitoredDatabase r (monitoredSources r) name with
      | Some _ => r
      | None => add_sync (close_at r l) [CallSyncMetric name "" DeleteOp]
      end
  end.

Definition CleanupRemovedWorkers (ctx_done : bool) r : reaper :=
  let r := foldl (cleanup_worker ctx_done) r (range_keys (order env) (cancelFuncs r)) in
  let r := foldl cleanup_prev r (prevLoopMonitoredDBs r) in
  set_prev r (monitoredSources r).

(** ** Reloading *)

Definition wanted_source (s : Source) : bool :=
  IsEnabled s && (bool_decide (Groups env = []) || bool_decide (Group s ∈ Groups env)).

(** New connections become objects of the store. *)
Fixpoint alloc r (cs : list source_conn) : reaper * list nat :=
  match cs with
  | [] => (r, [])
  | c :: cs' =>
      let l := next_obj r in
      let r := Reaper (<[l := c]> (objs r)) (S l) (monitoredSources r) (prevLoopMonitoredDBs r)
                 (srcRecoveryStatus r) (cancelFuncs r) (defs r) (synced r) (out r) in
      let '(r, ls) := alloc r cs' in (r, l :: ls)
  end.

(** The loop of [LoadSources]: an unchanged source keeps its connection, a changed one loses its
    worker. *)
Definition merge_one r (l : nat) (c : source_conn) : reaper * nat :=
  match GetMonitoredDatabase r (monitoredSources r) (Name (GetSource c)) with
  | None => (r, l)
  | Some old =>
      match objs r !! old with
      | Some oc =>
          if Source_Equal (GetSource oc) (GetSource c) then (r, old)
          else (ShutdownWorker r (Name (GetSource oc)), l)
      | None => (r, l)
      end
  end.

Fixpoint merge_sources r (news : list nat) : reaper * list nat :=
  match news with
  | [] => (r, [])
  | l :: news' =>
      match objs r !! l with
      | None => merge_sources r news'
      | Some c =>
          let '(r, l) := merge_one r l c in
          let '(r, ls) := merge_sources r news' in (r, l :: ls)
      end
  end.

(** [LoadSources]: [triggerfile] tells whether the emergency pause file exists, [read] is the answer
    of the store of sources, and [resolve] is [ResolveDatabases]: the connections it returns and the
    names of the sources it reports as down. *)
Definition LoadSources (triggerfile : bool) (read : result Sources)
    (resolve : Sources → list source_conn * list string) r : reaper * option error :=
  if triggerfile then (set_monitored r [], None)
  else
    match read with
    | Err e => (r, Some e)
    | Ok srcs =>
        let '(cs, down) := resolve (filter (λ s, wanted_source s = true) srcs) in
        let r := foldl (WriteInstanceDown env) r down in
        let '(r, news) := alloc r cs in
        let '(r, news) := merge_sources r news in
        (set_monitored r news, None)
    end.

(** [LoadMetrics]: new definitions, and the intervals of the presets in use. *)
Definition preset_intervals (d : Metrics) (preset : string) : MetricIntervals :=
  if bool_decide (preset = "") then None else GetPresetMetrics d preset.

Definition apply_presets r (l : nat) : reaper :=
  match objs r !! l with
  | None => r
  | Some c =>
      let src := GetSource c in
      let main := preset_intervals (defs r) (PresetMetrics src) in
      let standby := preset_intervals (defs r) (PresetMetricsStandby src) in
      match main, standby with
      | None, None => r
      | _, _ => update_obj r l (conn_SetMetricIntervals c main standby)
      end
  end.

Definition LoadMetrics (read : result Metrics) r : reaper * option error :=
  match read with
  | Err e => (r, Some e)
  | Ok d => let r := add_sync (set_defs r (Assign (defs r) d)) [CallDefineMetrics d] in (foldl apply_presets r (monitoredSources r), None)
  end.

(** One round of the main loop; [schedule] is the order in which the sources are processed. *)
Definition main_loop_round (triggerfile : bool) (read : result Sources)
    (resolve : Sources → list source_conn * list string) (read_metrics : result Metrics)
    (schedule : list nat → list nat) (ctx_done : bool) r : outcome reaper :=
  let r := (LoadSources triggerfile read resolve r).1 in
  let r := (LoadMetrics read_metrics r).1 in
  match sweep r (schedule (monitoredSources r)) with
  | Returns r => Returns (CleanupRemovedWorkers ctx_done r)
  | Panics => Panics
  | NoFuel => NoFuel
  end.
End process.

(** ** The invariant *)

(** The names the references stand for do not change. *)
Definition same_names (r r' : reaper) : Prop := ∀ l, obj_name r' l = obj_name r l.

#[export] Instance same_names_preorder : PreOrder same_names.
Proof.
  split; [by intros r l|]. intros a b c H1 H2 l. by rewrite H2, H1.
Qed.

Lemma same_names_fmap r r' (ls : list nat) : same_names r r' → obj_name r' <$> ls = obj_name r <$> ls.
Proof. intros Hn. apply list_fmap_ext. intros. apply Hn. Qed.

(** The fields the invariant speaks about. *)
Definition same_lists (r r' : reaper) : Prop :=
  same_names r r' ∧ next_obj r' = next_obj r ∧ monitoredSources r' = monitoredSources r ∧
  prevLoopMonitoredDBs r' = prevLoopMonitoredDBs r.

#[export] Instance same_lists_preorder : PreOrder same_lists.
Proof.
  split; [by intros r; split_and!|]. intros a b c (?&?&?&?) (?&?&?&?).
  split_and!; [by etrans|congruence..].
Qed.

(** During a round: the monitored sources exist and have distinct names; a worker reads the
    monitored connection of its name, or its source is gone and it is about to be stopped. *)
Record round_inv (r : reaper) : Prop := {
  inv_fresh : ∀ l, is_Some (obj_name r l) → (l < next_obj r)%nat;
  inv_exists : ∀ l, l ∈ monitoredSources r → is_Some (obj_name r l);
  inv_unique : NoDup (obj_name r <$> monitoredSources r);
  inv_workers : ∀ name l, cancelFuncs r !! name = Some l →
    obj_name r l = Some name ∧
    (l ∈ monitoredSources r ∨ Some name ∉ obj_name r <$> monitoredSources r);
}.

(** Between rounds: every worker reads the monitored connection of its name. *)
Definition head_inv (r : reaper) : Prop :=
  round_inv r ∧ ∀ name l, cancelFuncs r !! name = Some l → l ∈ monitoredSources r.

Lemma GetMonitoredDatabase_Some r mds name l :
  GetMonitoredDatabase r mds name = Some l → l ∈ mds ∧ obj_name r l = Some name.
Proof.
  unfold GetMonitoredDatabase. destruct (list_find _ mds) as [[i l']|] eqn:E; simpl; [|done].
  intros [= ->]. apply list_find_Some in E as (Hl & ? & _). split; [|done].
  by eapply list_elem_of_lookup_2.
Qed.

Lemma GetMonitoredDatabase_None r mds name :
  GetMonitoredDatabase r mds name = None ↔ Some name ∉ obj_name r <$> mds.
Proof.
  unfold GetMonitoredDatabase. rewrite list_elem_of_fmap. split.
  - intros E (l & Hn & Hl). destruct (list_find _ mds) as [[i l']|] eqn:Ef; [done|].
    rewrite list_find_None in Ef. rewrite Forall_forall in Ef. by apply (Ef l Hl).
  - intros Hn. destruct (list_find _ mds) as [[i l']|] eqn:Ef; [|done].
    apply list_find_Some in Ef as (Hl & Heq & _). exfalso. apply Hn. exists l'. split; [done|].
    by eapply list_elem_of_lookup_2.
Qed.

Lemma unique_ref r l1 l2 :
  NoDup (obj_name r <$> monitoredSources r) → l1 ∈ monitoredSources r → l2 ∈ monitoredSources r →
  obj_name r l1 = obj_name r l2 → l1 = l2.
Proof.
  intros Hnd [i Hi]%list_elem_of_lookup [j Hj]%list_elem_of_lookup Heq.
  assert (i = j) as ->; [|congruence].
  eapply NoDup_lookup; [exact Hnd| |]; rewrite list_lookup_fmap; [by rewrite Hi|].
  rewrite Hj. simpl. by rewrite Heq.
Qed.

(** Shrinking the set of workers, or changing connections without renaming them, is harmless. *)
Lemma round_inv_weaken r r' :
  round_inv r → same_lists r r' → cancelFuncs r' ⊆ cancelFuncs r → round_inv r'.
Proof.
  intros [H1 H2 H3 H4] (Hn & Hnext & Hm & _) Hsub.
  assert (obj_name r' <$> monitoredSources r' = obj_name r <$> monitoredSources r) as Hf.
  { rewrite Hm. by apply same_names_fmap. }
  split.
  - intros l. rewrite Hn, Hnext. apply H1.
  - intros l. rewrite Hn, Hm. apply H2.
  - by rewrite Hf.
  - intros name l Hl. rewrite Hn, Hf, Hm. apply H4. by eapply lookup_weaken.
Qed.

Lemma update_obj_lists r l c c' :
  objs r !! l = Some c → Name (GetSource c') = Name (GetSource c) → same_lists r (update_obj r l c').
Proof.
  intros Hl Hn. split_and!; try done. intros l'. unfold obj_name. simpl.
  destruct (decide (l' = l)) as [->|]; [|by rewrite lookup_insert_ne].
  rewrite lookup_insert_eq, Hl. simpl. by rewrite Hn.
Qed.

Lemma close_at_lists r l : same_lists r (close_at r l) ∧ cancelFuncs (close_at r l) = cancelFuncs r.
Proof.
  unfold close_at. destruct (objs r !! l) as [c|] eqn:E; [|done]. split; [|done].
  eapply update_obj_lists; [done|]. destruct c as [md|pc]; [|done]. simpl. unfold DbConn_Close.
  by destruct (md_Conn md).
Qed.

Lemma ShutdownWorker_lists r name :
  same_lists r (ShutdownWorker r name) ∧ cancelFuncs (ShutdownWorker r name) = delete name (cancelFuncs r).
Proof.
  unfold ShutdownWorker. set (r1 := set_cancel r _).
  destruct (GetMonitoredDatabase r1 _ name) as [l|]; [|done].
  destruct (close_at_lists r1 l) as [Hs Hc]. split; [|by simpl; rewrite Hc].
  change (same_lists r (close_at r1 l)). etrans; [|exact Hs]. done.
Qed.

(** ** Reloading the sources *)

Definition fresh_objs (r : reaper) : Prop := ∀ l, is_Some (objs r !! l) → (l < next_obj r)%nat.

Lemma alloc_spec r cs r' ls :
  alloc r cs = (r', ls) → fresh_objs r →
  objs r ⊆ objs r' ∧ fresh_objs r' ∧ monitoredSources r' = monitoredSources r ∧
  prevLoopMonitoredDBs r' = prevLoopMonitoredDBs r ∧ cancelFuncs r' = cancelFuncs r ∧
  Forall2 (λ l c, objs r' !! l = Some c) ls cs ∧ (next_obj r ≤ next_obj r')%nat ∧
  Forall (λ l, (next_obj r ≤ l)%nat) ls.
Proof.
  revert r ls. induction cs as [|c cs IH]; intros r ls Ha Hf; simpl in Ha.
  { simplify_eq. split_and!; auto. }
  destruct (alloc _ cs) as [r2 ls2] eqn:E. simplify_eq.
  apply IH in E as (Hsub & Hf' & Hm & Hp & Hc & Hls & Hle & Hge).
  2: { intros l. simpl. destruct (decide (l = next_obj r)) as [->|]; [simpl; lia|].
       rewrite lookup_insert_ne by done. intros Hl. specialize (Hf l Hl). lia. }
  simpl in *. assert (objs r !! next_obj r = None) as Hnone.
  { destruct (objs r !! next_obj r) eqn:El; [|done]. specialize (Hf (next_obj r)).
    rewrite El in Hf. specialize (Hf ltac:(done)). lia. }
  split_and!; try done; [|constructor; [|done]|lia|constructor; [lia|]].
  - etrans; [by apply insert_subseteq|exact Hsub].
  - eapply lookup_weaken; [apply lookup_insert_eq|exact Hsub].
  - eapply Forall_impl; [exact Hge|]. simpl. lia.
Qed.

Lemma close_at_objs r l :
  objs (close_at r l) = match objs r !! l with Some c => <[l := conn_Close c]> (objs r) | None => objs r end.
Proof. unfold close_at. by destruct (objs r !! l). Qed.

(** Stopping the worker of one source leaves the connections of the others alone. *)
Lemma ShutdownWorker_objs r name l :
  obj_name r l ≠ Some name → objs (ShutdownWorker r name) !! l = objs r !! l.
Proof.
  intros Hn. unfold ShutdownWorker. set (r1 := set_cancel r _).
  destruct (GetMonitoredDatabase r1 _ name) as [l'|] eqn:E; simpl; [|done].
  apply GetMonitoredDatabase_Some in E as [_ E]. rewrite close_at_objs.
  destruct (objs r1 !! l') eqn:Eo; [|done]. rewrite lookup_insert_ne; [done|]. by intros ->.
Qed.

Lemma ShutdownWorker_closes r name l oc :
  NoDup (obj_name r <$> monitoredSources r) → l ∈ monitoredSources r → objs r !! l = Some oc →
  obj_name r l = Some name → objs (ShutdownWorker r name) !! l = Some (conn_Close oc).
Proof.
  intros Hnd Hin Hl Hn. unfold ShutdownWorker. set (r1 := set_cancel r _).
  destruct (GetMonitoredDatabase r1 _ name) as [l'|] eqn:E.
  - apply GetMonitoredDatabase_Some in E as [Hin' E]. assert (l' = l) as ->.
    { eapply unique_ref; [exact Hnd|done..|]. by rewrite Hn. }
    simpl. rewrite close_at_objs. simpl. rewrite Hl. apply lookup_insert_eq.
  - apply GetMonitoredDatabase_None in E. exfalso. apply E. apply list_elem_of_fmap.
    exists l. by split.
Qed.

(** One step concerns one name. *)
Lemma merge_one_spec r l c name :
  objs r !! l = Some c → obj_name r l = Some name →
  let step := merge_one r l c in
  same_lists r step.1 ∧ cancelFuncs step.1 ⊆ cancelFuncs r ∧ obj_name r step.2 = Some name ∧
  (∀ n, n ≠ name → cancelFuncs step.1 !! n = cancelFuncs r !! n) ∧
  (∀ l', obj_name r l' ≠ Some name → objs step.1 !! l' = objs r !! l').
Proof.
  intros Hc Hname. pose proof Hname as Hn. unfold obj_name in Hn. rewrite Hc in Hn.
  injection Hn as Hn. unfold merge_one. cbn zeta. cbn [compose] in Hn. rewrite Hn.
  destruct (GetMonitoredDatabase r _ name) as [old|] eqn:Eg; [|done].
  apply GetMonitoredDatabase_Some in Eg as [_ Eg]. pose proof Eg as Eg'. unfold obj_name in Eg'.
  destruct (objs r !! old) as [oc|]; [|done]. injection Eg' as Eg'. cbn [compose] in Eg'.
  destruct (Source_Equal _ _); [done|]. rewrite Eg'.
  destruct (ShutdownWorker_lists r name) as [Hs Hcf]. cbn [fst snd]. rewrite Hcf.
  split_and!; [done|apply delete_subseteq|done| |].
  - intros n Hne. by rewrite lookup_delete_ne.
  - intros l' Hl'. by apply ShutdownWorker_objs.
Qed.

(** The names an update of the list of sources concerns. *)
Lemma merge_sources_spec r news r' ls :
  merge_sources r news = (r', ls) → (∀ l, l ∈ news → is_Some (objs r !! l)) →
  same_lists r r' ∧ cancelFuncs r' ⊆ cancelFuncs r ∧ obj_name r <$> ls = obj_name r <$> news ∧
  (∀ name, Some name ∉ obj_name r <$> news → cancelFuncs r' !! name = cancelFuncs r !! name) ∧
  (∀ l, obj_name r l ∉ obj_name r <$> news → objs r' !! l = objs r !! l).
Proof.
  revert r ls. induction news as [|l news IH]; intros r ls Hm Hnews; simpl in Hm.
  { by simplify_eq. }
  destruct (Hnews l) as [c Hc]; [by left|]. rewrite Hc in Hm.
  assert (obj_name r l = Some (Name (GetSource c))) as Hname by (unfold obj_name; by rewrite Hc).
  pose proof (merge_one_spec r l c _ Hc Hname) as (H1 & H2 & H3 & H4 & H5).
  destruct (merge_one r l c) as [r1 l1]. cbn [fst snd] in *.
  destruct (merge_sources r1 news) as [r2 ls2] eqn:E. simplify_eq. pose proof H1 as (Hn & _).
  apply IH in E as (Ha & Hb & Hd & He & Hf).
  2: { intros l' Hl'. specialize (Hnews l' ltac:(by right)). specialize (Hn l').
       unfold obj_name in Hn. destruct Hnews as [c' Hc']. rewrite Hc' in Hn.
       destruct (objs r1 !! l'); [done|]. discriminate. }
  rewrite !(same_names_fmap r r1) in Hd by done. split_and!; [by etrans|by etrans| | |].
  - csimpl. by rewrite H3, Hname, Hd.
  - intros n. csimpl. rewrite not_elem_of_cons, Hname. intros [Hne Hni].
    rewrite He by (by rewrite (same_names_fmap r r1)). apply H4. congruence.
  - intros l'. csimpl. rewrite not_elem_of_cons, Hname. intros [Hne Hni].
    rewrite Hf by (by rewrite (same_names_fmap r r1), Hn). by apply H5.
Qed.

Lemma ShutdownWorker_unmonitored r name l :
  l ∉ monitoredSources r → objs (ShutdownWorker r name) !! l = objs r !! l.
Proof.
  intros Hn. unfold ShutdownWorker. set (r1 := set_cancel r _).
  destruct (GetMonitoredDatabase r1 _ name) as [l'|] eqn:E; simpl; [|done].
  apply GetMonitoredDatabase_Some in E as [E _]. rewrite close_at_objs.
  destruct (objs r1 !! l') eqn:Eo; [|done]. rewrite lookup_insert_ne; [done|]. by intros ->.
Qed.

Lemma GetMonitoredDatabase_unique r name l :
  NoDup (obj_name r <$> monitoredSources r) → l ∈ monitoredSources r → obj_name r l = Some name →
  GetMonitoredDatabase r (monitoredSources r) name = Some l.
Proof.
  intros Hnd Hin Hn. destruct (GetMonitoredDatabase r _ name) as [l'|] eqn:E.
  - apply GetMonitoredDatabase_Some in E as [Hin' E]. f_equal.
    eapply unique_ref; [exact Hnd|done..|]. by rewrite Hn.
  - apply GetMonitoredDatabase_None in E. exfalso. apply E, list_elem_of_fmap. by exists l.
Qed.

(** What a reload does to the connection [old] and the worker of a source that is configured
    again, as [c] at the new reference [l]. *)
Definition reload_of (r' : reaper) (ls : list nat) (w : option nat) (l old : nat) (c oc : source_conn) :
    Prop :=
  if Source_Equal (GetSource oc) (GetSource c)
  then old ∈ ls ∧ cancelFuncs r' !! Name (GetSource c) = w ∧ objs r' !! old = Some oc
  else l ∈ ls ∧ cancelFuncs r' !! Name (GetSource c) = None ∧ objs r' !! old = Some (conn_Close oc) ∧
       objs r' !! l = Some c.

Lemma merge_one_at r l old c oc :
  NoDup (obj_name r <$> monitoredSources r) → objs r !! l = Some c → l ∉ monitoredSources r →
  old ∈ monitoredSources r → objs r !! old = Some oc → Name (GetSource oc) = Name (GetSource c) →
  reload_of (merge_one r l c).1 [(merge_one r l c).2] (cancelFuncs r !! Name (GetSource c)) l old c oc.
Proof.
  intros Hnd Hl Hnl Hold Hoc Hname.
  assert (obj_name r old = Some (Name (GetSource c))) as Hon by (unfold obj_name; rewrite Hoc; csimpl; by f_equal).
  unfold reload_of, merge_one. rewrite (GetMonitoredDatabase_unique r _ old), Hoc by done.
  destruct (Source_Equal _ _); cbn [fst snd]; [split_and!; [by left|done..]|].
  rewrite Hname. destruct (ShutdownWorker_lists r (Name (GetSource c))) as [_ ->].
  split_and!; [by left|apply lookup_delete_eq|by apply ShutdownWorker_closes|].
  by rewrite ShutdownWorker_unmonitored.
Qed.

Lemma merge_sources_at r news r' ls l old c oc :
  merge_sources r news = (r', ls) → (∀ l, l ∈ news → is_Some (objs r !! l)) →
  NoDup (obj_name r <$> news) → NoDup (obj_name r <$> monitoredSources r) →
  l ∈ news → objs r !! l = Some c → l ∉ monitoredSources r →
  old ∈ monitoredSources r → objs r !! old = Some oc → Name (GetSource oc) = Name (GetSource c) →
  reload_of r' ls (cancelFuncs r !! Name (GetSource c)) l old c oc.
Proof.
  revert r ls. induction news as [|l1 news IH]; intros r ls Hm Hex Hnd Hndm Hin Hl Hnl Hold Hoc Hname.
  { by apply elem_of_nil in Hin. }
  assert (obj_name r l = Some (Name (GetSource c))) as Hln by (unfold obj_name; by rewrite Hl).
  assert (obj_name r old = Some (Name (GetSource c))) as Hon by (unfold obj_name; rewrite Hoc; csimpl; by f_equal).
  cbn [merge_sources] in Hm. destruct (Hex l1) as [c1 Hc1]; [by left|]. rewrite Hc1 in Hm.
  assert (obj_name r l1 = Some (Name (GetSource c1))) as Hn1 by (unfold obj_name; by rewrite Hc1).
  pose proof (merge_one_spec r l1 c1 _ Hc1 Hn1) as (H1 & H2 & H3 & H4 & H5).
  destruct (merge_one r l1 c1) as [r1 l1'] eqn:E1. cbn [fst snd] in *.
  destruct (merge_sources r1 news) as [r2 ls2] eqn:E2. simplify_eq.
  pose proof H1 as (Hn & Hnext & Hmon & Hprev).
  assert (∀ l', l' ∈ news → is_Some (objs r1 !! l')) as Hex1.
  { intros l' Hl'. destruct (Hex l' ltac:(by right)) as [c' Hc']. specialize (Hn l').
    unfold obj_name in Hn. rewrite Hc' in Hn. destruct (objs r1 !! l'); [done|discriminate]. }
  csimpl in Hnd. apply NoDup_cons in Hnd as [Hfresh Hnd]. rewrite <-(same_names_fmap r r1) in Hfresh by done.
  apply elem_of_cons in Hin as [->|Hin].
  - assert (c1 = c) as -> by congruence.
    pose proof (merge_one_at r l1 old c oc Hndm Hl Hnl Hold Hoc Hname) as Hat. rewrite E1 in Hat. cbn [fst snd] in Hat.
    apply merge_sources_spec in E2 as (_ & _ & _ & Hw & Ho); [|done].
    rewrite Hn1 in Hfresh. unfold reload_of in *.
    rewrite (Hw _ Hfresh), !Ho by (rewrite Hn; congruence).
    destruct (Source_Equal _ _); destruct Hat as (Hat & ?); (split; [|done]);
      apply list_elem_of_singleton in Hat; subst; by left.
  - assert (Name (GetSource c) ≠ Name (GetSource c1)) as Hne.
    { intros Heq. apply Hfresh. rewrite Hn1, <-Heq. apply list_elem_of_fmap. exists l. by rewrite Hn. }
    rewrite <-H4 by done. eapply IH in E2 as Hr.
    2: done. 2: by rewrite (same_names_fmap r r1). 2: by rewrite Hmon, (same_names_fmap r r1).
    2: done. 2: rewrite H5; [done|congruence]. 2: by rewrite Hmon. 2: by rewrite Hmon.
    2: rewrite H5; [done|congruence]. 2: done.
    unfold reload_of in *. destruct (Source_Equal _ _); destruct Hr as (? & ?); split; try done; by right.
Qed.

Section preservation.
Context (env : loop_env).
Implicit Types (r : reaper).

(** What the steps of a sweep do to the lists and the workers. *)
Definition sweep_step (l : nat) r r' : Prop :=
  same_lists r r' ∧
  ∀ name l', cancelFuncs r' !! name = Some l' →
    cancelFuncs r !! name = Some l' ∨ (l' = l ∧ obj_name r l = Some name).

Lemma FilterSource_lists r md :
  same_lists r (FilterSource env r md).1 ∧ cancelFuncs (FilterSource env r md).1 ⊆ cancelFuncs r.
Proof using Type.
  unfold FilterSource. destruct (ShutdownWorker_lists r (Name (md_Source md))) as [Hs Hc].
  destruct (_ && _); cbn [fst]; [split; [done|rewrite Hc; apply delete_subseteq]|].
  destruct (_ && _); cbn [fst]; [split; [done|rewrite Hc; apply delete_subseteq]|done].
Qed.

Lemma SyncMetricsToSinks_lists r md :
  same_lists r (SyncMetricsToSinks env r md) ∧
  cancelFuncs (SyncMetricsToSinks env r md) = cancelFuncs r.
Proof using Type.
  unfold SyncMetricsToSinks. generalize (range_keys (order env) (default ∅ (ActiveMetrics md))) as ns.
  intros ns. revert r. induction ns as [|n ns IH]; intros r; cbn [foldl]; [done|].
  destruct (GetMetricDef (defs r) n) as [mvp|]; [|apply IH].
  edestruct IH as [H1 H2]. split; [etrans; [|exact H1]; done|by rewrite H2].
Qed.

Lemma StartWorker_step r name l :
  obj_name r l = Some name → sweep_step l r (StartWorker r name l).
Proof using Type.
  intros Hn. unfold StartWorker. destruct (cancelFuncs r !! name) eqn:E.
  { split; [done|]. auto. }
  split; [done|]. intros name' l'. simpl. intros [[<- <-]|[_ ?]]%lookup_insert_Some; auto.
Qed.

Lemma connect_name c c' err : connect env c = Returns (c', err) → Name (GetSource c') = Name (GetSource c).
Proof using Type.
  destruct c as [md|pc]; simpl.
  2:{ pose proof (PromConn_Connect_source (prom_net env) pc) as Hs. destruct (PromConn_Connect _ pc).
      intros [= <- _]. simpl in *. by rewrite Hs. }
  destruct (DbConn_Connect _ _ _ _ md) as [[md' e]| |] eqn:E; [|done..]. intros [= <- _]. simpl. f_equal.
  by eapply Connect_source.
Qed.

Lemma sweep_step_trans l r1 r2 r3 :
  same_lists r1 r2 → cancelFuncs r2 ⊆ cancelFuncs r1 → sweep_step l r2 r3 → sweep_step l r1 r3.
Proof using Type.
  intros Hs Hc [Hs' Hw]. split; [by etrans|]. intros name l' Hl.
  destruct (Hw name l' Hl) as [?|[-> Hn]]; [left; by eapply lookup_weaken|right].
  split; [done|]. destruct Hs as (Hn' & _). by rewrite <-Hn'.
Qed.

Lemma process_source_step r l r' : process_source env r l = Returns r' → sweep_step l r r'.
Proof using Type.
  unfold process_source. destruct (objs r !! l) as [c|] eqn:El; [|done].
  assert (∀ r1, same_lists r r1 → cancelFuncs r1 ⊆ cancelFuncs r → sweep_step l r r1) as Hid.
  { intros r1 Hs Hc. split; [done|]. intros name l' Hl. left. by eapply lookup_weaken. }
  destruct (connect env c) as [[c' err]| |] eqn:Ec; [|done..].
  pose proof (connect_name _ _ _ Ec) as Hname.
  pose proof (update_obj_lists r l c c' El Hname) as Hs1.
  destruct err as [e|].
  { intros [= <-]. apply Hid; [|done]. etrans; [exact Hs1|done]. }
  destruct c' as [md|pc].
  2: { intros [= <-]. eapply sweep_step_trans; [exact Hs1|done|]. apply StartWorker_step.
       unfold obj_name. simpl. rewrite lookup_insert_eq. simpl. by rewrite <-Hname. }
  pose proof (FetchRuntimeInfo_frame (servers env (Name (GetSource c))) None (loop_now env)
    (loop_now env) md true) as (Hsrc & _ & _).
  destruct (FetchRuntimeInfo _ _ _ _ md true) as [md2 err2]. simpl in Hsrc.
  assert (same_lists r (update_obj (update_obj r l (ConnDb md)) l (ConnDb md2))) as Hs2.
  { etrans; [exact Hs1|]. eapply update_obj_lists; [simpl; apply lookup_insert_eq|].
    simpl. by rewrite Hsrc. }
  destruct err2 as [e|]; [intros [= <-]; by apply Hid|].
  set (r2 := update_obj _ _ (ConnDb md2)) in *.
  pose proof (FilterSource_lists r2 md2) as [Hs3 Hc3].
  destruct (FilterSource env r2 md2) as [r3 skip]. simpl in Hs3, Hc3.
  destruct skip; [intros [= <-]; apply Hid; [by etrans|done]|].
  destruct (CreateSourceHelpers env r3 md2); [|done..]. intros [= <-].
  pose proof (SyncMetricsToSinks_lists (TrackRecoveryStatus r3 md2) md2) as [Hs4 Hc4].
  set (r4 := SyncMetricsToSinks env _ md2) in *.
  assert (same_lists r r4) as Hs5.
  { etrans; [exact Hs2|]. etrans; [exact Hs3|]. etrans; [|exact Hs4]. done. }
  eapply sweep_step_trans; [exact Hs5|by rewrite Hc4|].
  apply StartWorker_step. destruct Hs5 as (Hn & _). rewrite Hn. unfold obj_name. by rewrite El.
Qed.

Lemma sweep_step_inv l r r' :
  round_inv r → l ∈ monitoredSources r → sweep_step l r r' → round_inv r'.
Proof using Type.
  intros [H1 H2 H3 H4] Hl [(Hn & Hnext & Hm & _) Hw].
  assert (obj_name r' <$> monitoredSources r' = obj_name r <$> monitoredSources r) as Hf.
  { rewrite Hm. by apply same_names_fmap. }
  split.
  - intros l'. rewrite Hn, Hnext. apply H1.
  - intros l'. rewrite Hn, Hm. apply H2.
  - by rewrite Hf.
  - intros name l' Hc. rewrite Hn, Hf, Hm. destruct (Hw name l' Hc) as [?|[-> ?]]; [by apply H4|].
    split; [done|]. by left.
Qed.

Lemma sweep_inv r ls r' :
  sweep env r ls = Returns r' → round_inv r → (∀ l, l ∈ ls → l ∈ monitoredSources r) →
  round_inv r' ∧ same_lists r r'.
Proof using Type.
  revert r. induction ls as [|l ls IH]; intros r Hs Hinv Hin; simpl in Hs.
  { by injection Hs as <-. }
  destruct (process_source env r l) as [r1| |] eqn:Ep; [|done..].
  apply process_source_step in Ep. assert (l ∈ monitoredSources r) as Hl by (apply Hin; by left).
  destruct (IH r1 Hs) as [Hi Hsl].
  - by eapply sweep_step_inv.
  - destruct Ep as [(_ & _ & Hm & _) _]. rewrite Hm. intros l' Hl'. apply Hin. by right.
  - split; [done|]. destruct Ep as [Hs1 _]. by etrans.
Qed.

Lemma writes_down r ns : foldl (WriteInstanceDown env) r ns = add_out r (instance_down env <$> ns).
Proof using Type.
  revert r. induction ns as [|n ns IH]; intros r; csimpl.
  - destruct r. unfold add_out. simpl. by rewrite app_nil_r.
  - rewrite IH. unfold WriteInstanceDown, add_out. simpl. by rewrite <-app_assoc.
Qed.

Lemma inv_fresh_objs r : round_inv r → fresh_objs r.
Proof using Type.
  intros [H _ _ _] l Hl. apply H. unfold obj_name. by rewrite fmap_is_Some.
Qed.

(** The names of the sources the resolver returns. *)
Definition conn_names (cs : list source_conn) : list string := Name ∘ GetSource <$> cs.

Section reload.
Context (resolve : Sources → list source_conn * list string) (srcs : Sources).
Let cs := (resolve (filter (λ s, wanted_source env s = true) srcs)).1.
Hypothesis unique_names : NoDup (conn_names cs).

(** A successful reload, in steps. *)
Lemma LoadSources_steps r :
  head_inv r →
  ∃ r1 r2 news ls,
    LoadSources env false (Ok srcs) resolve r = (set_monitored r2 ls, None) ∧
    objs r ⊆ objs r1 ∧ fresh_objs r1 ∧ monitoredSources r1 = monitoredSources r ∧
    cancelFuncs r1 = cancelFuncs r ∧ merge_sources r1 news = (r2, ls) ∧
    Forall2 (λ l c, objs r1 !! l = Some c) news cs ∧ NoDup (obj_name r1 <$> news) ∧
    NoDup (obj_name r1 <$> monitoredSources r1) ∧
    (∀ l, l ∈ monitoredSources r → is_Some (objs r !! l)) ∧
    (∀ l, l ∈ news → l ∉ monitoredSources r1) ∧ (∀ l, l ∈ news → is_Some (objs r1 !! l)).
Proof using unique_names.
  intros [Hinv _]. pose proof (inv_fresh_objs _ Hinv) as Hf. destruct Hinv as [H1 H2 H3 _].
  unfold LoadSources. unfold cs in *. destruct (resolve _) as [cs' down]. cbn [fst] in *.
  rewrite writes_down. destruct (alloc _ cs') as [r1 news] eqn:Ea.
  apply alloc_spec in Ea as (Hsub & Hf1 & Hm & Hp & Hc & Hls & Hle & Hge); [|done].
  cbn [add_out objs monitoredSources prevLoopMonitoredDBs cancelFuncs next_obj] in *.
  destruct (merge_sources r1 news) as [r2 ls] eqn:Em. exists r1, r2, news, ls.
  assert (∀ l, l ∈ monitoredSources r → is_Some (objs r !! l)) as Hex.
  { intros l Hl. specialize (H2 l Hl). unfold obj_name in H2. by rewrite fmap_is_Some in H2. }
  assert (obj_name r1 <$> news = Some <$> conn_names cs') as Hnames.
  { clear -Hls. induction Hls as [|l c ls cs Hl _ IH]; [done|]. csimpl. rewrite IH. f_equal.
    unfold obj_name. by rewrite Hl. }
  split_and!; try done.
  - rewrite Hnames. by apply NoDup_fmap_2; [apply _|].
  - rewrite Hm. erewrite list_fmap_ext; [exact H3|]. intros i l Hi%list_elem_of_lookup_2.
    destruct (Hex l Hi) as [c Hc']. unfold obj_name. rewrite Hc'. by rewrite (lookup_weaken _ _ _ _ Hc' Hsub).
  - intros l Hl Hin. rewrite Hm in Hin. rewrite Forall_forall in Hge. specialize (Hge l Hl).
    specialize (Hf l (Hex l Hin)). lia.
  - intros l Hl. clear -Hls Hl. apply list_elem_of_lookup in Hl as [i Hi].
    destruct (Forall2_lookup_l _ _ _ _ _ Hls Hi) as (c & _ & ->). done.
Qed.

(** A source that was monitored and is configured again. *)
Lemma LoadSources_reload r :
  head_inv r → ∃ r2 ls, LoadSources env false (Ok srcs) resolve r = (set_monitored r2 ls, None) ∧
  ∀ old oc c, old ∈ monitoredSources r → objs r !! old = Some oc → c ∈ cs →
  Name (GetSource oc) = Name (GetSource c) →
  ∃ l, (l < next_obj r2)%nat ∧ l ∉ monitoredSources r ∧
    reload_of r2 ls (cancelFuncs r !! Name (GetSource c)) l old c oc.
Proof using unique_names.
  intros Hinv. destruct (LoadSources_steps r Hinv) as
    (r1 & r2 & news & ls & -> & Hsub & Hf & Hm & Hc & Hmerge & Hls & Hnd & Hndm & Hex & Hfresh & Hnew).
  exists r2, ls. split; [done|]. intros old oc c Hold Hoc [i Hi]%list_elem_of_lookup Hname.
  destruct (Forall2_lookup_r _ _ _ _ _ Hls Hi) as (l & Hl & Hlc).
  assert (l ∈ news) as Hln by (by eapply list_elem_of_lookup_2). exists l.
  pose proof (merge_sources_spec _ _ _ _ Hmerge Hnew) as ((_ & Hnext & _) & _).
  rewrite Hnext. split_and!; [apply Hf; by apply Hnew|rewrite <-Hm; by apply Hfresh|].
  rewrite <-Hc. eapply merge_sources_at; try done; [by apply Hfresh|by rewrite Hm|].
  by eapply lookup_weaken.
Qed.

Lemma LoadSources_inv r : head_inv r → round_inv (LoadSources env false (Ok srcs) resolve r).1.
Proof using unique_names.
  intros Hinv. pose proof Hinv as [[H1 H2 H3 H4] H5]. destruct (LoadSources_steps r Hinv) as
    (r1 & r2 & news & ls & -> & Hsub & Hf & Hm & Hc & Hmerge & Hls & Hnd & Hndm & Hex & Hfresh & Hnew).
  pose proof (merge_sources_spec _ _ _ _ Hmerge Hnew) as ((Hn & Hnext & _) & Hcsub & Hnames & _).
  assert (obj_name r2 <$> ls = obj_name r1 <$> news) as Hall by (by rewrite (same_names_fmap r1 r2)).
  assert (∀ l, l ∈ monitoredSources r → obj_name r1 l = obj_name r l) as Hkeep.
  { intros l Hl. destruct (Hex l Hl) as [c Hc']. unfold obj_name. rewrite Hc'.
    by rewrite (lookup_weaken _ _ _ _ Hc' Hsub). }
  split; cbn [fst set_monitored monitoredSources next_obj cancelFuncs objs].
  - intros l. change (obj_name (set_monitored r2 ls) l) with (obj_name r2 l). rewrite Hn, Hnext.
    unfold obj_name. rewrite fmap_is_Some. apply Hf.
  - intros l Hl. change (is_Some (obj_name r2 l)).
    assert (obj_name r2 l ∈ obj_name r1 <$> news) as Hin by (rewrite <-Hall; by apply list_elem_of_fmap_2).
    apply list_elem_of_fmap in Hin as (l' & -> & Hl'). unfold obj_name. rewrite fmap_is_Some. by apply Hnew.
  - change (NoDup (obj_name r2 <$> ls)). by rewrite Hall.
  - intros name l Hl. change (obj_name r2 l = Some name ∧ (l ∈ ls ∨ Some name ∉ obj_name r2 <$> ls)).
    rewrite Hall, Hn. assert (cancelFuncs r !! name = Some l) as Hw.
    { rewrite <-Hc. by eapply lookup_weaken. }
    destruct (H4 name l Hw) as [Hname _]. pose proof (H5 name l Hw) as Hmon.
    rewrite (Hkeep l Hmon). split; [done|].
    destruct (decide (Some name ∈ obj_name r1 <$> news)) as [Hin|]; [left|by right].
    apply list_elem_of_fmap in Hin as (l0 & Hl0 & Hin). destruct (Hnew l0 Hin) as [c Hlc].
    destruct (Hex l Hmon) as [oc Hoc]. unfold obj_name in Hname, Hl0. rewrite Hoc in Hname.
    rewrite Hlc in Hl0. cbn in Hname, Hl0. simplify_eq.
    assert (reload_of r2 ls (cancelFuncs r1 !! Name (GetSource c)) l0 l c oc) as Hr.
    { eapply merge_sources_at; try done; [by apply Hfresh|by rewrite Hm|by eapply lookup_weaken]. }
    unfold reload_of in Hr. destruct (Source_Equal _ _); [by destruct Hr|].
    destruct Hr as (_ & Hr & _). congruence.
Qed.
End reload.

(** ** Definitions and clean-up *)

Lemma apply_presets_lists r l :
  same_lists r (apply_presets r l) ∧ cancelFuncs (apply_presets r l) = cancelFuncs r.
Proof using Type.
  unfold apply_presets. destruct (objs r !! l) as [c|] eqn:E; [|done].
  assert (∀ m s, same_lists r (update_obj r l (conn_SetMetricIntervals c m s))) as H.
  { intros m s. eapply update_obj_lists; [done|]. by destruct c. }
  by split_matches.
Qed.

Lemma foldl_lists {A} (f : reaper → A → reaper) (xs : list A) :
  (∀ r x, same_lists r (f r x) ∧ cancelFuncs (f r x) = cancelFuncs r) →
  ∀ r, same_lists r (foldl f r xs) ∧ cancelFuncs (foldl f r xs) = cancelFuncs r.
Proof using Type.
  intros Hf. induction xs as [|x xs IH]; intros r; [done|]. cbn [foldl].
  destruct (Hf r x) as [H1 H2], (IH (f r x)) as [H3 H4]. split; [by etrans|congruence].
Qed.

Lemma LoadMetrics_lists read r :
  same_lists r (LoadMetrics read r).1 ∧ cancelFuncs (LoadMetrics read r).1 = cancelFuncs r.
Proof using Type.
  unfold LoadMetrics. destruct read as [d|e]; [|done]. cbn [fst].
  set (r1 := add_sync _ _).
  destruct (foldl_lists apply_presets (monitoredSources r1) apply_presets_lists r1) as [H1 H2]. by split.
Qed.

Lemma GetMonitoredDatabase_names r r' ls name :
  same_names r r' → GetMonitoredDatabase r' ls name = GetMonitoredDatabase r ls name.
Proof using Type.
  intros Hn. unfold GetMonitoredDatabase. f_equal. apply list_find_ext. intros l. by rewrite Hn.
Qed.

(** The workers that go: all of them once the program is asked to stop, else the ones whose source
    is not configured any more. *)
Definition removed r (ctx_done : bool) (name : string) : bool :=
  ctx_done || bool_decide (GetMonitoredDatabase r (monitoredSources r) name = None).

Lemma stop_removed_workers ctx_done names r :
  let r' := foldl (cleanup_worker ctx_done) r names in
  same_lists r r' ∧
  ∀ name, cancelFuncs r' !! name =
    if removed r ctx_done name && bool_decide (name ∈ names) then None else cancelFuncs r !! name.
Proof using Type.
  revert r. induction names as [|n names IH]; intros r; cbn zeta; cbn [foldl].
  { split; [done|]. intros name. by rewrite andb_false_r. }
  set (r1 := cleanup_worker ctx_done r n).
  assert (same_lists r r1 ∧ cancelFuncs r1 =
    if removed r ctx_done n then delete n (cancelFuncs r) else cancelFuncs r) as [Hs Hc].
  { unfold r1, removed, cleanup_worker. destruct (ShutdownWorker_lists r n) as [Hs Hc].
    destruct (GetMonitoredDatabase _ _ n), ctx_done; by rewrite ?Hc. }
  destruct (IH r1) as [Hs' Hc']. split; [by etrans|]. intros name. rewrite Hc'.
  assert (∀ x, removed r1 ctx_done x = removed r ctx_done x) as Hr.
  { intros x. destruct Hs as (Hn & _ & Hm & _). unfold removed.
    by rewrite Hm, (GetMonitoredDatabase_names r r1). }
  rewrite Hr, Hc. destruct (decide (name = n)) as [->|Hne].
  - rewrite (bool_decide_true (n ∈ n :: names)) by (by left).
    destruct (removed r ctx_done n); [|done]. simpl. rewrite lookup_delete_eq. by destruct (bool_decide _).
  - rewrite (bool_decide_ext (name ∈ n :: names) (name ∈ names)) by set_solver.
    destruct (removed r ctx_done name && _); [done|].
    destruct (removed r ctx_done n); [by rewrite lookup_delete_ne|done].
Qed.

Lemma CleanupRemovedWorkers_spec ctx_done r :
  let r' := CleanupRemovedWorkers env ctx_done r in
  same_names r r' ∧ next_obj r' = next_obj r ∧ monitoredSources r' = monitoredSources r ∧
  prevLoopMonitoredDBs r' = monitoredSources r ∧
  ∀ name, cancelFuncs r' !! name = if removed r ctx_done name then None else cancelFuncs r !! name.
Proof using Type.
  unfold CleanupRemovedWorkers. cbn zeta.
  destruct (stop_removed_workers ctx_done (range_keys (order env) (cancelFuncs r)) r)
    as [(Hn & Hnext & Hm & Hp) Hc].
  set (r1 := foldl _ r (range_keys _ _)) in *. 
  assert (∀ r x, same_lists r (cleanup_prev r x) ∧ cancelFuncs (cleanup_prev r x) = cancelFuncs r) as Hf.
  { intros r0 x. unfold cleanup_prev. destruct (obj_name r0 x) as [n|]; [|done].
    destruct (GetMonitoredDatabase r0 _ n); [done|]. destruct (close_at_lists r0 x) as [? ?].
    by split. }
  destruct (foldl_lists cleanup_prev (prevLoopMonitoredDBs r1) Hf r1) as [(Hn2 & Hnext2 & Hm2 & Hp2) Hc2].
  set (r2 := foldl cleanup_prev r1 _) in *. split_and!.
  - intros l. change (obj_name r2 l = obj_name r l). by rewrite Hn2, Hn.
  - simpl. congruence.
  - simpl. congruence.
  - simpl. congruence.
  - intros name. simpl. rewrite Hc2, Hc. destruct (removed r ctx_done name); [|done]. simpl.
    case_bool_decide as Hin; [done|]. rewrite elem_of_range_keys in Hin.
    by apply eq_None_not_Some.
Qed.

Lemma round_head_inv ctx_done r : round_inv r → head_inv (CleanupRemovedWorkers env ctx_done r).
Proof using Type.
  intros [H1 H2 H3 H4]. destruct (CleanupRemovedWorkers_spec ctx_done r) as (Hn & Hnext & Hm & Hp & Hc).
  set (r' := CleanupRemovedWorkers env ctx_done r) in *.
  assert (∀ name l, cancelFuncs r' !! name = Some l → obj_name r l = Some name ∧ l ∈ monitoredSources r) as Hw.
  { intros name l. rewrite Hc. unfold removed. destruct ctx_done; [done|]. simpl.
    case_bool_decide as Hg; [done|]. intros Hl. destruct (H4 name l Hl) as [? [?|?]]; [done|].
    exfalso. apply Hg. by apply GetMonitoredDatabase_None. }
  split; [split|].
  - intros l. rewrite Hn, Hnext. apply H1.
  - intros l. rewrite Hn, Hm. apply H2.
  - by rewrite Hm, (same_names_fmap r r').
  - intros name l Hl. rewrite Hn, Hm. destruct (Hw name l Hl). auto.
  - intros name l Hl. rewrite Hm. by destruct (Hw name l Hl).
Qed.

(** *** The round returns *)

Lemma connect_returns c : ∃ c' err, connect env c = Returns (c', err).
Proof using Type.
  destruct c as [md|pc]; simpl; [|destruct (PromConn_Connect _ pc); eauto]. unfold DbConn_Connect, DbConn_Ping.
  destruct (md_Conn md) eqn:E; [|eauto..]. destruct (ParseConfig _ md) as [md1 [e|]]; [eauto|].
  destruct (new_pool env _); simpl; eauto.
Qed.

Lemma process_source_returns r l :
  is_Some (objs r !! l) → CreateHelpers env = false → ∃ r', process_source env r l = Returns r'.
Proof using Type.
  intros [c Hc] Hh. unfold process_source. rewrite Hc.
  destruct (connect_returns c) as (c' & err & ->). destruct err; [eauto|]. destruct c' as [md|pc]; [|eauto].
  destruct (FetchRuntimeInfo _ _ _ _ md true) as [md2 [e|]]; [eauto|].
  destruct (FilterSource env _ md2) as [r3 [|]]; [eauto|].
  unfold CreateSourceHelpers. rewrite Hh. destruct (GetMonitoredDatabase r3 _ _); [eauto|].
  destruct (_ || _); eauto.
Qed.

Lemma sweep_returns r ls :
  round_inv r → CreateHelpers env = false → (∀ l, l ∈ ls → l ∈ monitoredSources r) →
  ∃ r', sweep env r ls = Returns r'.
Proof using Type.
  intros Hinv Hh. revert r Hinv. induction ls as [|l ls IH]; intros r Hinv Hin; simpl; [eauto|].
  assert (l ∈ monitoredSources r) as Hl by (apply Hin; by left).
  destruct (process_source_returns r l) as [r1 Hr1]; [|done|].
  { pose proof (inv_exists r Hinv l Hl) as He. unfold obj_name in He. by rewrite fmap_is_Some in He. }
  rewrite Hr1. apply process_source_step in Hr1. apply IH; [by eapply sweep_step_inv|].
  destruct Hr1 as [(_ & _ & Hm & _) _]. rewrite Hm. intros l' Hl'. apply Hin. by right.
Qed.

Lemma reload_round_inv triggerfile read resolve read_metrics r :
  head_inv r →
  (∀ srcs, read = Ok srcs → NoDup (conn_names (resolve (filter (λ s, wanted_source env s = true) srcs)).1)) →
  round_inv (LoadMetrics read_metrics (LoadSources env triggerfile read resolve r).1).1.
Proof using Type.
  intros Hinv Hnd. set (r1 := (LoadSources env triggerfile read resolve r).1).
  assert (round_inv r1) as Hr1.
  { unfold r1. destruct triggerfile.
    - destruct Hinv as [[H1 H2 H3 H4] H5]. split; cbn.
      + exact H1.
      + intros l Hl. by apply elem_of_nil in Hl.
      + constructor.
      + intros name l Hl. destruct (H4 name l Hl). split; [done|]. right. apply not_elem_of_nil.
    - destruct read as [srcs|e]; [by apply LoadSources_inv; [apply Hnd|]|by destruct Hinv]. }
  destruct (LoadMetrics_lists read_metrics r1) as [Hs Hc]. eapply round_inv_weaken; [done..|by rewrite Hc].
Qed.
End preservation.

(** ** Theorems *)

(** Between two rounds of the main loop, every worker reads the connection that is monitored
    under its name, the monitored names are distinct, and so there is at most one worker per
    monitored source and none for a source that is no longer configured.  A round keeps this
    whatever the databases, the stores and the order of processing do, provided the resolver returns
    distinct names; and it always returns, unless it creates helpers, which can panic. *)
Theorem main_loop_round_inv env triggerfile read resolve read_metrics schedule ctx_done r :
  head_inv r →
  (∀ srcs, read = Ok srcs → NoDup (conn_names (resolve (filter (λ s, wanted_source env s = true) srcs)).1)) →
  (∀ ls, schedule ls ≡ₚ ls) →
  let round := main_loop_round env triggerfile read resolve read_metrics schedule ctx_done r in
  (CreateHelpers env = false → ∃ r', round = Returns r') ∧
  (∀ r', round = Returns r' → head_inv r' ∧ prevLoopMonitoredDBs r' = monitoredSources r').
Proof.
  intros Hinv Hnd Hsched. pose proof (reload_round_inv env triggerfile read resolve read_metrics r Hinv Hnd) as Hr.
  cbn zeta. unfold main_loop_round. set (r1 := (LoadMetrics _ _).1) in *.
  assert (∀ l, l ∈ schedule (monitoredSources r1) → l ∈ monitoredSources r1) as Hin.
  { intros l. by rewrite Hsched. }
  split.
  - intros Hh. destruct (sweep_returns env r1 _ Hr Hh Hin) as [r2 ->]. eauto.
  - intros r'. destruct (sweep env r1 _) as [r2| |] eqn:E; [|done..]. intros [= <-].
    destruct (sweep_inv env _ _ _ E Hr Hin) as [Hr2 _]. split; [by apply round_head_inv|].
    destruct (CleanupRemovedWorkers_spec env ctx_done r2) as (_ & _ & Hm & Hp & _). congruence.
Qed.

(** A connection whose pool is not open. *)
Definition conn_closed (r : reaper) (l : nat) : Prop :=
  ∀ md, objs r !! l = Some (ConnDb md) → md_Conn md ≠ PoolOpen.

Lemma close_at_closes r l l' : conn_closed r l' ∨ l' = l → conn_closed (close_at r l) l'.
Proof.
  intros H md. rewrite close_at_objs. destruct (objs r !! l) as [c|] eqn:E.
  - destruct (decide (l' = l)) as [->|Hne].
    + rewrite lookup_insert_eq. intros [= Hc]. destruct c as [md0|pc]; [|done]. simplify_eq/=.
      unfold DbConn_Close. by destruct (md_Conn md0) eqn:?; simpl; congruence.
    + rewrite lookup_insert_ne by done. destruct H as [H|]; [apply H|done].
  - destruct H as [H| ->]; [apply H|congruence].
Qed.

Lemma cleanup_prev_closes r ls l :
  monitoredSources r = [] → conn_closed r l ∨ l ∈ ls → conn_closed (foldl cleanup_prev r ls) l.
Proof.
  revert r. induction ls as [|x ls IH]; intros r Hm Hl; cbn [foldl].
  { destruct Hl as [?|Hl]; [done|by apply elem_of_nil in Hl]. }
  assert (obj_name r x = None ∧ cleanup_prev r x = r ∨
    ∃ n, cleanup_prev r x = add_sync (close_at r x) [CallSyncMetric n "" DeleteOp]) as Hstep.
  { unfold cleanup_prev. rewrite Hm. destruct (obj_name r x); simpl; eauto. }
  apply IH.
  - destruct Hstep as [[_ ->]|[n ->]]; [done|]. simpl. destruct (close_at_lists r x) as [(_ & _ & -> & _) _]. done.
  - destruct (decide (l ∈ ls)) as [|Hls]; [by right|left].
    assert (conn_closed r l ∨ l = x) as Hl' by set_solver.
    destruct Hstep as [[Hx ->]|[n ->]].
    + destruct Hl' as [?| ->]; [done|]. intros md Hmd. unfold obj_name in Hx. by rewrite Hmd in Hx.
    + by apply (close_at_closes r x l) in Hl'.
Qed.

(** While the emergency pause file exists, a round stops every worker, monitors nothing and
    closes the pools of all sources of the previous round. *)
Theorem emergency_pause env read resolve read_metrics schedule ctx_done r :
  (∀ ls, schedule ls ≡ₚ ls) →
  ∃ r', main_loop_round env true read resolve read_metrics schedule ctx_done r = Returns r' ∧
    monitoredSources r' = [] ∧ cancelFuncs r' = ∅ ∧
    ∀ l, l ∈ prevLoopMonitoredDBs r → conn_closed r' l.
Proof.
  intros Hsched. unfold main_loop_round. set (r1 := (LoadMetrics _ _).1).
  assert (same_lists (set_monitored r []) r1) as (_ & _ & Hm & Hp).
  { apply (LoadMetrics_lists read_metrics). }
  rewrite Hm. simpl in Hm, Hp. assert (schedule [] = []) as Hs.
  { apply Permutation_nil_r. apply Hsched. }
  cbn [set_monitored monitoredSources]. rewrite Hs. cbn [sweep]. eexists. split; [done|].
  destruct (CleanupRemovedWorkers_spec env ctx_done r1) as (_ & _ & Hm' & _ & Hc).
  split_and!; [congruence| |].
  - apply map_eq. intros name. rewrite Hc. unfold removed. rewrite Hm, lookup_empty. cbn.
    by rewrite orb_true_r.
  - intros l Hl. unfold CleanupRemovedWorkers.
    destruct (stop_removed_workers ctx_done (range_keys (order env) (cancelFuncs r1)) r1) as [(_ & _ & Hm2 & Hp2) _].
    set (r2 := foldl _ r1 _) in *. change (conn_closed (foldl cleanup_prev r2 (prevLoopMonitoredDBs r2)) l).
    apply cleanup_prev_closes; [congruence|]. right. by rewrite Hp2, Hp.
Qed.

(** C13: a reload, for a source that was monitored as [oc] at the reference [old] and is configured
    again as [c].  When the configuration is unchanged it stays monitored through the same connection,
    which is not touched, and its worker keeps running; when it changed, the worker is stopped, the
    old connection is closed, and a new connection takes its place. *)
Theorem LoadSources_restart env resolve srcs r old oc c :
  let cs := (resolve (filter (λ s, wanted_source env s = true) srcs)).1 in
  let r' := (LoadSources env false (Ok srcs) resolve r).1 in
  let name := Name (GetSource c) in
  head_inv r → NoDup (conn_names cs) → c ∈ cs →
  old ∈ monitoredSources r → objs r !! old = Some oc → Name (GetSource oc) = name →
  if Source_Equal (GetSource oc) (GetSource c) then
    old ∈ monitoredSources r' ∧ objs r' !! old = Some oc ∧ cancelFuncs r' !! name = cancelFuncs r !! name
  else
    cancelFuncs r' !! name = None ∧ objs r' !! old = Some (conn_Close oc) ∧
    ∃ l, l ∈ monitoredSources r' ∧ l ∉ monitoredSources r ∧ objs r' !! l = Some c.
Proof.
  cbn zeta. intros Hinv Hnd Hc Hold Hoc Hname.
  destruct (LoadSources_reload env resolve srcs Hnd r Hinv) as (r2 & ls & Heq & Hr). rewrite Heq. cbn [fst].
  destruct (Hr old oc c Hold Hoc Hc Hname) as (l & _ & Hl & H). unfold reload_of in H. simpl.
  destruct (Source_Equal _ _); [tauto|]. destruct H as (? & ? & ? & ?). eauto 10.
Qed.

(** A source that the eligibility filters reject loses its worker and its pool is closed, while
    the monitored list keeps the connection; whatever the databases answer from then on, processing
    it again only reports the instance as down: it is not monitored any more, also when the reason
    of the rejection (a standby, a small database) is gone. *)
Theorem filtered_source_stuck env env' r r1 l md :
  NoDup (obj_name r <$> monitoredSources r) → l ∈ monitoredSources r →
  objs r !! l = Some (ConnDb md) → md_Conn md = PoolOpen →
  FilterSource env r md = (r1, true) →
  let name := Name (md_Source md) in
  cancelFuncs r1 !! name = None ∧ monitoredSources r1 = monitoredSources r ∧
  process_source env' r1 l = Returns (WriteInstanceDown env' (update_obj r1 l (ConnDb (DbConn_Close md))) name).
Proof.
  intros Hnd Hl Hmd Hopen Hf. cbn zeta. set (name := Name (md_Source md)).
  assert (r1 = ShutdownWorker r name) as ->.
  { unfold FilterSource in Hf. by destruct (_ && _); [|destruct (_ && _)]; simplify_eq. }
  assert (obj_name r l = Some name) as Hn by (unfold obj_name; by rewrite Hmd).
  destruct (ShutdownWorker_lists r name) as [(_ & _ & Hm & _) Hc].
  split_and!; [rewrite Hc; apply lookup_delete_eq|done|]. unfold process_source.
  rewrite (ShutdownWorker_closes r name l (ConnDb md)) by done. simpl. unfold DbConn_Connect, DbConn_Close.
  rewrite Hopen. simpl. done.
Qed.

(** ** Presets *)

Lemma apply_presets_other r l l' : l' ≠ l → objs (apply_presets r l) !! l' = objs r !! l'.
Proof.
  intros Hne. unfold apply_presets. destruct (objs r !! l); [|done].
  assert (∀ c, objs (update_obj r l c) !! l' = objs r !! l') as H by (intros c; simpl; by rewrite lookup_insert_ne).
  by split_matches.
Qed.

Lemma apply_presets_defs r l : defs (apply_presets r l) = defs r.
Proof. unfold apply_presets. by split_matches. Qed.

Lemma apply_presets_at r l md :
  objs r !! l = Some (ConnDb md) →
  objs (apply_presets r l) !! l = Some (ConnDb (SetMetricIntervals md
    (preset_intervals (defs r) (PresetMetrics (md_Source md)))
    (preset_intervals (defs r) (PresetMetricsStandby (md_Source md))))).
Proof.
  intros Hl. unfold apply_presets. rewrite Hl. simpl.
  destruct (preset_intervals _ (PresetMetrics _)), (preset_intervals _ (PresetMetricsStandby _)); simpl;
    rewrite ?lookup_insert_eq; try done.
  rewrite Hl. unfold SetMetricIntervals, set_metrics. simpl. by destruct md as [[]].
Qed.

Lemma apply_all_presets ls r l md :
  NoDup ls → l ∈ ls → objs r !! l = Some (ConnDb md) →
  objs (foldl apply_presets r ls) !! l = Some (ConnDb (SetMetricIntervals md
    (preset_intervals (defs r) (PresetMetrics (md_Source md)))
    (preset_intervals (defs r) (PresetMetricsStandby (md_Source md))))).
Proof.
  revert r. induction ls as [|x ls IH]; intros r Hnd Hin Hl; [by apply elem_of_nil in Hin|]. cbn [foldl].
  apply NoDup_cons in Hnd as [Hx Hnd]. apply elem_of_cons in Hin as [->|Hin].
  - assert (∀ ls r, x ∉ ls → objs (foldl apply_presets r ls) !! x = objs r !! x) as Hother.
    { clear. intros ls. induction ls as [|y ls IH]; intros r Hx; [done|]. cbn [foldl].
      apply not_elem_of_cons in Hx as [Hne Hx]. rewrite IH by done. by apply apply_presets_other. }
    rewrite Hother by done. by apply apply_presets_at.
  - rewrite (IH (apply_presets r x)); [by rewrite apply_presets_defs|done|done|].
    rewrite apply_presets_other; [done|]. by intros ->.
Qed.

(** Loading definitions makes presets effective.  A monitored source that names a preset for
    the primary or the standby role is from then on collected at the intervals of that preset in the
    new definitions; where it names none, or one that is not defined, its intervals stay as they
    were.  Its connection and runtime information are untouched. *)
Theorem presets_take_effect d r l md :
  NoDup (monitoredSources r) → l ∈ monitoredSources r → objs r !! l = Some (ConnDb md) →
  let main := preset_intervals d (PresetMetrics (md_Source md)) in
  let standby := preset_intervals d (PresetMetricsStandby (md_Source md)) in
  let main' := match main with Some _ => main | None => SrcMetrics (md_Source md) end in
  let standby' := match standby with Some _ => standby | None => MetricsStandby (md_Source md) end in
  ∃ md', objs (LoadMetrics (Ok d) r).1 !! l = Some (ConnDb md') ∧
    md_Info md' = md_Info md ∧ md_Conn md' = md_Conn md ∧
    ∀ name, GetMetricInterval md' name =
      seconds (interval_of (if IsInRecovery (md_Info md) && nonempty_map standby' then standby' else main') name).
Proof.
  intros Hnd Hin Hl. cbn zeta. unfold LoadMetrics. cbn [fst]. set (r1 := add_sync _ _).
  eexists. split; [apply (apply_all_presets (monitoredSources r1) r1 l md); done|]. split_and!; [done..|].
  intros name. rewrite GetMetricInterval_active. reflexivity.
Qed.

(** ** Examples *)

Definition sample_env_loop : loop_env := {|
  parse := λ s, Ok {| cc_Host := s; cc_Port := 5432; cc_Database := "db"; cc_ConnectTimeout := 0 |};
  show_version := λ _ _, None; ping := λ _ _, None; new_pool := λ _, None; prom_net := sample_net;
  servers := λ _, sample_server; available_extensions := λ _, Ok [];
  create_extension := λ _ _, None; exec_helper := λ _ _, None; Groups := []; MinDbSizeMB := 0;
  TryCreateListedExtsIfMissing := ""; CreateHelpers := false; loop_now := 1700000000000000000;
  order := tree_order |}.

Definition sample_conn (name : string) : source_conn := NewSourceConn (sample_source name).
Definition sample_resolve (srcs : Sources) : list source_conn * list string := (NewSourceConn <$> srcs, []).

(** A reaper that monitors source [a] with a worker. *)
Definition sample_reaper : reaper :=
  Reaper {[0%nat := sample_conn "a"]} 1 [0%nat] [0%nat] ∅ {["a" := 0%nat]}
    {| MetricDefs := ∅; PresetDefs := ∅ |} [] [].

Lemma sample_reaper_inv : head_inv sample_reaper.
Proof.
  assert (∀ l, is_Some (obj_name sample_reaper l) → l = 0%nat) as H0.
  { intros l. unfold obj_name. rewrite fmap_is_Some. simpl. by intros [c [<- _]%lookup_singleton_Some]. }
  split; [split|].
  - intros l ->%H0. simpl. lia.
  - intros l ->%list_elem_of_singleton. by eexists.
  - repeat constructor. apply not_elem_of_nil.
  - intros name l Hw. simpl in Hw. apply lookup_singleton_Some in Hw as [<- <-]. split; [done|]. left. by left.
  - intros name l Hw. simpl in Hw. apply lookup_singleton_Some in Hw as [<- <-]. by left.
Qed.

(** A round that keeps [a] and adds [b]: two workers. *)
Example sample_round :
  match main_loop_round sample_env_loop false (Ok [sample_source "b"; sample_source "a"]) sample_resolve
          (Ok {| MetricDefs := ∅; PresetDefs := ∅ |}) (@rev nat) false sample_reaper with
  | Returns r => (monitoredSources r, cancelFuncs r !! "a", cancelFuncs r !! "b")
  | _ => ([], None, None)
  end = ([1; 0], Some 0, Some 1)%nat.
Proof. vm_compute. reflexivity. Qed.

Lemma main_loop_round_inv_witness :
  let round := main_loop_round sample_env_loop false (Ok [sample_source "b"; sample_source "a"])
    sample_resolve (Err (ErrorString "no file")) (@rev nat) false sample_reaper in
  (CreateHelpers sample_env_loop = false → ∃ r', round = Returns r') ∧
  (∀ r', round = Returns r' → head_inv r' ∧ prevLoopMonitoredDBs r' = monitoredSources r').
Proof.
  apply main_loop_round_inv.
  - exact sample_reaper_inv.
  - intros srcs [= <-]. apply (bool_decide_unpack _). vm_compute. exact I.
  - intros ls. symmetry. apply Permutation_rev.
Defined.

Lemma emergency_pause_witness :
  ∃ r', main_loop_round sample_env_loop true (Ok []) sample_resolve (Err (ErrorString "no file"))
          (@rev nat) false sample_reaper = Returns r' ∧
    monitoredSources r' = [] ∧ cancelFuncs r' = ∅ ∧
    ∀ l, l ∈ prevLoopMonitoredDBs sample_reaper → conn_closed r' l.
Proof. apply emergency_pause. intros ls. symmetry. apply Permutation_rev. Defined.

Lemma LoadSources_restart_witness :
  let r' := (LoadSources sample_env_loop false (Ok [sample_source "a"]) sample_resolve sample_reaper).1 in
  0%nat ∈ monitoredSources r' ∧ objs r' !! 0%nat = Some (sample_conn "a") ∧
  cancelFuncs r' !! "a" = cancelFuncs sample_reaper !! "a".
Proof.
  apply (LoadSources_restart sample_env_loop sample_resolve [sample_source "a"] sample_reaper 0
           (sample_conn "a") (sample_conn "a")).
  - exact sample_reaper_inv.
  - apply (bool_decide_unpack _). vm_compute. exact I.
  - by left.
  - by left.
  - reflexivity.
  - reflexivity.
Defined.

(** A standby that is monitored only as a primary. *)
Definition sample_standby : DbConn :=
  let md := with_conn (NewDbConn {|
    Name := "a"; Group := ""; ConnStr := "host=a"; SrcMetrics := None; MetricsStandby := None;
    Kind := SourcePostgres; IncludePattern := ""; ExcludePattern := ""; PresetMetrics := "";
    PresetMetricsStandby := ""; IsEnabled := true; SrcCustomTags := None; OnlyIfMaster := true |}) PoolOpen in
  (FetchRuntimeInfo sample_server None 0 0 md true).1.

Lemma filtered_source_stuck_witness :
  let r := update_obj sample_reaper 0 (ConnDb sample_standby) in
  let r1 := ShutdownWorker r "a" in
  cancelFuncs r1 !! "a" = None ∧ monitoredSources r1 = monitoredSources r ∧
  process_source sample_env_loop r1 0 =
    Returns (WriteInstanceDown sample_env_loop (update_obj r1 0 (ConnDb (DbConn_Close sample_standby))) "a").
Proof.
  apply (filtered_source_stuck sample_env_loop sample_env_loop (update_obj sample_reaper 0 (ConnDb sample_standby))
           (ShutdownWorker (update_obj sample_reaper 0 (ConnDb sample_standby)) "a") 0 sample_standby).
  - apply (bool_decide_unpack _). vm_compute. exact I.
  - by left.
  - reflexivity.
  - reflexivity.
  - reflexivity.
Defined.

Definition sample_preset_conn : DbConn := NewDbConn {|
  Name := "a"; Group := ""; ConnStr := "host=a"; SrcMetrics := None; MetricsStandby := None;
  Kind := SourcePostgres; IncludePattern := ""; ExcludePattern := ""; PresetMetrics := "basic";
  PresetMetricsStandby := ""; IsEnabled := true; SrcCustomTags := None; OnlyIfMaster := false |}.

Definition sample_preset_defs : Metrics := {|
  MetricDefs := ∅;
  PresetDefs := {["basic" := {| Preset_Description := ""; Preset_Metrics := Some {["wal" := 60]} |}]} |}.

Lemma presets_take_effect_witness :
  let r := update_obj sample_reaper 0 (ConnDb sample_preset_conn) in
  ∃ md', objs (LoadMetrics (Ok sample_preset_defs) r).1 !! 0%nat = Some (ConnDb md') ∧
    GetMetricInterval md' "wal" = 60 * time_Second.
Proof.
  destruct (presets_take_effect sample_preset_defs (update_obj sample_reaper 0 (ConnDb sample_preset_conn)) 0
    sample_preset_conn) as (md' & H1 & _ & _ & H2).
  - apply (bool_decide_unpack _). vm_compute. exact I.
  - by left.
  - reflexivity.
  - exists md'. split; [exact H1|]. rewrite H2. vm_compute. reflexivity.
Defined.
