(* ===== verification/Resolver.v ===== *)
(** * Discovery of databases ([internal/sources/resolver.go])

    A discovery source stands for the databases of a server, a Patroni source for those of the
    members of a cluster that a key-value store describes.  The resolver keeps the last answer of
    both, so that an outage of the discovery does not end the monitoring of known databases.  The
    discovery query, the etcd client, the JSON codec and the URL parser are parameters.

    Sources are resolved concurrently in the program, each under the lock of the caches; the model
    resolves them in the order of the list.

    The theorems show what is served while the discovery fails: the databases of the last success
    for the same source identity, whatever was resolved in between, and an error only if there are
    none; and that every other source resolves to itself. *)

From Stdlib Require Import Ascii.
From S2P Require Import Prelude GoStrings Metrics Sources Conn Reaper.
From stdpp Require Import options.

Local Open Scope Z_scope.

(** ** Host configuration *)

Record HostConfig := {
  DcsType : string;
  DcsEndpoints : list string;
  Path : string;
  Username : string;
  Password : string;
  CAFile : string;
  CertFile : string;
  KeyFile : string;
}.

Definition UsesTLS (hc : HostConfig) : bool :=
  bool_decide (CAFile hc ≠ "") || bool_decide (CertFile hc ≠ "") || bool_decide (KeyFile hc ≠ "").

Fixpoint count_char (c : Ascii.ascii) (s : string) : nat :=
  match s with
  | "" => 0
  | String d s' => (if bool_decide (d = c) then 1 else 0) + count_char c s'
  end.

Definition IsScopeSpecified (hc : HostConfig) : bool := bool_decide (2 ≤ count_char "/"%char (Path hc))%nat.

(** What [url.Parse] gives of the cleaned URI. *)
Record parsed_url := {
  url_scheme : string;
  url_path : string;
  url_user : string;
  url_password : string;
  url_query : string → string;
}.

(** The text before the first of the characters [/] and [?], and the rest. *)
Fixpoint cut_host (s : string) : string * string :=
  match s with
  | "" => ("", "")
  | String c s' =>
      if bool_decide (c = "/"%char ∨ c = "?"%char) then ("", s)
      else let '(h, rest) := cut_host s' in (String c h, rest)
  end.

(** [strings.LastIndex] of [@]: the text before and after the last one. *)
Fixpoint cut_last_at (s : string) : option (string * string) :=
  match s with
  | "" => None
  | String c s' =>
      match cut_last_at s' with
      | Some (before, after) => Some (String c before, after)
      | None => if bool_decide (c = "@"%char) then Some ("", s') else None
      end
  end.

Section host_config.
Context (url_Parse : string → result parsed_url).

Definition NewHostConfig (URI : string) : result HostConfig :=
  match str_cut "://" URI with
  | None => Err (ErrorString "invalid URI: missing scheme")
  | Some (scheme, remainder) =>
      let '(hostPart, pathAndQuery) := cut_host remainder in
      let '(userInfo, hostPart) := default ("", hostPart) (cut_last_at hostPart) in
      let hosts := strings_Split hostPart "," in
      let cleanURI := scheme +:+ "://" +:+ (if bool_decide (userInfo ≠ "") then userInfo +:+ "@" else "") +:+
                      default "" (head hosts) +:+ pathAndQuery in
      match url_Parse cleanURI with
      | Err e => Err e
      | Ok u =>
          let hc t eps := {| DcsType := t; DcsEndpoints := eps; Path := url_path u; Username := url_user u;
                             Password := url_password u; CAFile := url_query u "ca_file";
                             CertFile := url_query u "cert_file"; KeyFile := url_query u "key_file" |} in
          if negb (Bool.eqb (bool_decide (url_query u "cert_file" = "")) (bool_decide (url_query u "key_file" = "")))
          then Err (ErrorString "cert_file and key_file must be set together")
          else if bool_decide (url_scheme u = "etcd") then
            let endpointScheme := if UsesTLS (hc "etcd" []) then "https://" else "http://" in
            Ok (hc "etcd" ((λ h, endpointScheme +:+ h) <$> hosts))
          else if bool_decide (url_scheme u = "zookeeper" ∨ url_scheme u = "consul") then Ok (hc (url_scheme u) hosts)
          else Err (ErrorString ("unsupported DCS type: " +:+ url_scheme u))
      end
  end.
End host_config.

(** ** The caches *)

Record PatroniClusterMember := { pcm_Scope : string; pcm_Name : string; pcm_ConnURL : string; pcm_Role : string }.

Definition IsPrimary (pcm : PatroniClusterMember) : bool :=
  bool_decide (pcm_Role pcm = "primary" ∨ pcm_Role pcm = "master").

Record postgresDiscoveryKey := DiscoveryKey {
  k_name : string; k_connStr : string; k_includePattern : string; k_excludePattern : string }.

#[export] Instance postgresDiscoveryKey_eq_dec : EqDecision postgresDiscoveryKey.
Proof. solve_decision. Defined.
#[export] Instance postgresDiscoveryKey_countable : Countable postgresDiscoveryKey.
Proof.
  refine (inj_countable' (λ k, (k_name k, k_connStr k, k_includePattern k, k_excludePattern k))
            (λ '(a, b, c, d), DiscoveryKey a b c d) _). by intros [].
Defined.

Definition postgresDiscoveryKeyOf (s : Source) : postgresDiscoveryKey :=
  DiscoveryKey (Name s) (ConnStr s) (IncludePattern s) (ExcludePattern s).

Record Resolver := MkResolver {
  lastFoundClusterMembers : gmap string (list PatroniClusterMember);
  lastFoundDatabases : gmap postgresDiscoveryKey (list source_conn);
}.

Definition NewResolver : Resolver := MkResolver ∅ ∅.

Definition with_name (s : Source) (name : string) : Source := {|
  Name := name; Group := Group s; ConnStr := ConnStr s; SrcMetrics := SrcMetrics s;
  MetricsStandby := MetricsStandby s; Kind := Kind s; IncludePattern := IncludePattern s;
  ExcludePattern := ExcludePattern s; PresetMetrics := PresetMetrics s;
  PresetMetricsStandby := PresetMetricsStandby s; IsEnabled := IsEnabled s;
  SrcCustomTags := SrcCustomTags s; OnlyIfMaster := OnlyIfMaster s |}.

Definition with_connstr (s : Source) (connStr : string) : Source := {|
  Name := Name s; Group := Group s; ConnStr := connStr; SrcMetrics := SrcMetrics s;
  MetricsStandby := MetricsStandby s; Kind := Kind s; IncludePattern := IncludePattern s;
  ExcludePattern := ExcludePattern s; PresetMetrics := PresetMetrics s;
  PresetMetricsStandby := PresetMetricsStandby s; IsEnabled := IsEnabled s;
  SrcCustomTags := SrcCustomTags s; OnlyIfMaster := OnlyIfMaster s |}.

(** What is configured of [tls.Config]: the certificates of the authority, and the key pair. *)
Record tls_config := { RootCAs : option string; Certificates : option string }.

(** The surroundings: [discover] connects to a server and runs the discovery query, [etcd_Get] reads
    the keys below a path. *)
Record resolver_env := {
  re_parse : string → result conn_config;
  re_url : string → result parsed_url;
  discover : Source → result (list string);
  os_ReadFile : string → result string;
  has_pem_certs : string → bool;                         (* [AppendCertsFromPEM] *)
  LoadX509KeyPair : string → string → result string;
  etcd_Get : HostConfig → option tls_config → result (list (string * string));
  json_strings : string → result (gmap string string);   (* values printed with [%v] *)
}.

Section resolve.
Context (env : resolver_env).
Implicit Types (r : Resolver) (s : Source).

(** ** Postgres discovery *)

Definition resolved_db s (dbname : string) : source_conn :=
  ConnDb (SetDatabaseName (re_parse env) (NewDbConn (with_name s (Name s +:+ "_" +:+ dbname))) dbname).

Definition resolveDatabasesFromPostgres s : result (list source_conn) :=
  match discover env s with
  | Err e => Err e
  | Ok dbs => Ok (resolved_db s <$> dbs)
  end.

Definition ResolveDatabasesFromPostgres r s : Resolver * result (list source_conn) :=
  let key := postgresDiscoveryKeyOf s in
  match resolveDatabasesFromPostgres s with
  | Ok dbs => (MkResolver (lastFoundClusterMembers r) (<[key := dbs]> (lastFoundDatabases r)), Ok dbs)
  | Err e =>
      match lastFoundDatabases r !! key with
      | Some ((_ :: _) as cached) => (r, Ok cached)
      | _ => (r, Err e)
      end
  end.

(** ** Patroni *)

Definition jsonTextToStringMap (jsonText : string) : result (gmap string string) :=
  if bool_decide (jsonText = "") then Ok ∅ else json_strings env jsonText.

(** The member a key describes, if any. *)
Definition etcd_member (kv : string * string) : option PatroniClusterMember :=
  let key := default kv.1 (cut_prefix "/" kv.1) in
  match strings_Split key "/" with
  | _ :: scope :: kind :: name :: _ =>
      if bool_decide (kind ≠ "members") then None
      else
        match jsonTextToStringMap kv.2 with
        | Err _ => None
        | Ok nodeData =>
            Some {| pcm_Scope := scope; pcm_Name := name; pcm_ConnURL := default "" (nodeData !! "conn_url");
                    pcm_Role := default "" (nodeData !! "role") |}
        end
  | _ => None
  end.

Definition getTransport (conf : HostConfig) : result (option tls_config) :=
  if negb (UsesTLS conf) then Ok None
  else
    let ca : result (option string) :=
      if bool_decide (CAFile conf ≠ "") then
        match os_ReadFile env (CAFile conf) with
        | Err e => Err (WrapError "cannot load CA file" e)
        | Ok caCert =>
            if has_pem_certs env caCert then Ok (Some caCert)
            else Err (ErrorString ("no PEM certificates found in CA file " +:+ CAFile conf))
        end
      else Ok None in
    match ca with
    | Err e => Err e
    | Ok rootCAs =>
        if bool_decide (CertFile conf ≠ "") then
          match LoadX509KeyPair env (CertFile conf) (KeyFile conf) with
          | Err e => Err (WrapError "cannot load client cert or key file" e)
          | Ok cert => Ok (Some {| RootCAs := rootCAs; Certificates := Some cert |})
          end
        else Ok (Some {| RootCAs := rootCAs; Certificates := None |})
    end.

Definition set_members r (name : string) (ms : list PatroniClusterMember) : Resolver :=
  MkResolver (<[name := ms]> (lastFoundClusterMembers r)) (lastFoundDatabases r).

Definition getEtcdClusterMembers r s (hc : HostConfig) : Resolver * result (list PatroniClusterMember) :=
  if bool_decide (DcsEndpoints hc = []) then
    (r, Err (ErrorString "missing ETCD connect info, make sure host config has a 'dcs_endpoints' key"))
  else
    match getTransport hc with
    | Err e => (r, Err e)
    | Ok tlsConfig =>
        match etcd_Get env hc tlsConfig with
        | Err e => (r, Err e)
        | Ok kvs => let ret := omap etcd_member kvs in (set_members r (Name s) ret, Ok ret)
        end
    end.

Definition getConsulClusterMembers (_ : Source) : result (list PatroniClusterMember) := Err (Sentinel ErrUnsupported).
Definition getZookeeperClusterMembers (_ : Source) (_ : HostConfig) : result (list PatroniClusterMember) :=
  Err (Sentinel ErrUnsupported).

(** The switch over the kind of store; [None] is an unknown one. *)
Definition get_members r s (hc : HostConfig) : option (Resolver * result (list PatroniClusterMember)) :=
  if bool_decide (DcsType hc = "etcd") then Some (getEtcdClusterMembers r s hc)
  else if bool_decide (DcsType hc = "zookeeper") then Some (r, getZookeeperClusterMembers s hc)
  else if bool_decide (DcsType hc = "consul") then Some (r, getConsulClusterMembers s)
  else None.

Definition member_source s (hc : HostConfig) (m : PatroniClusterMember) : Source :=
  let name := if IsScopeSpecified hc then Name s else Name s +:+ "_" +:+ pcm_Scope m in
  with_name (with_connstr s (pcm_ConnURL m)) (name +:+ "_" +:+ pcm_Name m).

Fixpoint resolve_members r s (hc : HostConfig) (ms : list PatroniClusterMember) : Resolver * list source_conn :=
  match ms with
  | [] => (r, [])
  | m :: ms' =>
      if OnlyIfMaster s && negb (IsPrimary m) then resolve_members r s hc ms'
      else
        let '(r, res) := ResolveDatabasesFromPostgres r (member_source s hc m) in
        let '(r, rest) := resolve_members r s hc ms' in
        (r, match res with Ok dbs => dbs ++ rest | Err _ => rest end)
  end.

(** Which members are used: those that were found, or after an error those that were found last. *)
Definition known_members r s (res : result (list PatroniClusterMember))
    : Resolver * list PatroniClusterMember * option error :=
  match res with
  | Ok ms => (set_members r (Name s) ms, ms, None)
  | Err e =>
      if errors_Is e ErrUnsupported then (r, [], Some e)
      else match lastFoundClusterMembers r !! Name s with
           | Some ms => (r, ms, None)
           | None => (r, [], Some e)
           end
  end.

Definition ResolveDatabasesFromPatroni r s : Resolver * (list source_conn * option error) :=
  match NewHostConfig (re_url env) (ConnStr s) with
  | Err e => (r, ([], Some e))
  | Ok hc =>
      match get_members r s hc with
      | None => (r, ([], Some (ErrorString "unknown DCS")))
      | Some (r, res) =>
          let '(r, members, err) := known_members r s res in
          let '(r, mds) := resolve_members r s hc members in (r, (mds, err))
      end
  end.

(** ** All sources *)

Definition ResolveDatabase r s : Resolver * (list source_conn * option error) :=
  if bool_decide (Kind s = SourcePatroniDiscovery) then ResolveDatabasesFromPatroni r s
  else if bool_decide (Kind s = SourcePostgresDiscovery) then
    match ResolveDatabasesFromPostgres r s with
    | (r, Ok dbs) => (r, (dbs, None))
    | (r, Err e) => (r, ([], Some e))
    end
  else (r, ([NewSourceConn s], None)).

(** [ResolveDatabases]: the connections, the names reported as down, the joined error. *)
Definition resolve_one (acc : Resolver * list source_conn * list string * option error) s :
    Resolver * list source_conn * list string * option error :=
  let '(r, conns, down, err) := acc in
  let '(r, (dbs, e)) := ResolveDatabase r s in
  match e with
  | Some _ => (r, conns ++ dbs, down ++ [Name s], errors_Join [err; e])
  | None => (r, conns ++ dbs, down, err)
  end.

Definition ResolveDatabases r (srcs : Sources) : Resolver * list source_conn * list string * option error :=
  foldl resolve_one (r, [], [], None) srcs.
End resolve.

(** ** Theorems *)

(** The databases a source resolves to when its discovery succeeds. *)
Definition found (env : resolver_env) (s : Source) : result (list source_conn) :=
  if bool_decide (Kind s = SourcePostgresDiscovery) then resolveDatabasesFromPostgres env s
  else Ok [NewSourceConn s].

Definition discovers (s : Source) : Prop := Kind s = SourcePostgresDiscovery.

(** One round over sources without a Patroni cluster, when every discovery succeeds. *)
Lemma resolve_success env srcs r conns down err :
  Forall (λ s, Kind s ≠ SourcePatroniDiscovery) srcs →
  Forall (λ s, ∃ dbs, found env s = Ok dbs) srcs →
  NoDup (postgresDiscoveryKeyOf <$> srcs) →
  ∃ r', foldl (resolve_one env) (r, conns, down, err) srcs =
        (r', conns ++ concat ((λ s, match found env s with Ok dbs => dbs | Err _ => [] end) <$> srcs), down, err) ∧
    (∀ k, k ∉ postgresDiscoveryKeyOf <$> srcs → lastFoundDatabases r' !! k = lastFoundDatabases r !! k) ∧
    (∀ s dbs, s ∈ srcs → discovers s → found env s = Ok dbs →
       lastFoundDatabases r' !! postgresDiscoveryKeyOf s = Some dbs).
Proof.
  revert r conns. induction srcs as [|s srcs IH]; intros r conns Hk Hf Hnd; cbn [foldl].
  { exists r. csimpl. rewrite app_nil_r. split_and!; [done..|]. intros s dbs Hs. by apply elem_of_nil in Hs. }
  apply Forall_cons in Hk as [Hks Hk]. apply Forall_cons in Hf as [[dbs Hdbs] Hf].
  csimpl in Hnd. apply NoDup_cons in Hnd as [Hn Hnd].
  assert (∃ r1, resolve_one env (r, conns, down, err) s = (r1, conns ++ dbs, down, err) ∧
    (∀ k, k ≠ postgresDiscoveryKeyOf s → lastFoundDatabases r1 !! k = lastFoundDatabases r !! k) ∧
    (discovers s → lastFoundDatabases r1 !! postgresDiscoveryKeyOf s = Some dbs)) as (r1 & H1 & H2 & H3).
  { unfold resolve_one, ResolveDatabase, found, discovers in *. rewrite (bool_decide_false (Kind s = SourcePatroniDiscovery)) by done.
    case_bool_decide as Hd.
    - unfold ResolveDatabasesFromPostgres. rewrite Hdbs. eexists. split; [done|]. simpl. split.
      + intros k Hne. by rewrite lookup_insert_ne.
      + intros _. apply lookup_insert_eq.
    - simplify_eq. eexists. split; [done|]. by split. }
  rewrite H1. destruct (IH r1 (conns ++ dbs) Hk Hf Hnd) as (r' & -> & H4 & H5). exists r'. csimpl.
  rewrite Hdbs, app_assoc. split_and!; [done| |].
  - intros k. rewrite not_elem_of_cons. intros [Hne Hni]. rewrite H4 by done. by apply H2.
  - intros s' dbs' [->|Hin]%elem_of_cons Hd Hs'; [|by apply H5]. rewrite H4 by done.
    rewrite H3 by done. congruence.
Qed.

(** One round in which every discovery fails. *)
Lemma resolve_outage env srcs r conns down err (known : Source → list source_conn) :
  Forall (λ s, Kind s ≠ SourcePatroniDiscovery) srcs → (∀ s, ∃ e, discover env s = Err e) →
  (∀ s, s ∈ srcs → discovers s → known s ≠ [] ∧ lastFoundDatabases r !! postgresDiscoveryKeyOf s = Some (known s)) →
  foldl (resolve_one env) (r, conns, down, err) srcs =
  (r, conns ++ concat ((λ s, if decide (discovers s) then known s else [NewSourceConn s]) <$> srcs), down, err).
Proof.
  intros Hk Hfail. revert conns. induction srcs as [|s srcs IH]; intros conns Hc; cbn [foldl].
  { csimpl. by rewrite app_nil_r. }
  apply Forall_cons in Hk as [Hks Hk]. csimpl. rewrite app_assoc, <-IH by (done || (intros; apply Hc; [by right|done])).
  f_equal. unfold resolve_one, ResolveDatabase. rewrite (bool_decide_false (Kind s = SourcePatroniDiscovery)) by done.
  unfold discovers at 1. destruct (decide (Kind s = SourcePostgresDiscovery)) as [Hd|Hd].
  - destruct (Hc s ltac:(by left) Hd) as [Hne Hcached]. rewrite bool_decide_true by done.
    unfold ResolveDatabasesFromPostgres, resolveDatabasesFromPostgres. destruct (Hfail s) as [e ->].
    rewrite Hcached. by destruct (known s).
  - by rewrite bool_decide_false.
Qed.

(** An outage of the discovery does not take away known databases.  After a round in which
    every discovery source resolved, a round over the same sources in which no discovery query
    succeeds returns the same connections, reports nothing as down, gives no error, and leaves the
    caches as they are, so that any number of such rounds does.  (Sources have distinct identities,
    and none is a Patroni cluster.) *)
Theorem outage_keeps_databases env env' r srcs :
  Forall (λ s, Kind s ≠ SourcePatroniDiscovery) srcs →
  NoDup (postgresDiscoveryKeyOf <$> srcs) →
  Forall (λ s, ∃ dbs, found env s = Ok dbs ∧ dbs ≠ []) srcs →
  (∀ s, ∃ e, discover env' s = Err e) →
  ∃ r' conns,
    ResolveDatabases env r srcs = (r', conns, [], None) ∧
    ResolveDatabases env' r' srcs = (r', conns, [], None).
Proof.
  intros Hk Hnd Hf Hfail. unfold ResolveDatabases.
  destruct (resolve_success env srcs r [] [] None Hk) as (r' & -> & _ & Hcache); [|done|].
  { eapply Forall_impl; [exact Hf|]. naive_solver. }
  eexists r', _. split; [done|]. rewrite Forall_forall in Hf.
  rewrite (resolve_outage env' srcs r' [] [] None (λ s, match found env s with Ok dbs => dbs | Err _ => [] end));
    [|done|done|].
  - simpl. do 4 f_equal. apply list_fmap_ext. intros i s Hs%list_elem_of_lookup_2. unfold discovers.
    case_decide as Hd; [done|]. unfold found. by rewrite bool_decide_false.
  - intros s Hs Hd. destruct (Hf s Hs) as (dbs & Hdbs & Hne). rewrite Hdbs. split; [done|]. by apply Hcache.
Qed.

(** ** Outage of the store of a Patroni cluster *)

Section patroni.
Context (s : Source) (hc : HostConfig).

Definition used_member (m : PatroniClusterMember) : bool := negb (OnlyIfMaster s && negb (IsPrimary m)).
Definition member_key (m : PatroniClusterMember) : postgresDiscoveryKey := postgresDiscoveryKeyOf (member_source s hc m).

(** The databases of a member, when its server answers. *)
Definition member_dbs (env : resolver_env) (m : PatroniClusterMember) : list source_conn :=
  if used_member m then
    match resolveDatabasesFromPostgres env (member_source s hc m) with Ok dbs => dbs | Err _ => [] end
  else [].

Definition member_up (env : resolver_env) (m : PatroniClusterMember) : Prop :=
  ∃ dbs, resolveDatabasesFromPostgres env (member_source s hc m) = Ok dbs ∧ dbs ≠ [].

Lemma members_success env r ms :
  NoDup (member_key <$> ms) → Forall (member_up env) ms →
  ∃ r', resolve_members env r s hc ms = (r', concat (member_dbs env <$> ms)) ∧
    lastFoundClusterMembers r' = lastFoundClusterMembers r ∧
    (∀ k, k ∉ member_key <$> ms → lastFoundDatabases r' !! k = lastFoundDatabases r !! k) ∧
    ∀ m, m ∈ ms → used_member m = true → lastFoundDatabases r' !! member_key m = Some (member_dbs env m).
Proof using Type.
  intros Hnd Hup. revert r. induction Hup as [|m ms (dbs & Hdbs & Hne) _ IH]; intros r.
  { exists r. split_and!; [done..|]. intros m Hm. by apply elem_of_nil in Hm. }
  csimpl in Hnd. apply NoDup_cons in Hnd as [Hm Hnd]. cbn [resolve_members].
  assert (member_dbs env m = if used_member m then dbs else []) as Hmd by (unfold member_dbs; by rewrite Hdbs).
  unfold used_member in Hmd. destruct (OnlyIfMaster s && negb (IsPrimary m)) eqn:Eu; simpl in Hmd.
  - destruct (IH Hnd r) as (r' & -> & H1 & H2 & H3). exists r'. csimpl. rewrite Hmd. split_and!; [done|done| |].
    + intros k [_ Hk]%not_elem_of_cons. by apply H2.
    + intros m' [->|Hin]%elem_of_cons Hu; [unfold used_member in Hu; by rewrite Eu in Hu|by apply H3].
  - unfold ResolveDatabasesFromPostgres. rewrite Hdbs.
    destruct (IH Hnd (MkResolver (lastFoundClusterMembers r) (<[postgresDiscoveryKeyOf (member_source s hc m) := dbs]> (lastFoundDatabases r))))
      as (r' & -> & H1 & H2 & H3).
    exists r'. csimpl. rewrite Hmd. split_and!; [done|done| |].
    + intros k [Hk1 Hk]%not_elem_of_cons. rewrite H2 by done. simpl. by rewrite lookup_insert_ne.
    + intros m' [->|Hin]%elem_of_cons Hu; [|by apply H3]. rewrite H2 by done. simpl. rewrite Hmd. apply lookup_insert_eq.
Qed.

Lemma members_outage env r ms (known : PatroniClusterMember → list source_conn) :
  (∀ m, m ∈ ms → ∃ e, resolveDatabasesFromPostgres env (member_source s hc m) = Err e) →
  (∀ m, m ∈ ms → used_member m = true → known m ≠ [] ∧ lastFoundDatabases r !! member_key m = Some (known m)) →
  resolve_members env r s hc ms = (r, concat ((λ m, if used_member m then known m else []) <$> ms)).
Proof using Type.
  induction ms as [|m ms IH]; intros Hf Hk; [done|]. cbn [resolve_members]. csimpl.
  assert (resolve_members env r s hc ms = (r, concat ((λ m, if used_member m then known m else []) <$> ms))) as HIH.
  { apply IH; [intros m' Hm'; apply Hf; by right|intros m' Hm' Hu; apply Hk; [by right|done]]. }
  assert (used_member m = negb (OnlyIfMaster s && negb (IsPrimary m))) as Hu by done.
  destruct (OnlyIfMaster s && negb (IsPrimary m)); rewrite Hu; [by rewrite HIH|]. simpl in Hu.
  unfold ResolveDatabasesFromPostgres. destruct (Hf m ltac:(by left)) as [e ->].
  destruct (Hk m ltac:(by left) Hu) as [Hne Hc]. unfold member_key in Hc. rewrite Hc.
  destruct (known m); [done|]. by rewrite HIH.
Qed.
End patroni.

(** An outage of the key-value store, with or without an outage of the servers.  After a round in which
    the store named the members [ms] and every member answered, a round in which the store fails uses
    the same members and gives no error; and if no member answers either, the databases are those of
    the round before, and the caches stay as they are, so that any number of such rounds does. *)
Theorem patroni_outage env env' r r1 s hc ms r2 e :
  NewHostConfig (re_url env) (ConnStr s) = Ok hc → re_url env' = re_url env →
  get_members env r s hc = Some (r1, Ok ms) → NoDup (member_key s hc <$> ms) → Forall (member_up s hc env) ms →
  let r' := (ResolveDatabasesFromPatroni env r s).1 in
  get_members env' r' s hc = Some (r2, Err e) → errors_Is e ErrUnsupported = false →
  ResolveDatabasesFromPatroni env r s = (r', (concat (member_dbs s hc env <$> ms), None)) ∧
  ResolveDatabasesFromPatroni env' r' s =
    (let '(r'', dbs) := resolve_members env' r' s hc ms in (r'', (dbs, None))) ∧
  ((∀ s', ∃ e', discover env' s' = Err e') →
   ResolveDatabasesFromPatroni env' r' s = (r', (concat (member_dbs s hc env <$> ms), None))).
Proof.
  intros Hhc Hurl Hget Hnd Hup r' Hget' He.
  destruct (members_success s hc env (set_members r1 (Name s) ms) ms Hnd Hup) as (r3 & Hres & Hms & _ & Hdbs).
  assert (ResolveDatabasesFromPatroni env r s = (r3, (concat (member_dbs s hc env <$> ms), None))) as Hround.
  { unfold ResolveDatabasesFromPatroni. rewrite Hhc, Hget. cbn [known_members]. by rewrite Hres. }
  assert (r' = r3) as Hr' by (unfold r'; by rewrite Hround). rewrite Hr' in *. clear r' Hr'.
  assert (r2 = r3) as ->.
  { revert Hget'. unfold get_members, getEtcdClusterMembers. repeat (case_bool_decide || case_match); intros; by simplify_eq. }
  assert (lastFoundClusterMembers r3 !! Name s = Some ms) as Hcache by (rewrite Hms; apply lookup_insert_eq).
  assert (ResolveDatabasesFromPatroni env' r3 s = (let '(r'', dbs) := resolve_members env' r3 s hc ms in (r'', (dbs, None)))) as Hout.
  { unfold ResolveDatabasesFromPatroni. rewrite Hurl, Hhc, Hget'. cbn [known_members]. by rewrite He, Hcache. }
  split_and!; [done|done|]. intros Hfail. rewrite Hout.
  rewrite (members_outage s hc env' r3 ms (member_dbs s hc env)).
  - do 3 f_equal. apply list_fmap_ext. intros i m _. unfold member_dbs. by destruct (used_member s m).
  - intros m _. unfold resolveDatabasesFromPostgres. destruct (Hfail (member_source s hc m)) as [e' ->]. eauto.
  - intros m Hm Hu. split; [|by apply Hdbs]. rewrite Forall_forall in Hup. destruct (Hup m Hm) as (dbs & Hd & Hne).
    unfold member_dbs. by rewrite Hu, Hd.
Qed.

(** ** Examples *)

Definition sample_resolver_env (up : bool) : resolver_env := {|
  re_parse := λ s, Ok {| cc_Host := s; cc_Port := 5432; cc_Database := ""; cc_ConnectTimeout := 0 |};
  re_url := λ _, Err (ErrorString "url");
  discover := λ _, if up then Ok ["postgres"; "app"] else Err (ErrorString "timeout");
  os_ReadFile := λ _, Err (ErrorString "file"); has_pem_certs := λ _, false;
  LoadX509KeyPair := λ _ _, Err (ErrorString "file");
  etcd_Get := λ _ _, Err (ErrorString "etcd"); json_strings := λ _, Err (ErrorString "json") |}.

Definition sample_discovery (name : string) : Source := with_kind (sample_source name) SourcePostgresDiscovery.

Example sample_resolution :
  let '(_, conns, _, _) := ResolveDatabases (sample_resolver_env true) NewResolver
    [sample_discovery "a"; sample_source "b"] in
  Name ∘ GetSource <$> conns = ["a_postgres"; "a_app"; "b"].
Proof. vm_compute. reflexivity. Qed.

(** The names of discovered databases can collide: database [b_c] of source [a] and database [c] of
    source [a_b]. *)
Example resolved_names_collide :
  let env := sample_resolver_env true in
  Name (GetSource (resolved_db env (sample_discovery "a") "b_c")) =
  Name (GetSource (resolved_db env (sample_discovery "a_b") "c")).
Proof. vm_compute. reflexivity. Qed.

Lemma outage_keeps_databases_witness :
  ∃ r' conns,
    ResolveDatabases (sample_resolver_env true) NewResolver [sample_discovery "a"; sample_source "b"] =
      (r', conns, [], None) ∧
    ResolveDatabases (sample_resolver_env false) r' [sample_discovery "a"; sample_source "b"] =
      (r', conns, [], None).
Proof.
  apply outage_keeps_databases.
  - apply (bool_decide_unpack _). vm_compute. exact I.
  - apply (bool_decide_unpack _). vm_compute. exact I.
  - repeat constructor; eexists; (split; [reflexivity|discriminate]).
  - intros s. eexists. reflexivity.
Defined.

(** A cluster of two members below a path with scope; the URI has no TLS parameters. *)
Definition sample_patroni : Source :=
  with_connstr (with_kind (sample_source "p") SourcePatroniDiscovery) "etcd://e1:2379,e2:2379/service/batman".

Definition sample_patroni_env (up : bool) : resolver_env := {|
  re_parse := re_parse (sample_resolver_env up);
  re_url := λ _, Ok {| url_scheme := "etcd"; url_path := "/service/batman"; url_user := ""; url_password := "";
                       url_query := λ _, "" |};
  discover := discover (sample_resolver_env up);
  os_ReadFile := os_ReadFile (sample_resolver_env up); has_pem_certs := has_pem_certs (sample_resolver_env up);
  LoadX509KeyPair := LoadX509KeyPair (sample_resolver_env up);
  etcd_Get := λ _ _, if up then Ok [("/service/batman/members/pg1", "1"); ("/service/batman/leader", "pg1");
                                   ("/service/batman/members/pg2", "2")] else Err (ErrorString "etcd client timeout");
  json_strings := λ j, Ok {["role" := "primary"; "conn_url" := "postgres://" +:+ j]} |}.

Definition sample_members : list PatroniClusterMember :=
  (λ '(n, u), {| pcm_Scope := "batman"; pcm_Name := n; pcm_ConnURL := u; pcm_Role := "primary" |}) <$>
    [("pg1", "postgres://1"); ("pg2", "postgres://2")].

Definition sample_hc : HostConfig := {|
  DcsType := "etcd"; DcsEndpoints := ["http://e1:2379"; "http://e2:2379"]; Path := "/service/batman"; Username := "";
  Password := ""; CAFile := ""; CertFile := ""; KeyFile := "" |}.

Example sample_patroni_names :
  let '(_, (dbs, _)) := ResolveDatabasesFromPatroni (sample_patroni_env true) NewResolver sample_patroni in
  Name ∘ GetSource <$> dbs = ["p_pg1_postgres"; "p_pg1_app"; "p_pg2_postgres"; "p_pg2_app"].
Proof. vm_compute. reflexivity. Qed.

Lemma patroni_outage_witness :
  let r' := (ResolveDatabasesFromPatroni (sample_patroni_env true) NewResolver sample_patroni).1 in
  ResolveDatabasesFromPatroni (sample_patroni_env true) NewResolver sample_patroni =
    (r', (concat (member_dbs sample_patroni sample_hc (sample_patroni_env true) <$> sample_members), None)) ∧
  ResolveDatabasesFromPatroni (sample_patroni_env false) r' sample_patroni =
    (let '(r'', dbs) := resolve_members (sample_patroni_env false) r' sample_patroni sample_hc sample_members in
     (r'', (dbs, None))) ∧
  ((∀ s', ∃ e', discover (sample_patroni_env false) s' = Err e') →
   ResolveDatabasesFromPatroni (sample_patroni_env false) r' sample_patroni =
     (r', (concat (member_dbs sample_patroni sample_hc (sample_patroni_env true) <$> sample_members), None))).
Proof.
  apply (patroni_outage (sample_patroni_env true) (sample_patroni_env false) NewResolver
    (set_members NewResolver "p" sample_members) sample_patroni sample_hc sample_members
    (ResolveDatabasesFromPatroni (sample_patroni_env true) NewResolver sample_patroni).1 (ErrorString "etcd client timeout")).
  - vm_compute. reflexivity.
  - reflexivity.
  - vm_compute. reflexivity.
  - apply (bool_decide_unpack _). vm_compute. exact I.
  - repeat constructor; eexists; (split; [vm_compute; reflexivity|discriminate]).
  - reflexivity.
  - reflexivity.
Defined.
