(* ===== verification/Discovery.v ===== *)
(** * Discovery and the main loop ([internal/sources/resolver.go], [internal/reaper/reaper.go])

    [Resolver] models what discovery returns, [Reaper] what the main loop does with it.  Here they are
    composed.  The caches of the resolver hold pointers to connections, the ones that it returned before
    and that the main loop may be using, or may have closed; so they hold references to the store of
    [Reaper], and a list that is served from a cache is a list of old objects.

    The theorems show that an outage of the discovery leaves the monitored connections and their workers
    alone; and that a connection that was closed, which happens when the source is paused or disabled,
    can come back from the cache and is then never opened again, since a connection is only opened once
    and an unchanged source keeps its connection. *)

From S2P Require Import Prelude GoStrings Metrics Sources Changes Conn PromConn Sinks Reaper Resolver.
From stdpp Require Import options.

Local Open Scope Z_scope.

(** ** The resolver with references *)

Record ref_resolver := RefResolver {
  ref_members : gmap string (list PatroniClusterMember);
  ref_databases : gmap postgresDiscoveryKey (list nat);
}.

Section ref.
Context (renv : resolver_env).
Implicit Types (r : reaper) (v : ref_resolver) (s : Source).

Definition ref_FromPostgres r v s : reaper * ref_resolver * result (list nat) :=
  let key := postgresDiscoveryKeyOf s in
  match resolveDatabasesFromPostgres renv s with
  | Ok dbs =>
      let '(r, ls) := alloc r dbs in
      (r, RefResolver (ref_members v) (<[key := ls]> (ref_databases v)), Ok ls)
  | Err e =>
      match ref_databases v !! key with
      | Some ((_ :: _) as cached) => (r, v, Ok cached)
      | _ => (r, v, Err e)
      end
  end.

Fixpoint ref_member_dbs r v s (hc : HostConfig) (ms : list PatroniClusterMember) : reaper * ref_resolver * list nat :=
  match ms with
  | [] => (r, v, [])
  | m :: ms' =>
      if OnlyIfMaster s && negb (IsPrimary m) then ref_member_dbs r v s hc ms'
      else
        let '(r, v, res) := ref_FromPostgres r v (member_source s hc m) in
        let '(r, v, rest) := ref_member_dbs r v s hc ms' in
        (r, v, match res with Ok ls => ls ++ rest | Err _ => rest end)
  end.

(** The members are found as in [Resolver]; only the databases are references. *)
Definition ref_FromPatroni r v s : reaper * ref_resolver * (list nat * option error) :=
  match NewHostConfig (re_url renv) (ConnStr s) with
  | Err e => (r, v, ([], Some e))
  | Ok hc =>
      match get_members renv (MkResolver (ref_members v) ∅) s hc with
      | None => (r, v, ([], Some (ErrorString "unknown DCS")))
      | Some (rv, res) =>
          let '(rv, members, err) := known_members rv s res in
          let '(r, v, ls) := ref_member_dbs r (RefResolver (lastFoundClusterMembers rv) (ref_databases v)) s hc members in
          (r, v, (ls, err))
      end
  end.

Definition ref_ResolveDatabase r v s : reaper * ref_resolver * (list nat * option error) :=
  if bool_decide (Kind s = SourcePatroniDiscovery) then ref_FromPatroni r v s
  else if bool_decide (Kind s = SourcePostgresDiscovery) then
    match ref_FromPostgres r v s with
    | (r, v, Ok ls) => (r, v, (ls, None))
    | (r, v, Err e) => (r, v, ([], Some e))
    end
  else let '(r, ls) := alloc r [NewSourceConn s] in (r, v, (ls, None)).

Definition ref_resolve_one (acc : reaper * ref_resolver * list nat * list string * option error) s :=
  let '(r, v, conns, down, err) := acc in
  let '(r, v, (ls, e)) := ref_ResolveDatabase r v s in
  match e with
  | Some _ => (r, v, conns ++ ls, down ++ [Name s], errors_Join [err; e])
  | None => (r, v, conns ++ ls, down, err)
  end.

Definition ref_ResolveDatabases r v (srcs : Sources) : reaper * ref_resolver * list nat * list string * option error :=
  foldl ref_resolve_one (r, v, [], [], None) srcs.

(** [LoadSources] and a round of the main loop, with this resolver. *)
Definition ref_LoadSources (env : loop_env) (triggerfile : bool) (read : result Sources) r v
    : reaper * ref_resolver * option error :=
  if triggerfile then (set_monitored r [], v, None)
  else
    match read with
    | Err e => (r, v, Some e)
    | Ok srcs =>
        let '(r, v, news, down, _) := ref_ResolveDatabases r v (filter (λ s, wanted_source env s = true) srcs) in
        let r := foldl (WriteInstanceDown env) r down in
        let '(r, news) := merge_sources r news in
        (set_monitored r news, v, None)
    end.

Definition ref_round (env : loop_env) (triggerfile : bool) (read : result Sources) (read_metrics : result Metrics)
    (schedule : list nat → list nat) (ctx_done : bool) r v : outcome (reaper * ref_resolver) :=
  let '(r, v, _) := ref_LoadSources env triggerfile read r v in
  let r := (LoadMetrics read_metrics r).1 in
  match sweep env r (schedule (monitoredSources r)) with
  | Returns r => Returns (CleanupRemovedWorkers env ctx_done r, v)
  | Panics => Panics
  | NoFuel => NoFuel
  end.
End ref.

(** ** What the main loop leaves of a connection *)

(** A property of connections that closing and opening do not change; and one that the intervals of presets
    do not change either. *)
Record durable (P : source_conn → Prop) : Prop := {
  stable_close c : P c → P (conn_Close c);
  stable_connect env c c' err : P c → connect env c = Returns (c', err) → P c';
  stable_runtime sv now now2 md : P (ConnDb md) → P (ConnDb (FetchRuntimeInfo sv None now now2 md true).1);
}.
Definition preset_stable (d : Metrics) (P : source_conn → Prop) : Prop :=
  ∀ c, P c → P (conn_SetMetricIntervals c (preset_intervals d (PresetMetrics (GetSource c)))
                  (preset_intervals d (PresetMetricsStandby (GetSource c)))).
Record stable (P : source_conn → Prop) : Prop := {
  stable_durable : durable P;
  stable_presets d : preset_stable d P;
}.
Coercion stable_durable : stable >-> durable.

Section stable.
Context (P : source_conn → Prop) (HP : durable P).
Implicit Types (r : reaper).

(** Whatever had the property still has it. *)
Definition kept r r' : Prop := ∀ l c, objs r !! l = Some c → P c → ∃ c', objs r' !! l = Some c' ∧ P c'.

#[local] Instance kept_preorder : PreOrder kept.
Proof using Type.
  split; [intros r l c; eauto|]. intros a b c H1 H2 l x Hx Hp. destruct (H1 l x Hx Hp) as (y & Hy & Hpy). eauto.
Qed.

Lemma kept_objs r r' : objs r' = objs r → kept r r'.
Proof using Type. intros Ho l c. rewrite Ho. eauto. Qed.

Lemma kept_sub r r' : objs r ⊆ objs r' → kept r r'.
Proof using Type. intros Hs l c Hc Hp. exists c. split; [by eapply lookup_weaken|done]. Qed.

Lemma kept_update r l c c' : objs r !! l = Some c → (P c → P c') → kept r (update_obj r l c').
Proof using Type.
  intros Hl Hc l' x Hx Hp. simpl. destruct (decide (l' = l)) as [->|Hne].
  - rewrite lookup_insert_eq. simplify_eq. eauto.
  - rewrite lookup_insert_ne by done. eauto.
Qed.

Lemma kept_close r l : kept r (close_at r l).
Proof using HP. unfold close_at. destruct (objs r !! l) as [c|] eqn:E; [|done]. eapply kept_update; [done|]. apply HP. Qed.

Lemma kept_shutdown r name : kept r (ShutdownWorker r name).
Proof using HP.
  unfold ShutdownWorker. set (r1 := set_cancel r _).
  destruct (GetMonitoredDatabase r1 _ name) as [l|]; [|by apply kept_objs].
  etrans; [|by apply (kept_objs (close_at r1 l))]. etrans; [|apply kept_close]. by apply kept_objs.
Qed.

Lemma kept_merge r news : kept r (merge_sources r news).1.
Proof using HP.
  revert r. induction news as [|l news IH]; intros r; cbn [merge_sources]; [done|].
  destruct (objs r !! l) as [c|]; [|apply IH].
  assert (kept r (merge_one r l c).1) as H1.
  { unfold merge_one. destruct (GetMonitoredDatabase _ _ _) as [old|]; [|done].
    destruct (objs r !! old); [|done]. destruct (Source_Equal _ _); [done|apply kept_shutdown]. }
  destruct (merge_one r l c) as [r1 l1]. specialize (IH r1). destruct (merge_sources r1 news). by etrans.
Qed.

Lemma kept_presets r ls : preset_stable (defs r) P → kept r (foldl apply_presets r ls).
Proof using Type.
  intros Hps. revert r Hps. induction ls as [|l ls IH]; intros r Hps; cbn [foldl]; [done|].
  assert (defs (apply_presets r l) = defs r) as Hd by (unfold apply_presets; by repeat case_match).
  etrans; [|apply IH; by rewrite Hd]. clear Hd. unfold apply_presets. destruct (objs r !! l) as [c|] eqn:E; [|done].
  assert (kept r (update_obj r l (conn_SetMetricIntervals c (preset_intervals (defs r) (PresetMetrics (GetSource c)))
    (preset_intervals (defs r) (PresetMetricsStandby (GetSource c)))))) as H by (eapply kept_update; [done|apply Hps]).
  by destruct (preset_intervals _ (PresetMetrics _)), (preset_intervals _ (PresetMetricsStandby _)).
Qed.

Lemma kept_metrics read r : (∀ d, read = Ok d → preset_stable d P) → kept r (LoadMetrics read r).1.
Proof using Type.
  intros Hps. unfold LoadMetrics. destruct read as [d|]; [|done]. cbn [fst]. etrans; [|apply kept_presets; by apply Hps].
  by apply kept_objs.
Qed.

Lemma sync_objs env r md : objs (SyncMetricsToSinks env r md) = objs r.
Proof using Type.
  unfold SyncMetricsToSinks. generalize (range_keys (order env) (default ∅ (ActiveMetrics md))) as ns.
  intros ns. revert r. induction ns as [|n ns IH]; intros r; cbn [foldl]; [done|]. rewrite IH. by case_match.
Qed.

Lemma kept_start r name l : kept r (StartWorker r name l).
Proof using Type. unfold StartWorker. by destruct (cancelFuncs r !! name); apply kept_objs. Qed.

Lemma kept_process env r l r' : process_source env r l = Returns r' → kept r r'.
Proof using HP.
  unfold process_source. destruct (objs r !! l) as [c|] eqn:El; [|done].
  destruct (connect env c) as [[c' err]| |] eqn:Ec; [|done..].
  assert (kept r (update_obj r l c')) as H1 by (eapply kept_update; [done|]; intros; by eapply HP).
  destruct err as [e|]; [intros [= <-]; etrans; [exact H1|by apply kept_objs]|].
  destruct c' as [md|pc]; [|intros [= <-]; etrans; [exact H1|apply kept_start]].
  destruct (FetchRuntimeInfo _ _ _ _ md true) as [md2 err2] eqn:Ef.
  assert (kept r (update_obj (update_obj r l (ConnDb md)) l (ConnDb md2))) as H2.
  { etrans; [exact H1|]. eapply kept_update; [simpl; apply lookup_insert_eq|]. intros Hp.
    pose proof (stable_runtime P HP (servers env (Name (GetSource c))) (loop_now env) (loop_now env) md Hp) as Hr.
    by rewrite Ef in Hr. }
  set (r2 := update_obj _ _ (ConnDb md2)) in *. destruct err2; [by intros [= <-]|].
  assert (kept r (FilterSource env r2 md2).1) as H3.
  { etrans; [exact H2|]. unfold FilterSource. destruct (_ && _); [apply kept_shutdown|].
    destruct (_ && _); [apply kept_shutdown|done]. }
  destruct (FilterSource env r2 md2) as [r3 []]; [by intros [= <-]|]. cbn [fst] in H3.
  destruct (CreateSourceHelpers env r3 md2); [|done..]. intros [= <-]. etrans; [exact H3|].
  etrans; [|apply kept_start]. apply kept_objs. by rewrite sync_objs.
Qed.

Lemma kept_sweep env r ls r' : sweep env r ls = Returns r' → kept r r'.
Proof using HP.
  revert r. induction ls as [|l ls IH]; intros r; simpl; [by intros [= <-]|].
  destruct (process_source env r l) as [r1| |] eqn:E; [|done..]. intros Hs. etrans; [by eapply kept_process|by apply IH].
Qed.

Lemma kept_prev ls r : kept r (foldl cleanup_prev r ls).
Proof using HP.
  revert r. induction ls as [|l ls IH]; intros r; cbn [foldl]; [done|]. etrans; [|apply IH].
  unfold cleanup_prev. destruct (obj_name r l); [|done]. destruct (GetMonitoredDatabase _ _ _); [done|].
  etrans; [apply kept_close|by apply kept_objs].
Qed.

Lemma kept_cleanup env ctx_done r : kept r (CleanupRemovedWorkers env ctx_done r).
Proof using HP.
  unfold CleanupRemovedWorkers.
  assert (∀ ns r, kept r (foldl (cleanup_worker ctx_done) r ns)) as H1.
  { intros ns. induction ns as [|n ns IH]; intros r0; cbn [foldl]; [done|]. etrans; [|apply IH].
    unfold cleanup_worker. destruct (GetMonitoredDatabase _ _ n); [destruct ctx_done|]; (apply kept_shutdown || done). }
  etrans; [apply (H1 (range_keys (order env) (cancelFuncs r)))|]. set (r1 := foldl _ r _).
  etrans; [apply (kept_prev (prevLoopMonitoredDBs r1))|]. by apply kept_objs.
Qed.
End stable.

(** The effective configuration of a connection. *)
Definition conn_effective (c : source_conn) := effective (GetSource c).

Lemma SetMetricIntervals_effective c d :
  conn_effective (conn_SetMetricIntervals c (preset_intervals d (PresetMetrics (GetSource c)))
    (preset_intervals d (PresetMetricsStandby (GetSource c)))) = conn_effective c.
Proof.
  unfold conn_effective, effective. destruct c as [md|pc]; simpl.
  - unfold preset_intervals. by repeat case_bool_decide; simpl in *; congruence.
  - unfold PromConn_SetMetricIntervals, preset_intervals. by repeat case_bool_decide; simpl in *; congruence.
Qed.

Lemma connect_effective env c c' err : connect env c = Returns (c', err) → conn_effective c' = conn_effective c.
Proof.
  unfold conn_effective. destruct c as [md|pc]; simpl.
  - destruct (DbConn_Connect _ _ _ _ md) as [[md' e]| |] eqn:E; [|done..]. intros [= <- _]. simpl. f_equal.
    by eapply Connect_source.
  - pose proof (PromConn_Connect_source (prom_net env) pc) as Hs. destruct (PromConn_Connect _ pc).
    intros [= <- _]. simpl in *. by rewrite Hs.
Qed.

Lemma stable_effective E : stable (λ c, conn_effective c = E).
Proof.
  split; [split|].
  - intros c <-. destruct c as [md|pc]; [|done]. unfold conn_effective. simpl. unfold DbConn_Close. by destruct (md_Conn md).
  - intros env c c' err <- Hc. by eapply connect_effective.
  - intros sv now now2 md <-. unfold conn_effective. simpl. f_equal. apply FetchRuntimeInfo_frame.
  - intros d. intros c <-. apply SetMetricIntervals_effective.
Qed.

(** A connection to a database whose pool was closed. *)
Definition dead E (c : source_conn) : Prop :=
  ∃ md, c = ConnDb md ∧ md_Conn md = PoolClosed ∧ effective (md_Source md) = E.

Lemma dead_connect env md :
  md_Conn md = PoolClosed → connect env (ConnDb md) = Returns (ConnDb md, Some (ErrorString "closed pool")).
Proof. intros Hc. simpl. unfold DbConn_Connect, DbConn_Ping. by rewrite Hc. Qed.

Lemma stable_dead E : stable (dead E).
Proof.
  split; [split|].
  - intros c (md & -> & Hc & He). exists (with_conn md PoolClosed). simpl. unfold DbConn_Close. by rewrite Hc.
  - intros env c c' err (md & -> & Hc & He) H. rewrite dead_connect in H by done. injection H as <- _. by exists md.
  - intros sv now now2 md0 (md & [= ->] & Hc & He). eexists. split; [done|].
    destruct (FetchRuntimeInfo_frame sv None now now2 md true) as (Hs & Hcn & _). rewrite Hcn, Hs. done.
  - intros d. intros c (md & -> & Hc & He). eexists. split; [done|]. split; [done|].
    pose proof (SetMetricIntervals_effective (ConnDb md) d) as H. etrans; [exact H|exact He].
Qed.

(** ** A round of discovery *)

(** Resolving creates objects and nothing else. *)
Definition framed (r r' : reaper) : Prop :=
  objs r ⊆ objs r' ∧ monitoredSources r' = monitoredSources r ∧ prevLoopMonitoredDBs r' = prevLoopMonitoredDBs r ∧
  cancelFuncs r' = cancelFuncs r ∧ out r' = out r ∧ (fresh_objs r → fresh_objs r').

#[export] Instance framed_preorder : PreOrder framed.
Proof.
  split; [done|]. intros a b c (?&?&?&?&?&?) (?&?&?&?&?&?). split_and!; [by etrans|congruence..|auto].
Qed.

Lemma alloc_framed r cs r' ls :
  alloc r cs = (r', ls) → fresh_objs r → framed r r' ∧ Forall2 (λ l c, objs r' !! l = Some c) ls cs.
Proof.
  intros Ha Hf. destruct (alloc_spec _ _ _ _ Ha Hf) as (?&?&?&?&?&?&_). split; [|done]. split_and!; try done.
  clear -Ha. revert r ls Ha. induction cs as [|c cs IH]; intros r ls Ha; simpl in Ha; [by simplify_eq|].
  destruct (alloc _ cs) as [r2 ls2] eqn:E. simplify_eq. by rewrite (IH _ _ E).
Qed.

(** The references stand for connections with these effective configurations. *)
Definition refs_of (r : reaper) (ls : list nat) (cs : list source_conn) : Prop :=
  Forall2 (λ l c, ∃ c', objs r !! l = Some c' ∧ conn_effective c' = conn_effective c) ls cs.

Lemma refs_of_kept r r' ls cs :
  (∀ E, kept (λ c, conn_effective c = E) r r') → refs_of r ls cs → refs_of r' ls cs.
Proof.
  intros Hk H. eapply Forall2_impl; [exact H|]. intros l c (c' & Hl & He). destruct (Hk _ l c' Hl He) as (c'' & ? & ?). eauto.
Qed.

Lemma refs_of_framed r r' ls cs : framed r r' → refs_of r ls cs → refs_of r' ls cs.
Proof. intros (Hs & _) H. eapply refs_of_kept; [|exact H]. intros E. by apply kept_sub. Qed.

Lemma refs_of_same r ls cs : Forall2 (λ l c, objs r !! l = Some c) ls cs → refs_of r ls cs.
Proof. intros H. eapply Forall2_impl; [exact H|]. intros l c Hl. by exists c. Qed.

Definition found_dbs (renv : resolver_env) (s : Source) : list source_conn :=
  match found renv s with Ok dbs => dbs | Err _ => [] end.

(** What the cache knows of a discovery source. *)
Definition cached_dbs (r : reaper) (v : ref_resolver) (s : Source) (cs : list source_conn) : Prop :=
  ∃ ls, ref_databases v !! postgresDiscoveryKeyOf s = Some ls ∧ refs_of r ls cs.

Lemma cached_dbs_kept r r' v s cs :
  (∀ E, kept (λ c, conn_effective c = E) r r') → cached_dbs r v s cs → cached_dbs r' v s cs.
Proof. intros Hk (ls & Hl & H). exists ls. split; [done|]. by eapply refs_of_kept. Qed.

(** One source whose discovery succeeds. *)
Lemma ref_one_success renv s r v dbs :
  Kind s ≠ SourcePatroniDiscovery → found renv s = Ok dbs → fresh_objs r →
  ∃ r' v' ls, ref_ResolveDatabase renv r v s = (r', v', (ls, None)) ∧ framed r r' ∧
    Forall2 (λ l c, objs r' !! l = Some c) ls dbs ∧
    (∀ k, k ≠ postgresDiscoveryKeyOf s → ref_databases v' !! k = ref_databases v !! k) ∧
    (discovers s → ref_databases v' !! postgresDiscoveryKeyOf s = Some ls).
Proof.
  intros Hk Hf Hfr. unfold ref_ResolveDatabase, found, discovers in *.
  rewrite (bool_decide_false (Kind s = SourcePatroniDiscovery)) by done. case_bool_decide as Hd.
  - unfold ref_FromPostgres. rewrite Hf. destruct (alloc r dbs) as [r1 ls] eqn:Ea.
    destruct (alloc_framed _ _ _ _ Ea Hfr) as [? ?]. eexists r1, _, ls. split_and!; [done..| |].
    + intros k Hne. simpl. by rewrite lookup_insert_ne.
    + intros _. simpl. apply lookup_insert_eq.
  - simplify_eq. destruct (alloc r [NewSourceConn s]) as [r1 ls] eqn:Ea.
    destruct (alloc_framed _ _ _ _ Ea Hfr) as [? ?]. by exists r1, v, ls.
Qed.

Lemma ref_success renv srcs r v conns down err :
  Forall (λ s, Kind s ≠ SourcePatroniDiscovery) srcs → Forall (λ s, ∃ dbs, found renv s = Ok dbs) srcs →
  NoDup (postgresDiscoveryKeyOf <$> srcs) → fresh_objs r →
  ∃ r' v' news, foldl (ref_resolve_one renv) (r, v, conns, down, err) srcs = (r', v', conns ++ news, down, err) ∧
    framed r r' ∧ refs_of r' news (concat (found_dbs renv <$> srcs)) ∧
    (∀ k, k ∉ postgresDiscoveryKeyOf <$> srcs → ref_databases v' !! k = ref_databases v !! k) ∧
    ∀ s, s ∈ srcs → discovers s → cached_dbs r' v' s (found_dbs renv s).
Proof.
  intros Hk Hf. revert r v conns. induction Hf as [|s srcs [dbs Hdbs] _ IH]; intros r v conns Hnd Hfr; cbn [foldl].
  { exists r, v, []. csimpl. rewrite app_nil_r. split_and!; [done..|constructor|done|]. intros s Hs. by apply elem_of_nil in Hs. }
  apply Forall_cons in Hk as [Hks Hk]. csimpl in Hnd. apply NoDup_cons in Hnd as [Hn Hnd].
  destruct (ref_one_success renv s r v dbs Hks Hdbs Hfr) as (r1 & v1 & ls & H1 & Hfr1 & Hls & Hother & Hown).
  unfold ref_resolve_one at 2. rewrite H1. pose proof Hfr1 as (_ & _ & _ & _ & _ & Hfresh1).
  destruct (IH Hk r1 v1 (conns ++ ls) Hnd (Hfresh1 Hfr)) as (r' & v' & news & -> & Hfr' & Hnews & H4 & H5).
  exists r', v', (ls ++ news). csimpl. unfold found_dbs at 1. rewrite Hdbs, app_assoc.
  apply refs_of_same in Hls as Hrefs. split_and!; [done|by etrans| | |].
  - apply Forall2_app; [by eapply refs_of_framed|done].
  - intros k. rewrite not_elem_of_cons. intros [Hne Hni]. rewrite H4 by done. by apply Hother.
  - intros s' [->|Hin]%elem_of_cons Hd; [|by apply H5]. exists ls. rewrite H4 by done. split; [by apply Hown|].
    unfold found_dbs. rewrite Hdbs. by eapply refs_of_framed.
Qed.

(** All sources while no discovery query succeeds. *)
Lemma ref_outage renv renv' srcs r v conns down err :
  Forall (λ s, Kind s ≠ SourcePatroniDiscovery) srcs → (∀ s, ∃ e, discover renv' s = Err e) →
  (∀ s, s ∈ srcs → discovers s → found_dbs renv s ≠ [] ∧ cached_dbs r v s (found_dbs renv s)) → fresh_objs r →
  ∃ r' news, foldl (ref_resolve_one renv') (r, v, conns, down, err) srcs = (r', v, conns ++ news, down, err) ∧
    framed r r' ∧ refs_of r' news (concat (found_dbs renv <$> srcs)).
Proof.
  intros Hk Hfail. revert r conns. induction srcs as [|s srcs IH]; intros r conns Hc Hfr; cbn [foldl].
  { exists r, []. csimpl. rewrite app_nil_r. split_and!; [done..|constructor]. }
  apply Forall_cons in Hk as [Hks Hk].
  assert (∃ r1 ls, ref_ResolveDatabase renv' r v s = (r1, v, (ls, None)) ∧ framed r r1 ∧ refs_of r1 ls (found_dbs renv s))
    as (r1 & ls & H1 & Hfr1 & Hls).
  { unfold ref_ResolveDatabase. rewrite (bool_decide_false (Kind s = SourcePatroniDiscovery)) by done. case_bool_decide as Hd.
    - destruct (Hc s ltac:(by left) Hd) as (Hne & ls & Hl & Hrefs). exists r, ls. split_and!; [|done..].
      unfold ref_FromPostgres, resolveDatabasesFromPostgres. destruct (Hfail s) as [e ->]. rewrite Hl.
      destruct ls; [|done]. apply Forall2_nil_inv_l in Hrefs. by rewrite Hrefs in Hne.
    - destruct (alloc r [NewSourceConn s]) as [r1 ls] eqn:Ea. destruct (alloc_framed _ _ _ _ Ea Hfr) as [? Hls].
      exists r1, ls. split_and!; [done..|]. unfold found_dbs, found. rewrite bool_decide_false by done. by apply refs_of_same. }
  unfold ref_resolve_one at 2. rewrite H1. pose proof Hfr1 as (Hsub & _ & _ & _ & _ & Hfresh1).
  destruct (IH Hk r1 (conns ++ ls)) as (r' & news & -> & Hfr' & Hnews).
  { intros s' Hs' Hd. destruct (Hc s' ltac:(by right) Hd) as [? Hcd]. split; [done|]. eapply cached_dbs_kept; [|exact Hcd].
    intros E. by apply kept_sub. }
  { by apply Hfresh1. }
  exists r', (ls ++ news). csimpl. rewrite app_assoc. split_and!; [done|by etrans|].
  apply Forall2_app; [by eapply refs_of_framed|done].
Qed.

(** ** Merging with the monitored connections *)

Lemma effective_name c c' : conn_effective c = conn_effective c' → Name (GetSource c) = Name (GetSource c').
Proof. unfold conn_effective, effective. congruence. Qed.

Lemma obj_name_of r l c : objs r !! l = Some c → obj_name r l = Some (Name (GetSource c)).
Proof. unfold obj_name. by intros ->. Qed.

(** A new reference to the configuration of a monitored connection is replaced by the latter. *)
Lemma merge_one_same r l old c oc :
  NoDup (obj_name r <$> monitoredSources r) → old ∈ monitoredSources r → objs r !! old = Some oc →
  conn_effective oc = conn_effective c → merge_one r l c = (r, old).
Proof.
  intros Hnd Hold Hoc He. unfold merge_one.
  rewrite (GetMonitoredDatabase_unique r _ old); [|done..|].
  - rewrite Hoc. by rewrite (proj2 (Source_Equal_effective _ _) He).
  - rewrite (obj_name_of _ _ _ Hoc). by rewrite (effective_name _ _ He).
Qed.

Lemma merge_same r news olds cs :
  NoDup (obj_name r <$> monitoredSources r) → (∀ l, l ∈ olds → l ∈ monitoredSources r) →
  refs_of r news cs → refs_of r olds cs → merge_sources r news = (r, olds).
Proof.
  intros Hnd Hin Hn. revert olds Hin. induction Hn as [|l c news cs (c1 & Hl & He) _ IH]; intros olds Hin Ho.
  { apply Forall2_nil_inv_r in Ho as ->. done. }
  apply Forall2_cons_inv_r in Ho as (old & olds' & (c2 & Hold & He2) & Ho & ->). cbn [merge_sources]. rewrite Hl.
  rewrite (merge_one_same r l old c1 c2); [|done|apply Hin; by left|done|congruence].
  rewrite (IH olds'); [done| |done]. intros l' Hl'. apply Hin. by right.
Qed.

(** The references that result stand for the new configurations. *)
Lemma merge_refs r news cs r' ls :
  merge_sources r news = (r', ls) → refs_of r news cs → refs_of r' ls cs.
Proof.
  intros Hm Hn. revert r ls Hm Hn. revert cs. induction news as [|l news IH]; intros cs r ls Hm Hn; cbn [merge_sources] in Hm.
  { simplify_eq. apply Forall2_nil_inv_l in Hn as ->. constructor. }
  apply Forall2_cons_inv_l in Hn as (c & cs' & (c1 & Hl & He) & Hn & ->). rewrite Hl in Hm.
  destruct (merge_one r l c1) as [r1 l1] eqn:E1. destruct (merge_sources r1 news) as [r2 ls2] eqn:E2. injection Hm as -> <-.
  assert (∀ E, kept (λ c, conn_effective c = E) r r1) as Hk1.
  { intros E. pose proof (kept_merge _ (stable_effective E) r [l]) as Hk. cbn [merge_sources] in Hk. rewrite Hl, E1 in Hk. exact Hk. }
  assert (∀ E, kept (λ c, conn_effective c = E) r1 r') as Hk2.
  { intros E. pose proof (kept_merge _ (stable_effective E) r1 news) as Hk. by rewrite E2 in Hk. }
  constructor; [|eapply IH; [exact E2|by eapply refs_of_kept]].
  assert (∃ c2, objs r !! l1 = Some c2 ∧ conn_effective c2 = conn_effective c) as (c2 & Hc2 & He2).
  { revert E1. unfold merge_one. destruct (GetMonitoredDatabase _ _ _) as [old|]; [|intros [= <- <-]; exists c1; by split].
    destruct (objs r !! old) as [oc|] eqn:Eo; [|intros [= <- <-]; exists c1; by split].
    destruct (Source_Equal _ _) eqn:Es; intros [= <- <-]; [|exists c1; by split].
    apply Source_Equal_effective in Es. exists oc. split; [done|]. unfold conn_effective in *. congruence. }
  destruct (Hk1 _ _ _ Hc2 He2) as (c3 & Hc3 & He3). destruct (Hk2 _ _ _ Hc3 He3) as (c4 & Hc4 & He4). eauto.
Qed.

(** ** Outage of the discovery *)

Section outage.
Context (env : loop_env) (srcs : Sources).
Let wanted := filter (λ s, wanted_source env s = true) srcs.

(** The state after a round in which every discovery succeeded. *)
Definition discovered (renv : resolver_env) (r : reaper) (v : ref_resolver) : Prop :=
  fresh_objs r ∧ NoDup (obj_name r <$> monitoredSources r) ∧
  refs_of r (monitoredSources r) (concat (found_dbs renv <$> wanted)) ∧
  ∀ s, s ∈ wanted → discovers s → cached_dbs r v s (found_dbs renv s).

Lemma refs_of_names r ls cs : refs_of r ls cs → obj_name r <$> ls = Some <$> conn_names cs.
Proof using Type.
  induction 1 as [|l c ls cs (c' & Hl & He) _ IH]; [done|]. csimpl. rewrite IH. f_equal.
  rewrite (obj_name_of _ _ _ Hl). f_equal. by apply effective_name.
Qed.

(** Keeping the lists and the configurations keeps [discovered]. *)
Lemma discovered_kept renv r r' v :
  discovered renv r v → same_names r r' → next_obj r' = next_obj r → monitoredSources r' = monitoredSources r →
  (∀ E, kept (λ c, conn_effective c = E) r r') → discovered renv r' v.
Proof using Type.
  intros (Hf & Hnd & Hm & Hc) Hn Hnext Hmon Hk. split_and!.
  - intros l [c Hl]. rewrite Hnext. apply Hf. specialize (Hn l). unfold obj_name in Hn. rewrite Hl in Hn.
    destruct (objs r !! l); [done|discriminate].
  - by rewrite Hmon, (same_names_fmap r r').
  - rewrite Hmon. by eapply refs_of_kept.
  - intros s Hs Hd. eapply cached_dbs_kept; [done|]. by apply Hc.
Qed.

Hypothesis no_patroni : Forall (λ s, Kind s ≠ SourcePatroniDiscovery) wanted.
Hypothesis distinct_keys : NoDup (postgresDiscoveryKeyOf <$> wanted).

Lemma LoadSources_discovers renv r v :
  Forall (λ s, ∃ dbs, found renv s = Ok dbs) wanted → NoDup (conn_names (concat (found_dbs renv <$> wanted))) →
  fresh_objs r →
  let '(r', v', err) := ref_LoadSources renv env false (Ok srcs) r v in discovered renv r' v'.
Proof using no_patroni distinct_keys.
  intros Hf Hnd Hfr. unfold ref_LoadSources, ref_ResolveDatabases. fold wanted.
  destruct (ref_success renv wanted r v [] [] None no_patroni Hf distinct_keys Hfr) as (r1 & v1 & news & -> & Hfr1 & Hnews & _ & Hc).
  simpl. destruct (merge_sources r1 news) as [r2 ls] eqn:Em. pose proof (merge_refs _ _ _ _ _ Em Hnews) as Hls.
  pose proof Hfr1 as (_ & _ & _ & _ & _ & Hfresh). specialize (Hfresh Hfr).
  assert (∀ E, kept (λ c, conn_effective c = E) r1 r2) as Hk.
  { intros E. pose proof (kept_merge _ (stable_effective E) r1 news) as Hk. by rewrite Em in Hk. }
  assert (same_lists r1 r2) as (Hn & Hnext & _).
  { eapply (merge_sources_spec _ _ _ _ Em). intros l [i Hi]%list_elem_of_lookup.
    destruct (Forall2_lookup_l _ _ _ _ _ Hnews Hi) as (c & _ & c' & -> & _). done. }
  split_and!; simpl.
  - intros l [c Hl]. simpl in *. rewrite Hnext. apply Hfresh. specialize (Hn l). unfold obj_name in Hn. rewrite Hl in Hn.
    destruct (objs r1 !! l); [done|discriminate].
  - change (NoDup (obj_name r2 <$> ls)). rewrite (refs_of_names _ _ _ Hls). by apply NoDup_fmap_2; [apply _|].
  - exact Hls.
  - intros s Hs Hd. change (cached_dbs r2 v1 s (found_dbs renv s)). eapply cached_dbs_kept; [exact Hk|]. by apply Hc.
Qed.

Lemma LoadSources_outage renv renv' r v :
  Forall (λ s, found_dbs renv s ≠ []) wanted → (∀ s, ∃ e, discover renv' s = Err e) → discovered renv r v →
  ∃ r', ref_LoadSources renv' env false (Ok srcs) r v = (r', v, None) ∧ framed r r' ∧ discovered renv r' v.
Proof using no_patroni.
  intros Hne Hfail (Hf & Hnd & Hm & Hc). unfold ref_LoadSources, ref_ResolveDatabases. fold wanted.
  rewrite Forall_forall in Hne.
  destruct (ref_outage renv renv' wanted r v [] [] None no_patroni Hfail) as (r1 & news & -> & Hfr1 & Hnews); [|done|].
  { intros s Hs Hd. split; [by apply Hne|by apply Hc]. }
  simpl. pose proof Hfr1 as (Hsub & Hmon & _ & _ & _ & Hfresh).
  assert (refs_of r1 (monitoredSources r) (concat (found_dbs renv <$> wanted))) as Hm1 by (by eapply refs_of_framed).
  assert (NoDup (obj_name r1 <$> monitoredSources r1)) as Hnd1.
  { rewrite Hmon, (refs_of_names _ _ _ Hm1), <-(refs_of_names _ _ _ Hm). done. }
  rewrite (merge_same r1 news (monitoredSources r) (concat (found_dbs renv <$> wanted)) Hnd1); [|by rewrite Hmon|exact Hnews|exact Hm1].
  eexists. split; [done|]. rewrite <-Hmon. replace (set_monitored r1 (monitoredSources r1)) with r1 by (by destruct r1).
  split; [done|]. split_and!; [by apply Hfresh|done|by rewrite Hmon|].
  intros s Hs Hd. eapply cached_dbs_kept; [|by apply Hc]. intros E. by apply kept_sub.
Qed.
End outage.

Lemma sweep_lists env r ls r' : sweep env r ls = Returns r' → same_lists r r'.
Proof.
  revert r. induction ls as [|l ls IH]; intros r; simpl; [by intros [= <-]|].
  destruct (process_source env r l) as [r1| |] eqn:E; [|done..]. intros Hs.
  etrans; [apply (process_source_step _ _ _ _ E)|by apply IH].
Qed.

(** The part of a round after the reload of the sources. *)
Definition rest_of_round (env : loop_env) (read_metrics : result Metrics) (schedule : list nat → list nat) (ctx_done : bool)
    (r : reaper) : outcome reaper :=
  let r := (LoadMetrics read_metrics r).1 in
  match sweep env r (schedule (monitoredSources r)) with
  | Returns r => Returns (CleanupRemovedWorkers env ctx_done r)
  | Panics => Panics
  | NoFuel => NoFuel
  end.

Lemma ref_round_split renv env tf read read_metrics schedule ctx_done r v r' v' :
  ref_round renv env tf read read_metrics schedule ctx_done r v = Returns (r', v') →
  ∃ r1 err, ref_LoadSources renv env tf read r v = (r1, v', err) ∧ rest_of_round env read_metrics schedule ctx_done r1 = Returns r'.
Proof.
  unfold ref_round, rest_of_round. destruct (ref_LoadSources _ _ _ _ _ _) as [[r1 v1] err].
  intros H. exists r1, err. destruct (sweep _ _ _); [|done..]. injection H as <- <-. by split.
Qed.

Lemma rest_of_round_spec env read_metrics schedule ctx_done r r' :
  rest_of_round env read_metrics schedule ctx_done r = Returns r' →
  same_names r r' ∧ next_obj r' = next_obj r ∧ monitoredSources r' = monitoredSources r ∧
  ∀ P, stable P → kept P r r'.
Proof.
  unfold rest_of_round. destruct (LoadMetrics_lists read_metrics r) as [(Hn1 & Hnext1 & Hm1 & _) _].
  set (r1 := (LoadMetrics read_metrics r).1) in *. destruct (sweep env r1 _) as [r2| |] eqn:Es; [|done..]. intros [= <-].
  destruct (sweep_lists _ _ _ _ Es) as (Hn2 & Hnext2 & Hm2 & _).
  destruct (CleanupRemovedWorkers_spec env ctx_done r2) as (Hn3 & Hnext3 & Hm3 & _).
  split_and!; [intros l; by rewrite Hn3, Hn2, Hn1|congruence|congruence|]. intros P HP.
  eapply kept_preorder; [apply (kept_metrics P read_metrics r); intros; apply HP|].
  eapply kept_preorder; [by eapply (kept_sweep P HP)|by apply (kept_cleanup P HP)].
Qed.

(** A round over the same sources in which no discovery query succeeds. *)
Definition outage_round (groups : list string) (srcs : Sources) (st st' : reaper * ref_resolver) : Prop :=
  ∃ env renv read_metrics schedule ctx_done, Groups env = groups ∧ (∀ s, ∃ e, discover renv s = Err e) ∧
    ref_round renv env false (Ok srcs) read_metrics schedule ctx_done st.1 st.2 = Returns st'.

Lemma wanted_groups env env' (srcs : Sources) :
  Groups env' = Groups env → filter (λ s, wanted_source env' s = true) srcs = filter (λ s, wanted_source env s = true) srcs.
Proof. intros Hg. apply list_filter_iff. intros s. unfold wanted_source. by rewrite Hg. Qed.

(** C14.  An outage of the discovery does not disturb the monitoring.  After a round in which every
    discovery source resolved to some databases, and any number of rounds in which no discovery query
    succeeds, whatever the monitored databases answer: the reload of such a round keeps the monitored
    connections, which are not touched, and the workers; it reports nothing as down and leaves the
    caches as they are.  (The sources have distinct identities and resolve to distinct names, and none
    is a Patroni cluster.) *)
Theorem outage_keeps_workers env renv srcs r v read_metrics schedule ctx_done r1 v1 r2 v2 env' renv' :
  let wanted := filter (λ s, wanted_source env s = true) srcs in
  Forall (λ s, Kind s ≠ SourcePatroniDiscovery) wanted → NoDup (postgresDiscoveryKeyOf <$> wanted) →
  Forall (λ s, ∃ dbs, found renv s = Ok dbs ∧ dbs ≠ []) wanted →
  NoDup (conn_names (concat (found_dbs renv <$> wanted))) → fresh_objs r →
  ref_round renv env false (Ok srcs) read_metrics schedule ctx_done r v = Returns (r1, v1) →
  rtc (outage_round (Groups env) srcs) (r1, v1) (r2, v2) →
  Groups env' = Groups env → (∀ s, ∃ e, discover renv' s = Err e) →
  v2 = v1 ∧ monitoredSources r2 = monitoredSources r1 ∧
  ∃ r3, ref_LoadSources renv' env' false (Ok srcs) r2 v2 = (r3, v2, None) ∧
    monitoredSources r3 = monitoredSources r2 ∧ cancelFuncs r3 = cancelFuncs r2 ∧ out r3 = out r2 ∧
    ∀ l, l ∈ monitoredSources r2 → objs r3 !! l = objs r2 !! l.
Proof.
  intros wanted Hk Hkeys Hf Hnd Hfr Hround Hrtc Hg Hfail.
  assert (Forall (λ s, found_dbs renv s ≠ []) wanted) as Hne.
  { eapply Forall_impl; [exact Hf|]. intros s (dbs & Hdbs & ?). unfold found_dbs. by rewrite Hdbs. }
  assert (discovered env srcs renv r1 v1) as Hd1.
  { destruct (ref_round_split _ _ _ _ _ _ _ _ _ _ _ Hround) as (r0 & err & Hload & Hrest).
    pose proof (LoadSources_discovers env srcs Hk Hkeys renv r v) as Hd. rewrite Hload in Hd.
    destruct (rest_of_round_spec _ _ _ _ _ _ Hrest) as (? & ? & ? & Hkept).
    eapply discovered_kept; [apply Hd| | | |]; try done.
    - eapply Forall_impl; [exact Hf|]. naive_solver.
    - intros E. apply Hkept, stable_effective. }
  clear Hround. remember (r1, v1) as st1 eqn:E1. remember (r2, v2) as st2 eqn:E2. revert r1 v1 E1 Hd1.
  induction Hrtc as [st|st1 st st2 Hstep _ IH]; intros r1 v1 E1 Hd1.
  - rewrite E1 in E2. injection E2 as <- <-. split_and!; [done..|].
    destruct (LoadSources_outage env' srcs) with (renv := renv) (renv' := renv') (r := r1) (v := v1) as (r3 & H3 & Hfr3 & _).
    { by rewrite (wanted_groups env env'). } { by rewrite (wanted_groups env env'). } { done. }
    { unfold discovered. rewrite (wanted_groups env env') by done. exact Hd1. }
    exists r3. destruct Hd1 as (_ & _ & Hm & _). destruct Hfr3 as (Hsub & ? & ? & ? & ? & _). split_and!; try done.
    intros l [i Hi]%list_elem_of_lookup. destruct (Forall2_lookup_l _ _ _ _ _ Hm Hi) as (c & _ & c' & Hc' & _).
    rewrite Hc'. by eapply lookup_weaken.
  - destruct Hstep as (env0 & renv0 & rm & sched & cd & Hg0 & Hfail0 & Hr0). subst st1. cbn [fst snd] in Hr0.
    destruct st as [rb v'']. destruct (ref_round_split _ _ _ _ _ _ _ _ _ _ _ Hr0) as (ra & err & Hload & Hrest).
    destruct (LoadSources_outage env0 srcs) with (renv := renv) (renv' := renv0) (r := r1) (v := v1) as (r3 & H3 & Hfr3 & Hd3).
    { by rewrite (wanted_groups env env0). } { by rewrite (wanted_groups env env0). } { done. }
    { unfold discovered. rewrite (wanted_groups env env0) by done. exact Hd1. }
    rewrite Hload in H3. injection H3 as -> -> ->. unfold discovered in Hd3. rewrite (wanted_groups env env0) in Hd3 by done.
    destruct (rest_of_round_spec _ _ _ _ _ _ Hrest) as (? & ? & Hm & Hkept).
    destruct Hfr3 as (_ & Hm3 & _). rewrite <-Hm3, <-Hm. apply IH; [done|done|].
    eapply discovered_kept; [exact Hd3|done..|]. intros E. apply Hkept, stable_effective.
Qed.

(** ** A connection that was closed *)

(** Resolving any sources creates objects and nothing else. *)
Lemma ref_postgres_framed renv r v s :
  fresh_objs r → let '(r', v', _) := ref_FromPostgres renv r v s in framed r r' ∧ fresh_objs r'.
Proof.
  intros Hf. unfold ref_FromPostgres. destruct (resolveDatabasesFromPostgres renv s) as [dbs|e].
  - destruct (alloc r dbs) as [r1 ls] eqn:Ea. destruct (alloc_framed _ _ _ _ Ea Hf) as [Hfr _]. split; [done|]. by apply Hfr.
  - by destruct (ref_databases v !! _) as [[]|].
Qed.

Lemma ref_member_framed renv r v s hc ms :
  fresh_objs r → let '(r', v', _) := ref_member_dbs renv r v s hc ms in framed r r' ∧ fresh_objs r'.
Proof.
  revert r v. induction ms as [|m ms IH]; intros r v Hf; cbn [ref_member_dbs]; [done|].
  destruct (_ && _); [by apply IH|]. pose proof (ref_postgres_framed renv r v (member_source s hc m) Hf) as H1.
  destruct (ref_FromPostgres _ _ _ _) as [[r1 v1] res]. destruct H1 as [H1 Hf1]. specialize (IH r1 v1 Hf1).
  destruct (ref_member_dbs _ _ _ _ _ _) as [[r2 v2] rest]. destruct IH. split; [by etrans|done].
Qed.

Lemma ref_resolve_framed renv r v s :
  fresh_objs r → let '(r', v', _) := ref_ResolveDatabase renv r v s in framed r r' ∧ fresh_objs r'.
Proof.
  intros Hf. unfold ref_ResolveDatabase. case_bool_decide; [|case_bool_decide].
  - unfold ref_FromPatroni. destruct (NewHostConfig _ _) as [hc|]; [|done].
    destruct (get_members _ _ _ _) as [[rv res]|]; [|done]. destruct (known_members rv s res) as [[rv1 members] err].
    pose proof (ref_member_framed renv r (RefResolver (lastFoundClusterMembers rv1) (ref_databases v)) s hc members Hf) as H1.
    by destruct (ref_member_dbs _ _ _ _ _ _) as [[r2 v2] rest].
  - pose proof (ref_postgres_framed renv r v s Hf) as H1. by destruct (ref_FromPostgres _ _ _ _) as [[r1 v1] []].
  - destruct (alloc r _) as [r1 ls] eqn:Ea. destruct (alloc_framed _ _ _ _ Ea Hf) as [Hfr _]. split; [done|]. by apply Hfr.
Qed.

Lemma ref_resolves_framed renv srcs r v conns down err :
  fresh_objs r →
  let '(r', v', _, _, _) := foldl (ref_resolve_one renv) (r, v, conns, down, err) srcs in framed r r' ∧ fresh_objs r'.
Proof.
  revert r v conns down err. induction srcs as [|s srcs IH]; intros r v conns down err Hf; cbn [foldl]; [done|].
  unfold ref_resolve_one at 2. pose proof (ref_resolve_framed renv r v s Hf) as H1.
  destruct (ref_ResolveDatabase renv r v s) as [[r1 v1] [ls [e|]]]; destruct H1 as [H1 Hf1];
    match goal with |- context [foldl _ (_, _, ?c, ?d, ?e) _] => specialize (IH r1 v1 c d e Hf1) end;
    destruct (foldl _ _ _) as [[[[r2 v2] ?] ?] ?]; destruct IH; (split; [by etrans|done]).
Qed.

(** A source whose discovery fails, among others, is served from the cache. *)
Lemma ref_cached_served renv srcs r v conns down err s ls :
  Forall (λ s, Kind s ≠ SourcePatroniDiscovery) srcs → NoDup (postgresDiscoveryKeyOf <$> srcs) →
  s ∈ srcs → discovers s → (∃ e, discover renv s = Err e) →
  ref_databases v !! postgresDiscoveryKeyOf s = Some ls → ls ≠ [] →
  let '(_, _, news, _, _) := foldl (ref_resolve_one renv) (r, v, conns, down, err) srcs in conns ++ ls ⊆ news.
Proof.
  intros Hk. revert r v conns down err. induction srcs as [|s0 srcs IH]; intros r v conns down err Hnd Hin Hd [e He] Hl Hne.
  { by apply elem_of_nil in Hin. }
  apply Forall_cons in Hk as [Hk0 Hk]. csimpl in Hnd. apply NoDup_cons in Hnd as [Hn Hnd]. cbn [foldl].
  assert (∀ acc, let '(_, _, conns', _, _) := acc in
    let '(_, _, news, _, _) := foldl (ref_resolve_one renv) acc srcs in conns' ⊆ news) as Hmono.
  { clear. induction srcs as [|s srcs IH]; intros [[[[r v] conns] down] err]; cbn [foldl]; [done|].
    unfold ref_resolve_one at 2. destruct (ref_ResolveDatabase renv r v s) as [[r1 v1] [ls [e|]]];
      match goal with |- context [foldl _ ?a srcs] => specialize (IH a); simpl in IH end;
      destruct (foldl _ _ _) as [[[[r2 v2] news] ?] ?]; set_solver. }
  apply elem_of_cons in Hin as [<-|Hin].
  - unfold ref_resolve_one at 2, ref_ResolveDatabase. rewrite (bool_decide_false (Kind s = SourcePatroniDiscovery)) by done.
    rewrite (bool_decide_true (Kind s = SourcePostgresDiscovery)) by done.
    unfold ref_FromPostgres, resolveDatabasesFromPostgres. rewrite He, Hl. destruct ls as [|l0 ls]; [done|].
    specialize (Hmono (r, v, conns ++ l0 :: ls, down, err)). simpl in Hmono. exact Hmono.
  - assert (postgresDiscoveryKeyOf s ≠ postgresDiscoveryKeyOf s0) as Hkey.
    { intros Heq. apply Hn. rewrite <-Heq. by apply list_elem_of_fmap_2. }
    assert (let '(_, v1, _) := ref_ResolveDatabase renv r v s0 in ref_databases v1 !! postgresDiscoveryKeyOf s = Some ls) as Hv.
    { unfold ref_ResolveDatabase. rewrite (bool_decide_false (Kind s0 = SourcePatroniDiscovery)) by done. case_bool_decide.
      - unfold ref_FromPostgres. destruct (resolveDatabasesFromPostgres renv s0) as [dbs|].
        + destruct (alloc r dbs). simpl. by rewrite lookup_insert_ne.
        + by destruct (ref_databases v !! postgresDiscoveryKeyOf s0) as [[]|].
      - by destruct (alloc r _). }
    unfold ref_resolve_one at 2. destruct (ref_ResolveDatabase renv r v s0) as [[r1 v1] [ls1 [e1|]]];
      match goal with |- context [foldl _ (_, _, ?c, ?d, ?e) _] =>
        specialize (IH Hk r1 v1 c d e Hnd Hin Hd (ex_intro _ _ He) Hv Hne) end;
      destruct (foldl _ _ _) as [[[[r2 v2] news] ?] ?]; set_solver.
Qed.

(** A monitored connection with a closed pool and without a worker. *)
Definition stuck E (l : nat) (r : reaper) : Prop :=
  fresh_objs r ∧ NoDup (obj_name r <$> monitoredSources r) ∧ l ∈ monitoredSources r ∧
  (∃ c, objs r !! l = Some c ∧ dead E c) ∧ (∀ name, obj_name r l = Some name → cancelFuncs r !! name = None) ∧
  ∀ x, x ∈ monitoredSources r → is_Some (objs r !! x).

(** The same objects exist where the names are the same. *)
Lemma same_names_is_Some r r' x : same_names r r' → is_Some (objs r' !! x) ↔ is_Some (objs r !! x).
Proof.
  intros Hn. specialize (Hn x). unfold obj_name in Hn. rewrite <-2(fmap_is_Some (Name ∘ GetSource)). by rewrite Hn.
Qed.

Lemma stuck_kept E l r r' :
  stuck E l r → same_names r r' → next_obj r' = next_obj r → monitoredSources r' = monitoredSources r →
  kept (dead E) r r' → (∀ name, obj_name r l = Some name → cancelFuncs r' !! name = None) → stuck E l r'.
Proof.
  intros (Hf & Hnd & Hl & (c & Hc & Hd) & _ & Hex) Hn Hnext Hm Hk Hw. split_and!.
  - intros x Hx. rewrite Hnext. apply Hf. by apply (same_names_is_Some r r').
  - by rewrite Hm, (same_names_fmap r r').
  - by rewrite Hm.
  - exact (Hk _ _ Hc Hd).
  - intros name. rewrite Hn. apply Hw.
  - intros x. rewrite Hm. intros Hx. apply (same_names_is_Some r r'); [done|]. by apply Hex.
Qed.

Lemma ShutdownWorker_out r name : out (ShutdownWorker r name) = out r.
Proof.
  unfold ShutdownWorker, close_at. destruct (GetMonitoredDatabase _ _ _) as [l|]; [|done]. by destruct (objs _ !! l).
Qed.

Lemma sync_out env r md : out (SyncMetricsToSinks env r md) = out r.
Proof.
  unfold SyncMetricsToSinks. generalize (range_keys (order env) (default ∅ (ActiveMetrics md))) as ns.
  intros ns. revert r. induction ns as [|n ns IH]; intros r; cbn [foldl]; [done|]. rewrite IH. by case_match.
Qed.

Lemma process_source_out env r l r' : process_source env r l = Returns r' → ∃ sfx, out r' = out r ++ sfx.
Proof.
  assert (∀ r', out r' = out r → ∃ sfx, out r' = out r ++ sfx) as Hsame by (intros r0 Hr0; exists []; by rewrite app_nil_r).
  unfold process_source. destruct (objs r !! l) as [c|]; [|done]. destruct (connect env c) as [[c' err]| |]; [|done..].
  destruct err; [intros [= <-]; by eexists|].
  destruct c' as [md|]; [|intros [= <-]; apply Hsame; unfold StartWorker; by destruct (cancelFuncs _ !! _)].
  destruct (FetchRuntimeInfo _ _ _ _ md true) as [md2 [e|]]; [intros [= <-]; by apply Hsame|].
  set (r2 := update_obj _ _ (ConnDb md2)).
  assert (out (FilterSource env r2 md2).1 = out r) as Hfo.
  { unfold FilterSource. destruct (_ && _); [cbn [fst]; by rewrite ShutdownWorker_out|].
    destruct (_ && _); [cbn [fst]; by rewrite ShutdownWorker_out|done]. }
  destruct (FilterSource env r2 md2) as [r3 []]; [intros [= <-]; by apply Hsame|]. cbn [fst] in Hfo.
  destruct (CreateSourceHelpers env r3 md2); [|done..]. intros [= <-]. apply Hsame. unfold StartWorker.
  destruct (cancelFuncs _ !! _); simpl; by rewrite sync_out.
Qed.

(** The main loop only reports such a connection as down. *)
Lemma process_stuck env E l x r r' :
  process_source env r x = Returns r' → stuck E l r → x ∈ monitoredSources r →
  stuck E l r' ∧ ∃ sfx, out r' = out r ++ sfx ∧
    (x = l → ∀ name, obj_name r l = Some name → instance_down env name ∈ sfx).
Proof.
  intros Hp Hst Hx. pose proof Hst as (Hf & Hnd & Hl & (c & Hc & md & -> & Hclosed & HE) & Hw & _).
  destruct (process_source_step _ _ _ _ Hp) as [(Hn & Hnext & Hm & _) Hcf]. destruct (decide (x = l)) as [->|Hne].
  - unfold process_source in Hp. rewrite Hc, dead_connect in Hp by done. injection Hp as <-. split.
    + eapply stuck_kept; [exact Hst|done..| |done]. eapply kept_preorder; [|by apply kept_objs].
      by eapply kept_update.
    + eexists. split; [done|]. intros _ name Hname. unfold obj_name in Hname. rewrite Hc in Hname. injection Hname as <-. by left.
  - split.
    + eapply stuck_kept; [exact Hst|done..|eapply kept_process; [apply (stable_dead E)|done]|].
      intros name Hname. destruct (cancelFuncs r' !! name) as [l'|] eqn:El; [|done]. exfalso.
      destruct (Hcf name l' El) as [Hold|[_ Hxn]]; [by rewrite (Hw name Hname) in Hold|].
      apply Hne. eapply unique_ref; [exact Hnd|done..|congruence].
    + destruct (process_source_out _ _ _ _ Hp) as [sfx ->]. by exists sfx.
Qed.

Lemma sweep_stuck env E l r ls r' :
  sweep env r ls = Returns r' → stuck E l r → (∀ x, x ∈ ls → x ∈ monitoredSources r) →
  stuck E l r' ∧ ∃ sfx, out r' = out r ++ sfx ∧
    (l ∈ ls → ∀ name, obj_name r l = Some name → instance_down env name ∈ sfx).
Proof.
  revert r. induction ls as [|x ls IH]; intros r Hs Hst Hin; simpl in Hs.
  { injection Hs as <-. split; [done|]. exists []. rewrite app_nil_r. split; [done|]. by intros ?%elem_of_nil. }
  destruct (process_source env r x) as [r1| |] eqn:Ep; [|done..].
  destruct (process_stuck _ _ l _ _ _ Ep Hst) as [Hst1 (s1 & Ho1 & Hrep)]; [apply Hin; by left|].
  destruct (process_source_step _ _ _ _ Ep) as [(Hn & _ & Hm & _) _].
  destruct (IH r1 Hs Hst1) as [Hst2 (s2 & Ho2 & Hrep2)]; [intros y Hy; rewrite Hm; apply Hin; by right|].
  split; [done|]. exists (s1 ++ s2). rewrite Ho2, Ho1, app_assoc. split; [done|].
  intros [->|Hl]%elem_of_cons name Hname; apply elem_of_app; [left; by apply Hrep|right]. apply Hrep2; [done|]. by rewrite Hn.
Qed.

Lemma LoadMetrics_out read r : out (LoadMetrics read r).1 = out r.
Proof.
  unfold LoadMetrics. destruct read as [d|]; [|done]. cbn [fst].
  assert (∀ ls r, out (foldl apply_presets r ls) = out r) as H; [|by rewrite H].
  intros ls. induction ls as [|l ls IH]; intros r0; cbn [foldl]; [done|]. rewrite IH.
  unfold apply_presets. destruct (objs r0 !! l); [|done]. by split_matches.
Qed.

Lemma Cleanup_out env ctx_done r : out (CleanupRemovedWorkers env ctx_done r) = out r.
Proof.
  unfold CleanupRemovedWorkers. simpl.
  assert (∀ ls r, out (foldl cleanup_prev r ls) = out r) as H1.
  { intros ls. induction ls as [|l ls IH]; intros r0; cbn [foldl]; [done|]. rewrite IH. unfold cleanup_prev, close_at.
    destruct (obj_name r0 l); [|done]. destruct (GetMonitoredDatabase _ _ _); [done|]. by destruct (objs r0 !! l). }
  rewrite H1. generalize (range_keys (order env) (cancelFuncs r)) as ns. intros ns. revert r.
  induction ns as [|n ns IH]; intros r; cbn [foldl]; [done|]. rewrite IH. unfold cleanup_worker.
  destruct (GetMonitoredDatabase _ _ _); [destruct ctx_done|]; try done; apply ShutdownWorker_out.
Qed.

Lemma rest_stuck env read_metrics schedule ctx_done E l r r' :
  (∀ ls, schedule ls ≡ₚ ls) → rest_of_round env read_metrics schedule ctx_done r = Returns r' → stuck E l r →
  stuck E l r' ∧ ∃ sfx, out r' = out r ++ sfx ∧ ∀ name, obj_name r l = Some name → instance_down env name ∈ sfx.
Proof.
  intros Hsched Hr Hst. unfold rest_of_round in Hr. pose proof (LoadMetrics_out read_metrics r) as Ho1.
  destruct (LoadMetrics_lists read_metrics r) as [(Hn1 & Hnext1 & Hm1 & _) Hc1].
  pose proof (kept_metrics (dead E) read_metrics r (λ d _, stable_presets _ (stable_dead E) d)) as Hk1. set (r1 := (LoadMetrics read_metrics r).1) in *.
  assert (stuck E l r1) as Hst1.
  { eapply stuck_kept; [exact Hst|done..|]. rewrite Hc1. apply Hst. }
  destruct (sweep env r1 _) as [r2| |] eqn:Es; [|done..]. injection Hr as <-.
  destruct (sweep_stuck _ _ l _ _ _ Es Hst1) as [Hst2 (sfx & Ho & Hrep)]; [intros x; by rewrite Hsched|].
  destruct (CleanupRemovedWorkers_spec env ctx_done r2) as (Hn3 & Hnext3 & Hm3 & _ & Hc3). split.
  - eapply stuck_kept; [exact Hst2|done..|apply (kept_cleanup _ (stable_dead E))|]. intros name Hname. rewrite Hc3.
    destruct (removed _ _ _); [done|]. by apply Hst2.
  - exists sfx. rewrite Cleanup_out, Ho, Ho1. split; [done|]. intros name Hname. apply Hrep; [|by rewrite Hn1].
    rewrite Hsched. apply Hst1.
Qed.

(** ** The reload keeps it *)

Lemma merge_keeps r news r' ls old oc l c :
  merge_sources r news = (r', ls) → (∀ x, x ∈ news → is_Some (objs r !! x)) →
  NoDup (obj_name r <$> news) → NoDup (obj_name r <$> monitoredSources r) →
  old ∈ monitoredSources r → objs r !! old = Some oc → l ∈ news → objs r !! l = Some c →
  conn_effective oc = conn_effective c →
  old ∈ ls ∧ objs r' !! old = Some oc ∧ cancelFuncs r' !! Name (GetSource c) = cancelFuncs r !! Name (GetSource c).
Proof.
  revert r ls. induction news as [|x news IH]; intros r ls Hm Hex Hnd Hndm Hold Hoc Hl Hc He; [by apply elem_of_nil in Hl|].
  assert (obj_name r old = Some (Name (GetSource c))) as Hon.
  { rewrite (obj_name_of _ _ _ Hoc). f_equal. by apply effective_name. }
  cbn [merge_sources] in Hm. destruct (Hex x) as [cx Hcx]; [by left|]. rewrite Hcx in Hm.
  csimpl in Hnd. apply NoDup_cons in Hnd as [Hfresh Hnd]. apply elem_of_cons in Hl as [->|Hl].
  - rewrite Hc in Hcx. injection Hcx as <-. rewrite (merge_one_same r x old c oc) in Hm by done.
    destruct (merge_sources r news) as [r2 ls2] eqn:E2. injection Hm as -> <-.
    destruct (merge_sources_spec _ _ _ _ E2) as (_ & _ & _ & Hw & Ho); [intros y Hy; apply Hex; by right|].
    rewrite (obj_name_of _ _ _ Hc) in Hfresh. split_and!; [by left| |by apply Hw]. rewrite Ho; [done|]. by rewrite Hon.
  - assert (Name (GetSource c) ≠ Name (GetSource cx)) as Hne.
    { intros Heq. apply Hfresh. rewrite (obj_name_of _ _ _ Hcx), <-Heq, <-(obj_name_of _ _ _ Hc). by apply list_elem_of_fmap_2. }
    destruct (merge_one_spec r x cx _ Hcx (obj_name_of _ _ _ Hcx)) as ((Hn & _ & Hmon & _) & _ & _ & Hw & Ho).
    destruct (merge_one r x cx) as [r1 l1]. cbn [fst snd] in *.
    destruct (merge_sources r1 news) as [r2 ls2] eqn:E2. injection Hm as -> <-.
    destruct (IH r1 ls2 E2) as (H1 & H2 & H3).
    + intros y Hy. destruct (Hex y ltac:(by right)) as [cy Hcy]. specialize (Hn y). unfold obj_name in Hn. rewrite Hcy in Hn.
      destruct (objs r1 !! y); [done|discriminate].
    + by rewrite (same_names_fmap r r1).
    + by rewrite Hmon, (same_names_fmap r r1).
    + by rewrite Hmon.
    + rewrite Ho; [done|congruence].
    + done.
    + rewrite Ho; [done|]. rewrite (obj_name_of _ _ _ Hc). congruence.
    + done.
    + split_and!; [by right|done|]. rewrite H3. by apply Hw.
Qed.

(** The source is configured as before, and the resolver returns a connection for it. *)
Definition still_configured E (renv : resolver_env) (env : loop_env) (srcs : Sources) (st : reaper * ref_resolver) : Prop :=
  let '(r1, _, news, _, _) := ref_ResolveDatabases renv st.1 st.2 (filter (λ s, wanted_source env s = true) srcs) in
  (∀ x, x ∈ news → is_Some (objs r1 !! x)) ∧ NoDup (obj_name r1 <$> news) ∧
  ∃ l c, l ∈ news ∧ objs r1 !! l = Some c ∧ conn_effective c = E.

(** Any round over such a configuration, whatever the databases answer. *)
Definition unchanged_round E (st st' : reaper * ref_resolver) : Prop :=
  ∃ env renv srcs read_metrics schedule ctx_done, still_configured E renv env srcs st ∧ (∀ ls, schedule ls ≡ₚ ls) ∧
    ref_round renv env false (Ok srcs) read_metrics schedule ctx_done st.1 st.2 = Returns st'.

Lemma dead_effective E c : dead E c → conn_effective c = E.
Proof. by intros (md & -> & _ & <-). Qed.

(** Names of objects that exist stay. *)
Lemma obj_name_sub r r' l : objs r ⊆ objs r' → is_Some (objs r !! l) → obj_name r' l = obj_name r l.
Proof. intros Hs [c Hc]. unfold obj_name. rewrite Hc. by rewrite (lookup_weaken _ _ _ _ Hc Hs). Qed.

(** Every reference of the merged list exists. *)
Lemma merge_exist r news r' ls :
  merge_sources r news = (r', ls) → (∀ x, x ∈ news → is_Some (objs r !! x)) → ∀ x, x ∈ ls → is_Some (objs r' !! x).
Proof.
  intros Em Hex x Hx. destruct (merge_sources_spec _ _ _ _ Em Hex) as ((Hn & _) & _ & Hls & _).
  apply (same_names_is_Some _ _ _ Hn). assert (obj_name r x ∈ obj_name r <$> news) as (y & Hy & Hyn)%list_elem_of_fmap.
  { rewrite <-Hls. by apply list_elem_of_fmap_2. }
  destruct (Hex y Hyn) as [cy Hcy]. rewrite (obj_name_of _ _ _ Hcy) in Hy. unfold obj_name in Hy.
  destruct (objs r !! x); [done|discriminate].
Qed.

Lemma load_stuck env renv srcs E l r v r' v' err :
  ref_LoadSources renv env false (Ok srcs) r v = (r', v', err) →
  stuck E l r → still_configured E renv env srcs (r, v) → stuck E l r'.
Proof.
  intros Hload (Hf & Hnd & Hl & (c & Hc & Hdead) & Hw & Hexm) Hconf. unfold ref_LoadSources in Hload.
  unfold still_configured in Hconf. cbn [fst snd] in Hconf.
  pose proof (ref_resolves_framed renv (filter (λ s, wanted_source env s = true) srcs) r v [] [] None Hf) as Hfr.
  unfold ref_ResolveDatabases in *. destruct (foldl _ _ _) as [[[[r1 v1] news] down] err1].
  destruct Hfr as [(Hsub & Hmon & _ & Hcf & _) Hf1]. rewrite writes_down in Hload.
  destruct (merge_sources (add_out r1 _) news) as [r2 ls] eqn:Em. injection Hload as <- <- <-.
  destruct Hconf as (Hex & Hnews & l' & c' & Hl' & Hc' & HE). pose proof (lookup_weaken _ _ _ _ Hc Hsub) as Hc1.
  destruct (merge_sources_spec _ _ _ _ Em) as ((Hn & Hnext & _) & _ & Hls & _); [done|].
  destruct (merge_keeps _ _ _ _ l c l' c' Em) as (Hin & Hobj & Hworker); try done.
  { change (NoDup (obj_name r1 <$> monitoredSources r1)). rewrite Hmon, (list_fmap_ext (obj_name r1) (obj_name r)); [done|].
    intros i x Hi. apply obj_name_sub; [done|]. apply Hexm. by eapply list_elem_of_lookup_2. }
  { change (l ∈ monitoredSources r1). by rewrite Hmon. }
  { rewrite (dead_effective _ _ Hdead). by symmetry. }
  assert (obj_name r l = Some (Name (GetSource c'))) as Hname.
  { rewrite (obj_name_of _ _ _ Hc). f_equal. apply effective_name. rewrite (dead_effective _ _ Hdead). by symmetry. }
  split_and!.
  - intros x Hx. simpl. rewrite Hnext. apply Hf1. by apply (same_names_is_Some _ _ _ Hn) in Hx.
  - change (NoDup (obj_name r2 <$> ls)). rewrite (same_names_fmap _ _ ls Hn), Hls. done.
  - done.
  - by exists c.
  - intros name. change (obj_name r2 l = Some name → cancelFuncs r2 !! name = None). rewrite (obj_name_of _ _ _ Hobj).
    rewrite (obj_name_of _ _ _ Hc) in Hname. rewrite Hname. intros [= <-]. rewrite Hworker. simpl. rewrite Hcf. apply Hw.
    by rewrite (obj_name_of _ _ _ Hc).
  - apply (merge_exist _ _ _ _ Em Hex).
Qed.

(** ** A pause closes the connections *)

Lemma cleanup_prev_lists r x : monitoredSources (cleanup_prev r x) = monitoredSources r.
Proof.
  unfold cleanup_prev, close_at. destruct (obj_name r x); [|done]. destruct (GetMonitoredDatabase _ _ _); [done|].
  by destruct (objs r !! x).
Qed.

(** A connection of the previous round that is no longer monitored is closed. *)
Lemma prev_closed ls r l md :
  monitoredSources r = [] → l ∈ ls → objs r !! l = Some (ConnDb md) → md_Conn md ≠ PoolNil →
  ∃ c, objs (foldl cleanup_prev r ls) !! l = Some c ∧ dead (effective (md_Source md)) c.
Proof.
  revert r md. induction ls as [|x ls IH]; intros r md Hm Hl Ho Hp; [by apply elem_of_nil in Hl|]. cbn [foldl].
  destruct (decide (x = l)) as [->|Hne].
  - apply (kept_prev _ (stable_dead (effective (md_Source md))) ls) with (c := ConnDb (DbConn_Close md)).
    + unfold cleanup_prev. rewrite (obj_name_of _ _ _ Ho), Hm. simpl. unfold close_at. rewrite Ho. simpl. apply lookup_insert_eq.
    + exists (DbConn_Close md). unfold DbConn_Close. by destruct (md_Conn md).
  - apply elem_of_cons in Hl as [->|Hl]; [done|]. apply IH; [by rewrite cleanup_prev_lists|done| |done].
    unfold cleanup_prev, close_at. destruct (obj_name r x); [|done]. destruct (GetMonitoredDatabase _ _ _); [done|].
    destruct (objs r !! x); [|done]. simpl. by rewrite lookup_insert_ne.
Qed.

Lemma paused_stop ctx_done ns r :
  monitoredSources r = [] →
  objs (foldl (cleanup_worker ctx_done) r ns) = objs r ∧ monitoredSources (foldl (cleanup_worker ctx_done) r ns) = [] ∧
  prevLoopMonitoredDBs (foldl (cleanup_worker ctx_done) r ns) = prevLoopMonitoredDBs r.
Proof.
  revert r. induction ns as [|n ns IH]; intros r Hm; cbn [foldl]; [done|].
  assert (∀ f, f r = ShutdownWorker r n → objs (f r) = objs r ∧ monitoredSources (f r) = [] ∧
    prevLoopMonitoredDBs (f r) = prevLoopMonitoredDBs r) as Hs.
  { intros f ->. unfold ShutdownWorker, GetMonitoredDatabase. simpl. rewrite Hm. done. }
  destruct (Hs (λ r, cleanup_worker ctx_done r n)) as (Ho & Hm1 & Hp).
  { unfold cleanup_worker, GetMonitoredDatabase. by rewrite Hm. }
  destruct (IH _ Hm1) as (? & ? & ?). split_and!; [congruence|done|congruence].
Qed.

Lemma pause_closes renv env read read_metrics schedule ctx_done r v r' v' :
  ref_round renv env true read read_metrics schedule ctx_done r v = Returns (r', v') →
  (∀ ls, schedule ls ≡ₚ ls) → fresh_objs r →
  v' = v ∧ fresh_objs r' ∧ monitoredSources r' = [] ∧ cancelFuncs r' = ∅ ∧
  ∀ l md, l ∈ prevLoopMonitoredDBs r → objs r !! l = Some (ConnDb md) → md_Conn md ≠ PoolNil →
    ∃ c, objs r' !! l = Some c ∧ dead (effective (md_Source md)) c.
Proof.
  intros Hround Hsched Hf. unfold ref_round, ref_LoadSources in Hround.
  assert (∃ r1, (LoadMetrics read_metrics (set_monitored r [])).1 = r1 ∧ objs r1 = objs r ∧ next_obj r1 = next_obj r ∧
    monitoredSources r1 = [] ∧ prevLoopMonitoredDBs r1 = prevLoopMonitoredDBs r) as (r1 & E1 & Ho1 & Hnext1 & Hm1 & Hp1).
  { unfold LoadMetrics. by destruct read_metrics; eexists. }
  rewrite E1, Hm1 in Hround. assert (schedule [] = []) as Hnil by (apply Permutation_nil_r, Hsched).
  rewrite Hnil in Hround. simpl in Hround. injection Hround as <- <-.
  destruct (CleanupRemovedWorkers_spec env ctx_done r1) as (Hn & Hnext & Hm & _ & Hc). split_and!.
  - done.
  - intros x Hx. rewrite Hnext, Hnext1. apply Hf. apply (same_names_is_Some _ _ _ Hn) in Hx. by rewrite Ho1 in Hx.
  - congruence.
  - apply map_eq. intros name. rewrite Hc, lookup_empty. unfold removed, GetMonitoredDatabase. rewrite Hm1. simpl.
    by rewrite orb_true_r.
  - intros l md Hl Ho Hp. unfold CleanupRemovedWorkers.
    destruct (paused_stop ctx_done (range_keys (order env) (cancelFuncs r1)) r1 Hm1) as (Ho2 & Hm2 & Hp2).
    set (r2 := foldl _ r1 _) in *. apply prev_closed; [done|by rewrite Hp2, Hp1|by rewrite Ho2, Ho1|done].
Qed.

(** With nothing monitored the new list is taken as it is. *)
Lemma merge_fresh r news :
  monitoredSources r = [] → (∀ x, x ∈ news → is_Some (objs r !! x)) → merge_sources r news = (r, news).
Proof.
  intros Hm. induction news as [|x news IH]; intros Hex; cbn [merge_sources]; [done|].
  destruct (Hex x) as [c Hc]; [by left|]. rewrite Hc. unfold merge_one, GetMonitoredDatabase. rewrite Hm. simpl.
  rewrite IH; [done|]. intros y Hy. apply Hex. by right.
Qed.

Lemma merge_out r news : out (merge_sources r news).1 = out r.
Proof.
  revert r. induction news as [|x news IH]; intros r; cbn [merge_sources]; [done|].
  destruct (objs r !! x) as [c|]; [|apply IH]. assert (out (merge_one r x c).1 = out r) as H1.
  { unfold merge_one. destruct (GetMonitoredDatabase _ _ _) as [o|]; [|done]. destruct (objs r !! o); [|done].
    destruct (Source_Equal _ _); [done|]. apply ShutdownWorker_out. }
  destruct (merge_one r x c) as [r1 l1]. specialize (IH r1). destruct (merge_sources r1 news). simpl in *. congruence.
Qed.

Lemma unchanged_stuck E l st st' :
  unchanged_round E st st' → stuck E l st.1 →
  stuck E l st'.1 ∧ ∃ env sfx, out st'.1 = out st.1 ++ sfx ∧
    ∀ name, obj_name st.1 l = Some name → instance_down env name ∈ sfx.
Proof.
  intros (env & renv & srcs & rm & sched & cd & Hconf & Hsched & Hr) Hst. destruct st as [r v], st' as [r' v']. simpl in *.
  destruct (ref_round_split _ _ _ _ _ _ _ _ _ _ _ Hr) as (r1 & err & Hload & Hrest).
  pose proof (load_stuck _ _ _ _ _ _ _ _ _ _ Hload Hst Hconf) as Hst1.
  destruct (rest_stuck _ _ _ _ _ _ _ _ Hsched Hrest Hst1) as [Hst2 (sfx & Ho & Hrep)]. split; [done|]. exists env.
  assert (∃ sfx, out r1 = out r ++ sfx) as [s1 Hs1].
  { clear -Hload Hst. unfold ref_LoadSources in Hload.
    pose proof (ref_resolves_framed renv (filter (λ s, wanted_source env s = true) srcs) r v [] [] None (proj1 Hst)) as Hfr.
    unfold ref_ResolveDatabases in Hload. destruct (foldl _ _ _) as [[[[r2 v2] news] down] err1].
    destruct Hfr as [(_ & _ & _ & _ & Ho & _) _]. rewrite writes_down in Hload.
    destruct (merge_sources _ news) as [r3 ls] eqn:Em. injection Hload as <- <- <-.
    pose proof (merge_out (add_out r2 (instance_down env <$> down)) news) as Hmo. rewrite Em in Hmo. simpl in *. rewrite Hmo, Ho. eauto. }
  exists (s1 ++ sfx). rewrite Ho, Hs1, app_assoc. split; [done|]. intros name Hname. apply elem_of_app. right. apply Hrep.
  destruct Hst as (_ & _ & _ & (c & Hc & Hd) & _), Hst1 as (_ & _ & _ & (c1 & Hc1 & Hd1) & _).
  rewrite (obj_name_of _ _ _ Hc) in Hname. rewrite (obj_name_of _ _ _ Hc1), <-Hname. f_equal.
  apply effective_name. by rewrite (dead_effective _ _ Hd), (dead_effective _ _ Hd1).
Qed.

(** The round in which the resolver serves the closed connection from its cache. *)
Lemma revive_stuck renv env srcs r v s ls l E read_metrics schedule ctx_done r1 v1 :
  let wanted := filter (λ s, wanted_source env s = true) srcs in
  fresh_objs r → monitoredSources r = [] → cancelFuncs r = ∅ →
  Forall (λ s, Kind s ≠ SourcePatroniDiscovery) wanted → NoDup (postgresDiscoveryKeyOf <$> wanted) →
  s ∈ wanted → discovers s → (∃ e, discover renv s = Err e) →
  ref_databases v !! postgresDiscoveryKeyOf s = Some ls → l ∈ ls → (∃ c, objs r !! l = Some c ∧ dead E c) →
  still_configured E renv env srcs (r, v) → (∀ ls, schedule ls ≡ₚ ls) →
  ref_round renv env false (Ok srcs) read_metrics schedule ctx_done r v = Returns (r1, v1) → stuck E l r1.
Proof.
  intros wanted Hf Hm Hcf Hk Hkeys Hs Hd Hfail Hcache Hl (c & Hc & Hdead) Hconf Hsched Hround.
  destruct (ref_round_split _ _ _ _ _ _ _ _ _ _ _ Hround) as (r0 & err & Hload & Hrest).
  enough (stuck E l r0) by (by apply (rest_stuck _ _ _ _ _ _ _ _ Hsched Hrest)).
  unfold ref_LoadSources in Hload. unfold still_configured in Hconf. cbn [fst snd] in Hconf. fold wanted in Hload, Hconf.
  pose proof (ref_resolves_framed renv wanted r v [] [] None Hf) as Hfr.
  pose proof (ref_cached_served renv wanted r v [] [] None s ls Hk Hkeys Hs Hd Hfail Hcache) as Hserved.
  unfold ref_ResolveDatabases in *. destruct (foldl _ _ _) as [[[[r2 v2] news] down] err1].
  destruct Hfr as [(Hsub & Hmon & _ & Hcf2 & _) Hf2], Hconf as (Hex & Hnews & _). rewrite writes_down in Hload.
  rewrite merge_fresh in Hload; [|simpl; congruence|done]. injection Hload as <- <- <-.
  split_and!; [done|done| | | |done].
  - apply Hserved; [|done]. intros ->. by apply elem_of_nil in Hl.
  - exists c. split; [by eapply lookup_weaken|done].
  - intros name _. simpl. by rewrite Hcf2, Hcf, lookup_empty.
Qed.

(** C15.  A database can stay unmonitored for ever although it is up, until its configuration changes or
    the program is restarted.  Its connection was opened after a discovery; a pause of the program (the
    emergency trigger file) closes it; the first reload after the pause falls in an outage of the
    discovery, and the resolver returns the closed connection from its cache.  Then, in every round
    in which the database is still configured, whether its discovery succeeds or not and whatever the
    servers answer, the connection stays monitored and closed, no worker is started for it, and it is
    reported as down: [Connect] opens a pool only if there was none, and the reload replaces an
    equal source by the old connection. *)
Theorem revived_connection_stuck renv0 env0 read0 rm0 schedule0 done0 r v ra va
    renv env srcs s ls l md read_metrics schedule ctx_done rb vb st st' :
  let wanted := filter (λ s, wanted_source env s = true) srcs in
  let E := effective (md_Source md) in
  fresh_objs r → l ∈ prevLoopMonitoredDBs r → objs r !! l = Some (ConnDb md) → md_Conn md = PoolOpen →
  ref_databases v !! postgresDiscoveryKeyOf s = Some ls → l ∈ ls →
  (∀ ls, schedule0 ls ≡ₚ ls) → ref_round renv0 env0 true read0 rm0 schedule0 done0 r v = Returns (ra, va) →
  Forall (λ s, Kind s ≠ SourcePatroniDiscovery) wanted → NoDup (postgresDiscoveryKeyOf <$> wanted) →
  s ∈ wanted → discovers s → (∃ e, discover renv s = Err e) → still_configured E renv env srcs (ra, va) →
  (∀ ls, schedule ls ≡ₚ ls) →
  ref_round renv env false (Ok srcs) read_metrics schedule ctx_done ra va = Returns (rb, vb) →
  rtc (unchanged_round E) (rb, vb) st → unchanged_round E st st' →
  l ∈ monitoredSources st'.1 ∧ (∃ md', objs st'.1 !! l = Some (ConnDb md') ∧ md_Conn md' = PoolClosed) ∧
  cancelFuncs st'.1 !! Name (md_Source md) = None ∧
  ∃ env' sfx, out st'.1 = out st.1 ++ sfx ∧ instance_down env' (Name (md_Source md)) ∈ sfx.
Proof.
  intros wanted E Hf Hprev Hl Hopen Hcache Hin Hs0 Hpause Hk Hkeys Hs Hd Hfail Hconf Hsched Hround Hrtc Hlast.
  destruct (pause_closes _ _ _ _ _ _ _ _ _ _ Hpause Hs0 Hf) as (-> & Hfa & Hma & Hca & Hclosed).
  assert (stuck E l rb) as Hst.
  { eapply (revive_stuck renv env srcs ra v s ls l E); try done. apply Hclosed; [done..|congruence]. }
  assert (stuck E l st.1) as Hst1.
  { clear -Hrtc Hst. remember (rb, vb) as st0 eqn:E0. assert (stuck E l st0.1) as H by (by rewrite E0).
    clear -Hrtc H. induction Hrtc as [|a b c Hstep _ IH]; [done|]. apply IH, (unchanged_stuck _ _ _ _ Hstep H). }
  destruct (unchanged_stuck _ _ _ _ Hlast Hst1) as [(_ & _ & Hmon & (c & Hc & md' & -> & Hcl & HE) & Hw & _) (env' & sfx & Ho & Hrep)].
  assert (Name (md_Source md') = Name (md_Source md)) as Hname by (apply (effective_name (ConnDb md') (ConnDb md)), HE).
  destruct Hst1 as (_ & _ & _ & (c1 & Hc1 & Hd1) & _).
  split_and!; [done|by exists md'|apply Hw; rewrite (obj_name_of _ _ _ Hc); simpl; by f_equal|].
  exists env', sfx. split; [done|]. apply Hrep. rewrite (obj_name_of _ _ _ Hc1). f_equal.
  apply (effective_name c1 (ConnDb md)). by rewrite (dead_effective _ _ Hd1).
Qed.

(** ** Examples *)

(** A run over a discovery source with two databases and a plain source: a round, a pause, a round with
    an outage of the discovery, and a round in which everything is up. *)
Definition sample_sources : Sources := [sample_discovery "a"; sample_source "b"].

Definition sample_ref_round (up paused : bool) (st : reaper * ref_resolver) : outcome (reaper * ref_resolver) :=
  ref_round (sample_resolver_env up) sample_env_loop paused (Ok sample_sources) (Err (ErrorString "no file")) (λ ls, ls)
    false st.1 st.2.

Lemma sample_round_eq up paused st :
  sample_ref_round up paused st =
  ref_round (sample_resolver_env up) sample_env_loop paused (Ok sample_sources) (Err (ErrorString "no file")) (λ ls, ls)
    false st.1 st.2.
Proof. reflexivity. Qed.

Definition sample_ref_after (up paused : bool) (st : reaper * ref_resolver) : reaper * ref_resolver :=
  match sample_ref_round up paused st with Returns st' => st' | _ => st end.

Definition sample_start : reaper * ref_resolver :=
  (Reaper ∅ 0 [] [] ∅ ∅ {| MetricDefs := ∅; PresetDefs := ∅ |} [] [], RefResolver ∅ ∅).

Definition sample_running := sample_ref_after true false sample_start.
Definition sample_paused := sample_ref_after true true sample_running.
Definition sample_outage := sample_ref_after false false sample_paused.
Definition sample_recovered := sample_ref_after true false sample_outage.
Definition sample_again := sample_ref_after false false sample_running.

Lemma sample_returns up paused st :
  match sample_ref_round up paused st with Returns _ => true | _ => false end = true →
  sample_ref_round up paused st = Returns (sample_ref_after up paused st).
Proof. unfold sample_ref_after. by destruct (sample_ref_round up paused st). Qed.

Lemma sample_rounds :
  sample_ref_round true false sample_start = Returns sample_running ∧
  sample_ref_round true true sample_running = Returns sample_paused ∧
  sample_ref_round false false sample_paused = Returns sample_outage ∧
  sample_ref_round true false sample_outage = Returns sample_recovered ∧
  sample_ref_round false false sample_running = Returns sample_again.
Proof.
  repeat apply conj; (etransitivity; [eapply sample_returns; vm_compute; reflexivity|]);
    unfold sample_again, sample_recovered, sample_outage, sample_paused, sample_running; reflexivity.
Qed.

Lemma sample_running_fresh : fresh_objs sample_running.1.
Proof.
  assert (map_Forall (λ l _, (l < next_obj sample_running.1)%nat) (objs sample_running.1)) as H.
  { apply (bool_decide_unpack _). vm_compute. exact I. }
  intros l [c Hc]. exact (H l c Hc).
Qed.

(** The database [a_postgres] of the discovery source, when it is monitored. *)
Definition sample_a : DbConn :=
  match objs sample_running.1 !! 0%nat with Some (ConnDb md) => md | _ => NewDbConn (sample_source "a") end.

Lemma sample_a_running :
  objs sample_running.1 !! 0%nat = Some (ConnDb sample_a) ∧ md_Conn sample_a = PoolOpen ∧ Name (md_Source sample_a) = "a_postgres".
Proof. vm_compute. by split_and!. Qed.

(** A check of [still_configured]. *)
Lemma still_configured_check E renv env srcs st l :
  (let '(r1, _, news, _, _) := ref_ResolveDatabases renv st.1 st.2 (filter (λ s, wanted_source env s = true) srcs) in
   bool_decide (Forall (λ x, is_Some (objs r1 !! x)) news) && bool_decide (NoDup (obj_name r1 <$> news)) &&
   bool_decide (l ∈ news) = true ∧ conn_effective <$> objs r1 !! l = Some E) → still_configured E renv env srcs st.
Proof.
  unfold still_configured. destruct (ref_ResolveDatabases _ _ _ _) as [[[[r1 v1] news] down] err].
  intros [Hb He]. apply andb_prop in Hb as [[H1%bool_decide_eq_true H2%bool_decide_eq_true]%andb_prop H3%bool_decide_eq_true].
  split_and!; [by apply Forall_forall|done|]. destruct (objs r1 !! l) as [c|] eqn:Ec; [|discriminate].
  exists l, c. injection He as He. done.
Qed.

Lemma sample_configured :
  still_configured (effective (md_Source sample_a)) (sample_resolver_env false) sample_env_loop sample_sources sample_paused ∧
  still_configured (effective (md_Source sample_a)) (sample_resolver_env true) sample_env_loop sample_sources sample_outage.
Proof.
  split; [apply (still_configured_check _ _ _ _ _ 0)|apply (still_configured_check _ _ _ _ _ 4)]; vm_compute; split; reflexivity.
Qed.

Lemma sample_recovers : unchanged_round (effective (md_Source sample_a)) sample_outage sample_recovered.
Proof.
  destruct sample_rounds as (_ & _ & _ & Hrec & _), sample_configured as [_ Hconf].
  exists sample_env_loop, (sample_resolver_env true), sample_sources, (Err (ErrorString "no file")), (λ ls, ls), false.
  split; [exact Hconf|]. split; [intros; reflexivity|]. rewrite sample_round_eq in Hrec. exact Hrec.
Qed.

Lemma revived_connection_stuck_witness :
  0%nat ∈ monitoredSources sample_recovered.1 ∧
  (∃ md', objs sample_recovered.1 !! 0%nat = Some (ConnDb md') ∧ md_Conn md' = PoolClosed) ∧
  cancelFuncs sample_recovered.1 !! Name (md_Source sample_a) = None ∧
  ∃ env' sfx, out sample_recovered.1 = out sample_outage.1 ++ sfx ∧ instance_down env' (Name (md_Source sample_a)) ∈ sfx.
Proof.
  pose proof sample_rounds as Hrounds. rewrite !sample_round_eq in Hrounds.
  destruct Hrounds as (_ & Hpause & Hout & _ & _), sample_a_running as (Ha & Hopen & _), sample_configured as [Hconf _].
  apply (revived_connection_stuck (sample_resolver_env true) sample_env_loop (Ok sample_sources) (Err (ErrorString "no file"))
    (λ ls, ls) false sample_running.1 sample_running.2 sample_paused.1 sample_paused.2
    (sample_resolver_env false) sample_env_loop sample_sources (sample_discovery "a") [0; 1]%nat 0 sample_a
    (Err (ErrorString "no file")) (λ ls, ls) false sample_outage.1 sample_outage.2 sample_outage sample_recovered).
  - exact sample_running_fresh.
  - apply (bool_decide_unpack _). vm_compute. exact I.
  - exact Ha.
  - exact Hopen.
  - vm_compute. reflexivity.
  - by left.
  - intros; reflexivity.
  - rewrite <-(surjective_pairing sample_paused). exact Hpause.
  - apply (bool_decide_unpack _). vm_compute. exact I.
  - apply (bool_decide_unpack _). vm_compute. exact I.
  - apply (bool_decide_unpack _). vm_compute. exact I.
  - reflexivity.
  - eexists. reflexivity.
  - rewrite <-(surjective_pairing sample_paused). exact Hconf.
  - intros; reflexivity.
  - rewrite <-(surjective_pairing sample_outage). exact Hout.
  - rewrite <-(surjective_pairing sample_outage). apply rtc_refl.
  - exact sample_recovers.
Defined.

Lemma sample_found :
  Forall (λ s, ∃ dbs, found (sample_resolver_env true) s = Ok dbs ∧ dbs ≠ [])
    (filter (λ s, wanted_source sample_env_loop s = true) sample_sources).
Proof.
  assert (filter (λ s, wanted_source sample_env_loop s = true) sample_sources = sample_sources) as -> by (vm_compute; reflexivity).
  apply Forall_cons. split; [|apply Forall_singleton].
  - eexists. split; [unfold found; rewrite bool_decide_true by done; reflexivity|discriminate].
  - eexists. split; [unfold found; rewrite bool_decide_false by done; reflexivity|discriminate].
Qed.

Lemma outage_keeps_workers_witness :
  sample_again.2 = sample_running.2 ∧ monitoredSources sample_again.1 = monitoredSources sample_running.1 ∧
  ∃ r3, ref_LoadSources (sample_resolver_env false) sample_env_loop false (Ok sample_sources) sample_again.1 sample_again.2 =
      (r3, sample_again.2, None) ∧
    monitoredSources r3 = monitoredSources sample_again.1 ∧ cancelFuncs r3 = cancelFuncs sample_again.1 ∧
    out r3 = out sample_again.1 ∧ ∀ l, l ∈ monitoredSources sample_again.1 → objs r3 !! l = objs sample_again.1 !! l.
Proof.
  pose proof sample_rounds as Hrounds. rewrite !sample_round_eq in Hrounds.
  destruct Hrounds as (Hrun & _ & _ & _ & Hagain).
  apply (outage_keeps_workers sample_env_loop (sample_resolver_env true) sample_sources sample_start.1 sample_start.2
    (Err (ErrorString "no file")) (λ ls, ls) false sample_running.1 sample_running.2 sample_again.1 sample_again.2).
  - apply (bool_decide_unpack _). vm_compute. exact I.
  - apply (bool_decide_unpack _). vm_compute. exact I.
  - exact sample_found.
  - apply (bool_decide_unpack _). vm_compute. exact I.
  - intros l [c Hc]. cbn in Hc. by rewrite lookup_empty in Hc.
  - rewrite <-(surjective_pairing sample_running). exact Hrun.
  - rewrite <-(surjective_pairing sample_running), <-(surjective_pairing sample_again). apply rtc_once.
    exists sample_env_loop, (sample_resolver_env false), (Err (ErrorString "no file")), (λ ls, ls), false.
    split; [reflexivity|]. split; [|exact Hagain]. intros s. eexists. reflexivity.
  - reflexivity.
  - intros s. eexists. reflexivity.
Defined.
