(* ===== verification/MainLoop.v ===== *)
(** * The main loop ([internal/reaper/reaper.go], [metric.go])

    [Reap] of the reaper: from the state that [newReaper] makes, round after round, with the resolver that
    caches what it found.  What varies from round to round (what the stores and the servers answer, the
    trigger file, the order in which the sources are processed, the end of the program) is a value of
    [loop_round], and a run is a list of them.

    The theorem is the invariant of the loop over all runs: one worker per monitored source at most, on the
    connection that is monitored, although cached connections come back. *)

From S2P Require Import Prelude GoStrings Metrics Sources Changes Conn PromConn Sinks InstanceCache Reaper Resolver Discovery.
From stdpp Require Import options.

Local Open Scope Z_scope.

(** ** The loop *)

(** The reaper with its resolver, its instance cache and the flag of the readiness check. *)
Record program := Program {
  p_reaper : reaper;
  p_resolver : ref_resolver;
  p_cache : InstanceMetricCache;
  p_ready : bool;
}.

Definition newReaper : program :=
  Program (Reaper ∅ 0 [] [] ∅ ∅ NewConcurrentMetricDefs [] []) (RefResolver ∅ ∅) NewInstanceMetricCache false.

Definition Ready (p : program) : bool := p_ready p.

Record loop_round := {
  lr_env : loop_env;
  lr_renv : resolver_env;
  lr_triggerfile : bool;
  lr_sources : result Sources;
  lr_metrics : result Metrics;
  lr_schedule : list nat → list nat;
  lr_done : bool;
}.

(** The rounds; the program ends after the round in which its context is done. *)
Fixpoint rounds (rs : list loop_round) (r : reaper) (v : ref_resolver) : outcome (reaper * ref_resolver) :=
  match rs with
  | [] => Returns (r, v)
  | lr :: rs' =>
      match ref_round (lr_renv lr) (lr_env lr) (lr_triggerfile lr) (lr_sources lr) (lr_metrics lr) (lr_schedule lr) (lr_done lr) r v with
      | Returns (r', v') => if lr_done lr then Returns (r', v') else rounds rs' r' v'
      | Panics => Panics
      | NoFuel => NoFuel
      end
  end.

Definition Reap (rs : list loop_round) (p : program) : outcome program :=
  match rounds rs (p_reaper p) (p_resolver p) with
  | Returns (r, v) => Returns (Program r v (p_cache p) true)
  | Panics => Panics
  | NoFuel => NoFuel
  end.

(** ** Reloading with cached references *)

(** The cached references exist. *)
Definition cache_exists (r : reaper) (v : ref_resolver) : Prop :=
  ∀ k ls x, ref_databases v !! k = Some ls → x ∈ ls → is_Some (objs r !! x).

Lemma cache_exists_names r r' v : same_names r r' → cache_exists r v → cache_exists r' v.
Proof. intros Hn H k ls x Hk Hx. apply (same_names_is_Some _ _ _ Hn). by eapply H. Qed.

Lemma cache_exists_framed r r' v : framed r r' → cache_exists r v → cache_exists r' v.
Proof. intros (Hs & _) H k ls x Hk Hx. destruct (H k ls x Hk Hx) as [c Hc]. exists c. by eapply lookup_weaken. Qed.

(** What a call of the resolver returns exists. *)
Definition served (r : reaper) (v : ref_resolver) (r' : reaper) (v' : ref_resolver) (ls : list nat) : Prop :=
  cache_exists r' v' ∧ framed r r' ∧ fresh_objs r' ∧ ∀ x, x ∈ ls → is_Some (objs r' !! x).

Lemma served_app r1 v1 r2 v2 r3 v3 ls1 ls2 :
  served r1 v1 r2 v2 ls1 → served r2 v2 r3 v3 ls2 → served r1 v1 r3 v3 (ls1 ++ ls2).
Proof.
  intros (_ & Hfr1 & _ & H1) (Hc & Hfr2 & Hf & H2). split_and!; [done|by etrans|done|].
  intros x [Hx|Hx]%elem_of_app; [|by apply H2]. destruct (H1 x Hx) as [c Hx1]. exists c.
  destruct Hfr2 as (Hs & _). by eapply lookup_weaken.
Qed.

Lemma served_nil r v v' : cache_exists r v' → fresh_objs r → served r v r v' [].
Proof. intros ??. split_and!; [done..|]. by intros x ?%elem_of_nil. Qed.

Lemma alloc_served r v cs r' ls : alloc r cs = (r', ls) → fresh_objs r → cache_exists r v → served r v r' v ls.
Proof.
  intros Ha Hf Hc. destruct (alloc_framed _ _ _ _ Ha Hf) as [Hfr Hls].
  split_and!; [by eapply cache_exists_framed|done|by apply Hfr|].
  intros x [i Hi]%list_elem_of_lookup. by destruct (Forall2_lookup_l _ _ _ _ _ Hls Hi) as (c & _ & ->).
Qed.

Lemma FromPostgres_served renv r v s :
  fresh_objs r → cache_exists r v →
  let '(r', v', res) := ref_FromPostgres renv r v s in served r v r' v' (match res with Ok ls => ls | Err _ => [] end).
Proof.
  intros Hf Hc. unfold ref_FromPostgres. destruct (resolveDatabasesFromPostgres renv s) as [dbs|e].
  - destruct (alloc r dbs) as [r1 ls] eqn:Ea. destruct (alloc_served _ v _ _ _ Ea Hf Hc) as (Hc1 & Hfr & Hf1 & Hls).
    split_and!; [|done..]. intros k ls' x Hk Hx. simpl in Hk.
    destruct (decide (k = postgresDiscoveryKeyOf s)) as [->|Hne].
    + rewrite lookup_insert_eq in Hk. injection Hk as <-. by apply Hls.
    + rewrite lookup_insert_ne in Hk by done. by eapply Hc1.
  - destruct (ref_databases v !! _) as [[|x ls]|] eqn:El; [by apply served_nil| |by apply served_nil].
    split_and!; [done..|]. intros y Hy. by eapply Hc.
Qed.

Lemma member_served renv r v s hc ms :
  fresh_objs r → cache_exists r v → let '(r', v', ls) := ref_member_dbs renv r v s hc ms in served r v r' v' ls.
Proof.
  revert r v. induction ms as [|m ms IH]; intros r v Hf Hc; cbn [ref_member_dbs]; [by apply served_nil|].
  destruct (_ && _); [by apply IH|]. pose proof (FromPostgres_served renv r v (member_source s hc m) Hf Hc) as H1.
  destruct (ref_FromPostgres _ _ _ _) as [[r1 v1] res]. pose proof H1 as (Hc1 & _ & Hf1 & _). specialize (IH r1 v1 Hf1 Hc1).
  destruct (ref_member_dbs _ _ _ _ _ _) as [[r2 v2] rest]. destruct res; by apply (served_app _ _ _ _ _ _ _ _ H1) in IH.
Qed.

Lemma ResolveDatabase_served renv r v s :
  fresh_objs r → cache_exists r v → let '(r', v', (ls, _)) := ref_ResolveDatabase renv r v s in served r v r' v' ls.
Proof.
  intros Hf Hc. unfold ref_ResolveDatabase. case_bool_decide; [|case_bool_decide].
  - unfold ref_FromPatroni. destruct (NewHostConfig _ _) as [hc|]; [|by apply served_nil].
    destruct (get_members _ _ _ _) as [[rv res]|]; [|by apply served_nil].
    destruct (known_members rv s res) as [[rv1 members] err].
    pose proof (member_served renv r (RefResolver (lastFoundClusterMembers rv1) (ref_databases v)) s hc members Hf Hc) as H1.
    by destruct (ref_member_dbs _ _ _ _ _ _) as [[r2 v2] rest].
  - pose proof (FromPostgres_served renv r v s Hf Hc) as H1. by destruct (ref_FromPostgres _ _ _ _) as [[r1 v1] []].
  - destruct (alloc r _) as [r1 ls] eqn:Ea. by eapply alloc_served.
Qed.

Lemma ResolveDatabases_served renv srcs r0 v0 r v conns down err :
  served r0 v0 r v conns → let '(r', v', news, _, _) := foldl (ref_resolve_one renv) (r, v, conns, down, err) srcs in served r0 v0 r' v' news.
Proof.
  revert r v conns down err. induction srcs as [|s srcs IH]; intros r v conns down err Hs; cbn [foldl]; [done|].
  unfold ref_resolve_one at 2. pose proof Hs as (Hc & _ & Hf & _). pose proof (ResolveDatabase_served renv r v s Hf Hc) as H1.
  destruct (ref_ResolveDatabase renv r v s) as [[r1 v1] [ls [e|]]]; apply IH; by eapply served_app.
Qed.

(** A worker that survives the merge reads a connection of the merged list, if its name is in the list. *)
Lemma merge_workers r news r' ls name l :
  merge_sources r news = (r', ls) → (∀ x, x ∈ news → is_Some (objs r !! x)) →
  NoDup (obj_name r <$> monitoredSources r) → l ∈ monitoredSources r → obj_name r l = Some name →
  Some name ∈ obj_name r <$> news → cancelFuncs r' !! name = Some l → l ∈ ls.
Proof.
  revert r ls. induction news as [|x news IH]; intros r ls Hm Hex Hnd Hl Hname Hin Hw; [by apply elem_of_nil in Hin|].
  cbn [merge_sources] in Hm. destruct (Hex x) as [cx Hcx]; [by left|]. rewrite Hcx in Hm. pose proof (obj_name_of _ _ _ Hcx) as Hx.
  destruct (merge_one_spec r x cx _ Hcx Hx) as ((Hn & Hnext & Hmon & Hprev) & _).
  destruct (merge_one r x cx) as [r1 l1] eqn:E1. cbn [fst snd] in *.
  destruct (merge_sources r1 news) as [r2 ls2] eqn:E2. injection Hm as -> <-.
  assert (∀ y, y ∈ news → is_Some (objs r1 !! y)) as Hex1.
  { intros y Hy. apply (same_names_is_Some _ _ _ Hn), Hex. by right. }
  destruct (decide (Name (GetSource cx) = name)) as [Heq|Hne].
  - revert E1. unfold merge_one. rewrite Heq, (GetMonitoredDatabase_unique r name l) by done.
    unfold obj_name in Hname. destruct (objs r !! l) as [oc|] eqn:Eo; [|discriminate]. injection Hname as Hname.
    destruct (Source_Equal _ _); intros [= <- <-]; [by left|]. exfalso.
    destruct (merge_sources_spec _ _ _ _ E2 Hex1) as (_ & Hsub & _).
    destruct (ShutdownWorker_lists r (Name (GetSource oc))) as [_ Hc]. cbn in Hname. rewrite Hc, Hname in Hsub.
    pose proof (lookup_weaken _ _ _ _ Hw Hsub) as Hbad. by rewrite lookup_delete_eq in Hbad.
  - right. eapply IH; [exact E2|done|by rewrite Hmon, (same_names_fmap r r1)|by rewrite Hmon|by rewrite Hn| |done].
    rewrite (same_names_fmap r r1) by done. csimpl in Hin. apply elem_of_cons in Hin as [Hin|Hin]; [|done].
    rewrite Hx in Hin. injection Hin as Hin. congruence.
Qed.

(** The round resolves to connections of distinct names. *)
Definition distinct_names (lr : loop_round) (r : reaper) (v : ref_resolver) : Prop :=
  ∀ srcs, lr_sources lr = Ok srcs → lr_triggerfile lr = false →
    let '(r1, _, news, _, _) :=
      ref_ResolveDatabases (lr_renv lr) r v (filter (λ s, wanted_source (lr_env lr) s = true) srcs) in
    NoDup (obj_name r1 <$> news).

(** The invariant of the program between two rounds. *)
Definition loop_inv (r : reaper) (v : ref_resolver) : Prop :=
  head_inv r ∧ cache_exists r v ∧ prevLoopMonitoredDBs r = monitoredSources r.

(** A reload by the resolver with its caches. *)
Lemma merge_inv r r1 news r2 ls :
  head_inv r → objs r ⊆ objs r1 → monitoredSources r1 = monitoredSources r → cancelFuncs r1 = cancelFuncs r → fresh_objs r1 →
  (∀ x, x ∈ news → is_Some (objs r1 !! x)) → NoDup (obj_name r1 <$> news) →
  merge_sources r1 news = (r2, ls) → round_inv (set_monitored r2 ls) ∧ same_names r1 r2.
Proof.
  intros [[H1 H2 H3 H4] H5] Hsub Hm Hc Hf Hex Hnd Hmerge.
  pose proof (merge_sources_spec _ _ _ _ Hmerge Hex) as ((Hn & Hnext & _) & Hcsub & Hnames & _). split; [|done].
  assert (∀ l, l ∈ monitoredSources r → obj_name r1 l = obj_name r l) as Hkeep.
  { intros l Hl. apply obj_name_sub; [done|]. specialize (H2 l Hl). unfold obj_name in H2. by rewrite fmap_is_Some in H2. }
  assert (obj_name r2 <$> ls = obj_name r1 <$> news) as Hall by (by rewrite (same_names_fmap r1 r2)).
  split; cbn [set_monitored monitoredSources next_obj cancelFuncs].
  - intros l. change (obj_name (set_monitored r2 ls) l) with (obj_name r2 l). rewrite Hn, Hnext.
    unfold obj_name. rewrite fmap_is_Some. apply Hf.
  - intros l Hl. change (is_Some (obj_name r2 l)). unfold obj_name. rewrite fmap_is_Some. by eapply merge_exist.
  - change (NoDup (obj_name r2 <$> ls)). by rewrite Hall.
  - intros name l Hl. change (obj_name r2 l = Some name ∧ (l ∈ ls ∨ Some name ∉ obj_name r2 <$> ls)). rewrite Hall, Hn.
    assert (cancelFuncs r !! name = Some l) as Hw by (rewrite <-Hc; by eapply lookup_weaken).
    destruct (H4 name l Hw) as [Hname _]. pose proof (H5 name l Hw) as Hmon. rewrite (Hkeep l Hmon). split; [done|].
    destruct (decide (Some name ∈ obj_name r1 <$> news)) as [Hin|]; [left|by right].
    eapply (merge_workers r1 news r2 ls name l); [done|done| |by rewrite Hm|by rewrite Hkeep|done|done].
    rewrite Hm. rewrite (list_fmap_ext (obj_name r1) (obj_name r)); [done|]. intros i x Hi.
    apply Hkeep. by eapply list_elem_of_lookup_2.
Qed.

Lemma LoadSources_loop_inv lr r v :
  loop_inv r v → distinct_names lr r v →
  let '(r', v', _) := ref_LoadSources (lr_renv lr) (lr_env lr) (lr_triggerfile lr) (lr_sources lr) r v in
  round_inv r' ∧ cache_exists r' v'.
Proof.
  intros (Hinv & Hc & _) Hnd. unfold ref_LoadSources, distinct_names in *. destruct (lr_triggerfile lr).
  - split; [|done]. destruct Hinv as [[H1 H2 H3 H4] H5]. split; cbn.
    + exact H1.
    + intros l Hl. by apply elem_of_nil in Hl.
    + constructor.
    + intros name l Hl. destruct (H4 name l Hl). split; [done|]. right. apply not_elem_of_nil.
  - destruct (lr_sources lr) as [srcs|e]; [|by destruct Hinv]. specialize (Hnd srcs eq_refl eq_refl).
    pose proof (ResolveDatabases_served (lr_renv lr) (filter (λ s, wanted_source (lr_env lr) s = true) srcs) r v r v [] [] None) as Hs.
    unfold ref_ResolveDatabases in *. destruct (foldl _ _ _) as [[[[r1 v1] news] down] err1].
    destruct Hs as (Hc1 & Hfr & Hf1 & Hex). { apply served_nil; [done|]. eapply inv_fresh_objs, Hinv. }
    rewrite writes_down. set (r1' := add_out r1 _). destruct (merge_sources r1' news) as [r2 ls] eqn:Em.
    destruct Hfr as (Hsub & Hm & _ & Hcf & _). destruct (merge_inv r r1' news r2 ls) as [Hri Hn]; [done..|].
    split; [done|]. apply (cache_exists_names r1'); [exact Hn|exact Hc1].
Qed.

(** ** One round *)

Lemma ref_round_inv lr r v :
  loop_inv r v → distinct_names lr r v → (∀ ls, lr_schedule lr ls ≡ₚ ls) →
  let round := ref_round (lr_renv lr) (lr_env lr) (lr_triggerfile lr) (lr_sources lr) (lr_metrics lr) (lr_schedule lr) (lr_done lr) r v in
  (CreateHelpers (lr_env lr) = false → ∃ r' v', round = Returns (r', v')) ∧
  ∀ r' v', round = Returns (r', v') → loop_inv r' v' ∧ (lr_done lr = true → cancelFuncs r' = ∅).
Proof.
  intros Hinv Hnd Hsched. cbn zeta. unfold ref_round. pose proof (LoadSources_loop_inv lr r v Hinv Hnd) as Hload.
  destruct (ref_LoadSources _ _ _ _ r v) as [[r1 v1] err]. destruct Hload as [Hr1 Hc1].
  destruct (LoadMetrics_lists (lr_metrics lr) r1) as [Hs Hcf]. set (r2 := (LoadMetrics (lr_metrics lr) r1).1) in *.
  assert (round_inv r2) as Hr2 by (eapply round_inv_weaken; [done..|by rewrite Hcf]).
  assert (∀ l, l ∈ lr_schedule lr (monitoredSources r2) → l ∈ monitoredSources r2) as Hin by (intros l; by rewrite Hsched).
  split.
  - intros Hh. destruct (sweep_returns (lr_env lr) r2 _ Hr2 Hh Hin) as [r3 ->]. eauto.
  - intros r' v'. destruct (sweep (lr_env lr) r2 _) as [r3| |] eqn:E; [|done..]. intros [= <- <-].
    destruct (sweep_inv (lr_env lr) _ _ _ E Hr2 Hin) as [Hr3 (Hn3 & _)].
    destruct (CleanupRemovedWorkers_spec (lr_env lr) (lr_done lr) r3) as (Hn & _ & Hm & Hp & Hc). split_and!.
    + split_and!; [by apply round_head_inv| |congruence]. eapply cache_exists_names; [|exact Hc1].
      intros x. destruct Hs as (Hn2 & _). by rewrite Hn, Hn3, Hn2.
    + intros Hdone. apply map_eq. intros name. rewrite Hc, lookup_empty. unfold removed. by rewrite Hdone.
Qed.

(** Every round of a run resolves to distinct names; the conditions on the rounds, along the run. *)
Fixpoint along (P : loop_round → reaper → ref_resolver → Prop) (rs : list loop_round) (r : reaper) (v : ref_resolver) : Prop :=
  match rs with
  | [] => True
  | lr :: rs' =>
      P lr r v ∧
      match ref_round (lr_renv lr) (lr_env lr) (lr_triggerfile lr) (lr_sources lr) (lr_metrics lr) (lr_schedule lr) (lr_done lr) r v with
      | Returns (r', v') => if lr_done lr then True else along P rs' r' v'
      | _ => True
      end
  end.

Lemma newReaper_inv : loop_inv (p_reaper newReaper) (p_resolver newReaper).
Proof.
  split_and!; [|by intros k ls x Hk|done]. split; [split|]; simpl.
  - intros l. unfold obj_name. simpl. rewrite lookup_empty. by intros [? ?].
  - intros l Hl. by apply elem_of_nil in Hl.
  - constructor.
  - intros name l Hl. by rewrite lookup_empty in Hl.
  - intros name l Hl. by rewrite lookup_empty in Hl.
Qed.

(** The invariant of the main loop, over all runs.  From the start of the program, through any number
    of rounds with any answers of the stores, the servers and the discovery, with or without the trigger
    file, in any order of processing and with connections that come back from the caches of the resolver:
    the run does not get stuck (unless it creates helpers, which can panic), and between the rounds every
    worker reads the connection that is monitored under its name, so that there is at most one worker per
    source and none for a source that is gone; the monitored names are distinct, and the program counts as
    ready.  When it is asked to stop, no worker is left.  The condition is that each
    resolution returns distinct names. *)
Theorem main_loop_inv rs :
  along (λ lr r v, distinct_names lr r v ∧ ∀ ls, lr_schedule lr ls ≡ₚ ls) rs (p_reaper newReaper) (p_resolver newReaper) →
  (Forall (λ lr, CreateHelpers (lr_env lr) = false) rs → ∃ p, Reap rs newReaper = Returns p) ∧
  ∀ p, Reap rs newReaper = Returns p →
    Ready p = true ∧ prevLoopMonitoredDBs (p_reaper p) = monitoredSources (p_reaper p) ∧
    NoDup (obj_name (p_reaper p) <$> monitoredSources (p_reaper p)) ∧
    (∀ name l, cancelFuncs (p_reaper p) !! name = Some l →
       l ∈ monitoredSources (p_reaper p) ∧ obj_name (p_reaper p) l = Some name) ∧
    (Exists (λ lr, lr_done lr = true) rs → cancelFuncs (p_reaper p) = ∅).
Proof.
  unfold Reap. generalize newReaper_inv. generalize (p_reaper newReaper), (p_resolver newReaper).
  enough (∀ r v, loop_inv r v →
    along (λ lr r v, distinct_names lr r v ∧ ∀ ls, lr_schedule lr ls ≡ₚ ls) rs r v →
    (Forall (λ lr, CreateHelpers (lr_env lr) = false) rs → ∃ r' v', rounds rs r v = Returns (r', v')) ∧
    ∀ r' v', rounds rs r v = Returns (r', v') → loop_inv r' v' ∧ (Exists (λ lr, lr_done lr = true) rs → cancelFuncs r' = ∅)) as H.
  { intros r v Hinv Hal. destruct (H r v Hinv Hal) as [Hret Hres]. split.
    - intros Hh. destruct (Hret Hh) as (r' & v' & ->). eauto.
    - intros p. destruct (rounds rs r v) as [[r' v']| |]; [|done..]. intros [= <-]. simpl.
      destruct (Hres r' v' eq_refl) as [(([H1 H2 H3 H4] & H5) & _ & Hp) Hdone]. split_and!; try done.
      intros name l Hl. split; [by eapply H5|]. by eapply H4. }
  induction rs as [|lr rs IH]; intros r v Hinv Hal; cbn [rounds along] in *.
  { split; [eauto|]. intros r' v' [= <- <-]. split; [done|]. by intros ?%Exists_nil. }
  destruct Hal as [[Hd Hsched] Hal]. destruct (ref_round_inv lr r v Hinv Hd Hsched) as [Hret Hres]. cbn zeta in *. split.
  - intros [Hh Hhs]%Forall_cons. destruct (Hret Hh) as (r' & v' & Hr). rewrite Hr in Hal |- *.
    destruct (lr_done lr); [eauto|]. by apply IH; [apply Hres|..].
  - intros r' v'. destruct (ref_round _ _ _ _ _ _ _ r v) as [[r1 v1]| |]; [|done..].
    destruct (Hres r1 v1 eq_refl) as [Hinv1 Hdone1]. destruct (lr_done lr) eqn:Ed.
    + intros [= <- <-]. split; [done|]. intros _. by apply Hdone1.
    + intros Hr. destruct (IH r1 v1 Hinv1 Hal) as [_ H]. destruct (H r' v' Hr) as [? He]. split; [done|].
      intros Hx. apply He. apply Exists_cons in Hx as [?|?]; [congruence|done].
Qed.

(** ** Example *)

(** A check of the conditions of a run. *)
Definition distinct_names_b (lr : loop_round) (r : reaper) (v : ref_resolver) : bool :=
  match lr_sources lr with
  | Ok srcs =>
      let '(r1, _, news, _, _) :=
        ref_ResolveDatabases (lr_renv lr) r v (filter (λ s, wanted_source (lr_env lr) s = true) srcs) in
      lr_triggerfile lr || bool_decide (NoDup (obj_name r1 <$> news))
  | Err _ => true
  end.

Fixpoint along_b (rs : list loop_round) (r : reaper) (v : ref_resolver) : bool :=
  match rs with
  | [] => true
  | lr :: rs' =>
      distinct_names_b lr r v &&
      match ref_round (lr_renv lr) (lr_env lr) (lr_triggerfile lr) (lr_sources lr) (lr_metrics lr) (lr_schedule lr) (lr_done lr) r v with
      | Returns (r', v') => lr_done lr || along_b rs' r' v'
      | _ => true
      end
  end.

Lemma along_b_sound rs r v :
  along_b rs r v = true → Forall (λ lr, ∀ ls, lr_schedule lr ls ≡ₚ ls) rs →
  along (λ lr r v, distinct_names lr r v ∧ ∀ ls, lr_schedule lr ls ≡ₚ ls) rs r v.
Proof.
  revert r v. induction rs as [|lr rs IH]; intros r v Hb Hs; cbn [along along_b] in *; [done|].
  apply Forall_cons in Hs as [Hs Hss]. apply andb_prop in Hb as [Hd Hb]. split; [split; [|done]|].
  - intros srcs Hsrc Ht. unfold distinct_names_b in Hd. rewrite Hsrc, Ht in Hd.
    destruct (ref_ResolveDatabases _ _ _ _) as [[[[r1 v1] news] down] err]. by apply bool_decide_eq_true in Hd.
  - destruct (ref_round _ _ _ _ _ _ _ r v) as [[r1 v1]| |]; [|done..]. destruct (lr_done lr); [done|]. by apply IH.
Qed.

Definition sample_loop_round (up paused done : bool) : loop_round := {|
  lr_env := sample_env_loop; lr_renv := sample_resolver_env up; lr_triggerfile := paused; lr_sources := Ok sample_sources;
  lr_metrics := Err (ErrorString "no file"); lr_schedule := λ ls, ls; lr_done := done |}.

(** A start, a pause, an outage of the discovery, a recovery, and the end. *)
Definition sample_run : list loop_round :=
  [sample_loop_round true false false; sample_loop_round true true false; sample_loop_round false false false;
   sample_loop_round true false true].

Lemma sample_run_along :
  along (λ lr r v, distinct_names lr r v ∧ ∀ ls, lr_schedule lr ls ≡ₚ ls) sample_run (p_reaper newReaper) (p_resolver newReaper).
Proof. apply along_b_sound; [vm_compute; reflexivity|]. by repeat constructor. Qed.

Lemma main_loop_inv_witness :
  ∃ p, Reap sample_run newReaper = Returns p ∧ Ready p = true ∧ cancelFuncs (p_reaper p) = ∅.
Proof.
  destruct (main_loop_inv sample_run sample_run_along) as [Hret Hres].
  destruct Hret as [p Hp]; [by repeat constructor|]. destruct (Hres p Hp) as (Hready & _ & _ & _ & Hdone).
  exists p. split; [exact Hp|]. split; [exact Hready|]. apply Hdone. do 3 right. by left.
Defined.
