(* ===== verification/CmdOpts.v ===== *)
(** * Options and sub-commands ([internal/cmdopts])

    The validation of the options, the choice of the stores, and the sub-commands, as functions on
    the options and on what the stores and databases answer.  Whether a string is a connection
    string is decided by the driver and is a parameter.

    The theorem says when an upgrade is reported as successful, and that a failed upgrade of the
    metric definitions is hidden when the sources are in a file and a sink is configured. *)

From S2P Require Import Prelude GoStrings Metrics Sources Sinks.
From stdpp Require Import options.

Local Open Scope Z_scope.

Definition ExitCodeOK : Z := 0.
Definition ExitCodeConfigError : Z := 1.
Definition ExitCodeCmdError : Z := 2.

Inductive config_kind := ConfigPgURL | ConfigFile | ConfigFolder | ConfigError.

Record Options := {
  opt_Sources : string;
  opt_Metrics : string;
  opt_Sinks : list string;
  Refresh : Z;
  MaxParallelConnectionsPerDb : Z;
  BatchingDelay : Z;
  ExitCode : Z;
  CommandCompleted : bool;
}.

Definition with_config_db (c : Options) (srcs metrics : string) : Options := {|
  opt_Sources := srcs; opt_Metrics := metrics; opt_Sinks := opt_Sinks c; Refresh := Refresh c;
  MaxParallelConnectionsPerDb := MaxParallelConnectionsPerDb c; BatchingDelay := BatchingDelay c;
  ExitCode := ExitCode c; CommandCompleted := CommandCompleted c |}.

Definition CompleteCommand (c : Options) (code : Z) : Options := {|
  opt_Sources := opt_Sources c; opt_Metrics := opt_Metrics c; opt_Sinks := opt_Sinks c;
  Refresh := Refresh c; MaxParallelConnectionsPerDb := MaxParallelConnectionsPerDb c;
  BatchingDelay := BatchingDelay c; ExitCode := code; CommandCompleted := true |}.

Section options.
Context (IsPgConnStr : string → bool).
Implicit Types (c : Options).

(** [os.Stat]: a directory, another file, or an error. *)
Definition GetConfigKind (stat : string → result bool) (arg : string) : config_kind * option error :=
  if bool_decide (arg = "") then (ConfigError, Some (ErrorString "no configuration provided"))
  else if IsPgConnStr arg then (ConfigPgURL, None)
  else
    match stat arg with
    | Ok true => (ConfigFolder, None)
    | Ok false => (ConfigFile, None)
    | Err e => (ConfigError, Some e)
    end.

(** Use a configuration database for both if only one is given. *)
Definition share_config_db c : Options :=
  if bool_decide (opt_Sources c = "") && IsPgConnStr (opt_Metrics c)
  then with_config_db c (opt_Metrics c) (opt_Metrics c)
  else if bool_decide (opt_Metrics c = "") && IsPgConnStr (opt_Sources c)
  then with_config_db c (opt_Sources c) (opt_Sources c)
  else c.

Definition ValidateConfig c : Options * option error :=
  if bool_decide (opt_Sources c = "" ∧ opt_Metrics c = "")
  then (c, Some (ErrorString "both --sources and --metrics are empty"))
  else
    let c := share_config_db c in
    if IsPgConnStr (opt_Sources c) && IsPgConnStr (opt_Metrics c) && bool_decide (opt_Sources c ≠ opt_Metrics c)
    then (c, Some (ErrorString "--sources and --metrics must use the same configuration database"))
    else if Refresh c <=? 1 then (c, Some (ErrorString "--refresh must be greater than 1"))
    else if MaxParallelConnectionsPerDb c <? 1
    then (c, Some (ErrorString "--max-parallel-connections-per-db must be >= 1"))
    else if (BatchingDelay c <=? 0) || (time_Hour <? BatchingDelay c)
    then (c, Some (ErrorString "--batching-delay must be between 0 and 1h"))
    else (c, None).

(** ** Initialising the configuration *)

(** The outcomes of opening and filling the stores, and of opening the sinks. *)
Record init_env := {
  open_source_db : option error;
  write_source_file : option error;
  open_metric_store : option error;
  write_metric_file : option error;
  open_sinks : option error;
}.

Definition InitSources (env : init_env) c : option error :=
  if IsPgConnStr (opt_Sources c) then open_source_db env else write_source_file env.

Definition InitMetrics (env : init_env) c : option error :=
  match open_metric_store env with
  | Some e => Some e
  | None => if IsPgConnStr (opt_Metrics c) then None else write_metric_file env
  end.

Definition InitSinks (env : init_env) : option error := open_sinks env.

Definition ConfigInit_Execute (env : init_env) c : Options * option error :=
  match ValidateConfig c with
  | (c, Some e) => (c, Some e)
  | (c, None) =>
      let err := if bool_decide (opt_Metrics c ≠ "") then InitMetrics env c else None in
      let err := if bool_decide (opt_Sources c ≠ "") && bool_decide (opt_Metrics c ≠ opt_Sources c)
                 then errors_Join [err; InitSources env c] else err in
      let err := if bool_decide (opt_Sinks c ≠ []) then errors_Join [err; InitSinks env] else err in
      (CompleteCommand c (match err with None => ExitCodeOK | Some _ => ExitCodeConfigError end), err)
  end.

(** ** Upgrading the schemas *)

(** Open a storage and migrate it, by connection string. *)
Record upgrade_env := {
  upgrade_sources : string → option error;
  upgrade_metrics : string → option error;
  upgrade_sink : string → option error;
}.

Definition upgrade_one (uri : string) (migrate : string → option error) : option error :=
  if bool_decide (uri = "") then None
  else if negb (IsPgConnStr uri) then Some (WrapError ("cannot upgrade storage " +:+ uri) (Sentinel ErrUnsupported))
  else migrate uri.

(** All errors of the upgrade, joined in the order of the source. *)
Definition upgrade_errors (env : upgrade_env) c : option error :=
  let err := upgrade_one (opt_Sources c) (upgrade_sources env) in
  let err := errors_Join [err; upgrade_one (opt_Metrics c) (upgrade_metrics env)] in
  foldl (λ err uri, errors_Join [err; upgrade_one uri (upgrade_sink env)]) err (opt_Sinks c).

(** The result also lists the errors that are printed. *)
Definition ConfigUpgrade_Execute (env : upgrade_env) c : outcome (Options * option error * list error) :=
  if bool_decide (opt_Sources c = "" ∧ opt_Metrics c = "" ∧ opt_Sinks c = []) then
    Returns (CompleteCommand c ExitCodeConfigError,
             Some (ErrorString "at least one of --sources, --metrics, or --sink must be specified"), [])
  else
    let c := share_config_db c in
    match upgrade_errors env c with
    | None => Returns (CompleteCommand c ExitCodeOK, None, [])
    | Some err =>
        match unwrap_list err with
        | None => Panics
        | Some errs =>
            let unsupported e := errors_Is e ErrUnsupported in
            if forallb unsupported errs then Returns (CompleteCommand c ExitCodeOK, None, errs)
            else Returns (CompleteCommand c ExitCodeConfigError, Some err, [])
        end
    end.

(** ** Metric commands *)

(** [metric print-sql]: version 0 stands for the newest. *)
Definition MetricPrintSQL (ro : range_order) (version : Z) (d : Metrics) (args : list string) :
    result (list (string * string)) :=
  match FilterByNames d ro args with
  | Err e => Err e
  | Ok ms =>
      let version := if version =? 0 then 2147483647 else version in
      Ok (omap (λ name, m ← MetricDefs ms !! name;
            let v := GetSQL ro m version in if bool_decide (v = "") then None else Some (name, v)) args)
  end.

Definition MetricPrintInit (ro : range_order) (d : Metrics) (args : list string) : result (list (string * string)) :=
  match FilterByNames d ro args with
  | Err e => Err e
  | Ok ms => Ok (filter (λ p, p.2 ≠ "") ((λ p, (p.1, InitSQL p.2)) <$> range ro (MetricDefs ms)))
  end.

(** The sources named by the arguments of [source ping] and [source resolve]. *)
Definition found_sources (srcs : Sources) (args : list string) : Sources :=
  if bool_decide (args = []) then srcs
  else args ≫= λ name, filter (λ s, Name s = name) srcs.
End options.

(** ** Theorems *)

Lemma errors_Join_unwrap es err : errors_Join es = Some err → unwrap_list err = Some (omap id es).
Proof. unfold errors_Join. by destruct (omap id es); intros [= <-]. Qed.

(** The errors are joined at least once, so unwrapping them never panics. *)
Lemma upgrade_errors_joined IsPg env c err :
  upgrade_errors IsPg env c = Some err → ∃ es, unwrap_list err = Some es.
Proof.
  unfold upgrade_errors. set (err0 := errors_Join _). revert err.
  destruct (opt_Sinks c) as [|uri sinks _] using rev_ind; intros err.
  - cbn [foldl]. intros H%errors_Join_unwrap. eauto.
  - rewrite foldl_app. cbn [foldl]. intros H%errors_Join_unwrap. eauto.
Qed.

(** Sinks that upgrade only wrap the error once more. *)
Lemma sinks_ok_wrap IsPg env sinks err :
  Forall (λ uri, upgrade_one IsPg uri (upgrade_sink env) = None) sinks → errors_Is err ErrUnsupported = true →
  ∃ err', foldl (λ e uri, errors_Join [e; upgrade_one IsPg uri (upgrade_sink env)]) (Some err) sinks = Some err' ∧
    errors_Is err' ErrUnsupported = true.
Proof.
  intros Hs. revert err. induction Hs as [|uri sinks Hu _ IH]; intros err He; cbn [foldl]; [eauto|].
  rewrite Hu. apply IH. simpl. by rewrite He.
Qed.

Lemma share_config_db_id IsPg c : opt_Sources c ≠ "" → opt_Metrics c ≠ "" → share_config_db IsPg c = c.
Proof. intros H1 H2. unfold share_config_db. by rewrite !bool_decide_false. Qed.

(** The upgrade command never panics.  Without sinks it reports success exactly when every
    storage was upgraded or is a file, which cannot be.  With sinks it does not: when the sources are
    in a file, the upgrade of the metric definitions failed for whatever reason, and all sinks were
    upgraded, the command still completes with the exit code for success and without an error, since
    the joined error is tested as a whole. *)
Theorem upgrade_outcome IsPg env c :
  (∃ c' err out, ConfigUpgrade_Execute IsPg env c = Returns (c', err, out)) ∧
  (opt_Sinks c = [] → opt_Sources c ≠ "" → opt_Metrics c ≠ "" →
   let harmless e := match e with None => true | Some e => errors_Is e ErrUnsupported end in
   ∃ c' err out, ConfigUpgrade_Execute IsPg env c = Returns (c', err, out) ∧
     ExitCode c' = (if harmless (upgrade_one IsPg (opt_Sources c) (upgrade_sources env)) &&
                       harmless (upgrade_one IsPg (opt_Metrics c) (upgrade_metrics env))
                    then ExitCodeOK else ExitCodeConfigError) ∧
     (err = None ↔ ExitCode c' = ExitCodeOK)) ∧
  (∀ failure, opt_Sources c ≠ "" → IsPg (opt_Sources c) = false →
   opt_Metrics c ≠ "" → IsPg (opt_Metrics c) = true → upgrade_metrics env (opt_Metrics c) = Some failure →
   opt_Sinks c ≠ [] → Forall (λ uri, upgrade_one IsPg uri (upgrade_sink env) = None) (opt_Sinks c) →
   ∃ c' out, ConfigUpgrade_Execute IsPg env c = Returns (c', None, out) ∧ ExitCode c' = ExitCodeOK).
Proof.
  split_and!.
  - unfold ConfigUpgrade_Execute. case_bool_decide; [eauto|].
    destruct (upgrade_errors IsPg env _) as [err|] eqn:E; [|eauto].
    apply upgrade_errors_joined in E as [es ->]. destruct (forallb _ es); eauto.
  - intros Hs Hsrc Hmet harmless. unfold ConfigUpgrade_Execute.
    rewrite bool_decide_false by naive_solver. rewrite share_config_db_id by done.
    unfold upgrade_errors. rewrite Hs. cbn [foldl].
    destruct (upgrade_one IsPg (opt_Sources c) _) as [e1|], (upgrade_one IsPg (opt_Metrics c) _) as [e2|]; simpl;
      rewrite ?andb_true_r; repeat (destruct (errors_Is _ _)); simpl;
      eexists _, _, _; (split; [reflexivity|]; split; [reflexivity|]; split; (done || discriminate)).
  - intros failure Hsrc Hf Hmet Hp Hfail Hne Hs. unfold ConfigUpgrade_Execute.
    rewrite bool_decide_false by naive_solver. rewrite share_config_db_id by done. unfold upgrade_errors.
    assert (upgrade_one IsPg (opt_Sources c) (upgrade_sources env) =
      Some (WrapError ("cannot upgrade storage " +:+ opt_Sources c) (Sentinel ErrUnsupported))) as ->.
    { unfold upgrade_one. by rewrite bool_decide_false, Hf. }
    assert (upgrade_one IsPg (opt_Metrics c) (upgrade_metrics env) = Some failure) as ->.
    { unfold upgrade_one. by rewrite bool_decide_false, Hp. }
    destruct (opt_Sinks c) as [|uri sinks _] using rev_ind; [done|]. apply Forall_app in Hs as [Hs Hu].
    rewrite Forall_singleton in Hu. rewrite foldl_app. cbn [foldl]. rewrite Hu.
    destruct (sinks_ok_wrap IsPg env sinks
      (JoinError [WrapError ("cannot upgrade storage " +:+ opt_Sources c) (Sentinel ErrUnsupported); failure]) Hs)
      as (err' & He & His); [done|].
    cbn [errors_Join omap list_omap id option_bind]. cbn in He |- *. rewrite He. cbn. rewrite His. eauto.
Qed.

(** ** Examples *)

Definition sample_pg (s : string) : bool := has_prefix "postgres://" s.
Definition sample_options : Options := {|
  opt_Sources := "sources.yaml"; opt_Metrics := "postgres://config"; opt_Sinks := ["postgres://sink"];
  Refresh := 120; MaxParallelConnectionsPerDb := 4; BatchingDelay := 250000000; ExitCode := 0;
  CommandCompleted := false |}.

(** The configuration database cannot be reached, and the command reports success. *)
Example sample_upgrade :
  let env := {| upgrade_sources := λ _, None; upgrade_metrics := λ _, Some (ErrorString "connection refused");
                upgrade_sink := λ _, None |} in
  match ConfigUpgrade_Execute sample_pg env sample_options with
  | Returns (c, err, _) => (ExitCode c, err)
  | _ => (ExitCodeCmdError, None)
  end = (ExitCodeOK, None).
Proof. vm_compute. reflexivity. Qed.

Lemma upgrade_outcome_witness :
  let env := {| upgrade_sources := λ _, None; upgrade_metrics := λ _, Some (ErrorString "connection refused");
                upgrade_sink := λ _, None |} in
  ∃ c' out, ConfigUpgrade_Execute sample_pg env sample_options = Returns (c', None, out) ∧ ExitCode c' = ExitCodeOK.
Proof.
  destruct (upgrade_outcome sample_pg
    {| upgrade_sources := λ _, None; upgrade_metrics := λ _, Some (ErrorString "connection refused");
       upgrade_sink := λ _, None |} sample_options) as (_ & _ & H).
  apply (H (ErrorString "connection refused")); try reflexivity; try discriminate.
  repeat constructor.
Defined.
