(* ===== verification/Commands.v ===== *)
(** * The sub-commands for sources and metrics ([internal/cmdopts/cmdsource.go], [cmdmetric.go])

    [source ping] tries every configured source, [source resolve] prints where the databases of the sources
    are, and [metric list] prints definitions.  They use the stores, the resolver and the connections of the
    program; what they print is a list of lines.

    The theorem is what they report: one line per source that was named, and success only if all of them
    answered; and that resolving a source without a connection string, which is allowed and stands for the settings of the
    environment, ends in a panic. *)

From S2P Require Import Prelude GoStrings Metrics Sources Changes Conn PromConn Sinks Reaper Resolver CmdOpts.
From stdpp Require Import options.

Local Open Scope Z_scope.

Inductive line := OkLine (name : string) | FailLine (name : string) (e : error) | ConnLine (name connstr : string).

Definition is_ok (l : line) : bool := match l with OkLine _ => true | _ => false end.
Definition line_name (l : line) : string := match l with OkLine n | FailLine n _ | ConnLine n _ => n end.

Section commands.
Context (env : loop_env) (renv : resolver_env).
Implicit Types (c : Options) (s : Source).

Definition conn_Ping (conn : source_conn) : outcome (option error) :=
  match conn with
  | ConnDb md => DbConn_Ping (show_version env (Name (md_Source md))) (ping env (Name (md_Source md))) md
  | ConnProm pc => Returns (PromConn_Ping (prom_net env) pc)
  end.

(** The body of the loop of [source ping]. *)
Definition ping_source (rv : Resolver) s : outcome (Resolver * option error) :=
  if bool_decide (Kind s = SourcePatroniDiscovery) then
    let '(rv, (_, e)) := ResolveDatabasesFromPatroni renv rv s in Returns (rv, e)
  else if bool_decide (Kind s = SourcePostgresDiscovery) then
    let '(rv, res) := ResolveDatabasesFromPostgres renv rv s in
    Returns (rv, match res with Ok _ => None | Err e => Some e end)
  else
    match connect env (NewSourceConn s) with
    | Returns (conn, Some e) => Returns (rv, Some e)
    | Returns (conn, None) =>
        match conn_Ping conn with
        | Returns e => Returns (rv, e)
        | Panics => Panics
        | NoFuel => NoFuel
        end
    | Panics => Panics
    | NoFuel => NoFuel
    end.

Fixpoint ping_all (rv : Resolver) (srcs : Sources) (err : option error) : outcome (list line * option error) :=
  match srcs with
  | [] => Returns ([], err)
  | s :: srcs' =>
      match ping_source rv s with
      | Returns (rv, e) =>
          match ping_all rv srcs' (errors_Join [err; e]) with
          | Returns (ls, err) => Returns (match e with Some e => FailLine (Name s) e | None => OkLine (Name s) end :: ls, err)
          | Panics => Panics
          | NoFuel => NoFuel
          end
      | Panics => Panics
      | NoFuel => NoFuel
      end
  end.

(** [source ping]; [srcs] is the result of opening the store and reading it. *)
Definition SourcePing_Execute (srcs : result Sources) (args : list string) c : outcome (Options * list line * option error) :=
  match srcs with
  | Err e => Returns (c, [], Some e)
  | Ok srcs =>
      match ping_all NewResolver (found_sources srcs args) None with
      | Returns (ls, err) =>
          Returns (CompleteCommand c (match err with Some _ => ExitCodeCmdError | None => ExitCodeOK end), ls, None)
      | Panics => Panics
      | NoFuel => NoFuel
      end
  end.

(** The URL that is printed for a connection without a connection string, from its parsed settings. *)
Context (config_url : conn_config → string).

Definition conn_line (conn : source_conn) : outcome (list line) :=
  match conn with
  | ConnProm _ => Returns []
  | ConnDb md =>
      let src := md_Source md in
      if negb (bool_decide (ConnStr src = "")) then Returns [ConnLine (Name src) (ConnStr src)]
      else
        match md_ConnConfig md with
        | Some cfg => Returns [ConnLine (Name src) (config_url cfg)]
        | None => Panics
        end
  end.

Fixpoint conn_lines (conns : list source_conn) : outcome (list line) :=
  match conns with
  | [] => Returns []
  | conn :: conns' =>
      match conn_line conn with
      | Returns ls => match conn_lines conns' with Returns ls' => Returns (ls ++ ls') | Panics => Panics | NoFuel => NoFuel end
      | Panics => Panics
      | NoFuel => NoFuel
      end
  end.

(** [source resolve], through the resolver of the package. *)
Definition SourceResolve_Execute (rv : Resolver) (srcs : result Sources) (args : list string) c
    : outcome (Options * list line * option error) :=
  match srcs with
  | Err e => Returns (c, [], Some e)
  | Ok srcs =>
      let '(_, conns, _, err) := ResolveDatabases renv rv (found_sources srcs args) in
      match err with
      | Some e => Returns (c, [], Some e)
      | None =>
          match conn_lines conns with
          | Returns ls => Returns (CompleteCommand c ExitCodeOK, ls, None)
          | Panics => Panics
          | NoFuel => NoFuel
          end
      end
  end.
End commands.

(** [metric list]; the definitions are printed as YAML. *)
Definition MetricList_Execute (yaml_Marshal : Metrics → string) (ro : range_order) (d : result Metrics) (args : list string) (c : Options)
    : Options * string * option error :=
  match d with
  | Err e => (c, "", Some e)
  | Ok d =>
      match FilterByNames d ro args with
      | Err e => (c, "", Some e)
      | Ok ms => (CompleteCommand c ExitCodeOK, yaml_Marshal ms, None)
      end
  end.

(** ** What the commands report *)

Lemma conn_Ping_returns env conn : 
  match conn with ConnDb md => md_Conn md ≠ PoolNil | ConnProm _ => True end → ∃ e, conn_Ping env conn = Returns e.
Proof. destruct conn as [md|pc]; simpl; [|eauto]. intros Hp. unfold DbConn_Ping. destruct (md_Conn md); [done|eauto..]. Qed.

Lemma connect_open env s conn :
  connect env (NewSourceConn s) = Returns (conn, None) → match conn with ConnDb md => md_Conn md ≠ PoolNil | ConnProm _ => True end.
Proof.
  unfold NewSourceConn. case_bool_decide; simpl.
  - destruct (PromConn_Connect _ _). by intros [= <- _].
  - unfold DbConn_Connect. simpl. destruct (ParseConfig _ _) as [md1 [e|]]; [done|].
    destruct (new_pool env (Name s)); [done|]. unfold DbConn_Ping. simpl. by intros [= <- _].
Qed.

Lemma ping_source_returns env renv rv s : ∃ rv' e, ping_source env renv rv s = Returns (rv', e).
Proof.
  unfold ping_source. case_bool_decide; [destruct (ResolveDatabasesFromPatroni _ _ _) as [? [? ?]]; eauto|].
  case_bool_decide; [destruct (ResolveDatabasesFromPostgres _ _ _); eauto|].
  destruct (connect_returns env (NewSourceConn s)) as (conn & err & Hc). rewrite Hc. destruct err; [eauto|].
  destruct (conn_Ping_returns env conn) as [e ->]; [by eapply connect_open|]. eauto.
Qed.

Lemma ping_all_spec env renv rv srcs err :
  ∃ ls err', ping_all env renv rv srcs err = Returns (ls, err') ∧ line_name <$> ls = Name <$> srcs ∧
    (err' = None ↔ err = None ∧ forallb is_ok ls = true).
Proof.
  revert rv err. induction srcs as [|s srcs IH]; intros rv err; cbn [ping_all].
  { exists [], err. split_and!; [done..|]. simpl. tauto. }
  destruct (ping_source_returns env renv rv s) as (rv' & e & ->).
  destruct (IH rv' (errors_Join [err; e])) as (ls & err' & -> & Hn & He). eexists _, err'. split; [done|].
  split; [csimpl; rewrite Hn; by destruct e|]. rewrite He. destruct err, e; simpl; naive_solver.
Qed.

(** Plain sources resolve to themselves. *)
Lemma resolve_plain renv rv srcs conns :
  Forall (λ s, Kind s = SourcePostgres) srcs →
  foldl (resolve_one renv) (rv, conns, [], None) srcs = (rv, conns ++ ((λ s, ConnDb (NewDbConn s)) <$> srcs), [], None).
Proof.
  intros H. revert conns. induction H as [|s srcs Hk _ IH]; intros conns; cbn [foldl]; [by rewrite app_nil_r|].
  unfold resolve_one at 2, ResolveDatabase, NewSourceConn. rewrite Hk. rewrite !bool_decide_false by done. rewrite IH. by rewrite <-app_assoc.
Qed.

Lemma conn_lines_plain url srcs :
  conn_lines url ((λ s, ConnDb (NewDbConn s)) <$> srcs) =
  if existsb (λ s, bool_decide (ConnStr s = "")) srcs then Panics else Returns ((λ s, ConnLine (Name s) (ConnStr s)) <$> srcs).
Proof.
  induction srcs as [|s srcs IH]; [done|]. csimpl. rewrite IH. cbn [conn_line NewDbConn md_Source md_ConnConfig].
  destruct (bool_decide (ConnStr s = "")); [done|]. cbn [negb orb]. by destruct (existsb _ srcs).
Qed.

(** What [source ping] and [source resolve] report.  Pinging never panics: it prints a line for every source
    that the arguments name, in their order, and ends with the code for success exactly if every line is one
    of success.  Resolving plain sources prints their connection strings, but panics if one of them has
    none: its settings then come from the environment, and are parsed only when it is connected. *)
Theorem source_commands env renv url c srcs args rv :
  (∃ ls code, SourcePing_Execute env renv (Ok srcs) args c = Returns (CompleteCommand c code, ls, None) ∧
     line_name <$> ls = Name <$> found_sources srcs args ∧
     (code = ExitCodeOK ∨ code = ExitCodeCmdError) ∧ (code = ExitCodeOK ↔ forallb is_ok ls = true)) ∧
  (Forall (λ s, Kind s = SourcePostgres) (found_sources srcs args) →
   SourceResolve_Execute renv url rv (Ok srcs) args c =
     if existsb (λ s, bool_decide (ConnStr s = "")) (found_sources srcs args) then Panics
     else Returns (CompleteCommand c ExitCodeOK, (λ s, ConnLine (Name s) (ConnStr s)) <$> found_sources srcs args, None)).
Proof.
  split.
  - unfold SourcePing_Execute. destruct (ping_all_spec env renv NewResolver (found_sources srcs args) None) as (ls & err & -> & Hn & He).
    exists ls, (match err with Some _ => ExitCodeCmdError | None => ExitCodeOK end). split_and!; [done..|destruct err; auto|].
    destruct err; [|tauto]. split; [done|]. intros Hall. assert (Some e = None) by (by apply He). done.
  - intros Hk. unfold SourceResolve_Execute, ResolveDatabases. rewrite resolve_plain by done. cbn [app].
    rewrite conn_lines_plain. by destruct (existsb _ _).
Qed.

(** ** Example *)

(** A source whose server is up, and one without a connection string. *)
Definition sample_plain : Sources :=
  [with_kind (sample_source "a") SourcePostgres; with_connstr (with_kind (sample_source "b") SourcePostgres) ""].

Lemma source_commands_witness :
  SourceResolve_Execute (sample_resolver_env true) cc_Host NewResolver (Ok sample_plain) []
    sample_options = Panics.
Proof.
  destruct (source_commands sample_env_loop (sample_resolver_env true) cc_Host sample_options
    sample_plain [] NewResolver) as [_ H].
  rewrite H; [vm_compute; reflexivity|]. apply (bool_decide_unpack _). vm_compute. exact I.
Defined.
