(* ===== verification/Regexp.v ===== *)
(** * The part of Go's [regexp] package that the log parser uses

    [MustCompile] on the fragment of the syntax that [csvLogDefaultRegEx] is written in, and
    [FindStringSubmatch] with the leftmost-first rule of the package: of several matches from the
    same position the one a backtracking search finds first.  Text is matched byte by byte, where
    the package matches runes: the only class that contains a rune of more than one byte is [.], and
    every repetition of it is followed by an ASCII character, so the two agree on what is captured. *)

From Stdlib Require Import Ascii.
From S2P Require Import Prelude GoStrings.
From stdpp Require Import options.

(** ** Syntax *)

(** [.*?] (shortest first), [\d+] and [\w+] (longest first). *)
Inductive repetition := LazyAny | PlusDigit | PlusWord.

Inductive item :=
  | IBegin                                   (* ^ *)
  | ILit (a : ascii)
  | IOptLit (a : ascii)                      (* a literal and ? *)
  | IGroup (name : string) (rep : repetition). (* a named capture group *)

#[export] Instance repetition_eq_dec : EqDecision repetition.
Proof. solve_decision. Defined.
#[export] Instance item_eq_dec : EqDecision item.
Proof. solve_decision. Defined.

Abbreviation Regexp := (list item).

(** The body of a group and its closing parenthesis. *)
Definition compile_body (s : string) : option (repetition * string) :=
  match cut_prefix ".*?)" s with
  | Some s' => Some (LazyAny, s')
  | None =>
      match cut_prefix "\d+)" s with
      | Some s' => Some (PlusDigit, s')
      | None => s' ← cut_prefix "\w+)" s; Some (PlusWord, s')
      end
  end.

Fixpoint compile_fuel (n : nat) (s : string) : option Regexp :=
  match n with
  | O => None
  | S n =>
      match s with
      | "" => Some []
      | String a s' =>
          match cut_prefix "(?P<" s with
          | Some t =>
              '(name, t) ← str_cut ">" t;
              '(rep, t) ← compile_body t;
              r ← compile_fuel n t;
              Some (IGroup name rep :: r)
          | None =>
              if bool_decide (a = "^"%char) then r ← compile_fuel n s'; Some (IBegin :: r)
              else
                match s' with
                | String "?"%char t => r ← compile_fuel n t; Some (IOptLit a :: r)
                | _ => r ← compile_fuel n s'; Some (ILit a :: r)
                end
          end
      end
  end.

(** Every item takes at least one character. *)
Definition compile (s : string) : option Regexp := compile_fuel (S (String.length s)) s.

(** [SubexpNames]: the names of the groups, the whole match being the first and unnamed. *)
Definition SubexpNames (r : Regexp) : list string :=
  "" :: omap (λ i, match i with IGroup name _ => Some name | _ => None end) r.

(** ** Classes of characters *)

Definition newline : ascii := ascii_of_nat 10.

Definition between (lo hi : ascii) (a : ascii) : bool :=
  (nat_of_ascii lo <=? nat_of_ascii a)%nat && (nat_of_ascii a <=? nat_of_ascii hi)%nat.

Definition is_digit : ascii → bool := between "0" "9".
Definition is_word (a : ascii) : bool :=
  is_digit a || between "A" "Z" a || between "a" "z" a || bool_decide (a = "_"%char).

(** ** Matching *)

(** The rest of the text after the match and the captured texts. *)
Abbreviation matched := (option (string * list string)).

Section rep.
Context (rest : bool → string → matched).

Definition capture (text : string) (m : matched) : matched := '(s, caps) ← m; Some (s, text :: caps).

(** Shortest first: extend the capture only if what follows does not match. *)
Fixpoint match_lazy (start : bool) (acc s : string) : matched :=
  match capture acc (rest start s) with
  | Some m => Some m
  | None =>
      match s with
      | String a s' => if bool_decide (a = newline) then None else match_lazy false (acc +:+ String a "") s'
      | "" => None
      end
  end.

(** Longest first. *)
Fixpoint match_plus (p : ascii → bool) (acc s : string) : matched :=
  match s with
  | String a s' =>
      if p a then
        let acc := acc +:+ String a "" in
        match match_plus p acc s' with
        | Some m => Some m
        | None => capture acc (rest false s')
        end
      else None
  | "" => None
  end.
End rep.

(** [start]: no character was consumed yet. *)
Fixpoint match_items (r : Regexp) (start : bool) (s : string) : matched :=
  match r with
  | [] => Some (s, [])
  | IBegin :: r => if start then match_items r start s else None
  | ILit a :: r =>
      match s with
      | String b s' => if bool_decide (a = b) then match_items r false s' else None
      | "" => None
      end
  | IOptLit a :: r =>
      match s with
      | String b s' =>
          if bool_decide (a = b) then
            match match_items r false s' with
            | Some m => Some m
            | None => match_items r start s
            end
          else match_items r start s
      | "" => match_items r start s
      end
  | IGroup _ LazyAny :: r => match_lazy (match_items r) start "" s
  | IGroup _ PlusDigit :: r => match_plus (match_items r) is_digit "" s
  | IGroup _ PlusWord :: r => match_plus (match_items r) is_word "" s
  end.

(** [FindStringSubmatch]: the leftmost match and its groups. *)
Fixpoint find_from (r : Regexp) (start : bool) (s : string) : option (list string) :=
  match match_items r start s with
  | Some (s', caps) => Some (String.substring 0 (String.length s - String.length s') s :: caps)
  | None => match s with String _ s' => find_from r false s' | "" => None end
  end.
Definition FindStringSubmatch (r : Regexp) (s : string) : option (list string) := find_from r true s.

(** ** What a match looks like *)

Section rep_lemmas.
Context (rest : bool → string → matched).

(** A lazy group runs up to the first place where the rest of the expression matches. *)
Lemma match_lazy_first text s start acc s' caps :
  free_of newline text →
  (∀ start u v, text = u +:+ v → v ≠ "" → rest start (v +:+ s) = None) →
  (∀ start, rest start s = Some (s', caps)) →
  match_lazy rest start acc (text +:+ s) = Some (s', (acc +:+ text) :: caps).
Proof using Type.
  revert start acc. induction text as [|a text IH]; intros start acc Hn Hlater Hs.
  - rewrite string_app_nil_l, string_app_nil_r. destruct s as [|b s]; simpl; by rewrite Hs.
  - apply free_of_cons in Hn as [Ha Hn]. rewrite string_app_cons. simpl.
    rewrite <-string_app_cons. rewrite (Hlater start "" (String a text)) by done. simpl.
    rewrite bool_decide_false by done.
    rewrite IH; [by rewrite string_app_assoc|done| |done].
    intros st u v -> Hv. apply (Hlater st (String a u) v); [by rewrite string_app_cons|done].
Qed.

(** A greedy group takes all characters of its class, if the rest matches after them. *)
Lemma match_plus_all p text s acc s' caps :
  str_forall p text = true → text ≠ "" →
  match s with String b _ => p b = false | "" => True end →
  rest false s = Some (s', caps) →
  match_plus rest p acc (text +:+ s) = Some (s', (acc +:+ text) :: caps).
Proof using Type.
  revert acc. induction text as [|a text IH]; intros acc Hp Hne Hb Hs; [done|].
  simpl in Hp. apply andb_true_iff in Hp as [Ha Hp]. rewrite string_app_cons. simpl. rewrite Ha.
  destruct (decide (text = "")) as [->|Hne'].
  - rewrite string_app_nil_l.
    assert (∀ acc, match_plus rest p acc s = None) as ->.
    { intros. destruct s as [|b s]; [done|]. simpl. by rewrite Hb. }
    rewrite Hs. done.
  - rewrite IH by done. by rewrite string_app_assoc.
Qed.

(** What a greedy group captures is of its class. *)
Lemma match_plus_class p s acc s' caps :
  match_plus rest p acc s = Some (s', caps) →
  ∃ text caps' u, caps = (acc +:+ text) :: caps' ∧ text ≠ "" ∧ str_forall p text = true ∧
    rest false u = Some (s', caps').
Proof using Type.
  revert acc. induction s as [|a s IH]; intros acc; simpl; [done|].
  destruct (p a) eqn:Ha; [|done].
  destruct (match_plus rest p (acc +:+ String a "") s) as [m|] eqn:E.
  - intros [= ->]. destruct (IH _ E) as (text & caps' & u & -> & Hne & Hp & Hr).
    exists (String a text), caps', u. split_and!; [|done|simpl; by rewrite Ha, Hp|done].
    by rewrite string_app_assoc.
  - unfold capture. destruct (rest false s) as [[u caps']|] eqn:Er; simpl; [|done]. intros [= <- <-].
    exists (String a ""), caps', s. split_and!; [done|done|simpl; by rewrite Ha|done].
Qed.

Lemma match_lazy_rest s start acc s' caps :
  match_lazy rest start acc s = Some (s', caps) →
  ∃ text caps' st u, caps = text :: caps' ∧ rest st u = Some (s', caps').
Proof using Type.
  revert start acc. induction s as [|a s IH]; intros start acc; simpl; unfold capture;
    (destruct (rest start _) as [[u c]|] eqn:E; simpl; [intros [= <- <-]; eauto 10|]); [done|].
  case_bool_decide; [done|]. apply IH.
Qed.
End rep_lemmas.

(** The groups of a match, each with its text: a text captured by a class is of that class. *)
Lemma match_items_class r start s s' caps :
  match_items r start s = Some (s', caps) →
  Forall2 (λ rep text,
    match rep with
    | LazyAny => True
    | PlusDigit => text ≠ "" ∧ str_forall is_digit text = true
    | PlusWord => text ≠ "" ∧ str_forall is_word text = true
    end) (omap (λ i, match i with IGroup _ rep => Some rep | _ => None end) r) caps.
Proof.
  revert start s caps. induction r as [|i r IH]; intros start s caps; simpl.
  { intros [= <- <-]. constructor. }
  destruct i as [| |a|name rep]; simpl.
  - destruct start; [|done]. apply IH.
  - destruct s as [|b s]; [done|]. case_bool_decide; [|done]. apply IH.
  - destruct s as [|b s]; [apply IH|]. case_bool_decide; [|apply IH].
    destruct (match_items r false s) as [[u c]|] eqn:E; [|apply IH]. intros [= <- <-]. by eapply IH.
  - destruct rep.
    + intros (text & caps' & st & u & -> & Hr)%match_lazy_rest. constructor; [done|]. by eapply IH.
    + intros (text & caps' & u & -> & Hne & Hp & Hr)%match_plus_class. constructor; [done|]. by eapply IH.
    + intros (text & caps' & u & -> & Hne & Hp & Hr)%match_plus_class. constructor; [done|]. by eapply IH.
Qed.
