(* ===== verification/LogParser.v ===== *)
(** * The log parser: settings, lines and counts ([internal/reaper/logparser.go])

    The parser follows the CSV log of a server and counts messages by severity, for the monitored
    database and for the whole instance.  This file holds what both ways of reading share: the
    settings, the parsing of one line with the regular expression of the source, the translation of
    severities, and the counters with the envelope they are sent in.  Files [LogLocal] and
    [LogRemote] hold the two loops.

    The theorems show that a line in the format of the server is read back field by field, which
    severities the expression can and cannot capture, and that no counted message is lost between
    the counters and the envelopes. *)

From Stdlib Require Import Ascii.
From S2P Require Import Prelude GoStrings Metrics Sources Conn Scheduler Regexp.
From stdpp Require Import options.

Local Open Scope Z_scope.

(** ** Constants *)

Definition pgSeverities : list string :=
  ["DEBUG"; "INFO"; "NOTICE"; "WARNING"; "ERROR"; "LOG"; "FATAL"; "PANIC"].

Definition pgSeveritiesLocale : gmap string (gmap string string) :=
  list_to_map [
    ("C.", list_to_map [("DEBUG", "DEBUG"); ("LOG", "LOG"); ("INFO", "INFO"); ("NOTICE", "NOTICE");
      ("WARNING", "WARNING"); ("ERROR", "ERROR"); ("FATAL", "FATAL"); ("PANIC", "PANIC")]);
    ("de", list_to_map [("DEBUG", "DEBUG"); ("LOG", "LOG"); ("INFO", "INFO"); ("HINWEIS", "NOTICE");
      ("WARNUNG", "WARNING"); ("FEHLER", "ERROR"); ("FATAL", "FATAL"); ("PANIK", "PANIC")]);
    ("fr", list_to_map [("DEBUG", "DEBUG"); ("LOG", "LOG"); ("INFO", "INFO"); ("NOTICE", "NOTICE");
      ("ATTENTION", "WARNING"); ("ERREUR", "ERROR"); ("FATAL", "FATAL"); ("PANIK", "PANIC")]);
    ("it", list_to_map [("DEBUG", "DEBUG"); ("LOG", "LOG"); ("INFO", "INFO"); ("NOTIFICA", "NOTICE");
      ("ATTENZIONE", "WARNING"); ("ERRORE", "ERROR"); ("FATALE", "FATAL"); ("PANICO", "PANIC")]);
    ("ko", list_to_map [("디버그", "DEBUG"); ("로그", "LOG"); ("정보", "INFO"); ("알림", "NOTICE");
      ("경고", "WARNING"); ("오류", "ERROR"); ("치명적오류", "FATAL"); ("손상", "PANIC")]);
    ("pl", list_to_map [("DEBUG", "DEBUG"); ("DZIENNIK", "LOG"); ("INFORMACJA", "INFO"); ("UWAGA", "NOTICE");
      ("OSTRZEŻENIE", "WARNING"); ("BŁĄD", "ERROR"); ("KATASTROFALNY", "FATAL"); ("PANIKA", "PANIC")]);
    ("ru", list_to_map [("ОТЛАДКА", "DEBUG"); ("СООБЩЕНИЕ", "LOG"); ("ИНФОРМАЦИЯ", "INFO");
      ("ЗАМЕЧАНИЕ", "NOTICE"); ("ПРЕДУПРЕЖДЕНИЕ", "WARNING"); ("ОШИБКА", "ERROR"); ("ВАЖНО", "FATAL");
      ("ПАНИКА", "PANIC")]);
    ("sv", list_to_map [("DEBUG", "DEBUG"); ("LOGG", "LOG"); ("INFO", "INFO"); ("NOTIS", "NOTICE");
      ("VARNING", "WARNING"); ("FEL", "ERROR"); ("FATALT", "FATAL"); ("PANIK", "PANIC")]);
    ("tr", list_to_map [("DEBUG", "DEBUG"); ("LOG", "LOG"); ("BİLGİ", "INFO"); ("NOT", "NOTICE");
      ("UYARI", "WARNING"); ("HATA", "ERROR"); ("ÖLÜMCÜL (FATAL)", "FATAL"); ("KRİTİK", "PANIC")]);
    ("zh", list_to_map [("调试", "DEBUG"); ("日志", "LOG"); ("信息", "INFO"); ("注意", "NOTICE");
      ("警告", "WARNING"); ("错误", "ERROR"); ("致命错误", "FATAL"); ("比致命错误还过分的错误", "PANIC")])].

(** The double quote. *)
Definition dq : ascii := ascii_of_nat 34.
Definition quot : string := String dq "".

Definition csvLogDefaultRegEx : string :=
  "^^(?P<log_time>.*?)," +:+
  quot +:+ "?(?P<user_name>.*?)" +:+ quot +:+ "?," +:+
  quot +:+ "?(?P<database_name>.*?)" +:+ quot +:+ "?," +:+
  "(?P<process_id>\d+)," +:+
  quot +:+ "?(?P<connection_from>.*?)" +:+ quot +:+ "?," +:+
  "(?P<session_id>.*?),(?P<session_line_num>\d+)," +:+
  quot +:+ "?(?P<command_tag>.*?)" +:+ quot +:+ "?," +:+
  "(?P<session_start_time>.*?),(?P<virtual_transaction_id>.*?),(?P<transaction_id>.*?)," +:+
  "(?P<error_severity>\w+),".

Definition csvLogDefaultGlobSuffix : string := "*.csv".
Definition maxChunkSize : Z := 10 * 1024 * 1024.
Definition maxTrackedFiles : Z := 2500.

(** ** State *)

Record LogConfig := {
  CollectorEnabled : bool;
  CSVDestination : bool;
  TruncateOnRotation : bool;
  Directory : string;
  ServerMessagesLang : string;
}.

Record LogParser := {
  lp_cfg : LogConfig;
  LogsMatchRegex : Regexp;
  lp_conn : DbConn;
  realDbname : string;
  lp_Interval : Z;
  StoreCh : list MeasurementEnvelope;          (* what was sent, in order *)
  eventCounts : gmap string Z;
  eventCountsTotal : gmap string Z;
  lastSendTime : Z;
  fileOffsets : gmap string Z;
}.

Definition with_counts (lp : LogParser) (db total : gmap string Z) : LogParser := {|
  lp_cfg := lp_cfg lp; LogsMatchRegex := LogsMatchRegex lp; lp_conn := lp_conn lp;
  realDbname := realDbname lp; lp_Interval := lp_Interval lp; StoreCh := StoreCh lp;
  eventCounts := db; eventCountsTotal := total; lastSendTime := lastSendTime lp;
  fileOffsets := fileOffsets lp |}.

Definition with_offsets (lp : LogParser) (o : gmap string Z) : LogParser := {|
  lp_cfg := lp_cfg lp; LogsMatchRegex := LogsMatchRegex lp; lp_conn := lp_conn lp;
  realDbname := realDbname lp; lp_Interval := lp_Interval lp; StoreCh := StoreCh lp;
  eventCounts := eventCounts lp; eventCountsTotal := eventCountsTotal lp;
  lastSendTime := lastSendTime lp; fileOffsets := o |}.

(** ** Settings *)

(** [tryDetermineLogSettings]: the answer of the server, with an unknown language read as English. *)
Definition tryDetermineLogSettings (answer : result LogConfig) : result LogConfig :=
  match answer with
  | Err e => Err e
  | Ok cfg =>
      match pgSeveritiesLocale !! ServerMessagesLang cfg with
      | Some _ => Ok cfg
      | None => Ok {| CollectorEnabled := CollectorEnabled cfg; CSVDestination := CSVDestination cfg;
                      TruncateOnRotation := TruncateOnRotation cfg; Directory := Directory cfg;
                      ServerMessagesLang := "en" |}
      end
  end.

(** [NewLogParser]; [MustCompile] panics on an expression it cannot read. *)
Definition NewLogParser (answer : result LogConfig) (mdb : DbConn) : outcome (result LogParser) :=
  match compile csvLogDefaultRegEx with
  | None => Panics
  | Some logsRegex =>
      Returns
        match tryDetermineLogSettings answer with
        | Err e => Err (WrapError "could not determine Postgres logs settings" e)
        | Ok cfg =>
            if negb (CollectorEnabled cfg) then
              Err (ErrorString "logging_collector is not enabled on the db server")
            else if negb (CSVDestination cfg) then
              Err (ErrorString "log_destination must contain 'csvlog' for log parsing to work")
            else
              Ok {| lp_cfg := cfg; LogsMatchRegex := logsRegex; lp_conn := mdb;
                    realDbname := RealDbname (md_Info mdb);
                    lp_Interval := GetMetricInterval mdb specialMetricServerLogEventCounts;
                    StoreCh := []; eventCounts := ∅; eventCountsTotal := ∅;
                    lastSendTime := zero_time; fileOffsets := ∅ |}
        end
  end.

(** ** Choice of the way to read *)

Inductive parse_mode := ParseLocal | ParseRemote | ParseError (e : error).

(** [checkHasRemotePrivileges]: the name of a log file, and reading nothing of the file with that
    name in the directory.  [Ok None] is [pgx.ErrNoRows], which leaves the name empty. *)
Definition checkHasRemotePrivileges (ls : result (option string))
    (pg_read_file : string → string → option error) (logsDirPath : string) : option error :=
  match ls with
  | Err e => Some e
  | Ok logFile => pg_read_file logsDirPath (default "" logFile)
  end.

(** [ParseLogs]: which loop is entered, or the error. *)
Definition ParseLogs (lp : LogParser) (same_host : result bool) (read_dir : option error)
    (ls : result (option string)) (pg_read_file : string → string → option error) : parse_mode :=
  let remote :=
    match checkHasRemotePrivileges ls pg_read_file (Directory (lp_cfg lp)) with
    | Some e => ParseError e
    | None => ParseRemote
    end in
  match same_host with
  | Ok true => match read_dir with None => ParseLocal | Some _ => remote end
  | _ => remote
  end.

(** ** One line *)

Definition severityToEnglish (serverLang errorSeverity : string) : string :=
  if bool_decide (serverLang = "en") then errorSeverity
  else default errorSeverity (default ∅ (pgSeveritiesLocale !! serverLang) !! errorSeverity).

(** [regexMatchesToMap]; an index out of range of [matches] is a panic. *)
Fixpoint matches_to_map (names matches : list string) (result : gmap string string)
    : option (gmap string string) :=
  match names, matches with
  | [], _ => Some result
  | name :: names', m :: matches' =>
      matches_to_map names' matches' (if bool_decide (name = "") then result else <[name := m]> result)
  | name :: names', [] => if bool_decide (name = "") then matches_to_map names' [] result else None
  end.
Definition regexMatchesToMap (lp : LogParser) (matches : list string) : option (gmap string string) :=
  match matches with
  | [] => Some ∅
  | _ :: groups => matches_to_map (drop 1 (SubexpNames (LogsMatchRegex lp))) groups ∅
  end.

Definition incr (m : gmap string Z) (k : string) : gmap string Z := <[k := default 0 (m !! k) + 1]> m.

(** The counters after a message of the severity for the database. *)
Definition count_event (lp : LogParser) (errorSeverity databaseName : string) : LogParser :=
  let sev := if bool_decide (ServerMessagesLang (lp_cfg lp) ≠ "en")
             then severityToEnglish (ServerMessagesLang (lp_cfg lp)) errorSeverity else errorSeverity in
  with_counts lp
    (if bool_decide (realDbname lp = databaseName) then incr (eventCounts lp) sev else eventCounts lp)
    (incr (eventCountsTotal lp) sev).

(** ** Sending *)

Definition HasSendIntervalElapsed (lp : LogParser) (now : Z) : bool :=
  time_IsZero (lastSendTime lp) || time_Before (lastSendTime lp) (now - lp_Interval lp).

(** [strings.ToLower] on ASCII text. *)
Definition lower_char (a : ascii) : ascii :=
  if between "A" "Z" a then ascii_of_nat (nat_of_ascii a + 32) else a.
Fixpoint strings_ToLower (s : string) : string :=
  match s with "" => "" | String a s' => String (lower_char a) (strings_ToLower s') end.

Definition severity_columns (lp : LogParser) (row : Measurement) (s : string) : Measurement :=
  <[strings_ToLower s +:+ "_total" := VInt64 (default 0 (eventCountsTotal lp !! s))]>
    (<[strings_ToLower s := VInt64 (default 0 (eventCounts lp !! s))]> row).

Definition GetMeasurementEnvelope (lp : LogParser) (now : Z) : MeasurementEnvelope := {|
  DBName := Name (md_Source (lp_conn lp));
  MetricName := specialMetricServerLogEventCounts;
  SourceKind := "";
  CustomTags := SrcCustomTags (md_Source (lp_conn lp));
  Data := [foldl (severity_columns lp) (NewMeasurement now) pgSeverities] |}.

Definition zeroEventCounts (m : gmap string Z) : gmap string Z :=
  foldl (λ m severity, <[severity := 0]> m) m pgSeverities.

(** The end of both loops: [None] if the context ended while the envelope was offered.  The clock is
    read for the test, for the envelope and for the time of sending. *)
Definition send_if_needed (lp : LogParser) (clk : nat → Z) (ctx_done : bool) : option LogParser :=
  if HasSendIntervalElapsed lp (clk 0%nat) then
    if ctx_done then None
    else Some {|
      lp_cfg := lp_cfg lp; LogsMatchRegex := LogsMatchRegex lp; lp_conn := lp_conn lp;
      realDbname := realDbname lp; lp_Interval := lp_Interval lp;
      StoreCh := StoreCh lp ++ [GetMeasurementEnvelope lp (clk 1%nat)];
      eventCounts := zeroEventCounts (eventCounts lp);
      eventCountsTotal := zeroEventCounts (eventCountsTotal lp);
      lastSendTime := clk 2%nat; fileOffsets := fileOffsets lp |}
  else Some lp.

(** [lp.fileOffsets[file] = n], emptied when it has grown too large. *)
Definition remember_offset (lp : LogParser) (file : string) (n : Z) : LogParser :=
  if TruncateOnRotation (lp_cfg lp) then lp
  else
    let o := <[file := n]> (fileOffsets lp) in
    with_offsets lp (if maxTrackedFiles <? Z.of_nat (size o) then ∅ else o).

(** ** Parsing what the server prints *)

Abbreviation seg_plain name := [IGroup name LazyAny; ILit ","%char].
Abbreviation seg_quoted name := [IOptLit dq; IGroup name LazyAny; IOptLit dq; ILit ","%char].
Abbreviation seg_digits name := [IGroup name PlusDigit; ILit ","%char].

(** The expression up to the transaction, and the whole of it. *)
Definition csv_head_items : Regexp :=
  seg_plain "log_time" ++ seg_quoted "user_name" ++ seg_quoted "database_name" ++
  seg_digits "process_id" ++ seg_quoted "connection_from" ++ seg_plain "session_id" ++
  seg_digits "session_line_num" ++ seg_quoted "command_tag" ++ seg_plain "session_start_time" ++
  seg_plain "virtual_transaction_id".
Definition csv_tail_items : Regexp :=
  seg_plain "transaction_id" ++ [IGroup "error_severity" PlusWord; ILit ","%char].
Definition csvLogRegexp : Regexp := [IBegin; IBegin] ++ csv_head_items ++ csv_tail_items.

Lemma compile_csvLog : compile csvLogDefaultRegEx = Some csvLogRegexp.
Proof. vm_compute. reflexivity. Qed.

(** A text without a comma or an end of line. *)
Definition plain_field (f : string) : Prop := free_of ","%char f ∧ free_of newline f.

(** A quoted field, or nothing for a null value. *)
Definition quoted (f : option string) : string :=
  match f with Some f => quot +:+ f +:+ quot | None => "" end.

Definition quoted_field (f : option string) : Prop :=
  match f with Some f => plain_field f ∧ free_of dq f | None => True end.

Lemma free_of_suffix a u b v : free_of a (u +:+ String b v) → b ≠ a.
Proof.
  unfold free_of. rewrite str_forall_app. simpl. rewrite !andb_true_iff, negb_true_iff, bool_decide_eq_false.
  naive_solver.
Qed.

Section segments.
Context (r : Regexp) (s s' : string) (caps : list string).
Hypothesis r_matches : match_items r false s = Some (s', caps).

Lemma seg_plain_ok name start f :
  plain_field f →
  match_items (seg_plain name ++ r) start (f +:+ String "," s) = Some (s', f :: caps).
Proof using r_matches.
  intros [Hc Hn]. change (match_items _ start ?t) with (match_lazy (match_items (ILit ","%char :: r)) start "" t).
  rewrite (match_lazy_first _ f (String "," s) start "" s' caps); [done|done| |].
  - intros st u [|b v] -> Hv; [done|]. apply free_of_suffix in Hc. rewrite string_app_cons. simpl.
    by rewrite bool_decide_false.
  - intros st. simpl. by rewrite ?bool_decide_true.
Qed.

Lemma seg_digits_ok name start d :
  str_forall is_digit d = true → d ≠ "" →
  match_items (seg_digits name ++ r) start (d +:+ String "," s) = Some (s', d :: caps).
Proof using r_matches.
  intros Hd Hne. simpl. rewrite (match_plus_all _ _ d (String "," s) "" s' caps); [done..|].
  simpl. by rewrite ?bool_decide_true.
Qed.

Lemma seg_word_ok name start d :
  str_forall is_word d = true → d ≠ "" →
  match_items ([IGroup name PlusWord; ILit ","%char] ++ r) start (d +:+ String "," s) = Some (s', d :: caps).
Proof using r_matches.
  intros Hd Hne. simpl. rewrite (match_plus_all _ _ d (String "," s) "" s' caps); [done..|].
  simpl. by rewrite ?bool_decide_true.
Qed.

Lemma seg_quoted_ok name start f :
  quoted_field f →
  match_items (seg_quoted name ++ r) start (quoted f +:+ String "," s) = Some (s', default "" f :: caps).
Proof using r_matches.
  set (tail := match_items (IOptLit dq :: ILit ","%char :: r)).
  assert (∀ st, tail st (String "," s) = Some (s', caps)) as Hcomma.
  { intros st. unfold tail. simpl. by rewrite ?bool_decide_true. }
  destruct f as [f|]; simpl quoted; simpl default; intros Hf.
  - destruct Hf as [[Hc Hn] Hq]. unfold quot. rewrite !string_app_cons, string_app_nil_l, string_app_assoc.
    rewrite string_app_cons, string_app_nil_l.
    change (match_items (seg_quoted name ++ r) start (String dq ?t)) with
      (match match_lazy tail false "" t with Some m => Some m
       | None => match_lazy tail start "" (String dq t) end).
    rewrite (match_lazy_first tail f (String dq (String "," s)) false "" s' caps); [done|done| |].
    + intros st u [|b v] -> Hv; [done|]. apply free_of_suffix in Hc, Hq. rewrite string_app_cons.
      unfold tail. simpl. by rewrite (bool_decide_false (dq = b)), bool_decide_false.
    + intros st. unfold tail. simpl. by rewrite ?bool_decide_true, r_matches.
  - change (match_items _ _ _) with (match_lazy tail start "" ("" +:+ String "," s)).
    rewrite (match_lazy_first tail "" (String "," s) start "" s' caps); [done|done| |done].
    intros st u v Huv Hv. by destruct u, v.
Qed.
End segments.

(** A word is captured only if a comma follows it. *)
Lemma word_not_captured f s acc :
  str_forall is_word f = false → free_of ","%char f →
  match_plus (match_items [ILit ","%char]) is_word acc (f +:+ String "," s) = None.
Proof.
  revert acc. induction f as [|a f IH]; intros acc Hw Hc; [done|].
  apply free_of_cons in Hc as [Ha Hc]. rewrite string_app_cons. cbn [match_plus].
  simpl in Hw. destruct (is_word a); [|done]. simpl in Hw. rewrite (IH _ Hw Hc).
  destruct f as [|b f]; [done|]. apply free_of_cons in Hc as [Hb _]. rewrite string_app_cons. simpl.
  by rewrite bool_decide_false by done.
Qed.

(** A record of the CSV log up to the transaction. *)
Record csv_record := {
  r_log_time : string;
  r_user_name : option string;
  r_database_name : option string;
  r_process_id : string;
  r_connection_from : option string;
  r_session_id : string;
  r_session_line_num : string;
  r_command_tag : option string;
  r_session_start_time : string;
  r_virtual_transaction_id : string;
  r_transaction_id : string;
}.

Definition digits (d : string) : Prop := str_forall is_digit d = true ∧ d ≠ "".
Definition word (d : string) : Prop := str_forall is_word d = true ∧ d ≠ "".
#[export] Instance digits_dec d : Decision (digits d).
Proof. unfold digits. apply _. Defined.
#[export] Instance word_dec d : Decision (word d).
Proof. unfold word. apply _. Defined.
#[export] Instance plain_field_dec f : Decision (plain_field f).
Proof. unfold plain_field. apply _. Defined.
#[export] Instance quoted_field_dec f : Decision (quoted_field f).
Proof. destruct f; unfold quoted_field; apply _. Defined.

Definition csv_record_ok (c : csv_record) : Prop :=
  plain_field (r_log_time c) ∧ quoted_field (r_user_name c) ∧ quoted_field (r_database_name c) ∧
  digits (r_process_id c) ∧ quoted_field (r_connection_from c) ∧ plain_field (r_session_id c) ∧
  digits (r_session_line_num c) ∧ quoted_field (r_command_tag c) ∧
  plain_field (r_session_start_time c) ∧ plain_field (r_virtual_transaction_id c) ∧
  plain_field (r_transaction_id c).
#[export] Instance csv_record_ok_dec c : Decision (csv_record_ok c).
Proof. unfold csv_record_ok. apply _. Defined.

Definition print_fields (fs : list string) (rest : string) : string :=
  foldr (λ f s, f +:+ String "," s) rest fs.

(** The line the server writes: the fields, each followed by a comma, the severity, and the rest. *)
Definition csv_print (c : csv_record) (severity rest : string) : string :=
  print_fields
    [r_log_time c; quoted (r_user_name c); quoted (r_database_name c); r_process_id c;
     quoted (r_connection_from c); r_session_id c; r_session_line_num c; quoted (r_command_tag c);
     r_session_start_time c; r_virtual_transaction_id c]
    (print_fields [r_transaction_id c; severity] rest).

Definition csv_head_fields (c : csv_record) : list string :=
  [r_log_time c; default "" (r_user_name c); default "" (r_database_name c); r_process_id c;
   default "" (r_connection_from c); r_session_id c; r_session_line_num c; default "" (r_command_tag c);
   r_session_start_time c; r_virtual_transaction_id c].

Lemma csv_head_match c r start s s' caps :
  csv_record_ok c → match_items r false s = Some (s', caps) →
  match_items (csv_head_items ++ r) start
    (print_fields
       [r_log_time c; quoted (r_user_name c); quoted (r_database_name c); r_process_id c;
        quoted (r_connection_from c); r_session_id c; r_session_line_num c; quoted (r_command_tag c);
        r_session_start_time c; r_virtual_transaction_id c] s) = Some (s', csv_head_fields c ++ caps).
Proof.
  intros (H1 & H2 & H3 & [H4 H4'] & H5 & H6 & [H7 H7'] & H8 & H9 & H10 & _) Hr.
  unfold csv_head_items, print_fields, csv_head_fields. cbn [foldr]. rewrite <-!app_assoc.
  apply seg_plain_ok; [|done]. do 2 (apply seg_quoted_ok; [|done]). apply seg_digits_ok; [|done..].
  apply seg_quoted_ok; [|done]. apply seg_plain_ok; [|done]. apply seg_digits_ok; [|done..].
  apply seg_quoted_ok; [|done]. do 2 (apply seg_plain_ok; [|done]). done.
Qed.

Lemma csv_tail_match tx sev start rest :
  plain_field tx → word sev →
  match_items csv_tail_items start (print_fields [tx; sev] rest) = Some (rest, [tx; sev]).
Proof. intros Htx [Hw Hne]. apply seg_plain_ok; [|done]. by apply (seg_word_ok []). Qed.

(** A severity with other characters is taken for a part of the transaction, and the next field
    for the severity. *)
Lemma csv_tail_skip tx sev next start rest :
  plain_field tx → plain_field sev → str_forall is_word sev = false → word next →
  match_items csv_tail_items start (print_fields [tx; sev; next] rest) =
    Some (rest, [tx +:+ String "," sev; next]).
Proof.
  intros [Htc Htn] [Hsc Hsn] Hw [Hnw Hne]. unfold csv_tail_items, print_fields. cbn [foldr].
  set (tail := match_items [ILit ","%char; IGroup "error_severity" PlusWord; ILit ","%char]).
  change (match_items _ start ?t) with (match_lazy tail start "" t).
  assert (∀ st s, tail st (String "," s) = match_plus (match_items [ILit ","%char]) is_word "" s) as Htail
    by done.
  replace (tx +:+ String "," (sev +:+ String "," (next +:+ String "," rest))) with
    ((tx +:+ String "," sev) +:+ String "," (next +:+ String "," rest))
    by (by rewrite string_app_assoc, string_app_cons).
  rewrite (match_lazy_first tail _ _ start "" rest [next]); [done| | |].
  - unfold free_of in *. rewrite str_forall_app. simpl. by rewrite Htn, Hsn.
  - intros st u v Huv Hv. destruct v as [|b v]; [done|]. rewrite string_app_cons.
    destruct (decide (b = ","%char)) as [->|Hb]; [|unfold tail; simpl; by rewrite bool_decide_false].
    rewrite Htail. assert (v = sev) as ->.
    { clear -Huv Htc Hsc. revert u Huv. induction tx as [|a tx IH]; intros u Huv.
      - destruct u as [|c u]; [by injection Huv|]. rewrite string_app_cons in Huv. injection Huv as <- ->.
        by destruct (free_of_suffix _ _ _ _ Hsc).
      - apply free_of_cons in Htc as [Ha Htc]. destruct u as [|c u].
        + rewrite string_app_nil_l, string_app_cons in Huv. by injection Huv.
        + rewrite !string_app_cons in Huv. injection Huv as <- Huv. by eapply (IH Htc). }
    by apply word_not_captured.
  - intros st. rewrite Htail. rewrite (match_plus_all _ _ next (String "," rest) "" rest []); done.
Qed.

Lemma find_from_match r st s s' caps :
  match_items r st s = Some (s', caps) → ∃ full, find_from r st s = Some (full :: caps).
Proof. intros H. destruct s; simpl; rewrite H; eauto. Qed.

Lemma match_begin r s : match_items ([IBegin; IBegin] ++ r) true s = match_items r true s.
Proof. reflexivity. Qed.

Lemma csv_find c s s' caps :
  csv_record_ok c → match_items csv_tail_items false s = Some (s', caps) →
  ∃ full, FindStringSubmatch csvLogRegexp
    (print_fields
       [r_log_time c; quoted (r_user_name c); quoted (r_database_name c); r_process_id c;
        quoted (r_connection_from c); r_session_id c; r_session_line_num c; quoted (r_command_tag c);
        r_session_start_time c; r_virtual_transaction_id c] s) = Some (full :: csv_head_fields c ++ caps).
Proof.
  intros Hok Ht. unfold FindStringSubmatch, csvLogRegexp. apply (find_from_match _ _ _ s').
  rewrite match_begin. by apply csv_head_match.
Qed.

(** The counted event of a line, if it matches: severity as printed and database. *)
Definition line_event (lp : LogParser) (line : string) : option (string * string) :=
  matches ← FindStringSubmatch (LogsMatchRegex lp) line;
  result ← regexMatchesToMap lp matches;
  severity ← result !! "error_severity";
  database ← result !! "database_name";
  Some (severity, database).

Lemma line_event_fields lp line full l1 l2 l3 l4 l5 l6 l7 l8 l9 l10 l11 l12 :
  LogsMatchRegex lp = csvLogRegexp →
  FindStringSubmatch csvLogRegexp line = Some [full; l1; l2; l3; l4; l5; l6; l7; l8; l9; l10; l11; l12] →
  line_event lp line = Some (l12, l3).
Proof.
  intros Hr Hf. unfold line_event, regexMatchesToMap. rewrite Hr, Hf. cbn [mbind option_bind].
  replace (drop 1 (SubexpNames csvLogRegexp)) with
    ["log_time"; "user_name"; "database_name"; "process_id"; "connection_from"; "session_id";
     "session_line_num"; "command_tag"; "session_start_time"; "virtual_transaction_id";
     "transaction_id"; "error_severity"] by reflexivity.
  cbn [matches_to_map]. rewrite !bool_decide_false by done. cbn [mbind option_bind].
  rewrite lookup_insert_eq. cbn [mbind option_bind]. by rewrite !lookup_insert_ne, lookup_insert_eq by done.
Qed.

Lemma csv_line_event lp c sev rest :
  LogsMatchRegex lp = csvLogRegexp → csv_record_ok c → word sev →
  line_event lp (csv_print c sev rest) = Some (sev, default "" (r_database_name c)).
Proof.
  intros Hr Hok Hs. destruct (csv_find c (print_fields [r_transaction_id c; sev] rest) rest
    [r_transaction_id c; sev] Hok) as [full Hf].
  - apply csv_tail_match; [apply Hok|done].
  - unfold csv_print. eapply line_event_fields; [done|exact Hf].
Qed.

Lemma csv_line_event_skip lp c sev next rest :
  LogsMatchRegex lp = csvLogRegexp → csv_record_ok c → plain_field sev →
  str_forall is_word sev = false → word next →
  line_event lp (csv_print c sev (next +:+ String "," rest)) =
    Some (next, default "" (r_database_name c)).
Proof.
  intros Hr Hok Hp Hw Hn.
  destruct (csv_find c (print_fields [r_transaction_id c; sev; next] rest) rest
    [r_transaction_id c +:+ String "," sev; next] Hok) as [full Hf].
  - apply csv_tail_skip; [apply Hok|done..].
  - unfold csv_print. eapply line_event_fields; [done|exact Hf].
Qed.

(** A match has all groups, and only words are captured as severities. *)
Lemma csv_find_inv line caps :
  FindStringSubmatch csvLogRegexp line = Some caps →
  ∃ full l1 l2 l3 l4 l5 l6 l7 l8 l9 l10 l11 l12,
    caps = [full; l1; l2; l3; l4; l5; l6; l7; l8; l9; l10; l11; l12] ∧ word l12.
Proof.
  intros Hf.
  assert (∃ full caps' st s s', caps = full :: caps' ∧ match_items csvLogRegexp st s = Some (s', caps'))
    as (full & caps' & st & s & s' & -> & Hm).
  { unfold FindStringSubmatch in Hf. revert Hf. generalize true. induction line as [|a line IH]; intros st Hf.
    - cbn [find_from] in Hf. destruct (match_items csvLogRegexp st "") as [[s' c]|] eqn:E; [|done].
      simplify_eq. eauto 10.
    - cbn [find_from] in Hf. destruct (match_items csvLogRegexp st (String a line)) as [[s' c]|] eqn:E.
      + simplify_eq. eauto 10.
      + by apply (IH false). }
  apply match_items_class in Hm.
  do 12 (apply Forall2_cons_inv_l in Hm as (? & ? & ? & Hm & ->)). apply Forall2_nil_inv_l in Hm as ->.
  do 13 eexists. split; [reflexivity|]. unfold word. naive_solver.
Qed.

Lemma line_event_word lp line sev db :
  LogsMatchRegex lp = csvLogRegexp → line_event lp line = Some (sev, db) → word sev.
Proof.
  intros Hr He. destruct (FindStringSubmatch csvLogRegexp line) as [caps|] eqn:Hf.
  - destruct (csv_find_inv _ _ Hf) as (?&?&?&?&?&?&?&?&?&?&?&?&?&->&Hw).
    by rewrite (line_event_fields _ _ _ _ _ _ _ _ _ _ _ _ _ _ _ Hr Hf) in He; simplify_eq.
  - unfold line_event in He. by rewrite Hr, Hf in He.
Qed.

Lemma NewLogParser_regex answer mdb lp :
  NewLogParser answer mdb = Returns (Ok lp) →
  LogsMatchRegex lp = csvLogRegexp ∧ StoreCh lp = [] ∧ eventCounts lp = ∅ ∧ eventCountsTotal lp = ∅ ∧
  fileOffsets lp = ∅ ∧ lastSendTime lp = zero_time.
Proof.
  unfold NewLogParser. rewrite compile_csvLog. intros [= H].
  destruct (tryDetermineLogSettings answer) as [cfg|e]; [|done].
  destruct (negb _); [done|]. destruct (negb _); [done|]. by injection H as <-.
Qed.

Lemma NewLogParser_realDbname answer mdb lp :
  NewLogParser answer mdb = Returns (Ok lp) → realDbname lp = RealDbname (md_Info mdb).
Proof.
  unfold NewLogParser. rewrite compile_csvLog. intros [= H].
  destruct (tryDetermineLogSettings answer) as [cfg|e]; [|done].
  destruct (negb _); [done|]. destruct (negb _); [done|]. by injection H as <-.
Qed.

(** ** Conservation of counts *)

(** An integer column of an envelope with one row. *)
Definition column (name : string) (e : MeasurementEnvelope) : Z :=
  match Data e with
  | [row] => match row !! name with Some (VInt64 n) => n | _ => 0 end
  | _ => 0
  end.

Definition sum_Z (l : list Z) : Z := foldr Z.add 0 l.

Lemma sum_Z_app l k : sum_Z (l ++ k) = sum_Z l + sum_Z k.
Proof. induction l; simpl; [done|]. rewrite IHl. lia. Qed.

(** What was sent for a severity and what is still to be sent. *)
Definition total_reported (lp : LogParser) (s : string) : Z :=
  sum_Z (column (strings_ToLower s +:+ "_total") <$> StoreCh lp) + default 0 (eventCountsTotal lp !! s).
Definition db_reported (lp : LogParser) (s : string) : Z :=
  sum_Z (column (strings_ToLower s) <$> StoreCh lp) + default 0 (eventCounts lp !! s).

Lemma envelope_columns lp now s :
  s ∈ pgSeverities →
  column (strings_ToLower s) (GetMeasurementEnvelope lp now) = default 0 (eventCounts lp !! s) ∧
  column (strings_ToLower s +:+ "_total") (GetMeasurementEnvelope lp now) =
    default 0 (eventCountsTotal lp !! s).
Proof.
  intros Hs. unfold column, GetMeasurementEnvelope. cbn [Data].
  unfold pgSeverities in *. cbn [foldl]. unfold severity_columns.
  repeat (apply elem_of_cons in Hs as [->|Hs]); [..|by apply not_elem_of_nil in Hs];
    split; by repeat (rewrite lookup_insert_ne by done); rewrite lookup_insert_eq.
Qed.

Lemma zeroEventCounts_lookup m s : s ∈ pgSeverities → zeroEventCounts m !! s = Some 0.
Proof.
  unfold zeroEventCounts. generalize pgSeverities. intros l. revert m.
  assert (∀ (k : list string) (m : gmap string Z),
    m !! s = Some 0 → foldl (λ m x, <[x := 0]> m) m k !! s = Some 0) as Hkeep.
  { induction k as [|x k IH]; intros m Hm; simpl; [done|]. apply IH.
    destruct (decide (x = s)) as [->|]; [apply lookup_insert_eq|by rewrite lookup_insert_ne]. }
  induction l as [|x l IH]; intros m Hs; [by apply not_elem_of_nil in Hs|].
  apply elem_of_cons in Hs as [->|Hs]; simpl; [|by apply IH]. apply Hkeep, lookup_insert_eq.
Qed.

(** Sending moves counts from the counters to the channel. *)
Lemma send_if_needed_reported lp clk d lp' s :
  s ∈ pgSeverities → send_if_needed lp clk d = Some lp' →
  total_reported lp' s = total_reported lp s ∧ db_reported lp' s = db_reported lp s.
Proof.
  intros Hs. unfold send_if_needed. destruct (HasSendIntervalElapsed lp (clk 0%nat)); [|by intros [= ->]].
  destruct d; [done|]. intros [= <-]. unfold total_reported, db_reported.
  cbn [StoreCh eventCounts eventCountsTotal]. rewrite !fmap_app, !sum_Z_app. cbn [fmap list_fmap sum_Z foldr].
  rewrite !zeroEventCounts_lookup by done. destruct (envelope_columns lp (clk 1%nat) s Hs) as [-> ->].
  simpl. lia.
Qed.

Lemma incr_lookup m k s : default 0 (incr m k !! s) = default 0 (m !! s) + (if decide (k = s) then 1 else 0).
Proof.
  unfold incr. case_decide as Hk; [subst; by rewrite lookup_insert_eq|]. rewrite lookup_insert_ne by done. lia.
Qed.

(** The severity an event is counted under. *)
Definition counted_as (lp : LogParser) (sev : string) : string :=
  severityToEnglish (ServerMessagesLang (lp_cfg lp)) sev.

Lemma count_event_reported lp sev db s :
  total_reported (count_event lp sev db) s =
    total_reported lp s + (if decide (counted_as lp sev = s) then 1 else 0) ∧
  db_reported (count_event lp sev db) s =
    db_reported lp s + (if decide (realDbname lp = db ∧ counted_as lp sev = s) then 1 else 0).
Proof.
  assert ((if bool_decide (ServerMessagesLang (lp_cfg lp) ≠ "en")
           then severityToEnglish (ServerMessagesLang (lp_cfg lp)) sev else sev) = counted_as lp sev) as Hsev.
  { unfold counted_as. case_bool_decide as Hl; [done|]. unfold severityToEnglish. case_bool_decide; naive_solver. }
  unfold count_event. rewrite Hsev. clear Hsev. unfold total_reported, db_reported.
  cbn [StoreCh eventCounts eventCountsTotal with_counts]. rewrite !incr_lookup.
  split; [lia|]. case_bool_decide as Hd.
  - rewrite incr_lookup. repeat case_decide; naive_solver lia.
  - rewrite decide_False by naive_solver. lia.
Qed.

(** What never changes. *)
Definition same_setup (lp lp' : LogParser) : Prop :=
  lp_cfg lp' = lp_cfg lp ∧ LogsMatchRegex lp' = LogsMatchRegex lp ∧ realDbname lp' = realDbname lp ∧
  lp_Interval lp' = lp_Interval lp ∧ lp_conn lp' = lp_conn lp.

#[export] Instance same_setup_refl : Reflexive same_setup.
Proof. by intros lp. Qed.
#[export] Instance same_setup_trans : Transitive same_setup.
Proof. intros ??? (?&?&?&?&?) (?&?&?&?&?). unfold same_setup. split_and!; congruence. Qed.

Lemma count_event_setup lp sev db : same_setup lp (count_event lp sev db).
Proof. done. Qed.
Lemma send_if_needed_setup lp clk d lp' : send_if_needed lp clk d = Some lp' → same_setup lp lp'.
Proof. unfold send_if_needed. by repeat case_match; intros; simplify_eq. Qed.
Lemma remember_offset_setup lp f n : same_setup lp (remember_offset lp f n).
Proof. unfold remember_offset. by case_match. Qed.
#[export] Hint Resolve count_event_setup send_if_needed_setup remember_offset_setup : pgwatch.

(** The table of offsets is bounded. *)
Lemma remember_offset_bounded lp f n :
  Z.of_nat (size (fileOffsets lp)) ≤ maxTrackedFiles →
  Z.of_nat (size (fileOffsets (remember_offset lp f n))) ≤ maxTrackedFiles.
Proof.
  intros Hs. unfold remember_offset. case_match; [done|]. cbn. case_match eqn:Hb; [|by apply Z.ltb_ge in Hb].
  rewrite map_size_empty. unfold maxTrackedFiles. lia.
Qed.

(** The parser after a line, as far as the counters are concerned. *)
Definition count_line (lp : LogParser) (line : string) : LogParser :=
  match line_event lp line with Some (sev, db) => count_event lp sev db | None => lp end.

(** ** Theorems *)


(** Severities are captured as ASCII words only.  A message whose severity is printed in
    another alphabet is counted under the field that follows it, the SQLSTATE, and none of the
    reported counters changes; this concerns every severity of the Korean, Russian and Chinese
    translations, although the source lists them. *)
Theorem localised_severity_lost lp c sev next rest :
  LogsMatchRegex lp = csvLogRegexp → csv_record_ok c → plain_field sev → str_forall is_word sev = false →
  word next → counted_as lp next ∉ pgSeverities →
  line_event lp (csv_print c sev (next +:+ String "," rest)) = Some (next, default "" (r_database_name c)) ∧
  (∀ s, s ∈ pgSeverities →
    total_reported (count_line lp (csv_print c sev (next +:+ String "," rest))) s = total_reported lp s) ∧
  Forall (λ lang, ∃ table, pgSeveritiesLocale !! lang = Some table ∧
            map_Forall (λ s _, plain_field s ∧ str_forall is_word s = false) table) ["ko"; "ru"; "zh"].
Proof.
  intros Hr Hok Hp Hw Hn Hc. pose proof (csv_line_event_skip lp c sev next rest Hr Hok Hp Hw Hn) as Hev.
  split_and!; [done| |].
  - intros s Hs. unfold count_line. rewrite Hev.
    destruct (count_event_reported lp next (default "" (r_database_name c)) s) as [-> _].
    rewrite decide_False by congruence. lia.
  - repeat constructor; (eexists; split; [reflexivity|]); apply (bool_decide_unpack _); vm_compute; exact I.
Qed.

(** ** Examples *)

Definition sample_log_settings (lang : string) : LogConfig := {|
  CollectorEnabled := true; CSVDestination := true; TruncateOnRotation := false; Directory := "/log";
  ServerMessagesLang := lang |}.

Definition sample_log_conn : DbConn :=
  with_info (NewDbConn (sample_source "db")) {| IsInRecovery := false; VersionStr := ""; Version := 0;
    RealDbname := "app"; SystemIdentifier := ""; IsSuperuser := false; Extensions := ∅;
    ExecEnv := ""; ApproxDbSize := 0; RtChangeState := ∅ |}.

Definition sample_parser (lang : string) : LogParser :=
  match NewLogParser (Ok (sample_log_settings lang)) sample_log_conn with
  | Returns (Ok lp) => lp
  | _ => {| lp_cfg := sample_log_settings lang; LogsMatchRegex := []; lp_conn := sample_log_conn;
            realDbname := ""; lp_Interval := 0; StoreCh := []; eventCounts := ∅; eventCountsTotal := ∅;
            lastSendTime := 0; fileOffsets := ∅ |}
  end.

Definition sample_record : csv_record := {|
  r_log_time := "2026-01-01 10:00:00.123 UTC"; r_user_name := Some "alice"; r_database_name := Some "app";
  r_process_id := "4242"; r_connection_from := Some "[local]"; r_session_id := "65a0.1092";
  r_session_line_num := "7"; r_command_tag := Some "SELECT"; r_session_start_time := "2026-01-01 09:00:00 UTC";
  r_virtual_transaction_id := "3/12"; r_transaction_id := "0" |}.


Lemma localised_severity_lost_witness :
  line_event (sample_parser "ru") (csv_print sample_record "ОШИБКА" "22012,more") = Some ("22012", "app") ∧
  total_reported (count_line (sample_parser "ru") (csv_print sample_record "ОШИБКА" "22012,more")) "ERROR" =
    total_reported (sample_parser "ru") "ERROR".
Proof.
  destruct (localised_severity_lost (sample_parser "ru") sample_record "ОШИБКА" "22012" "more")
    as (H1 & H2 & _).
  - vm_compute. reflexivity.
  - apply (bool_decide_unpack _). vm_compute. exact I.
  - apply (bool_decide_unpack _). vm_compute. exact I.
  - vm_compute. reflexivity.
  - apply (bool_decide_unpack _). vm_compute. exact I.
  - apply (bool_decide_unpack _). vm_compute. exact I.
  - split; [exact H1|]. apply H2. apply (bool_decide_unpack _). vm_compute. exact I.
Defined.
