(* ===== verification/LogLocal.v ===== *)
(** * Reading the server log on the same host ([internal/reaper/logparser_local.go])

    The loop follows the newest log file of the directory, line by line, and moves on when a newer
    file appears.  It is a state machine: one step is one turn of the outer loop, which finds and
    opens a file, or one turn of the inner loop, which reads a line.  The file system is given at
    every step by what it answers then: names, times of modification, contents, failures.  An open
    file is identified with its name: the server only appends to a file or truncates it.

    The theorems show that every line read is reported exactly once, that of a file that grows by
    whole lines every line after the starting point is read exactly once and in order, and which file
    is chosen next. *)

From Stdlib Require Import Ascii.
From S2P Require Import Prelude GoStrings Metrics Sources Conn Scheduler Regexp LogParser.
From stdpp Require Import options.

Local Open Scope Z_scope.

(** ** Choice of a file *)

(** [getFileWithLatestTimestamp]: the first file with the greatest time; an error of [os.Stat] ends
    the search. *)
Fixpoint latest_loop (stat : string → result Z) (files : list string) (latest : string) (maxDate : Z)
    : result string :=
  match files with
  | [] => Ok latest
  | f :: files' =>
      match stat f with
      | Err e => Err e
      | Ok t => if time_After t maxDate then latest_loop stat files' f t
                else latest_loop stat files' latest maxDate
      end
  end.
Definition getFileWithLatestTimestamp (stat : string → result Z) (files : list string) : result string :=
  latest_loop stat files "" zero_time.

(** [getFileWithNextModTimestamp]: of the files newer than the current one, the oldest. *)
Fixpoint next_loop (stat : string → result Z) (currentFile : string) (tCurrent : Z) (files : list string)
    (nextFile : string) (nextMod : Z) : string :=
  match files with
  | [] => nextFile
  | f :: files' =>
      if bool_decide (f = currentFile) then next_loop stat currentFile tCurrent files' nextFile nextMod
      else
        match stat f with
        | Err _ => next_loop stat currentFile tCurrent files' nextFile nextMod
        | Ok t =>
            if (time_IsZero nextMod || time_Before t nextMod) && time_After t tCurrent
            then next_loop stat currentFile tCurrent files' f t
            else next_loop stat currentFile tCurrent files' nextFile nextMod
        end
  end.
Definition getFileWithNextModTimestamp (glob : result (list string)) (stat : string → result Z)
    (currentFile : string) : result string :=
  match glob with
  | Err e => Err e
  | Ok files =>
      match stat currentFile with
      | Err e => Err e
      | Ok t => Ok (next_loop stat currentFile t files "" zero_time)
      end
  end.

(** ** Reading a file *)

Fixpoint str_drop (n : nat) (s : string) : string :=
  match n, s with
  | O, _ => s
  | S n, String _ s => str_drop n s
  | S _, "" => ""
  end.

Definition eol : string := String newline "".

Inductive read :=
  | ReadLine (line : string)      (* with its end of line *)
  | ReadEOF (partial : string)
  | ReadFailed.

(** [reader.ReadString('\n')] at a position: what it returns and the new position. *)
Definition ReadString (content : string) (failed : bool) (pos : nat) : read * nat :=
  if failed then (ReadFailed, pos)
  else
    let rest := str_drop pos content in
    match str_cut eol rest with
    | Some (line, _) => (ReadLine (line +:+ eol), (pos + String.length line + 1)%nat)
    | None => (ReadEOF rest, (pos + String.length rest)%nat)
    end.

(** ** The state machine *)

(** The answers of the operating system and of the clock during one step. *)
Record os := {
  os_done : bool;                        (* the context ends instead of the wait *)
  os_glob : result (list string);
  os_stat : string → result Z;
  os_open : string → option error;
  os_content : string → string;
  os_read_failed : bool;
  os_skip_failed : nat → bool;           (* while lines are skipped *)
  os_clk : nat → Z;
  os_send_done : bool;                   (* the context ends instead of the send *)
}.

Inductive phase := Outer | Inner | Stopped.

Record local_state := {
  ls_phase : phase;
  ls_lp : LogParser;
  latest : string;
  previous : string;
  handle : option nat;       (* position of the reader in the open file *)
  linesRead : Z;
  firstRun : bool;
  currInterval : Z;
}.

Definition parseLogsLocal_start (lp : LogParser) : local_state := {|
  ls_phase := Outer; ls_lp := lp; latest := ""; previous := ""; handle := None; linesRead := 0;
  firstRun := true; currInterval := 0 |}.

Definition to_phase (p : phase) (st : local_state) : local_state := {|
  ls_phase := p; ls_lp := ls_lp st; latest := latest st; previous := previous st;
  handle := handle st; linesRead := linesRead st; firstRun := firstRun st;
  currInterval := currInterval st |}.
Definition with_latest (f : string) (st : local_state) : local_state := {|
  ls_phase := ls_phase st; ls_lp := ls_lp st; latest := f; previous := previous st;
  handle := handle st; linesRead := linesRead st; firstRun := firstRun st;
  currInterval := currInterval st |}.
Definition with_handle (h : option nat) (st : local_state) : local_state := {|
  ls_phase := ls_phase st; ls_lp := ls_lp st; latest := latest st; previous := previous st;
  handle := h; linesRead := linesRead st; firstRun := firstRun st;
  currInterval := currInterval st |}.
Definition with_lines (n : Z) (st : local_state) : local_state := {|
  ls_phase := ls_phase st; ls_lp := ls_lp st; latest := latest st; previous := previous st;
  handle := handle st; linesRead := n; firstRun := firstRun st;
  currInterval := currInterval st |}.
Definition with_lp (lp : LogParser) (st : local_state) : local_state := {|
  ls_phase := ls_phase st; ls_lp := lp; latest := latest st; previous := previous st;
  handle := handle st; linesRead := linesRead st; firstRun := firstRun st;
  currInterval := currInterval st |}.
Definition not_first (st : local_state) : local_state := {|
  ls_phase := ls_phase st; ls_lp := ls_lp st; latest := latest st; previous := previous st;
  handle := handle st; linesRead := linesRead st; firstRun := false;
  currInterval := currInterval st |}.

(** The loop that skips lines that were already read; the [i]-th turn is the first argument counted
    down.  Returns the new [linesRead] and the position. *)
Fixpoint skip_lines (fuel : nat) (content : string) (failed : nat → bool) (i linesRead : Z) (pos : nat)
    : Z * nat :=
  match fuel with
  | O => (linesRead, pos)
  | S fuel =>
      let '(r, pos) := ReadString content (failed (Z.to_nat i)) pos in
      match r with
      | ReadEOF _ => if i <? linesRead then (0, pos) else (i, pos)
      | ReadFailed => (i, pos)
      | ReadLine _ => skip_lines fuel content failed (i + 1) linesRead pos
      end
  end.

(** The search for the newest file; [None] is [continue]. *)
Definition find_latest (o : os) (st : local_state) : option local_state + local_state :=
  if bool_decide (latest st = "") || firstRun st then
    match os_glob o with
    | Err _ | Ok [] => inr st
    | Ok [f] => inl (Some (with_latest f st))
    | Ok files =>
        match getFileWithLatestTimestamp (os_stat o) files with
        | Ok f => if bool_decide (f = "") then inr (with_latest "" st) else inl (Some (with_latest f st))
        | Err _ => inr (with_latest "" st)
        end
    end
  else inl None.

(** Opening the file, and moving to the place where reading starts. *)
Definition open_latest (o : os) (st : local_state) : option local_state :=
  match handle st with
  | Some _ => Some st
  | None =>
      match os_open o (latest st) with
      | Some _ => None
      | None =>
          let content := os_content o (latest st) in
          let linesOffset := fileOffsets (ls_lp st) !! latest st in
          let ok := bool_decide (is_Some linesOffset) in
          let n := if ok && negb (TruncateOnRotation (lp_cfg (ls_lp st)))
                   then default 0 linesOffset else linesRead st in
          if (ok || bool_decide (previous st = latest st)) && (0 <? n) then
            let '(n, pos) := skip_lines (Z.to_nat n) content (os_skip_failed o) 1 n 0 in
            Some (with_handle (Some pos) (with_lines n st))
          else if firstRun st then
            Some (not_first (with_handle (Some (String.length content)) (with_lines n st)))
          else Some (with_handle (Some 0%nat) (with_lines n st))
      end
  end.

Definition local_outer (o : os) (st : local_state) : local_state :=
  if os_done o then to_phase Stopped st
  else
    let st := {|
      ls_phase := Outer; ls_lp := ls_lp st; latest := latest st; previous := previous st;
      handle := handle st; linesRead := linesRead st; firstRun := firstRun st;
      currInterval := if currInterval st =? 0 then lp_Interval (ls_lp st) else currInterval st |} in
    let enter st := match open_latest o st with Some st => to_phase Inner st | None => st end in
    match find_latest o st with
    | inr st => st
    | inl None => enter st
    | inl (Some st) => enter st
    end.

(** Counting a line: [None] is an index out of range, [inr] the [break] for a missing group. *)
Definition local_line (lp : LogParser) (line : string) : option (LogParser + unit) :=
  match FindStringSubmatch (LogsMatchRegex lp) line with
  | None => Some (inl lp)
  | Some matches =>
      result ← regexMatchesToMap lp matches;
      match result !! "error_severity", result !! "database_name" with
      | Some errorSeverity, Some databaseName => Some (inl (count_event lp errorSeverity databaseName))
      | _, _ => Some (inr tt)
      end
  end.

Definition local_send (o : os) (st : local_state) : local_state :=
  match send_if_needed (ls_lp st) (os_clk o) (os_send_done o) with
  | None => to_phase Stopped st
  | Some lp => with_lp lp st
  end.

Definition local_inner (o : os) (st : local_state) : option local_state :=
  let pos := default 0%nat (handle st) in
  let '(r, pos) := ReadString (os_content o (latest st)) (os_read_failed o) pos in
  match r with
  | ReadFailed => Some (to_phase Outer (with_handle None st))
  | ReadEOF _ =>
      let st := with_handle (Some pos) st in
      if os_done o then Some (to_phase Stopped st)
      else
        let file := match getFileWithNextModTimestamp (os_glob o) (os_stat o) (latest st) with
                    | Ok f => f | Err _ => "" end in
        if bool_decide (file ≠ "" ∧ file ≠ latest st) then
          Some {| ls_phase := Outer; ls_lp := remember_offset (ls_lp st) (latest st) (linesRead st);
                  latest := file; previous := latest st; handle := None; linesRead := 0;
                  firstRun := firstRun st; currInterval := currInterval st |}
        else Some (local_send o st)
  | ReadLine line =>
      let st := with_lines (linesRead st + 1) (with_handle (Some pos) st) in
      r ← local_line (ls_lp st) line;
      match r with
      | inr _ => Some (to_phase Outer st)
      | inl lp => Some (local_send o (with_lp lp st))
      end
  end.

(** One turn of the loop the state is in; [None] is a panic. *)
Definition local_step (o : os) (st : local_state) : option local_state :=
  match ls_phase st with
  | Outer => Some (local_outer o st)
  | Inner => local_inner o st
  | Stopped => Some st
  end.

Fixpoint local_run (env : nat → os) (n : nat) (st : local_state) : option local_state :=
  match n with
  | O => Some st
  | S n => st ← local_run env n st; local_step (env n) st
  end.

(** The line a step reads, and the lines of a run. *)
Definition local_read (o : os) (st : local_state) : list string :=
  match ls_phase st with
  | Inner =>
      match (ReadString (os_content o (latest st)) (os_read_failed o) (default 0%nat (handle st))).1 with
      | ReadLine line => [line]
      | _ => []
      end
  | _ => []
  end.
Fixpoint local_lines (env : nat → os) (n : nat) (st : local_state) : list string :=
  match n with
  | O => []
  | S n => local_lines env n st ++ match local_run env n st with Some st => local_read (env n) st | None => [] end
  end.

(** ** Counting *)

Lemma local_line_spec lp line :
  LogsMatchRegex lp = csvLogRegexp → local_line lp line = Some (inl (count_line lp line)).
Proof.
  intros Hr. unfold local_line, count_line.
  destruct (FindStringSubmatch csvLogRegexp line) as [caps|] eqn:Hf.
  - destruct (csv_find_inv _ _ Hf) as (?&?&?&?&?&?&?&?&?&?&?&?&?&->&_).
    pose proof (line_event_fields _ _ _ _ _ _ _ _ _ _ _ _ _ _ _ Hr Hf) as He. rewrite He, Hr, Hf.
    unfold line_event in He. rewrite Hr, Hf in He. cbn [mbind option_bind] in He |- *.
    destruct (regexMatchesToMap lp _) as [m|]; [|done]. cbn [mbind option_bind] in He |- *.
    destruct (m !! "error_severity") as [sev|]; [|done]. cbn [mbind option_bind] in He.
    by destruct (m !! "database_name") as [db|]; simplify_eq/=.
  - unfold line_event. by rewrite Hr, Hf.
Qed.

Definition is_severity (lp : LogParser) (s line : string) : bool :=
  match line_event lp line with Some (sev, _) => bool_decide (counted_as lp sev = s) | None => false end.
Definition is_db_severity (lp : LogParser) (s line : string) : bool :=
  match line_event lp line with
  | Some (sev, db) => bool_decide (realDbname lp = db ∧ counted_as lp sev = s)
  | None => false
  end.

(** The number of the lines with a property. *)
Definition count_if (p : string → bool) (l : list string) : Z := len (List.filter p l).

Lemma count_if_app p l k : count_if p (l ++ k) = count_if p l + count_if p k.
Proof. unfold count_if. rewrite List.filter_app, length_app. lia. Qed.
Lemma count_if_one p x : count_if p [x] = if p x then 1 else 0.
Proof. unfold count_if. simpl. by destruct (p x). Qed.
Lemma count_if_ext p q l : (∀ x, p x = q x) → count_if p l = count_if q l.
Proof. intros H. unfold count_if. f_equal. f_equal. by apply List.filter_ext. Qed.

(** The events of a line depend on the expression, the language and the database only. *)
Lemma is_severity_setup lp lp' s line :
  same_setup lp lp' →
  is_severity lp' s line = is_severity lp s line ∧ is_db_severity lp' s line = is_db_severity lp s line.
Proof.
  intros (Hc & Hr & Hd & _). unfold is_severity, is_db_severity, line_event, regexMatchesToMap, counted_as.
  by rewrite Hc, Hr, Hd.
Qed.

Lemma count_line_reported lp line s :
  total_reported (count_line lp line) s = total_reported lp s + count_if (is_severity lp s) [line] ∧
  db_reported (count_line lp line) s = db_reported lp s + count_if (is_db_severity lp s) [line] ∧
  same_setup lp (count_line lp line).
Proof.
  rewrite !count_if_one. unfold count_line, is_severity, is_db_severity.
  destruct (line_event lp line) as [[sev db]|]; [|split_and!; [lia|lia|reflexivity]].
  destruct (count_event_reported lp sev db s) as [-> ->].
  split_and!; [..|apply count_event_setup]; case_decide; case_bool_decide; naive_solver lia.
Qed.

(** ** Runs *)

(** One step reads lines and accounts for them. *)
Definition accounts (lp lp' : LogParser) (lines : list string) : Prop :=
  same_setup lp lp' ∧
  (Z.of_nat (size (fileOffsets lp)) ≤ maxTrackedFiles → Z.of_nat (size (fileOffsets lp')) ≤ maxTrackedFiles) ∧
  ∀ s, s ∈ pgSeverities →
    total_reported lp' s = total_reported lp s + count_if (is_severity lp s) lines ∧
    db_reported lp' s = db_reported lp s + count_if (is_db_severity lp s) lines.

Lemma accounts_nil lp : accounts lp lp [].
Proof. split_and!; [reflexivity|done|]. intros s _. unfold count_if. simpl. lia. Qed.

Lemma accounts_app lp lp' lp'' l k : accounts lp lp' l → accounts lp' lp'' k → accounts lp lp'' (l ++ k).
Proof.
  intros (Hs & Hb & Hc) (Hs' & Hb' & Hc'). split_and!; [by etrans|auto|].
  intros s Hin. destruct (Hc s Hin) as [H1 H2], (Hc' s Hin) as [H1' H2']. rewrite !count_if_app, H1', H2', H1, H2.
  rewrite (count_if_ext (is_severity lp' s) (is_severity lp s)), (count_if_ext (is_db_severity lp' s) (is_db_severity lp s));
    [lia|intros; by apply is_severity_setup..].
Qed.

Lemma accounts_count lp line : accounts lp (count_line lp line) [line].
Proof.
  split_and!; [apply (count_line_reported lp line "")| |].
  - unfold count_line. by repeat case_match.
  - intros s _. destruct (count_line_reported lp line s) as (?&?&_). done.
Qed.

Lemma accounts_send lp clk d lp' : send_if_needed lp clk d = Some lp' → accounts lp lp' [].
Proof.
  intros H. split_and!; [by eapply send_if_needed_setup| |].
  - unfold send_if_needed in H. by repeat case_match; simplify_eq.
  - intros s Hs. destruct (send_if_needed_reported lp clk d lp' s Hs H) as [-> ->].
    unfold count_if. simpl. lia.
Qed.

Lemma accounts_remember lp f n : accounts lp (remember_offset lp f n) [].
Proof.
  split_and!; [apply remember_offset_setup|apply remember_offset_bounded|].
  intros s _. unfold count_if, remember_offset. by case_match; cbn; rewrite !Z.add_0_r.
Qed.

Lemma local_send_accounts o st : accounts (ls_lp st) (ls_lp (local_send o st)) [].
Proof.
  unfold local_send. destruct (send_if_needed _ _ _) as [lp|] eqn:E; [by eapply accounts_send|apply accounts_nil].
Qed.

Lemma open_latest_lp o st st' : open_latest o st = Some st' → ls_lp st' = ls_lp st.
Proof.
  unfold open_latest. by repeat case_match; intros; simplify_eq.
Qed.

Lemma local_outer_lp o st : ls_lp (local_outer o st) = ls_lp st.
Proof.
  unfold local_outer. destruct (os_done o); [done|]. unfold find_latest.
  repeat (case_match; try done); simplify_eq/=;
    match goal with H : open_latest _ _ = Some _ |- _ => by rewrite (open_latest_lp _ _ _ H) | _ => done end.
Qed.

Lemma local_step_accounts o st :
  LogsMatchRegex (ls_lp st) = csvLogRegexp →
  ∃ st', local_step o st = Some st' ∧ accounts (ls_lp st) (ls_lp st') (local_read o st).
Proof.
  intros Hr. unfold local_step, local_read. destruct (ls_phase st).
  - eexists. split; [done|]. rewrite local_outer_lp. apply accounts_nil.
  - unfold local_inner. destruct (ReadString _ _ _) as [r pos]. destruct r as [line|partial|]; cbn [fst].
    + rewrite local_line_spec by done. eexists. split; [done|].
      apply (accounts_app _ (count_line (ls_lp st) line) _ [line] []); [apply accounts_count|].
      apply (local_send_accounts o (with_lp (count_line (ls_lp st) line) _)).
    + destruct (os_done o); [eexists; split; [done|]; apply accounts_nil|].
      case_bool_decide; (eexists; split; [done|]); [apply accounts_remember|].
      apply (local_send_accounts o (with_handle (Some pos) st)).
    + eexists. split; [done|]. apply accounts_nil.
  - eexists. split; [done|]. apply accounts_nil.
Qed.

Lemma local_run_accounts env n st :
  LogsMatchRegex (ls_lp st) = csvLogRegexp →
  ∃ st', local_run env n st = Some st' ∧ accounts (ls_lp st) (ls_lp st') (local_lines env n st).
Proof.
  intros Hr. induction n as [|n (st' & Hn & Ha)]; [by exists st; split; [|apply accounts_nil]|].
  cbn [local_run local_lines]. rewrite Hn. cbn [mbind option_bind].
  destruct (local_step_accounts (env n) st') as (st'' & -> & Ha').
  { destruct Ha as [(_ & -> & _) _]. done. }
  exists st''. split; [done|]. by eapply accounts_app.
Qed.

(** ** Whole lines *)

Definition str_concat (l : list string) : string := foldr (λ a b, a +:+ b) "" l.

Lemma str_concat_snoc l x : str_concat (l ++ [x]) = str_concat l +:+ x.
Proof.
  induction l as [|a l IH]; simpl; [by rewrite string_app_nil_r|]. by rewrite IH, string_app_assoc.
Qed.

Lemma str_drop_app a b : str_drop (String.length a) (a +:+ b) = b.
Proof. induction a as [|c a IH]; [done|]. rewrite string_app_cons. simpl. done. Qed.

Lemma string_app_empty (a b : string) : a +:+ b = "" → a = "" ∧ b = "".
Proof. destruct a as [|c a]; [done|]. by rewrite string_app_cons. Qed.

(** The text is a sequence of whole lines. *)
Definition whole (s : string) : Prop := s = "" ∨ ∃ t, s = t +:+ eol.

Lemma whole_suffix a b : whole (a +:+ b) → whole b.
Proof.
  intros [H|[t H]]; [left; by apply string_app_empty in H as [_ ->]|]. revert t H. induction a as [|c a IH]; intros t H; [right; eauto|].
  rewrite string_app_cons in H. destruct t as [|d t].
  - injection H as -> H. left. by apply string_app_empty in H as [_ ->].
  - rewrite string_app_cons in H. injection H as -> H. by apply (IH t).
Qed.

Lemma str_cut_eol t : is_Some (str_cut eol (t +:+ eol)).
Proof.
  induction t as [|c t [[u v] IH]]; [by eexists|]. rewrite string_app_cons. cbn [str_cut].
  destruct (cut_prefix eol (String c (t +:+ eol))); [by eexists|]. rewrite IH. by eexists.
Qed.

(** A line: text without an end of line, and the end of line. *)
Definition one_line (s : string) : Prop := ∃ t, s = t +:+ eol ∧ free_of newline t.

Lemma str_cut_eol_free s t u : str_cut eol s = Some (t, u) → free_of newline t.
Proof.
  revert t. induction s as [|c s IH]; intros t; simpl; [done|].
  case_decide as Hc; [by intros [= <- _]|].
  destruct (str_cut eol s) as [[t' u']|]; simpl; [|done]. intros [= <- ->].
  apply free_of_cons. split; [congruence|by apply IH].
Qed.

(** A read at the end of what was read so far takes the next line, or there is none. *)
Lemma ReadString_whole a b :
  whole (a +:+ b) →
  match ReadString (a +:+ b) false (String.length a) with
  | (ReadLine line, pos) =>
      one_line line ∧ ∃ t, b = line +:+ t ∧ pos = String.length (a +:+ line)
  | (ReadEOF partial, pos) => b = "" ∧ pos = String.length a
  | (ReadFailed, _) => False
  end.
Proof.
  intros Hw. unfold ReadString. rewrite str_drop_app.
  destruct (str_cut eol b) as [[line t]|] eqn:E.
  - pose proof (str_cut_eol_free _ _ _ E). apply str_cut_Some in E. split; [by exists line|].
    exists t. split; [by rewrite string_app_assoc|]. rewrite !string_length_app. simpl. lia.
  - apply whole_suffix in Hw as [->|[t ->]]; [|by destruct (str_cut_eol t) as [? ?]; simplify_eq].
    split; [done|]. simpl. lia.
Qed.

(** ** A single log file that grows by whole lines *)

Record single_file (env : nat → os) (f : string) (C : nat → string) : Prop := {
  sf_name : f ≠ "";
  sf_content n : os_content (env n) f = C n;
  sf_whole n : whole (C n);
  sf_grows n : ∃ s, C (S n) = C n +:+ s;
  sf_glob n : os_glob (env n) = Ok [f];
  sf_open n : os_open (env n) f = None;
  sf_reads n : os_read_failed (env n) = false;
}.

Section single_file.
Context (env : nat → os) (f : string) (C : nat → string).
Hypothesis Hfile : single_file env f C.

(** The lines read so far are what the file got since it was opened, up to the position. *)
Definition following (n : nat) (st : local_state) (lines : list string) : Prop :=
  LogsMatchRegex (ls_lp st) = csvLogRegexp ∧
  ((ls_phase st ≠ Inner ∧ handle st = None ∧ lines = [] ∧ firstRun st = true ∧
    fileOffsets (ls_lp st) = ∅ ∧ previous st = "") ∨
   (ls_phase st ≠ Outer ∧ latest st = f ∧ Forall one_line lines ∧
    ∃ n0 rest, (n0 ≤ n)%nat ∧ C n = C n0 +:+ str_concat lines +:+ rest ∧
      handle st = Some (String.length (C n0 +:+ str_concat lines)))).

Lemma next_file_none o : os_glob o = Ok [f] →
  match getFileWithNextModTimestamp (os_glob o) (os_stat o) f with Ok g => g | Err _ => "" end = "".
Proof using Type.
  intros ->. unfold getFileWithNextModTimestamp. destruct (os_stat o f); [|done].
  cbn [next_loop]. by rewrite bool_decide_true.
Qed.

Lemma send_fields o st :
  latest (local_send o st) = latest st ∧ handle (local_send o st) = handle st ∧
  (ls_phase (local_send o st) = ls_phase st ∨ ls_phase (local_send o st) = Stopped).
Proof using Type. unfold local_send. case_match; split_and!; auto. Qed.

Lemma outer_following n st :
  following n st [] → ls_phase st = Outer → following (S n) (local_outer (env n) st) [].
Proof using Hfile.
  intros [Hr [(_ & Hh & _ & Hf & Ho & Hp)|(Hphase & _)]] Hout; [|done].
  split; [by rewrite local_outer_lp|]. unfold local_outer.
  destruct (os_done (env n)); [left; by split_and!|]. unfold find_latest. cbn [latest firstRun].
  rewrite Hf, orb_true_r, (sf_glob _ _ _ Hfile). unfold open_latest, with_latest. cbn [latest firstRun handle ls_lp previous linesRead].
  rewrite Hh, (sf_open _ _ _ Hfile), Ho, Hp, lookup_empty. cbn [is_Some default].
  rewrite (bool_decide_false (is_Some None)) by apply is_Some_None.
  rewrite (bool_decide_false ("" = f)) by (intros Heq; by apply (sf_name _ _ _ Hfile)). cbn [andb orb].
  right. split_and!; [done|done|constructor|]. exists n.
  destruct (sf_grows _ _ _ Hfile n) as [s Hs]. exists s. split_and!; [lia| |].
  - by rewrite Hs.
  - cbn. by rewrite (sf_content _ _ _ Hfile), string_app_nil_r.
Qed.

Lemma inner_following n st lines :
  following n st lines → ls_phase st = Inner →
  ∃ st', local_inner (env n) st = Some st' ∧ following (S n) st' (lines ++ local_read (env n) st) ∧
    (local_read (env n) st = [] → ∃ n0, (n0 ≤ n)%nat ∧ C n = C n0 +:+ str_concat lines).
Proof using Hfile.
  intros [Hr [(Hphase & _)|(_ & Hl & Hlines & n0 & rest & Hn0 & HC & Hh)]] Hin; [done|].
  destruct (sf_grows _ _ _ Hfile n) as [s Hs].
  pose proof (sf_whole _ _ _ Hfile n) as Hw. rewrite HC, <-string_app_assoc in Hw.
  unfold local_inner, local_read. rewrite Hin, Hh, Hl, (sf_content _ _ _ Hfile), (sf_reads _ _ _ Hfile), HC.
  rewrite <-string_app_assoc. cbn [default]. pose proof (ReadString_whole _ _ Hw) as Hread.
  destruct (ReadString _ _ _) as [[line|partial|] pos]; cbn [fst]; [| |done].
  - destruct Hread as [Hone (t & -> & ->)]. rewrite local_line_spec by done. cbn [mbind option_bind].
    eexists. split; [done|]. split; [|done].
    set (st1 := with_lp _ _). destruct (send_fields (env n) st1) as (Hsl & Hsh & Hsp).
    split.
    { destruct (local_send_accounts (env n) st1) as [(_ & -> & _) _].
      destruct (count_line_reported (ls_lp st) line "") as (_ & _ & _ & Hc & _).
      etrans; [exact Hc|done]. }
    right. rewrite Hsl, Hsh. split_and!.
    + cbn in Hsp. rewrite Hin in Hsp. destruct Hsp as [->| ->]; done.
    + done.
    + apply Forall_app. split; [done|by constructor].
    + exists n0, (t +:+ s). rewrite str_concat_snoc. split_and!; [lia|rewrite Hs, HC; by rewrite !string_app_assoc|].
      cbn. by rewrite !string_app_assoc.
  - destruct Hread as [-> ->]. rewrite string_app_nil_r in HC.
    assert (∀ st' : local_state, ls_phase st' ≠ Outer → latest st' = f → LogsMatchRegex (ls_lp st') = csvLogRegexp →
      handle st' = Some (String.length (C n0 +:+ str_concat lines)) → following (S n) st' (lines ++ [])) as Hfin.
    { intros st' Hp' Hl' Hr' Hh'. split; [done|]. right. rewrite app_nil_r. split_and!; [done..|].
      exists n0, s. split_and!; [lia|rewrite Hs, HC; by rewrite !string_app_assoc|done]. }
    set (st1 := with_handle _ st).
    assert (latest st1 = f) as Hl1 by done. rewrite Hl1, next_file_none by apply Hfile.
    destruct (os_done (env n)).
    + eexists. split; [done|]. split; [by apply Hfin|intros _; exists n0; by rewrite string_app_nil_r].
    + rewrite bool_decide_false by (by intros []). eexists. split; [done|].
      split; [|intros _; exists n0; by rewrite string_app_nil_r]. destruct (send_fields (env n) st1) as (Hsl & Hsh & Hsp).
      apply Hfin; [|by rewrite Hsl| |by rewrite Hsh].
      2: { by destruct (local_send_accounts (env n) st1) as [(_ & -> & _) _]. }
      cbn in Hsp. rewrite Hin in Hsp. destruct Hsp as [->| ->]; done.
Qed.

Lemma run_following lp n :
  LogsMatchRegex lp = csvLogRegexp → fileOffsets lp = ∅ →
  ∃ st, local_run env n (parseLogsLocal_start lp) = Some st ∧
    following n st (local_lines env n (parseLogsLocal_start lp)).
Proof using Hfile.
  intros Hr Ho. induction n as [|n (st & Hrun & Hfol)].
  { eexists. split; [done|]. split; [done|]. left. by split_and!. }
  cbn [local_run local_lines]. rewrite Hrun. cbn [mbind option_bind].
  unfold local_step. destruct (ls_phase st) eqn:Hp.
  - eexists. split; [done|]. unfold local_read. rewrite Hp, app_nil_r.
    assert (local_lines env n (parseLogsLocal_start lp) = []) as Hnil.
    { destruct Hfol as [_ [(_ & _ & ? & _)|(? & _)]]; done. }
    rewrite Hnil in Hfol |- *. by apply outer_following.
  - destruct (inner_following n st _ Hfol Hp) as (st' & -> & Hfol' & _). by exists st'.
  - eexists. split; [done|]. unfold local_read. rewrite Hp, app_nil_r.
    destruct Hfol as [? [H|(? & ? & ? & n0 & rest & Hn0 & HC & Hh)]]; (split; [done|]); [by left|right].
    destruct (sf_grows _ _ _ Hfile n) as [s Hs]. split_and!; [done..|]. exists n0, (rest +:+ s).
    split_and!; [lia|rewrite Hs, HC; by rewrite !string_app_assoc|done].
Qed.
End single_file.

(** ** The chosen file *)

(** A candidate to follow the current file. *)
Definition newer (stat : string → result Z) (cur : string) (t : Z) (g : string) (tg : Z) : Prop :=
  g ≠ cur ∧ stat g = Ok tg ∧ t < tg.

Lemma next_loop_spec stat cur t files next nextMod :
  zero_time ≤ t → (nextMod = zero_time ∧ next = "" ∨ newer stat cur t next nextMod) →
  let f := next_loop stat cur t files next nextMod in
  (f = next ∨ f ∈ files) ∧
  ((f = "" ∧ nextMod = zero_time ∧ ∀ g tg, g ∈ files → ¬ newer stat cur t g tg) ∨
   ∃ tf, newer stat cur t f tf ∧ (nextMod ≠ zero_time → tf ≤ nextMod) ∧
     ∀ g tg, g ∈ files → newer stat cur t g tg → tf ≤ tg).
Proof.
  intros Ht. revert next nextMod. induction files as [|g files IH]; intros next nextMod Hnext; cbn [next_loop].
  { split; [by left|]. destruct Hnext as [[-> ->]|Hn]; [left|right].
    - split_and!; [done..|]. by intros ?? ?%not_elem_of_nil.
    - exists nextMod. split_and!; [done|lia|]. by intros ?? ?%not_elem_of_nil. }
  assert (∀ next' nextMod', (nextMod' = zero_time ∧ next' = "" ∨ newer stat cur t next' nextMod') →
    (next' = next ∨ next' = g) → (nextMod ≠ zero_time → nextMod' ≠ zero_time ∧ nextMod' ≤ nextMod) →
    (∀ tg, newer stat cur t g tg → nextMod' ≠ zero_time ∧ nextMod' ≤ tg) →
    (nextMod' ≠ zero_time → nextMod = zero_time → ∃ tg, newer stat cur t g tg) →
    let f := next_loop stat cur t files next' nextMod' in
    (f = next ∨ f ∈ g :: files) ∧
    ((f = "" ∧ nextMod = zero_time ∧ ∀ g' tg, g' ∈ g :: files → ¬ newer stat cur t g' tg) ∨
     ∃ tf, newer stat cur t f tf ∧ (nextMod ≠ zero_time → tf ≤ nextMod) ∧
       ∀ g' tg, g' ∈ g :: files → newer stat cur t g' tg → tf ≤ tg)) as Hstep.
  { intros next' nextMod' Hn' Hwhich Hle Hg Hback. destruct (IH next' nextMod' Hn') as [Hin Hres].
    split; [set_solver|]. destruct Hres as [(Hf & Hz & Hnone)|(tf & Hnew & Hmax & Hall)]; [left|right].
    - split_and!; [done| |].
      + destruct (decide (nextMod = zero_time)) as [|Hne]; [done|]. by destruct (Hle Hne).
      + intros g' tg [->|Hin']%elem_of_cons Hnew; [|by apply (Hnone g' tg)]. by destruct (Hg _ Hnew).
    - exists tf. split_and!; [done| |].
      + intros Hne. destruct (Hle Hne) as [Hz ?]. specialize (Hmax Hz). lia.
      + intros g' tg [->|Hin']%elem_of_cons Hnew'; [|by eapply Hall]. destruct (Hg _ Hnew') as [Hz ?].
        specialize (Hmax Hz). lia. }
  case_bool_decide as Hcur.
  { apply Hstep; [done|by left|done|by intros ? (? & _)|done]. }
  destruct (stat g) as [tg|e] eqn:Hstat.
  2: { apply Hstep; [done|by left|done| |done]. intros ? (_ & ? & _). congruence. }
  destruct ((time_IsZero nextMod || time_Before tg nextMod) && time_After tg t) eqn:Hcond.
  - apply andb_true_iff in Hcond as [Hc1 Hc2]. unfold time_IsZero, time_Before, time_After in *. boolify.
    apply orb_true_iff in Hc1.
    apply Hstep; [right; by split_and!|by right| | |]; 
      [|intros x (_ & ? & _); assert (x = tg) as -> by congruence; lia|intros _ _; exists tg; by split_and!].
    intros Hne. destruct Hc1 as [?%Z.eqb_eq|?%Z.ltb_lt]; [done|lia].
  - apply Hstep; [done|by left|done| |done]. intros tg' (_ & Hst & Hlt).
    assert (tg' = tg) as -> by congruence.
    unfold time_IsZero, time_Before, time_After in Hcond.
    apply andb_false_iff in Hcond as [[Hz Hb]%orb_false_iff|Hb]; boolify; lia.
Qed.

(** ** Theorems *)


(** When a file ends, the reader moves to the oldest of the files that are newer, if there is one. *)
Lemma next_file_choice stat cur files t :
  stat cur = Ok t → zero_time ≤ t → (∀ t', stat "" ≠ Ok t') →
  ∃ f, getFileWithNextModTimestamp (Ok files) stat cur = Ok f ∧
    ((f = "" ∧ ∀ g tg, g ∈ files → ¬ newer stat cur t g tg) ∨
     (f ∈ files ∧ ∃ tf, newer stat cur t f tf ∧
        ∀ g tg, g ∈ files → newer stat cur t g tg → tf ≤ tg)).
Proof.
  intros Hcur Ht Hne. unfold getFileWithNextModTimestamp. rewrite Hcur. eexists. split; [done|].
  destruct (next_loop_spec stat cur t files "" zero_time Ht ltac:(by left)) as [Hin Hres].
  destruct Hres as [(Hf & _ & Hnone)|(tf & Hnew & _ & Hall)]; [by left|right].
  destruct Hin as [Hnil|Hin]; [|eauto]. rewrite Hnil in Hnew. destruct Hnew as (_ & Hst & _). by apply Hne in Hst.
Qed.

(** ** Examples *)

Definition sample_log_line : string := csv_print sample_record "ERROR" ("22012," +:+ eol).
Definition sample_os (content : string) (failed : bool) : os := {|
  os_done := false; os_glob := Ok ["/log/a.csv"]; os_stat := λ _, Ok 1; os_open := λ _, None;
  os_content := λ _, content; os_read_failed := failed; os_skip_failed := λ _, false;
  os_clk := λ _, 1000; os_send_done := false |}.

(** The contents of the log file over time, one line and then two. *)
Definition growing (n : nat) : string :=
  match n with
  | O => ""
  | 1%nat => sample_log_line
  | _ => sample_log_line +:+ sample_log_line
  end.
Definition growing_env (n : nat) : os := sample_os (growing n) false.

Lemma growing_single_file : single_file growing_env "/log/a.csv" growing.
Proof.
  split; try done.
  - intros [|[|n]]; [by left|right..].
    + exists (csv_print sample_record "ERROR" "22012,"). vm_compute. reflexivity.
    + exists (sample_log_line +:+ csv_print sample_record "ERROR" "22012,"). vm_compute. reflexivity.
  - intros [|[|n]]; [by exists sample_log_line|by exists sample_log_line|by exists ""; rewrite string_app_nil_r].
Qed.


(** A line that is seen while the server is still writing it is lost: the part that was read at the
    end of the file is thrown away, and the rest does not look like a line. *)
Example partial_line_lost :
  let half := String.substring 0 40 sample_log_line in
  let env n := sample_os (match n with O => "" | 1%nat => half | _ => sample_log_line end) false in
  match local_run env 4 (parseLogsLocal_start (sample_parser "C.")) with
  | Some st => total_reported (ls_lp st) "ERROR"
  | None => -1
  end = 0.
Proof. vm_compute. reflexivity. Qed.

(** After a failed read the file is opened again and read from its beginning, because the condition
    that recognises the file that was being read compares with the one before it: its lines are
    counted twice. *)
Example reread_after_failure :
  let env n := sample_os (match n with O => "" | _ => sample_log_line end) (bool_decide (n = 2%nat)) in
  match local_run env 5 (parseLogsLocal_start (sample_parser "C.")) with
  | Some st => total_reported (ls_lp st) "ERROR"
  | None => -1
  end = 2.
Proof. vm_compute. reflexivity. Qed.
