(* ===== verification/LogRemote.v ===== *)
(** * Reading the server log through the server ([internal/reaper/logparser_remote.go])

    The loop asks the server for the newest log file and fetches what was added to it in chunks of
    at most ten megabytes; the lines of a chunk are counted one by one, and when they are used up the
    size of the file is asked for again and a newer file is looked for.  One step of the state
    machine is one turn of the outer loop, which may fetch a chunk, or one turn of the inner loop.
    The answers of the server at every step are arguments.

    The theorems show that every line taken from a chunk is reported exactly once, that a file that
    grows by whole lines is read completely, in order and once, as long as no chunk has the greatest
    size, and that with a chunk of that size its last, incomplete line is counted twice. *)

From Stdlib Require Import Ascii.
From S2P Require Import Prelude GoStrings Metrics Sources Conn Scheduler Regexp LogParser LogLocal.
From stdpp Require Import options.

Local Open Scope Z_scope.

(** [uint64] arithmetic. *)
Definition u64 (z : Z) : Z := z `mod` 2 ^ 64.

(** The answers of the server and of the clock during one step. *)
Record server_log := {
  sl_done : bool;
  sl_latest : result (string * Z * Z);               (* name, size, modification of the newest file *)
  sl_read : string → Z → Z → result string;          (* pg_read_file of a name, offset, length *)
  sl_state : string → result (Z * Z);                (* size and modification of a file *)
  sl_next : Z → result (string * Z);                 (* the first file modified after a time *)
  sl_clk : nat → Z;
  sl_send_done : bool;
}.

Record remote_state := {
  rs_phase : phase;
  rs_lp : LogParser;
  latestLogFile : string;
  rs_linesRead : Z;
  rs_firstRun : bool;
  rs_currInterval : Z;
  size : Z;
  offset : Z;
  modification : Z;
  lines : list string;
  numOfLines : Z;
}.

Definition parseLogsRemote_start (lp : LogParser) : remote_state := {|
  rs_phase := Outer; rs_lp := lp; latestLogFile := ""; rs_linesRead := 0; rs_firstRun := true;
  rs_currInterval := 0; size := 0; offset := 0; modification := zero_time; lines := []; numOfLines := 0 |}.

Definition rs_to (p : phase) (st : remote_state) : remote_state := {|
  rs_phase := p; rs_lp := rs_lp st; latestLogFile := latestLogFile st; rs_linesRead := rs_linesRead st;
  rs_firstRun := rs_firstRun st; rs_currInterval := rs_currInterval st; size := size st;
  offset := offset st; modification := modification st; lines := lines st; numOfLines := numOfLines st |}.
Definition rs_interval (i : Z) (st : remote_state) : remote_state := {|
  rs_phase := rs_phase st; rs_lp := rs_lp st; latestLogFile := latestLogFile st;
  rs_linesRead := rs_linesRead st; rs_firstRun := rs_firstRun st; rs_currInterval := i; size := size st;
  offset := offset st; modification := modification st; lines := lines st; numOfLines := numOfLines st |}.
Definition rs_parser (lp : LogParser) (st : remote_state) : remote_state := {|
  rs_phase := rs_phase st; rs_lp := lp; latestLogFile := latestLogFile st;
  rs_linesRead := rs_linesRead st; rs_firstRun := rs_firstRun st; rs_currInterval := rs_currInterval st;
  size := size st; offset := offset st; modification := modification st; lines := lines st;
  numOfLines := numOfLines st |}.
Definition rs_file (f : string) (sz off m : Z) (first : bool) (st : remote_state) : remote_state := {|
  rs_phase := rs_phase st; rs_lp := rs_lp st; latestLogFile := f; rs_linesRead := rs_linesRead st;
  rs_firstRun := first; rs_currInterval := rs_currInterval st; size := sz; offset := off;
  modification := m; lines := lines st; numOfLines := numOfLines st |}.

(** The lines of a chunk, and the position after it: if the chunk has the greatest size its last line
    is to be read again. *)
Definition take_chunk (chunk : string) (sizeToRead : Z) (st : remote_state) : remote_state :=
  let ls := strings_Split chunk eol in
  let off := if sizeToRead =? maxChunkSize
             then u64 (offset st - Z.of_nat (String.length (default "" (last ls)))) else offset st in
  {| rs_phase := rs_phase st; rs_lp := rs_lp st; latestLogFile := latestLogFile st; rs_linesRead := 0;
     rs_firstRun := rs_firstRun st; rs_currInterval := rs_currInterval st; size := size st;
     offset := off; modification := modification st; lines := ls; numOfLines := len ls |}.

Definition remote_outer (o : server_log) (st : remote_state) : remote_state :=
  if sl_done o then rs_to Stopped st
  else
    let st := rs_interval (if rs_currInterval st =? 0 then lp_Interval (rs_lp st) else rs_currInterval st) st in
    let found :=
      if bool_decide (latestLogFile st = "") || rs_firstRun st then
        match sl_latest o with
        | Err _ => None
        | Ok (name, sz, m) => Some (rs_file name sz sz m false st)
        end
      else Some st in
    match found with
    | None => st
    | Some st =>
        if (rs_linesRead st =? numOfLines st) && negb (size st =? offset st) then
          let sizeToRead := Z.min maxChunkSize (u64 (size st - offset st)) in
          let r := sl_read o (latestLogFile st) (offset st) sizeToRead in
          let st := rs_file (latestLogFile st) (size st) (u64 (offset st + sizeToRead)) (modification st)
                      (rs_firstRun st) st in
          match r with
          | Err _ => st
          | Ok chunk => rs_to Inner (take_chunk chunk sizeToRead st)
          end
        else rs_to Inner st
    end.

(** The check at the end of the lines: [inr] leaves the inner loop, [inl] goes on in it. *)
Definition remote_check (o : server_log) (st : remote_state) : remote_state + remote_state :=
  let '(latestSize, m, err) :=
    match sl_state o (latestLogFile st) with
    | Ok (sz, m) => (sz, m, false)
    | Err _ => (0, modification st, true)
    end in
  let st := rs_file (latestLogFile st) (size st) (offset st) m (rs_firstRun st) st in
  if ((size st =? latestSize) && (offset st =? size st)) || err then
    match sl_next o m with
    | Err _ => inl st
    | Ok (fileName, latestSize) =>
        if bool_decide (latestLogFile st = fileName) then inl st
        else
          let lp := remember_offset (rs_lp st) (latestLogFile st) (size st) in
          let off := match fileOffsets lp !! fileName with
                     | Some lastOffset => if TruncateOnRotation (lp_cfg lp) then 0 else lastOffset
                     | None => 0
                     end in
          inr (rs_interval 0 (rs_file fileName latestSize off m (rs_firstRun st) (rs_parser lp st)))
    end
  else inr (rs_interval 0 (rs_file (latestLogFile st) latestSize (offset st) m (rs_firstRun st) st)).

(** Counting a line; a missing group is read as the empty string.  [None] is an index out of range. *)
Definition remote_line (lp : LogParser) (line : string) : option LogParser :=
  match FindStringSubmatch (LogsMatchRegex lp) line with
  | None => Some lp
  | Some matches =>
      result ← regexMatchesToMap lp matches;
      Some (count_event lp (default "" (result !! "error_severity")) (default "" (result !! "database_name")))
  end.

Definition remote_send (o : server_log) (st : remote_state) : remote_state :=
  match send_if_needed (rs_lp st) (sl_clk o) (sl_send_done o) with
  | None => rs_to Stopped st
  | Some lp => rs_parser lp st
  end.

Definition next_line (st : remote_state) : remote_state := {|
  rs_phase := rs_phase st; rs_lp := rs_lp st; latestLogFile := latestLogFile st;
  rs_linesRead := rs_linesRead st + 1; rs_firstRun := rs_firstRun st;
  rs_currInterval := rs_currInterval st; size := size st; offset := offset st;
  modification := modification st; lines := lines st; numOfLines := numOfLines st |}.

(** The rest of a turn of the inner loop. *)
Definition remote_rest (o : server_log) (st : remote_state) : option remote_state :=
  if rs_linesRead st <? numOfLines st then
    line ← (if rs_linesRead st <? 0 then None else lines st !! Z.to_nat (rs_linesRead st));
    lp ← remote_line (rs_lp st) line;
    Some (remote_send o (rs_parser lp (next_line st)))
  else Some (remote_send o st).

Definition remote_inner (o : server_log) (st : remote_state) : option remote_state :=
  if rs_linesRead st =? numOfLines st then
    if sl_done o then Some (rs_to Stopped st)
    else
      match remote_check o st with
      | inr st => Some (rs_to Outer st)
      | inl st => remote_rest o st
      end
  else remote_rest o st.

(** One turn of the loop the state is in; [None] is a panic. *)
Definition remote_step (o : server_log) (st : remote_state) : option remote_state :=
  match rs_phase st with
  | Outer => Some (remote_outer o st)
  | Inner => remote_inner o st
  | Stopped => Some st
  end.

Fixpoint remote_run (env : nat → server_log) (n : nat) (st : remote_state) : option remote_state :=
  match n with
  | O => Some st
  | S n => st ← remote_run env n st; remote_step (env n) st
  end.

(** The line a step counts, and the lines of a run. *)
Definition remote_read (st : remote_state) : list string :=
  match rs_phase st with
  | Inner => if rs_linesRead st <? numOfLines st then option_list (lines st !! Z.to_nat (rs_linesRead st)) else []
  | _ => []
  end.
Fixpoint remote_lines (env : nat → server_log) (n : nat) (st : remote_state) : list string :=
  match n with
  | O => []
  | S n => remote_lines env n st ++ match remote_run env n st with Some st => remote_read st | None => [] end
  end.

(** ** Counting *)

Lemma remote_line_spec lp line :
  LogsMatchRegex lp = csvLogRegexp → remote_line lp line = Some (count_line lp line).
Proof.
  intros Hr. pose proof (local_line_spec lp line Hr) as Hl. unfold local_line in Hl. unfold remote_line.
  destruct (FindStringSubmatch _ line) as [caps|]; [|injection Hl as Hl; by rewrite <-Hl].
  destruct (regexMatchesToMap lp caps) as [m|]; [|done]. cbn [mbind option_bind] in Hl |- *.
  destruct (m !! "error_severity"), (m !! "database_name"); simplify_eq/=. by rewrite Hl.
Qed.

(** The lines are indexed within their bounds. *)
Definition in_bounds (st : remote_state) : Prop :=
  numOfLines st = len (lines st) ∧ 0 ≤ rs_linesRead st ≤ numOfLines st.

Lemma remote_outer_lp o st : rs_lp (remote_outer o st) = rs_lp st.
Proof. unfold remote_outer. by repeat case_match; simplify_eq/=. Qed.

Lemma remote_outer_bounds o st : in_bounds st → in_bounds (remote_outer o st).
Proof.
  unfold remote_outer, in_bounds. intros Hb. destruct (sl_done o); [done|].
  destruct (bool_decide _ || _); [destruct (sl_latest o) as [[[name sz] m]|]; [|done]|];
    (destruct (_ && _); [|done]); (destruct (sl_read _ _ _ _); [|done]); cbn; lia.
Qed.

Lemma remote_send_accounts o st : accounts (rs_lp st) (rs_lp (remote_send o st)) [].
Proof.
  unfold remote_send. destruct (send_if_needed _ _ _) as [lp|] eqn:E; [by eapply accounts_send|apply accounts_nil].
Qed.

Lemma remote_send_fields o st :
  latestLogFile (remote_send o st) = latestLogFile st ∧ rs_linesRead (remote_send o st) = rs_linesRead st ∧
  rs_firstRun (remote_send o st) = rs_firstRun st ∧ size (remote_send o st) = size st ∧
  offset (remote_send o st) = offset st ∧ lines (remote_send o st) = lines st ∧
  numOfLines (remote_send o st) = numOfLines st ∧
  (rs_phase (remote_send o st) = rs_phase st ∨ rs_phase (remote_send o st) = Stopped).
Proof. unfold remote_send. case_match; split_and!; auto. Qed.

Lemma remote_check_lp o st :
  match remote_check o st with
  | inl st' | inr st' =>
      accounts (rs_lp st) (rs_lp st') [] ∧ lines st' = lines st ∧ numOfLines st' = numOfLines st ∧
      rs_linesRead st' = rs_linesRead st
  end.
Proof.
  unfold remote_check. destruct (sl_state o (latestLogFile st)) as [[sz m]|e]; cbn;
    (destruct (_ || _); [destruct (sl_next o _) as [[f sz']|]; [case_bool_decide|]|]; cbn;
     split_and!; try done; [..]; first [apply accounts_nil|apply accounts_remember]).
Qed.

Lemma remote_rest_accounts o st :
  LogsMatchRegex (rs_lp st) = csvLogRegexp → in_bounds st →
  ∃ st', remote_rest o st = Some st' ∧ in_bounds st' ∧
    accounts (rs_lp st) (rs_lp st')
      (if rs_linesRead st <? numOfLines st then option_list (lines st !! Z.to_nat (rs_linesRead st)) else []).
Proof.
  intros Hr [Hn Hb]. unfold remote_rest. destruct (rs_linesRead st <? numOfLines st) eqn:Hlt.
  - apply Z.ltb_lt in Hlt. destruct (Z.ltb_spec (rs_linesRead st) 0); [lia|].
    destruct (lookup_lt_is_Some_2 (lines st) (Z.to_nat (rs_linesRead st))) as [line Hline]; [lia|].
    rewrite Hline. cbn [mbind option_bind option_list]. rewrite remote_line_spec by done. cbn [mbind option_bind].
    set (st1 := rs_parser _ _). exists (remote_send o st1).
    destruct (remote_send_fields o st1) as (_ & Hl & _ & _ & _ & Hls & Hns & _).
    split_and!; [done| |].
    + unfold in_bounds. rewrite Hl, Hls, Hns. cbn. lia.
    + apply (accounts_app _ (count_line (rs_lp st) line) _ [line] []); [apply accounts_count|].
      apply (remote_send_accounts o st1).
  - exists (remote_send o st). destruct (remote_send_fields o st) as (_ & Hl & _ & _ & _ & Hls & Hns & _).
    split_and!; [done|unfold in_bounds; by rewrite Hl, Hls, Hns|apply remote_send_accounts].
Qed.

Lemma remote_step_accounts o st :
  LogsMatchRegex (rs_lp st) = csvLogRegexp → in_bounds st →
  ∃ st', remote_step o st = Some st' ∧ in_bounds st' ∧ accounts (rs_lp st) (rs_lp st') (remote_read st).
Proof.
  intros Hr Hb. unfold remote_step, remote_read. destruct (rs_phase st).
  - eexists. split_and!; [done|by apply remote_outer_bounds|rewrite remote_outer_lp; apply accounts_nil].
  - unfold remote_inner. destruct (Z.eqb_spec (rs_linesRead st) (numOfLines st)) as [Heq|Hne].
    + rewrite Heq, Z.ltb_irrefl. destruct (sl_done o); [eexists; split_and!; [done|done|apply accounts_nil]|].
      pose proof (remote_check_lp o st) as Hc.
      destruct (remote_check o st) as [st1|st1]; destruct Hc as (Ha & Hl & Hn & Hlr).
      * destruct (remote_rest_accounts o st1) as (st' & -> & Hb' & Ha').
        { destruct Ha as [(_ & -> & _) _]. done. }
        { unfold in_bounds in *. by rewrite Hl, Hn, Hlr. }
        exists st'. split_and!; [done|done|]. rewrite Hlr, Hn, Heq, Z.ltb_irrefl in Ha'.
        by apply (accounts_app _ (rs_lp st1) _ [] []).
      * eexists. split_and!; [done| |done]. unfold in_bounds in *. cbn. by rewrite Hl, Hn, Hlr.
    + by apply remote_rest_accounts.
  - eexists. split_and!; [done|done|apply accounts_nil].
Qed.

Lemma remote_run_accounts env n st :
  LogsMatchRegex (rs_lp st) = csvLogRegexp → in_bounds st →
  ∃ st', remote_run env n st = Some st' ∧ in_bounds st' ∧
    accounts (rs_lp st) (rs_lp st') (remote_lines env n st).
Proof.
  intros Hr Hb. induction n as [|n (st' & Hn & Hb' & Ha)]; [by exists st; split_and!; [..|apply accounts_nil]|].
  cbn [remote_run remote_lines]. rewrite Hn. cbn [mbind option_bind].
  destruct (remote_step_accounts (env n) st') as (st'' & -> & Hb'' & Ha').
  { destruct Ha as [(_ & -> & _) _]. done. }
  { done. }
  exists st''. split_and!; [done|done|]. by eapply accounts_app.
Qed.

(** ** Lines of a text *)

(** Splitting at ends of line, character by character. *)
Fixpoint split_lines (s : string) : list string :=
  match s with
  | "" => [""]
  | String c s' =>
      if bool_decide (c = newline) then "" :: split_lines s'
      else match split_lines s' with h :: t => String c h :: t | [] => [] end
  end.

Lemma split_lines_free s : free_of newline s → split_lines s = [s].
Proof.
  induction s as [|c s IH]; [done|]. intros [Hc Hs]%free_of_cons. simpl.
  by rewrite bool_decide_false, (IH Hs) by done.
Qed.

Lemma split_lines_nonempty s : split_lines s ≠ [].
Proof.
  induction s as [|c s IH]; [done|]. simpl. case_bool_decide; [done|]. by destruct (split_lines s).
Qed.

Lemma split_lines_eol t b : split_lines (t +:+ eol +:+ b) = split_lines t ++ split_lines b.
Proof.
  induction t as [|c t IH]; [done|]. rewrite string_app_cons. cbn [split_lines].
  case_bool_decide; [by rewrite IH|]. rewrite IH.
  destruct (split_lines t) as [|h l] eqn:E; [by apply split_lines_nonempty in E|done].
Qed.

Lemma str_cut_eol_None s : str_cut eol s = None → free_of newline s.
Proof.
  induction s as [|c s IH]; [done|]. cbn [str_cut cut_prefix eol]. case_decide as Hc; [done|].
  destruct (str_cut eol s) as [[]|]; [done|]. intros _. apply free_of_cons. split; [congruence|by apply IH].
Qed.

Lemma strings_Split_lines s : strings_Split s eol = split_lines s.
Proof.
  unfold strings_Split. assert (∀ n t, (String.length t ≤ n)%nat → split_fuel n eol t = split_lines t) as H;
    [|by apply H].
  induction n as [|n IH]; intros t Ht; [destruct t; [reflexivity|simpl in Ht; lia]|]. cbn [split_fuel].
  destruct (str_cut eol t) as [[b a]|] eqn:E; [|by rewrite split_lines_free by by apply str_cut_eol_None].
  pose proof (str_cut_eol_free _ _ _ E) as Hf. apply str_cut_Some in E as ->.
  rewrite split_lines_eol, (split_lines_free b) by done. simpl. f_equal. apply IH.
  rewrite !string_length_app in Ht. simpl in Ht. lia.
Qed.

(** The lines with text of a text. *)
Definition text_lines (s : string) : list string := filter (λ l, l ≠ "") (split_lines s).

Lemma text_lines_app a b : whole a → text_lines (a +:+ b) = text_lines a ++ text_lines b.
Proof.
  intros [->|[t ->]]; [done|]. unfold text_lines. rewrite string_app_assoc, split_lines_eol.
  rewrite <-(string_app_nil_r (t +:+ eol)), string_app_assoc, split_lines_eol, !filter_app. simpl.
  by rewrite app_nil_r.
Qed.

(** ** A single log file that grows by whole lines *)

Abbreviation slen s := (Z.of_nat (String.length s)).

Lemma slen_app a b : slen (a +:+ b) = slen a + slen b.
Proof. rewrite string_length_app. lia. Qed.

Lemma substring_middle a b d :
  String.substring (String.length a) (String.length b) (a +:+ b +:+ d) = b.
Proof.
  induction a as [|c a IH].
  - rewrite string_app_nil_l. induction b as [|e b IHb]; [by destruct d|].
    rewrite string_app_cons. simpl. f_equal. exact IHb.
  - rewrite string_app_cons. exact IH.
Qed.

Record single_remote (env : nat → server_log) (f : string) (C : nat → string) : Prop := {
  sr_name : f ≠ "";
  sr_whole n : whole (C n);
  sr_grows n : ∃ s, C (S n) = C n +:+ s;
  sr_size n : slen (C n) < 2 ^ 64;
  sr_latest n : ∃ m, sl_latest (env n) = Ok (f, slen (C n), m);
  sr_state n : ∃ m, sl_state (env n) f = Ok (slen (C n), m);
  sr_read n off k : sl_read (env n) f off k = Ok (String.substring (Z.to_nat off) (Z.to_nat k) (C n));
  sr_next n t : ∃ e, sl_next (env n) t = Err e;
}.

Section single_remote.
Context (env : nat → server_log) (f : string) (C : nat → string).
Hypothesis Hfile : single_remote env f C.

(** The file as it was when it was found, what was fetched, what is known to be there, and the rest. *)
Definition r_following (n : nat) (st : remote_state) (ls : list string) : Prop :=
  LogsMatchRegex (rs_lp st) = csvLogRegexp ∧ in_bounds st ∧
  (rs_phase st = Outer → rs_linesRead st = numOfLines st) ∧
  ((rs_firstRun st = true ∧ rs_phase st ≠ Inner ∧ ls = [] ∧ lines st = [] ∧ numOfLines st = 0) ∨
   (rs_firstRun st = false ∧ latestLogFile st = f ∧
    ∃ n0 A B D, (n0 ≤ n)%nat ∧ C n = (C n0 +:+ A) +:+ B +:+ D ∧ whole A ∧ whole B ∧
      offset st = slen (C n0 +:+ A) ∧ size st = slen ((C n0 +:+ A) +:+ B) ∧
      filter (λ l, l ≠ "") (ls ++ drop (Z.to_nat (rs_linesRead st)) (lines st)) = text_lines A)).

Lemma r_following_grow n st ls : r_following n st ls → r_following (S n) st ls.
Proof using Hfile.
  intros (Hr & Hb & Hp & [H|(Hf & Hl & n0 & A & B & D & Hn0 & HC & HA & HB & Ho & Hs & Hls)]);
    (split_and!; [done..|]); [by left|right].
  split_and!; [done..|]. destruct (sr_grows _ _ _ Hfile n) as [s HCs].
  exists n0, A, B, (D +:+ s). split_and!; try done; [lia|]. rewrite HCs, HC. by rewrite !string_app_assoc.
Qed.

(** Steps that leave the reading position alone. *)
Lemma r_following_same n st st' ls :
  r_following n st ls → LogsMatchRegex (rs_lp st') = csvLogRegexp → rs_linesRead st' = rs_linesRead st →
  lines st' = lines st → numOfLines st' = numOfLines st → size st' = size st → offset st' = offset st →
  latestLogFile st' = latestLogFile st → rs_firstRun st' = rs_firstRun st →
  (rs_phase st' = rs_phase st ∨ rs_phase st' = Stopped) → r_following n st' ls.
Proof using Type.
  intros (Hr & Hb & Hp & Hcase) Hr' H1 H2 H3 H4 H5 H6 H7 H8.
  split_and!; [done|unfold in_bounds in *; by rewrite H1, H2, H3| |].
  - rewrite H1, H3. intros. apply Hp. destruct H8; congruence.
  - rewrite H1, H2, H3, H4, H5, H6, H7. destruct Hcase as [(Hf & Hin & Hrest)|?]; [left|by right].
    split; [done|]. split; [|done]. destruct H8 as [->| ->]; done.
Qed.

(** A file found or known is read from where it was left. *)
Lemma fetch_following n st ls :
  r_following n st ls → rs_firstRun st = false → rs_linesRead st = numOfLines st →
  size st - offset st < maxChunkSize →
  let st' :=
    if (rs_linesRead st =? numOfLines st) && negb (size st =? offset st) then
      let sizeToRead := Z.min maxChunkSize (u64 (size st - offset st)) in
      let r := sl_read (env n) (latestLogFile st) (offset st) sizeToRead in
      let st := rs_file (latestLogFile st) (size st) (u64 (offset st + sizeToRead)) (modification st)
                  (rs_firstRun st) st in
      match r with Err _ => st | Ok chunk => rs_to Inner (take_chunk chunk sizeToRead st) end
    else rs_to Inner st in
  r_following n st' ls.
Proof using Hfile.
  intros (Hr & Hb & Hp & [(? & _)|(Hf & Hl & n0 & A & B & D & Hn0 & HC & HA & HB & Ho & Hs & Hls)]) Hfr Hlr Hmax;
    [congruence|].
  pose proof (sr_size _ _ _ Hfile n) as Hlt. rewrite HC, !slen_app in Hlt.
  rewrite Hlr, Z.eqb_refl. rewrite slen_app in Ho. rewrite !slen_app in Hs.
  destruct (Z.eqb_spec (size st) (offset st)) as [Heq|Hne]; cbn [negb andb].
  - split_and!; [done|done|done|]. right. split_and!; [done..|]. exists n0, A, B, D.
    rewrite !slen_app. by split_and!.
  - assert (u64 (size st - offset st) = slen B) as Hk by (unfold u64; rewrite Z.mod_small; lia).
    rewrite Hk, Z.min_r by lia.
    assert (u64 (offset st + slen B) = size st) as Hoff by (unfold u64; rewrite Z.mod_small; lia).
    rewrite Hl, (sr_read _ _ _ Hfile), Hoff, HC, Ho, Nat2Z.id.
    replace (Z.to_nat (slen (C n0) + slen A)) with (String.length (C n0 +:+ A))
      by (rewrite string_length_app; lia).
    rewrite substring_middle. unfold take_chunk. destruct (Z.eqb_spec (slen B) maxChunkSize); [lia|].
    split_and!; [done|unfold in_bounds; cbn; lia|done|]. right. split_and!; [done..|].
    exists n0, (A +:+ B), "", D. cbn [offset size rs_linesRead lines rs_to]. split_and!; [lia| | |by left| | |].
    + rewrite HC. by rewrite string_app_nil_l, !string_app_assoc.
    + destruct HB as [->|[t ->]]; [by rewrite string_app_nil_r|]. right. exists (A +:+ t). by rewrite string_app_assoc.
    + rewrite !slen_app. cbn. lia.
    + rewrite !slen_app. cbn. lia.
    + rewrite text_lines_app, <-Hls, Hlr, strings_Split_lines, filter_app by done. destruct Hb as [-> _].
      by rewrite Nat2Z.id, drop_all, app_nil_r.
Qed.

Lemma outer_r_following n st ls :
  r_following n st ls → rs_phase st = Outer →
  size st - offset st < maxChunkSize →
  r_following (S n) (remote_outer (env n) st) ls.
Proof using Hfile.
  intros Hfol Hout Hmax. apply r_following_grow. pose proof Hfol as (Hr & Hb & Hp & Hcase).
  specialize (Hp Hout). unfold remote_outer. destruct (sl_done (env n)).
  { apply (r_following_same n st); try done. by right. }
  set (st1 := rs_interval _ st).
  assert (r_following n st1 ls) as Hfol1 by (apply (r_following_same n st); try done; by left).
  destruct Hcase as [(Hf & _ & -> & Hnil & Hz)|(Hf & Hl & _)].
  - cbn [latestLogFile rs_firstRun st1 rs_interval]. rewrite Hf, orb_true_r.
    destruct (sr_latest _ _ _ Hfile n) as [m ->].
    apply (fetch_following n (rs_file f (slen (C n)) (slen (C n)) m false st1)); [|done|done|cbn; unfold maxChunkSize; lia].
    split_and!; [done|done|done|]. right. split_and!; [done..|].
    exists n, "", "", "". cbn. rewrite !string_app_nil_r, Hnil, drop_nil. split_and!; try done; by left.
  - cbn [latestLogFile rs_firstRun st1 rs_interval].
    rewrite Hf, Hl, (bool_decide_false (f = "")) by apply Hfile. cbn [orb].
    apply fetch_following; done.
Qed.

(** A check that finds nothing new has seen the whole file. *)
Lemma check_r_following n st ls :
  r_following n st ls → rs_phase st = Inner → rs_linesRead st = numOfLines st →
  match remote_check (env n) st with
  | inl st' => r_following n st' ls ∧ rs_phase st' = Inner ∧ rs_linesRead st' = numOfLines st' ∧
      ∃ n0, (n0 ≤ n)%nat ∧ ∃ A, C n = C n0 +:+ A ∧ filter (λ l, l ≠ "") ls = text_lines A
  | inr st' => r_following n (rs_to Outer st') ls
  end.
Proof using Hfile.
  intros (Hr & Hb & Hp & [(_ & ? & _)|(Hf & Hl & n0 & A & B & D & Hn0 & HC & HA & HB & Ho & Hs & Hls)]) Hin Hlr;
    [done|].
  pose proof Hb as [Hlen _]. rewrite Hlr, Hlen, Nat2Z.id, drop_all, app_nil_r in Hls.
  unfold remote_check. rewrite Hl. destruct (sr_state _ _ _ Hfile n) as [m ->]. rewrite orb_false_r.
  cbn [size offset rs_file].
  destruct ((size st =? slen (C n)) && (offset st =? size st)) eqn:Hend.
  - apply andb_true_iff in Hend as [H1%Z.eqb_eq H2%Z.eqb_eq].
    destruct (sr_next _ _ _ Hfile n m) as [e ->]. split_and!; [|done|done|].
    + split_and!; [done|done|done|]. right. split_and!; [done..|]. exists n0, A, B, D. split_and!; try done.
      cbn. rewrite Hlr, Hlen, Nat2Z.id, drop_all. by rewrite app_nil_r.
    + exists n0. split; [done|]. exists A. split; [|done]. rewrite HC, !slen_app in H1. rewrite !slen_app in Hs, Ho.
      assert (B = "" ∧ D = "") as [-> ->]; [|by rewrite HC, !string_app_nil_r].
      split; [destruct B|destruct D]; try done; cbn in *; lia.
  - split_and!; [done|done|done|]. right. split_and!; [done..|].
    exists n0, A, (B +:+ D), "". cbn [offset size rs_file rs_interval rs_to rs_linesRead lines].
    split_and!; try done.
    + by rewrite string_app_nil_r.
    + pose proof (sr_whole _ _ _ Hfile n) as Hw. rewrite HC in Hw. by apply whole_suffix in Hw.
    + by rewrite HC.
    + by rewrite Hlr, Hlen, Nat2Z.id, drop_all, app_nil_r.
Qed.

(** Counting a line moves it from the lines to come to the lines counted. *)
Lemma rest_r_following n st ls st' :
  r_following n st ls → rs_phase st = Inner → remote_rest (env n) st = Some st' →
  r_following n st' (ls ++ remote_read st).
Proof using Type.
  intros Hfol Hin Hrest. pose proof Hfol as (Hr & Hb & Hp & Hcase).
  destruct (remote_rest_accounts (env n) st Hr Hb) as (st'' & Hst & Hb' & [(_ & Hr' & _) _]).
  assert (st'' = st') as -> by congruence. unfold remote_read. rewrite Hin. unfold remote_rest in Hrest.
  destruct (rs_linesRead st <? numOfLines st) eqn:Hlt.
  - apply Z.ltb_lt in Hlt. destruct Hb as [Hn Hb]. destruct (Z.ltb_spec (rs_linesRead st) 0); [lia|].
    destruct (lines st !! Z.to_nat (rs_linesRead st)) as [line|] eqn:Hline; [|done].
    cbn [mbind option_bind option_list] in Hrest |- *. rewrite remote_line_spec in Hrest by done. cbn [mbind option_bind] in Hrest.
    injection Hrest as <-. set (st1 := rs_parser _ _) in *.
    destruct (remote_send_fields (env n) st1) as (E1 & E2 & E3 & E4 & E5 & E6 & E7 & E8).
    destruct Hcase as [(_ & ? & _)|(Hf & Hl & n0 & A & B & D & Hn0 & HC & HA & HB & Ho & Hs & Hls)]; [done|].
    split_and!; [congruence|done| |].
    + intros Hout. cbn in E8. rewrite Hin in E8. destruct E8; congruence.
    + right. rewrite E1, E2, E3, E4, E5, E6. split_and!; [done..|]. exists n0, A, B, D. split_and!; try done.
      cbn. rewrite <-Hls. f_equal. rewrite <-app_assoc. f_equal.
      replace (Z.to_nat (rs_linesRead st + 1)) with (S (Z.to_nat (rs_linesRead st))) by lia.
      symmetry. by apply drop_S.
  - injection Hrest as <-. rewrite app_nil_r.
    destruct (remote_send_fields (env n) st) as (E1 & E2 & E3 & E4 & E5 & E6 & E7 & E8).
    apply (r_following_same n st); try done. congruence.
Qed.

Lemma inner_r_following n st ls :
  r_following n st ls → rs_phase st = Inner →
  ∃ st', remote_inner (env n) st = Some st' ∧ r_following (S n) st' (ls ++ remote_read st).
Proof using Hfile.
  intros Hfol Hin. pose proof Hfol as (Hr & Hb & _).
  destruct (remote_step_accounts (env n) st Hr Hb) as (st' & Hst & _). unfold remote_step in Hst. rewrite Hin in Hst.
  exists st'. split; [done|]. apply r_following_grow. unfold remote_inner in Hst.
  destruct (Z.eqb_spec (rs_linesRead st) (numOfLines st)) as [Heq|Hne].
  - assert (remote_read st = []) as Hnil by (unfold remote_read; by rewrite Hin, Heq, Z.ltb_irrefl).
    rewrite Hnil, app_nil_r. destruct (sl_done (env n)).
    { injection Hst as <-. apply (r_following_same n st); try done. by right. }
    pose proof (check_r_following n st ls Hfol Hin Heq) as Hc.
    destruct (remote_check (env n) st) as [st1|st1]; [|by injection Hst as <-].
    destruct Hc as (Hfol1 & Hin1 & Heq1 & _).
    pose proof (rest_r_following n st1 ls st' Hfol1 Hin1 Hst) as Hend. unfold remote_read in Hend.
    by rewrite Hin1, Heq1, Z.ltb_irrefl, app_nil_r in Hend.
  - by apply rest_r_following.
Qed.

Lemma run_r_following lp n :
  LogsMatchRegex lp = csvLogRegexp →
  (∀ k st, (k < n)%nat → remote_run env k (parseLogsRemote_start lp) = Some st → size st - offset st < maxChunkSize) →
  ∃ st, remote_run env n (parseLogsRemote_start lp) = Some st ∧
    r_following n st (remote_lines env n (parseLogsRemote_start lp)).
Proof using Hfile.
  intros Hr. induction n as [|n IH]; intros Hmax.
  { eexists. split; [done|]. split_and!; [done|by split|done|]. left. by split_and!. }
  destruct IH as (st & Hrun & Hfol); [intros k st' Hk; apply Hmax; lia|].
  cbn [remote_run remote_lines]. rewrite Hrun. cbn [mbind option_bind].
  unfold remote_step. destruct (rs_phase st) eqn:Hp.
  - eexists. split; [done|]. unfold remote_read. rewrite Hp, app_nil_r.
    apply outer_r_following; [done..|]. apply (Hmax n); [lia|done].
  - by apply inner_r_following.
  - eexists. split; [done|]. unfold remote_read. rewrite Hp, app_nil_r. by apply r_following_grow.
Qed.
End single_remote.

(** ** Theorems *)

(** C19.  Neither reader panics, whatever the file system or the server answers, both remember a
    bounded number of files, and they lose and invent no message: for every severity, the sum of the
    counts sent and of those waiting to be sent is the number of lines of that severity that were
    read, for the instance and for the database. *)
Theorem log_counts_conserved answer mdb lp envl envr n :
  NewLogParser answer mdb = Returns (Ok lp) →
  (∃ st, local_run envl n (parseLogsLocal_start lp) = Some st ∧
    Z.of_nat (stdpp.base.size (fileOffsets (ls_lp st))) ≤ maxTrackedFiles ∧
    ∀ s, s ∈ pgSeverities →
      total_reported (ls_lp st) s = count_if (is_severity lp s) (local_lines envl n (parseLogsLocal_start lp)) ∧
      db_reported (ls_lp st) s = count_if (is_db_severity lp s) (local_lines envl n (parseLogsLocal_start lp))) ∧
  (∃ st, remote_run envr n (parseLogsRemote_start lp) = Some st ∧
    Z.of_nat (stdpp.base.size (fileOffsets (rs_lp st))) ≤ maxTrackedFiles ∧
    ∀ s, s ∈ pgSeverities →
      total_reported (rs_lp st) s = count_if (is_severity lp s) (remote_lines envr n (parseLogsRemote_start lp)) ∧
      db_reported (rs_lp st) s = count_if (is_db_severity lp s) (remote_lines envr n (parseLogsRemote_start lp))).
Proof.
  intros Hnew. pose proof (NewLogParser_regex _ _ _ Hnew) as (Hr & Hch & He & Ht & Ho & _).
  assert (∀ lp' ls, accounts lp lp' ls →
    Z.of_nat (stdpp.base.size (fileOffsets lp')) ≤ maxTrackedFiles ∧
    ∀ s, s ∈ pgSeverities →
      total_reported lp' s = count_if (is_severity lp s) ls ∧ db_reported lp' s = count_if (is_db_severity lp s) ls)
    as Hacc.
  { intros lp' ls (_ & Hb & Hc). split.
    - apply Hb. rewrite Ho, map_size_empty. unfold maxTrackedFiles. lia.
    - intros s Hs. destruct (Hc s Hs) as [-> ->]. unfold total_reported, db_reported.
      by rewrite Hch, He, Ht, !lookup_empty. }
  split.
  - destruct (local_run_accounts envl n (parseLogsLocal_start lp) Hr) as (st & Hrun & Ha). exists st. eauto.
  - destruct (remote_run_accounts envr n (parseLogsRemote_start lp) Hr) as (st & Hrun & _ & Ha);
      [by split|]. exists st. eauto.
Qed.


Lemma text_lines_free p : free_of newline p → text_lines p = if decide (p = "") then [] else [p].
Proof.
  intros Hp. unfold text_lines. rewrite split_lines_free by done. cbn. unfold filter. cbn. by repeat case_decide.
Qed.

(** A chunk of the greatest size breaks the reading of lines: the incomplete line at its end
    is counted with the others although it is fetched again with the next chunk, and a line that
    fills the whole chunk is fetched again and again, for the position does not move. *)
Theorem full_chunk_overlaps o st a p :
  rs_phase st = Outer → sl_done o = false → rs_firstRun st = false → latestLogFile st ≠ "" →
  rs_linesRead st = numOfLines st → 0 ≤ offset st → maxChunkSize ≤ size st - offset st → size st < 2 ^ 64 →
  sl_read o (latestLogFile st) (offset st) maxChunkSize = Ok (a +:+ p) → slen (a +:+ p) = maxChunkSize →
  whole a → free_of newline p →
  let st' := remote_outer o st in
  rs_phase st' = Inner ∧ rs_linesRead st' = 0 ∧
  filter (λ l, l ≠ "") (lines st') = text_lines a ++ (if decide (p = "") then [] else [p]) ∧
  offset st' = offset st + slen a.
Proof.
  intros Hp Hd Hf Hl Hlr Ho Hmax Hsz Hread Hlen Ha Hfree. unfold remote_outer. rewrite Hd.
  cbn [latestLogFile rs_firstRun rs_interval]. rewrite Hf, (bool_decide_false (_ = "")) by done. cbn [orb].
  cbn [rs_linesRead numOfLines size offset rs_interval latestLogFile].
  rewrite Hlr, Z.eqb_refl. unfold maxChunkSize in *. destruct (Z.eqb_spec (size st) (offset st)); [lia|]. cbn [negb andb].
  assert (u64 (size st - offset st) = size st - offset st) as -> by (unfold u64; rewrite Z.mod_small; lia).
  rewrite Z.min_l by lia. rewrite Hread. unfold take_chunk, maxChunkSize. rewrite Z.eqb_refl.
  assert (last (strings_Split (a +:+ p) eol) = Some p) as ->.
  { rewrite strings_Split_lines. destruct Ha as [->|[t ->]].
    - rewrite string_app_nil_l. by rewrite split_lines_free.
    - rewrite string_app_assoc, split_lines_eol, (split_lines_free p) by done. by rewrite last_snoc. }
  cbn [rs_phase rs_linesRead lines offset rs_to rs_file default]. split_and!; [done|done| |].
  - rewrite strings_Split_lines. change (text_lines (a +:+ p) = text_lines a ++ (if decide (p = "") then [] else [p])).
    by rewrite text_lines_app, (text_lines_free p) by done.
  - rewrite slen_app in Hlen. unfold u64. rewrite (Z.mod_small (offset st + _)) by lia.
    change (id p) with p. rewrite Z.mod_small; lia.
Qed.

(** ** Examples *)

(** The server holds the contents [growing] of file [LogLocal]. *)
Definition growing_server (n : nat) : server_log := {|
  sl_done := false; sl_latest := Ok ("a.csv", slen (growing n), 1);
  sl_read := λ _ off k, Ok (String.substring (Z.to_nat off) (Z.to_nat k) (growing n));
  sl_state := λ _, Ok (slen (growing n), 1); sl_next := λ _, Err (ErrorString "no rows");
  sl_clk := λ _, 1000; sl_send_done := false |}.

Lemma growing_single_remote : single_remote growing_server "a.csv" growing.
Proof.
  destruct growing_single_file as [_ _ Hw Hg _ _ _].
  split; try done; [intros [|[|n]]; vm_compute; reflexivity|intros n; by eexists..].
Qed.

Lemma log_counts_conserved_witness :
  (∃ st, local_run growing_env 9 (parseLogsLocal_start (sample_parser "C.")) = Some st ∧
    total_reported (ls_lp st) "ERROR" = 2) ∧
  (∃ st, remote_run growing_server 9 (parseLogsRemote_start (sample_parser "C.")) = Some st ∧
    total_reported (rs_lp st) "ERROR" = 2).
Proof.
  destruct (log_counts_conserved (Ok (sample_log_settings "C.")) sample_log_conn (sample_parser "C.")
    growing_env growing_server 9) as [(st & H1 & _ & H2) (st' & H1' & _ & H2')].
  - vm_compute. reflexivity.
  - split; [exists st; split; [exact H1|]|exists st'; split; [exact H1'|]].
    + destruct (H2 "ERROR") as [H3 _]; [apply (bool_decide_unpack _); vm_compute; exact I|].
      rewrite H3. vm_compute. reflexivity.
    + destruct (H2' "ERROR") as [H3 _]; [apply (bool_decide_unpack _); vm_compute; exact I|].
      rewrite H3. vm_compute. reflexivity.
Defined.


Fixpoint str_repeat (n : nat) (c : ascii) : string :=
  match n with O => "" | S n => String c (str_repeat n c) end.

Lemma str_repeat_length n c : String.length (str_repeat n c) = n.
Proof. induction n; simpl; congruence. Qed.
Lemma str_repeat_free n c a : c ≠ a → free_of a (str_repeat n c).
Proof. intros H. induction n; [done|]. by apply free_of_cons. Qed.

(** A server with a line of more than ten megabytes. *)
Definition long_line : string := str_repeat (Z.to_nat maxChunkSize) "x".
Definition long_server : server_log := {|
  sl_done := false; sl_latest := Err (ErrorString "unused"); sl_read := λ _ _ _, Ok long_line;
  sl_state := λ _, Err (ErrorString "unused"); sl_next := λ _, Err (ErrorString "no rows");
  sl_clk := λ _, 1000; sl_send_done := false |}.
Definition long_state : remote_state := {|
  rs_phase := Outer; rs_lp := sample_parser "C."; latestLogFile := "a.csv"; rs_linesRead := 0;
  rs_firstRun := false; rs_currInterval := 0; size := 2 * maxChunkSize; offset := 0;
  modification := 1; lines := []; numOfLines := 0 |}.

Lemma full_chunk_overlaps_witness :
  rs_phase (remote_outer long_server long_state) = Inner ∧ offset (remote_outer long_server long_state) = 0.
Proof.
  destruct (full_chunk_overlaps long_server long_state "" long_line) as (H1 & _ & _ & H2).
  - reflexivity.
  - reflexivity.
  - reflexivity.
  - discriminate.
  - reflexivity.
  - cbn. lia.
  - cbn. unfold maxChunkSize. lia.
  - cbn. unfold maxChunkSize. lia.
  - rewrite string_app_nil_l. reflexivity.
  - rewrite string_app_nil_l. unfold long_line. rewrite str_repeat_length. apply Z2Nat.id. unfold maxChunkSize. lia.
  - left. reflexivity.
  - apply str_repeat_free. discriminate.
  - split; [exact H1|]. rewrite H2. reflexivity.
Defined.
