(* ===== verification/Worker.v ===== *)
(** * The loop of a worker ([internal/reaper/database.go])

    [Scheduler] models one tick of a worker; here is the loop around it.  In every round the worker
    refreshes what it knows about the server, handles the metrics that are due, and waits for the
    tick interval, which it computes again from the intervals that are active by then.  While it waits,
    the main loop may give it other intervals, other workers may change the shared cache, and the server
    may change its role.

    The theorem is about the cadence that results: with unchanged intervals a metric is never fetched
    twice within its interval, and it is fetched in every interval's worth of rounds. *)

From S2P Require Import Prelude GoStrings Metrics Sources Changes Conn InstanceCache Scheduler LogParser.
From stdpp Require Import options.

Local Open Scope Z_scope.

(** ** The loop *)

(** What a round meets. *)
Record round := {
  rd_main : DbConn → DbConn;                               (* what the main loop did to the shared connection *)
  rd_cache : InstanceMetricCache → InstanceMetricCache;    (* what other workers did to the shared cache *)
  rd_server : server;                                      (* the answers to [FetchRuntimeInfo] *)
  rd_ctx : option error;
  rd_asked : Z;                                            (* the clock before these questions *)
  rd_answered : Z;                                         (* and after them *)
  rd_env : surroundings;                                   (* the tick *)
  rd_end : Z;                                              (* when the wait begins *)
}.

Section loop.
Implicit Types (sr : DbConnReaper) (r : round).

Definition reload r sr : DbConnReaper :=
  let sr := set_cache sr (rd_cache r (measurementCache sr)) in
  set_md sr (rd_main r (sr_md sr)).

(** The refresh at the top of the loop; its error is logged only. *)
Definition refresh r sr : DbConnReaper :=
  let sr := reload r sr in
  set_md sr (FetchRuntimeInfo (rd_server r) (rd_ctx r) (rd_asked r) (rd_answered r) (sr_md sr) false).1.

Definition reap_round r sr : option DbConnReaper := reap_tick (rd_env r) (refresh r sr).

(** [Reap] until the context is done after the given rounds; [None] is a panic. *)
Fixpoint Reap sr (rs : list round) : option DbConnReaper :=
  match rs with
  | [] => Some sr
  | r :: rs' => sr' ← reap_round r sr; Reap sr' rs'
  end.

(** [runLogParser]: the parser that is started, or the error that is logged. *)
Definition runLogParser (answer : result LogConfig) (md : DbConn) (same_host : result bool)
    (read_dir : option error) (ls : result (option string)) (pg_read_file : string → string → option error)
    : outcome (result (LogParser * parse_mode)) :=
  match NewLogParser answer md with
  | Returns (Ok lp) =>
      Returns match ParseLogs lp same_host read_dir ls pg_read_file with
              | ParseError e => Err (WrapError "log parser error" e)
              | mode => Ok (lp, mode)
              end
  | Returns (Err e) => Returns (Err (WrapError "failed to initialize log parser" e))
  | Panics => Panics
  | NoFuel => NoFuel
  end.

(** *** Observations of a run *)

(** Whether a round handles a metric. *)
Definition handles r sr (name : string) : bool :=
  match activeMetrics (sr_md sr) !! name with
  | Some interval => bool_decide (scheduled (rd_env r) sr name interval)
  | None => false
  end.

Fixpoint fetches (name : string) sr (rs : list round) : list bool :=
  match rs with
  | [] => []
  | r :: rs' =>
      handles r (refresh r sr) name ::
      match reap_round r sr with Some sr' => fetches name sr' rs' | None => [] end
  end.

(** [P] holds of every round, with the state after its refresh. *)
Fixpoint along (P : round → DbConnReaper → Prop) sr (rs : list round) : Prop :=
  match rs with
  | [] => True
  | r :: rs' => P r (refresh r sr) ∧
      match reap_round r sr with Some sr' => along P sr' rs' | None => True end
  end.

(** The clock within a round. *)
Definition timed r : Prop :=
  0 ≤ now (rd_env r) ∧ (∀ name, now (rd_env r) ≤ clock (rd_env r) name ≤ rd_end r) ∧
  now (rd_env r) ≤ batch_end (rd_env r) ≤ rd_end r.

(** The worker waits for a tick interval between the end of a round and the start of the next. *)
Fixpoint timely (earliest : Z) sr (rs : list round) : Prop :=
  match rs with
  | [] => True
  | r :: rs' => earliest ≤ now (rd_env r) ∧ timed r ∧
      match reap_round r sr with
      | Some sr' => timely (rd_end r + calcTickInterval (map_order (rd_env r)) (sr_md sr')) sr' rs'
      | None => True
      end
  end.
End loop.

(** ** What the steps leave alone *)

Lemma refresh_frame r sr :
  lastFetch (refresh r sr) = lastFetch sr ∧ logParserStarted (refresh r sr) = logParserStarted sr ∧
  md_Source (sr_md (refresh r sr)) = md_Source (rd_main r (sr_md sr)).
Proof. unfold refresh, reload. split_and!; [done..|]. simpl. apply FetchRuntimeInfo_frame. Qed.

(** The tick leaves the active metrics as they are. *)
Lemma run_batch_same env sr batch : same_server sr (run_batch env sr batch).
Proof.
  unfold run_batch. set (sr1 := if IsPostgresSource _ then _ else _).
  assert (same_server sr sr1) as Hs.
  { unfold sr1. destruct (IsPostgresSource _).
    - unfold executeBatch. pose proof (batch_results_spec env sr (query_batch env (be_sql <$> batch)) 0 batch) as Hr.
      destruct (batch_results _ _ _ _ _) as [[sr2 errs] retries]. destruct Hr as (Hk & _ & _).
      destruct (batch_retries_spec env sr2 errs retries) as (Hk' & _).
      apply keeps_same in Hk as [[] _]. destruct Hk' as (_ & _ & ? & ? & _). simpl in *. split; congruence.
    - clear. revert sr. induction batch as [|e batch IH]; intros sr; simpl; [done|].
      destruct (IH (fetchMetric env sr e).1), (keeps_same _ _ (fetchMetric_keeps env sr e)) as [[] _]. split; congruence. }
  clearbody sr1. revert sr1 Hs. induction batch as [|e batch IH]; intros sr1 Hs; simpl; [done|]. by apply IH.
Qed.

Lemma reap_tick_same env sr sr' : reap_tick env sr = Some sr' → same_server sr sr'.
Proof.
  unfold reap_tick. intros H. destruct (handle_metrics env sr _) as [[sr1 batch]|] eqn:E; simpl in H; [|done].
  destruct (handle_metrics_spec _ _ _ _ _ E (NoDup_range_keys _ _)) as ([? ?] & _).
  injection H as <-. case_bool_decide; [done|]. destruct (run_batch_same env sr1 batch). split; congruence.
Qed.

Lemma same_server_active sr sr' : same_server sr sr' → ActiveMetrics (sr_md sr') = ActiveMetrics (sr_md sr).
Proof. intros [Hs Hr]. unfold ActiveMetrics. by rewrite Hs, Hr. Qed.

(** The tick interval is a function of the active metrics, not of the order they are visited in. *)
Definition intervals_in_range (am : MetricIntervals) : Prop :=
  map_Forall (λ _ v, -9223372036 ≤ v ≤ 9223372036) (default ∅ am).

Lemma calcTickInterval_active ro ro' md md' :
  ActiveMetrics md' = ActiveMetrics md → intervals_in_range (ActiveMetrics md) →
  (∃ name, is_Some (default ∅ (ActiveMetrics md) !! name)) →
  calcTickInterval ro' md' = calcTickInterval ro md.
Proof.
  intros Ha Hr Hne. destruct (calcTickInterval_spec ro md Hr) as (g & -> & Hg & Hd & Hmax).
  rewrite <-Ha in *. destruct (calcTickInterval_spec ro' md' Hr) as (g' & -> & Hg' & Hd' & Hmax').
  f_equal. apply Z.divide_antisym_nonneg; [lia|lia|by apply Hmax|by apply Hmax'].
Qed.

(** ** The rate of one metric *)

Section rate.
Context (v g : Z) (Hv : 0 < v) (Hg : 0 ≤ g).

(** The reference: of a sequence of rounds, each with its start and the time it would record, those
    that find the metric due. *)
Fixpoint due_rounds (last : option Z) (obs : list (Z * Z)) : list bool :=
  match obs with
  | [] => []
  | (s, f) :: obs =>
      let due := match last with Some l => v <=? s - l | None => true end in
      due :: due_rounds (if due then Some f else last) obs
  end.

(** Rounds record a time after their start, and start [g] after what the one before recorded. *)
Fixpoint paced (earliest : Z) (obs : list (Z * Z)) : Prop :=
  match obs with
  | [] => True
  | (s, f) :: obs => earliest ≤ s ≤ f ∧ paced (f + g) obs
  end.

Lemma paced_weaken e e' obs : e' ≤ e → paced e obs → paced e' obs.
Proof using Type. destruct obs as [|[s f] obs]; simpl; [done|]. intros ? [? ?]. split; [lia|done]. Qed.

Lemma due_since l obs j s f :
  due_rounds (Some l) obs !! j = Some true → paced l obs → obs !! j = Some (s, f) → v ≤ s - l.
Proof using Hg Hv.
  revert l j. induction obs as [|[s0 f0] obs IH]; intros l j Hj Hp Ho; [done|]. simpl in Hp.
  destruct Hp as [Hs0 Hp]. cbn [due_rounds] in Hj. destruct (v <=? s0 - l) eqn:E; boolify.
  - destruct j as [|j]; simpl in Hj, Ho; simplify_eq; [done|].
    assert (v ≤ s - f0); [|lia]. eapply IH; [done| |done]. eapply paced_weaken; [|done]. lia.
  - destruct j as [|j]; simpl in Hj, Ho; simplify_eq. eapply IH; [done| |done]. eapply paced_weaken; [|done]. lia.
Qed.

Lemma due_apart last e obs i j s f s' f' :
  paced e obs → (i < j)%nat → due_rounds last obs !! i = Some true → due_rounds last obs !! j = Some true →
  obs !! i = Some (s, f) → obs !! j = Some (s', f') → v ≤ s' - f.
Proof using Hg Hv.
  revert last e i j. induction obs as [|[s0 f0] obs IH]; intros last e i j Hp Hij Hi Hj Ho Ho'; [done|].
  destruct Hp as [_ Hp]. cbn [due_rounds] in Hi, Hj. destruct j as [|j]; [lia|].
  destruct i as [|i]; simpl in *; simplify_eq; [|by eapply (IH _ _ i j); [done|lia|..]].
  rewrite Hi in Hj. eapply due_since; [done| |done]. eapply paced_weaken; [|done]. lia.
Qed.

Context (m : nat) (Hm : v ≤ Z.of_nat m * g).

Lemma due_next l k obs :
  paced (l + Z.of_nat k * g) obs → (k ≤ m)%nat → (m - k < length obs)%nat →
  ∃ j, (j ≤ m - k)%nat ∧ due_rounds (Some l) obs !! j = Some true.
Proof using Hg Hv Hm.
  remember (m - k)%nat as d eqn:Hd. revert k obs Hd.
  induction d as [|d IH]; intros k [|[s f] obs] Hd Hp Hk Hlen; simpl in Hlen; try lia; destruct Hp as [Hs Hp];
    cbn [due_rounds].
  - exists 0%nat. assert (k = m) as -> by lia. split; [lia|]. rewrite (proj2 (Z.leb_le _ _)) by lia. done.
  - destruct (v <=? s - l) eqn:E; [exists 0%nat; split; [lia|done]|].
    destruct (IH (S k) obs) as (j & Hj & Hjt); [lia| |lia|lia|exists (S j); split; [lia|done]].
    eapply paced_weaken; [|done]. lia.
Qed.

Lemma due_live last e obs i :
  paced e obs → (∀ l, last = Some l → l + g ≤ e) → (0 < m)%nat → (i + m ≤ length obs)%nat →
  ∃ j, (i ≤ j < i + m)%nat ∧ due_rounds last obs !! j = Some true.
Proof using Hg Hv Hm.
  revert last e obs. induction i as [|i IH]; intros last e obs Hp Hl Hm0 Hlen.
  - destruct last as [l|].
    + destruct (due_next l 1 obs) as (j & ? & ?); [|lia|lia|exists j; split; [lia|done]].
      specialize (Hl l eq_refl). eapply paced_weaken; [|done]. lia.
    + destruct obs as [|[s f] obs]; [simpl in Hlen; lia|]. exists 0%nat. split; [lia|done].
  - destruct obs as [|[s f] obs]; [simpl in Hlen; lia|]. destruct Hp as [Hs Hp]. cbn [due_rounds]. simpl in Hlen.
    set (due := match last with Some l => _ | None => _ end).
    destruct (IH (if due then Some f else last) (f + g) obs) as (j & ? & ?); [done| |done|lia|exists (S j); split; [lia|done]].
    intros l Hl'. destruct due; simplify_eq; [lia|]. specialize (Hl l eq_refl). lia.
Qed.
End rate.

(** ** Cadence *)

Section cadence.
Context (name : string) (am : gmap string Z) (v : Z).
Hypothesis Hlook : am !! name = Some v.
Hypothesis Hrange : intervals_in_range (Some am).
Hypothesis Hv : 1 ≤ v.
Hypothesis Hlog : name ≠ specialMetricServerLogEventCounts.

(** The intervals are the same in every round, and the metric is defined for the role of the server. *)
Definition steady (r : round) (sr : DbConnReaper) : Prop :=
  ActiveMetrics (sr_md sr) = Some am ∧
  ∃ metric, metricDefs (rd_env r) !! name = Some metric ∧ isRoleExcluded sr metric = false.

Lemma steady_interval sr : ActiveMetrics (sr_md sr) = Some am → activeMetrics (sr_md sr) !! name = Some (v * time_Second).
Proof using Hlook Hrange Hv.
  intros Ha. unfold activeMetrics. rewrite Ha. simpl. rewrite lookup_fmap, Hlook. simpl. f_equal.
  apply seconds_small. specialize (Hrange name v Hlook). simpl in Hrange. lia.
Qed.

(** The times that are recorded are those of a clock after 1970. *)
Definition recorded_ok (last : option Z) : Prop := ∀ l, last = Some l → 0 ≤ l.

Lemma steady_handles r sr :
  steady r sr → timed r → recorded_ok (lastFetch sr !! name) →
  handles r sr name = match lastFetch sr !! name with Some l => v * time_Second <=? now (rd_env r) - l | None => true end.
Proof using Hlook Hrange Hv Hlog.
  intros [Ha Hm] _ Hl. unfold handles. rewrite steady_interval by done.
  assert (0 < v * time_Second < 2 ^ 63) as Hb.
  { specialize (Hrange name v Hlook). simpl in Hrange. unfold time_Second. lia. }
  apply eq_bool_prop_intro. rewrite bool_decide_spec. unfold scheduled, interval_passed.
  destruct (lastFetch sr !! name) as [l|] eqn:El.
  - rewrite Is_true_true, Z.leb_le, <-time_Sub_le by lia. specialize (Hl l eq_refl). unfold zero_time in *.
    split.
    + intros ((_ & [->|?]) & _); [unfold time_Second in *; lia|done].
    + intros ?. split; [split; [lia|by right]|done].
  - split; [done|]. intros _. split; [split; [lia|done]|done].
Qed.

(** The flags of a run are those of the reference. *)
Lemma fetches_reference ro md0 e sr rs sr' :
  ActiveMetrics md0 = Some am →
  Reap sr rs = Some sr' → timely e sr rs → along steady sr rs → recorded_ok (lastFetch sr !! name) →
  ∃ obs, obs.*1 = (λ r, now (rd_env r)) <$> rs ∧ paced (calcTickInterval ro md0) e obs ∧
    Forall2 (λ r o, o.2 ≤ rd_end r) rs obs ∧
    fetches name sr rs = due_rounds (v * time_Second) (lastFetch sr !! name) obs.
Proof using Hlook Hrange Hv Hlog.
  intros Hmd0. revert e sr. induction rs as [|r rs IH]; intros e sr Hrun Ht Hst Hl; [by exists []|].
  simpl in Hrun. destruct Ht as (He & Hr & Ht). destruct Hst as [Hs Hst]. cbn [fetches].
  destruct (reap_round r sr) as [sr1|] eqn:E1; simpl in Hrun; [|done].
  destruct (refresh_frame r sr) as (Hlf & _). pose proof (reap_tick_same _ _ _ E1) as Hsame.
  pose proof (reap_tick_fetched _ _ _ E1 name) as Hf. rewrite steady_interval in Hf by apply Hs.
  rewrite steady_handles by (by rewrite ?Hlf). rewrite Hlf.
  set (due := match lastFetch sr !! name with Some l => _ | None => _ end).
  assert (handles r (refresh r sr) name = due) as Hdue by (unfold due; rewrite steady_handles by (by rewrite ?Hlf); by rewrite Hlf).
  unfold handles in Hdue. rewrite steady_interval in Hdue by apply Hs.
  assert (∃ f, now (rd_env r) ≤ f ≤ rd_end r ∧ lastFetch sr1 !! name = if due then Some f else lastFetch sr !! name) as (f & Hfr & Hl1).
  { destruct Hr as (_ & Hclk & Hbe). destruct (decide (scheduled _ _ _ _)) as [Hy|Hn].
    - rewrite bool_decide_true in Hdue by done. rewrite <-Hdue. specialize (Hclk name). destruct Hf as [Hf|Hf]; eauto.
    - rewrite bool_decide_false in Hdue by done. rewrite <-Hdue, Hf, Hlf. exists (now (rd_env r)). split; [lia|done]. }
  assert (recorded_ok (lastFetch sr1 !! name)) as Hl'.
  { rewrite Hl1. destruct Hr as (? & _). destruct due; [|done]. intros l [= <-]. lia. }
  destruct (IH _ _ Hrun Ht Hst Hl') as (obs & Ho & Hp & Hends & ->).
  exists ((now (rd_env r), f) :: obs). csimpl. rewrite Ho. split_and!; [done|lia|lia| |by constructor; [simpl; lia|]|by rewrite Hl1].
  eapply paced_weaken; [|exact Hp].
  rewrite (calcTickInterval_active ro _ md0 (sr_md sr1)).
  - lia.
  - rewrite (same_server_active _ _ Hsame), Hmd0. apply Hs.
  - by rewrite Hmd0.
  - exists name. rewrite Hmd0. simpl. by rewrite Hlook.
Qed.
End cadence.

(** The cadence of a metric: the flags of the rounds [rs] of a worker that was started on [md]. *)
Definition cadence (ro : range_order) (md : DbConn) (v : Z) (rs : list round) (flags : list bool) : Prop :=
  length flags = length rs ∧
  (∀ i j r r', (i < j)%nat → flags !! i = Some true → flags !! j = Some true →
     rs !! i = Some r → rs !! j = Some r' → v * time_Second ≤ now (rd_env r') - now (rd_env r)) ∧
  ∃ m, (0 < m)%nat ∧ Z.of_nat m * calcTickInterval ro md = v * time_Second ∧
    ∀ i, (i + m ≤ length rs)%nat → ∃ j, (i ≤ j < i + m)%nat ∧ flags !! j = Some true.

(** Take a worker from its start through any number of rounds, each beginning a tick interval
    after the end of the one before it, with whatever answers of the servers, and with the active
    intervals unchanged.  A metric with an interval of [v] seconds, defined for the role of the server,
    is not handled in two rounds unless the second starts [v] seconds after the fetch of the first; and
    it is handled in every [v] seconds' worth of rounds, counting the wait only, since the tick divides
    the interval.  So queries that take long delay a metric but never starve it. *)
Theorem worker_cadence name am v ro cache md e rs sr' :
  ActiveMetrics md = Some am → am !! name = Some v → 1 ≤ v → intervals_in_range (Some am) →
  name ≠ specialMetricServerLogEventCounts →
  Reap (NewDbConnReaper cache md) rs = Some sr' → timely e (NewDbConnReaper cache md) rs →
  along (steady name am) (NewDbConnReaper cache md) rs →
  cadence ro md v rs (fetches name (NewDbConnReaper cache md) rs).
Proof.
  intros Ha Hlook Hv Hrange Hlog Hrun Ht Hst. set (flags := fetches _ _ _).
  destruct (fetches_reference name am v Hlook Hrange Hv Hlog ro md e _ rs sr' Ha Hrun Ht Hst) as (obs & Ho & Hp & _ & Hfl).
  { by intros l. }
  assert (intervals_in_range (ActiveMetrics md)) as Hr by (by rewrite Ha).
  destruct (calcTickInterval_spec ro md Hr) as (g & Hg & Hg1 & Hd & _).
  rewrite Ha in Hd. specialize (Hd name v Hlook). simpl in Hd. rewrite Z.max_l in Hd by lia. destruct Hd as [k Hk].
  assert (length obs = length rs) as Hlen by (rewrite <-(length_fmap fst obs), Ho; apply length_fmap).
  assert (0 < v * time_Second) as Hv' by (unfold time_Second; lia).
  assert (0 ≤ calcTickInterval ro md) as Hg' by (rewrite Hg; unfold time_Second; lia).
  assert (∀ i r, rs !! i = Some r → ∃ f, obs !! i = Some (now (rd_env r), f)) as Hobs.
  { intros i r Hi. assert (obs.*1 !! i = Some (now (rd_env r))) as Hx by (by rewrite Ho, list_lookup_fmap, Hi).
    rewrite list_lookup_fmap in Hx. destruct (obs !! i) as [[s f]|]; simplify_eq/=; eauto. }
  unfold flags. rewrite Hfl. clear flags Hfl. split_and!.
  - rewrite <-Hlen. clear. generalize (lastFetch (NewDbConnReaper cache md) !! name) as last.
    induction obs as [|[s f] obs IH]; intros last; simpl; [done|]. by rewrite IH.
  - intros i j r r' Hij Hi Hj Hri Hrj. destruct (Hobs _ _ Hri) as [f Hf], (Hobs _ _ Hrj) as [f' Hf'].
    pose proof (due_apart _ _ Hv' Hg' _ _ _ _ _ _ _ _ _ Hp Hij Hi Hj Hf Hf').
    assert (now (rd_env r) ≤ f); [|lia].
    clear -Hp Hf Hg'. revert e i Hp Hf. induction obs as [|[s0 f0] obs IH]; intros e i Hp Hf; [done|].
    destruct Hp as [? Hp]. destruct i; simplify_eq/=; [lia|eauto].
  - exists (Z.to_nat k). assert (0 < k) by nia. split_and!; [lia|rewrite Hg, Z2Nat.id by lia; lia|]. intros i Hi.
    apply (due_live _ _ Hv' Hg' (Z.to_nat k)) with e; [|done|by intros l|lia|lia].
    rewrite Hg, Z2Nat.id by lia. lia.
Qed.

(** The parser of the server log starts only if the server collects its messages as CSV; otherwise, and
    if it has no way to the files, the error is logged and the parser is not tried again. *)
Lemma runLogParser_starts answer md same_host read_dir ls pg_read_file :
  ∃ res, runLogParser answer md same_host read_dir ls pg_read_file = Returns res ∧
    match res with
    | Ok (lp, mode) => CollectorEnabled (lp_cfg lp) = true ∧ CSVDestination (lp_cfg lp) = true ∧ lp_conn lp = md ∧
        match mode with
        | ParseLocal => same_host = Ok true ∧ read_dir = None
        | ParseRemote => checkHasRemotePrivileges ls pg_read_file (Directory (lp_cfg lp)) = None
        | ParseError _ => False
        end
    | Err _ => True
    end.
Proof.
  unfold runLogParser, NewLogParser. rewrite compile_csvLog.
  destruct (tryDetermineLogSettings answer) as [cfg|err]; [|by eexists].
  destruct (CollectorEnabled cfg) eqn:Ec; simpl; [|by eexists].
  destruct (CSVDestination cfg) eqn:Ed; simpl; [|by eexists]. eexists. split; [done|]. unfold ParseLogs. simpl.
  destruct (checkHasRemotePrivileges ls pg_read_file (Directory cfg)) eqn:Ep; destruct same_host as [[]|], read_dir;
    simpl; by rewrite ?Ep.
Qed.

(** ** Conditions that can be read off the configuration *)

(** Without intervals for standby servers, with the same intervals from the main loop, and with a metric for
    both roles. *)
Definition plain_intervals (am : gmap string Z) (md : DbConn) : Prop :=
  SrcMetrics (md_Source md) = Some am ∧ MetricsStandby (md_Source md) = None.

Lemma steady_static name am metric sr rs :
  plain_intervals am (sr_md sr) → (∀ role, isRoleExcluded role metric = false) →
  Forall (λ r, (∀ md, plain_intervals am md → plain_intervals am (rd_main r md)) ∧ metricDefs (rd_env r) !! name = Some metric) rs →
  along (steady name am) sr rs.
Proof.
  intros Hp Hrole Hrs. revert sr Hp. induction Hrs as [|r rs [Hr Hd] _ IH]; intros sr Hp; [done|].
  destruct (refresh_frame r sr) as (_ & _ & Hsrc). destruct (Hr _ Hp) as [Hm Hs]. cbn [along]. split.
  - split; [|by exists metric]. unfold ActiveMetrics. rewrite Hsrc, Hs, andb_false_r. done.
  - destruct (reap_round r sr) as [sr'|] eqn:E; [|done]. destruct (reap_tick_same _ _ _ E) as [Hs' _].
    apply IH. unfold plain_intervals. rewrite Hs', Hsrc. done.
Qed.

(** Under steady intervals the wait is the same in every round. *)
Lemma timely_static name am v ro md e sr rs :
  am !! name = Some v → intervals_in_range (Some am) → ActiveMetrics md = Some am → along (steady name am) sr rs →
  Forall timed rs → Forall (λ r, e ≤ now (rd_env r)) (take 1 rs) →
  Sorted (λ r r', rd_end r + calcTickInterval ro md ≤ now (rd_env r')) rs → timely e sr rs.
Proof.
  intros Hl Hr Hmd Hst Ht. revert e sr Hst. induction Ht as [|r rs Hr1 _ IH]; intros e sr Hst He Hs; [done|].
  cbn [along] in Hst. destruct Hst as [Hst1 Hst]. cbn [timely]. simpl in He. rewrite firstn_O in He.
  apply Forall_cons in He as [He _]. split_and!; [done..|].
  destruct (reap_round r sr) as [sr'|] eqn:E; [|done]. apply Sorted_inv in Hs as [Hs Hhd].
  apply IH; [done| |done]. rewrite (calcTickInterval_active ro _ md (sr_md sr')).
  - destruct rs as [|r' rs]; [constructor|]. simpl. rewrite firstn_O. apply Forall_singleton. by apply HdRel_inv in Hhd.
  - rewrite (same_server_active _ _ (reap_tick_same _ _ _ E)), Hmd. apply Hst1.
  - by rewrite Hmd.
  - exists name. rewrite Hmd. simpl. by rewrite Hl.
Qed.

(** ** Example *)

Definition env_at (t : Z) : surroundings := {|
  metricDefs := metricDefs sql_env; cacheAge := 0; RealDbnameField := "real_dbname"; SystemIdentifierField := "sys_id";
  parse_config := parse_config sql_env; query_simple := query_simple sql_env; query_batch := query_batch sql_env;
  change_query := change_query sql_env; settings_query := settings_query sql_env;
  ping_error := None; same_host := false; os_stats := os_stats sql_env; fmt_float := fmt_float sql_env;
  now := t; clock := λ _, t + time_Second; batch_end := t + 2 * time_Second; map_order := tree_order |}.

Definition round_at (t : Z) : round := {|
  rd_main := id; rd_cache := id; rd_server := sample_server; rd_ctx := None; rd_asked := t; rd_answered := t;
  rd_env := env_at t; rd_end := t + 2 * time_Second |}.

(** Rounds of two seconds with waits of ten. *)
Definition sample_rounds : list round := (λ i, round_at ((1000 + 12 * Z.of_nat i) * time_Second)) <$> seq 0 12.

Example sample_fetches :
  fetches "bgw" (NewDbConnReaper ∅ sample_conn) sample_rounds =
    [true; false; false; false; false; false; false; false; true; false; false; false].
Proof. vm_compute. reflexivity. Qed.

Lemma worker_cadence_witness :
  let flags := fetches "bgw" (NewDbConnReaper ∅ sample_conn) sample_rounds in
  length flags = length sample_rounds ∧
  (∀ i j r r', (i < j)%nat → flags !! i = Some true → flags !! j = Some true →
     sample_rounds !! i = Some r → sample_rounds !! j = Some r' →
     90 * time_Second ≤ now (rd_env r') - now (rd_env r)) ∧
  ∃ m, (0 < m)%nat ∧ Z.of_nat m * calcTickInterval tree_order sample_conn = 90 * time_Second ∧
    ∀ i, (i + m ≤ length sample_rounds)%nat → ∃ j, (i ≤ j < i + m)%nat ∧ flags !! j = Some true.
Proof.
  assert (intervals_in_range (SrcMetrics (md_Source sample_conn))) as Hr.
  { apply (bool_decide_unpack _). vm_compute. exact I. }
  assert (along (steady "bgw" {["wal" := 60; "bgw" := 90; "locks" := 30; "unknown" := 10]})
            (NewDbConnReaper ∅ sample_conn) sample_rounds) as Hst.
  { apply (steady_static _ _ (sql_metric "select bgw")); [done| |].
    - intros role. unfold isRoleExcluded. by destruct (IsInRecovery _).
    - apply Forall_fmap, Forall_forall. intros i _. done. }
  eapply (worker_cadence "bgw" {["wal" := 60; "bgw" := 90; "locks" := 30; "unknown" := 10]} 90 tree_order ∅ sample_conn 0);
    [done|done|lia|exact Hr|done|vm_compute; reflexivity| |exact Hst].
  apply (timely_static "bgw" {["wal" := 60; "bgw" := 90; "locks" := 30; "unknown" := 10]} 90 tree_order sample_conn); [done|exact Hr|done|exact Hst| | |].
  - apply Forall_fmap, Forall_forall. intros i _. unfold timed, compose, time_Second.
    cbn [rd_env now clock batch_end rd_end round_at env_at]. unfold time_Second. split_and!; intros; lia.
  - simpl. repeat constructor. discriminate.
  - repeat constructor; vm_compute; discriminate.
Defined.
