(* ===== verification/Flow.v ===== *)
(** * The way of an envelope ([internal/reaper/reaper.go], [internal/sinks/postgres.go], [multiwriter.go])

    The goroutines between a query and a table, and the channels between them.  Workers and the main
    loop send envelopes to one channel of the reaper and block while it is full.  One goroutine,
    [WriteMeasurements], takes them from there and calls the sinks one after the other; the JSON, RPC and
    Prometheus sinks handle the envelope during the call, and a PostgreSQL sink puts it on a channel of
    its own, for five seconds at most, from where its [poll] collects batches.

    The system is a labelled step function on the contents of the channels and the positions of the
    goroutines; a run is any interleaving of steps.  The theorems show that nothing is duplicated or
    reordered, what can be lost and when, that the memory is bounded, and that the system cannot block:
    there is a measure that every step of work decreases, until everything has been handed over. *)

From S2P Require Import Prelude GoStrings Metrics Sinks CopySource PgSink PgPoll.
From stdpp Require Import options.

Local Open Scope nat_scope.

Abbreviation Envelope := MeasurementEnvelope.

(** The capacities of the two channels. *)
Definition measurementCh_cap : nat := 256.
Definition input_cap : nat := Z.to_nat cacheLimit.

Section flow.
(** [W] is the writer of a PostgreSQL sink with its flush, [D] the other sinks. *)
Context {W D : Type} `{!Writer D} (flush_at : nat → W → list Envelope → outcome W).

(** A PostgreSQL sink: its channel, the cache of [poll], and whether [poll] can take another turn. *)
Record pg_sink := {
  ps_writer : W;
  ps_input : list Envelope;
  ps_cache : list Envelope;
  ps_polling : bool;
}.

Inductive sink := Buffered (p : pg_sink) | Direct (d : D).

(** [WriteMeasurements] is idle, or at the call of sink [k] with an envelope; the flag tells that the
    channel of the sink was full. *)
Record flow := {
  fl_producers : list (list Envelope);      (* what each goroutine will send *)
  fl_ch : list Envelope;                    (* [measurementCh] *)
  fl_hand : option (Envelope * nat * bool);
  fl_sinks : list sink;
  fl_done : bool;                           (* the context *)
}.

Inductive label :=
  | Send (i : nat)        (* a producer sends its next envelope *)
  | Take                  (* [WriteMeasurements] receives *)
  | Offer                 (* the call of [Write] of the current sink begins or gets through *)
  | Timeout               (* [highLoadTimeout] *)
  | Receive (k t : nat)   (* [poll] of sink [k] receives, at moment [t] *)
  | Tick (k t : nat)
  | Stop (k : nat)        (* [poll] returns *)
  | Cancel.

(** What a step does, for the histories of the theorems. *)
Inductive event :=
  | Sent (i : nat) (e : Envelope)
  | Taken (e : Envelope)
  | Accepted (k : nat) (e : Envelope)
  | Lost (k : nat) (e : Envelope)
  | Full (k : nat)
  | Polled (k : nat) (ev : nat * poll_event).

Definition set_sink (s : flow) (k : nat) (x : sink) : flow := {|
  fl_producers := fl_producers s; fl_ch := fl_ch s; fl_hand := fl_hand s;
  fl_sinks := <[k := x]> (fl_sinks s); fl_done := fl_done s |}.
Definition set_hand (s : flow) (h : option (Envelope * nat * bool)) : flow := {|
  fl_producers := fl_producers s; fl_ch := fl_ch s; fl_hand := h; fl_sinks := fl_sinks s; fl_done := fl_done s |}.

(** [r.measurementCh <- e]. *)
Definition send_step (i : nat) (s : flow) : option (flow * list event) :=
  match fl_producers s !! i with
  | Some (e :: es) =>
      if decide (length (fl_ch s) < measurementCh_cap) then
        Some ({| fl_producers := <[i := es]> (fl_producers s); fl_ch := fl_ch s ++ [e]; fl_hand := fl_hand s;
                 fl_sinks := fl_sinks s; fl_done := fl_done s |}, [Sent i e])
      else None
  | _ => None
  end.

(** [msg := <-r.measurementCh], when the call for the message before it has returned. *)
Definition take_step (s : flow) : option (flow * list event) :=
  match fl_hand s, fl_ch s with
  | None, e :: ch =>
      Some ({| fl_producers := fl_producers s; fl_ch := ch; fl_hand := Some (e, 0, false);
               fl_sinks := fl_sinks s; fl_done := fl_done s |}, [Taken e])
  | _, _ => None
  end.

Definition ctx_err (s : flow) : option error := if fl_done s then Some (Sentinel ErrCanceled) else None.

(** The loop of [MultiWriter.Write] with the sinks' own [Write].  After the last sink the error is
    logged and the next message is waited for. *)
Definition offer_step (s : flow) : option (flow * list event) :=
  match fl_hand s with
  | None => None
  | Some (e, k, waiting) =>
      match fl_sinks s !! k with
      | None => Some (set_hand s None, [])
      | Some (Direct d) =>
          Some (set_hand (set_sink s k (Direct (Write e d).1)) (Some (e, S k, false)), [Accepted k e])
      | Some (Buffered p) =>
          if negb waiting && fl_done s then
            Some (set_hand s (Some (e, S k, false)), [Lost k e])
          else if decide (length (ps_input p) < input_cap) then
            let input := (PostgresWriter_Write None true (ps_input p) e).1 in
            Some (set_hand (set_sink s k (Buffered {| ps_writer := ps_writer p; ps_input := input;
                     ps_cache := ps_cache p; ps_polling := ps_polling p |})) (Some (e, S k, false)), [Accepted k e])
          else if waiting then None
          else Some (set_hand s (Some (e, k, true)), [Full k])
      end
  end.

(** The other branch of the [select] of [Write], for a message that found the channel full. *)
Definition timeout_step (s : flow) : option (flow * list event) :=
  match fl_hand s with
  | Some (e, k, true) => Some (set_hand s (Some (e, S k, false)), [Lost k e])
  | _ => None
  end.

(** A turn of [poll]; after a cancellation the turn that has begun is the last one. *)
Definition poll_step (s : flow) (k : nat) (p : pg_sink) (input : list Envelope) (ev : nat * poll_event)
    : option (flow * list event) :=
  if ps_polling p then
    match poll flush_at (ps_writer p) (ps_cache p) [ev] with
    | Returns (w, cache, _) =>
        Some (set_sink s k (Buffered {| ps_writer := w; ps_input := input; ps_cache := cache;
                ps_polling := negb (fl_done s) |}), [Polled k ev])
    | _ => None
    end
  else None.

Definition step (l : label) (s : flow) : option (flow * list event) :=
  match l with
  | Send i => send_step i s
  | Take => take_step s
  | Offer => offer_step s
  | Timeout => timeout_step s
  | Receive k t =>
      match fl_sinks s !! k with
      | Some (Buffered p) =>
          match ps_input p with
          | e :: input => poll_step s k p input (t, PollInput e)
          | [] => None
          end
      | _ => None
      end
  | Tick k t =>
      match fl_sinks s !! k with
      | Some (Buffered p) => poll_step s k p (ps_input p) (t, PollTick)
      | _ => None
      end
  | Stop k =>
      match fl_sinks s !! k with
      | Some (Buffered p) =>
          if fl_done s then
            Some (set_sink s k (Buffered {| ps_writer := ps_writer p; ps_input := ps_input p;
                    ps_cache := ps_cache p; ps_polling := false |}), [])
          else None
      | _ => None
      end
  | Cancel => Some ({| fl_producers := fl_producers s; fl_ch := fl_ch s; fl_hand := fl_hand s;
                       fl_sinks := fl_sinks s; fl_done := true |}, [])
  end.

(** Runs, with what happened. *)
Inductive reach (s0 : flow) : flow → list event → Prop :=
  | reach_start : reach s0 s0 []
  | reach_step s tr l s' evs : reach s0 s tr → step l s = Some (s', evs) → reach s0 s' (tr ++ evs).

Fixpoint run (ls : list label) (s : flow) : option (flow * list event) :=
  match ls with
  | [] => Some (s, [])
  | l :: ls' =>
      '(s1, evs) ← step l s;
      '(s2, evs') ← run ls' s1;
      Some (s2, evs ++ evs')
  end.

(** A system that starts: the writers of its PostgreSQL sinks and the other sinks. *)
Definition fresh (x : W + D) : sink :=
  match x with
  | inl w => Buffered {| ps_writer := w; ps_input := []; ps_cache := []; ps_polling := true |}
  | inr d => Direct d
  end.
Definition start (producers : list (list Envelope)) (sinks : list (W + D)) : flow := {|
  fl_producers := producers; fl_ch := []; fl_hand := None; fl_sinks := fresh <$> sinks; fl_done := false |}.

(** *** Histories *)

Definition sent (tr : list event) : list Envelope := omap (λ ev, match ev with Sent _ e => Some e | _ => None end) tr.
Definition sent_by (i : nat) (tr : list event) : list Envelope :=
  omap (λ ev, match ev with Sent j e => if decide (j = i) then Some e else None | _ => None end) tr.
Definition taken (tr : list event) : list Envelope := omap (λ ev, match ev with Taken e => Some e | _ => None end) tr.
Definition accepted (k : nat) (tr : list event) : list Envelope :=
  omap (λ ev, match ev with Accepted j e => if decide (j = k) then Some e else None | _ => None end) tr.
Definition lost (k : nat) (tr : list event) : list Envelope :=
  omap (λ ev, match ev with Lost j e => if decide (j = k) then Some e else None | _ => None end) tr.
Definition offered (k : nat) (tr : list event) : list Envelope :=
  omap (λ ev, match ev with Accepted j e | Lost j e => if decide (j = k) then Some e else None | _ => None end) tr.
Definition full (k : nat) (tr : list event) : list unit :=
  omap (λ ev, match ev with Full j => if decide (j = k) then Some () else None | _ => None end) tr.
Definition polled (k : nat) (tr : list event) : list (nat * poll_event) :=
  omap (λ ev, match ev with Polled j pe => if decide (j = k) then Some pe else None | _ => None end) tr.
End flow.

Arguments pg_sink : clear implicits.
Arguments sink : clear implicits.
Arguments flow : clear implicits.

(** ** What every run respects *)

Section invariant.
Context {W D : Type} `{!Writer D} (flush_at : nat → W → list Envelope → outcome W).
Implicit Types (s : flow W D) (tr : list event).

Lemma poll_app w cache evs evs' :
  poll flush_at w cache (evs ++ evs') =
  match poll flush_at w cache evs with
  | Returns (w', cache', false) => poll flush_at w' cache' evs'
  | r => r
  end.
Proof using Type.
  revert w cache. induction evs as [|[t [e| |]] evs IH]; intros w cache; simpl; [done| | |done].
  - destruct (_ <? _)%Z; [apply IH|]. by destruct (flush_at _ _ _).
  - by destruct (flush_at _ _ _).
Qed.

Lemma received_app evs evs' :
  Forall (λ ev, ev.2 ≠ PollDone) evs → received (evs ++ evs') = received evs ++ received evs'.
Proof using Type.
  induction 1 as [|[t [e| |]] evs Hd _ IH]; simpl; [done|by rewrite IH|done|done].
Qed.

(** The part of [taken] that sink [k] has not been offered yet. *)
Definition in_hand (k : nat) s : list Envelope :=
  match fl_hand s with Some (e, j, _) => if decide (j ≤ k) then [e] else [] | None => [] end.

(** The state of a sink is a function of what it accepted and of the turns of its [poll]. *)
Definition sink_ok (k : nat) (x0 : W + D) (x : sink W D) tr : Prop :=
  match x0, x with
  | inl w0, Buffered p =>
      poll flush_at w0 [] (polled k tr) = Returns (ps_writer p, ps_cache p, false) ∧
      Forall (λ ev, ev.2 ≠ PollDone) (polled k tr) ∧
      accepted k tr = received (polled k tr) ++ ps_input p ∧
      length (ps_input p) ≤ input_cap
  | inr d0, Direct d => d = foldl (λ d e, (Write e d).1) d0 (accepted k tr) ∧ lost k tr = []
  | _, _ => False
  end.

Record flow_inv (producers : list (list Envelope)) (sinks : list (W + D)) s tr : Prop := {
  inv_producers i : sent_by i tr ++ default [] (fl_producers s !! i) = default [] (producers !! i);
  inv_total : sent tr ++ concat (fl_producers s) ≡ₚ concat producers;
  inv_ch : sent tr = taken tr ++ fl_ch s;
  inv_cap : length (fl_ch s) ≤ measurementCh_cap;
  inv_hand k : k < length sinks → offered k tr ++ in_hand k s = taken tr;
  inv_index e k b : fl_hand s = Some (e, k, b) → k ≤ length sinks ∧ (b = true → ∃ w0, sinks !! k = Some (inl w0));
  inv_length : length (fl_sinks s) = length sinks;
  inv_sink k x0 : sinks !! k = Some x0 → ∃ x, fl_sinks s !! k = Some x ∧ sink_ok k x0 x tr;
  inv_polling k p : fl_done s = false → fl_sinks s !! k = Some (Buffered p) → ps_polling p = true;
}.

Section step.
Context (producers : list (list Envelope)) (sinks : list (W + D)).
Abbreviation inv := (flow_inv producers sinks).

Lemma sink_ok_frame k x0 x tr evs :
  polled k evs = [] → accepted k evs = [] → lost k evs = [] → sink_ok k x0 x tr → sink_ok k x0 x (tr ++ evs).
Proof using Type.
  intros Hp Ha Hl. unfold sink_ok, polled, accepted, lost in *. rewrite !omap_app.
  rewrite Hp, Ha, Hl, !app_nil_r. done.
Qed.

Ltac hist :=
  unfold sent, sent_by, taken, accepted, lost, offered, polled in *; rewrite ?omap_app in *; simpl in *;
  rewrite ?app_nil_r in *.

Lemma concat_insert (l : list (list Envelope)) i e es :
  l !! i = Some (e :: es) → concat l ≡ₚ e :: concat (<[i := es]> l).
Proof using Type.
  revert i. induction l as [|x l IH]; intros [|i] Hi; simplify_eq/=; [done|]. rewrite (IH i Hi). symmetry. apply Permutation_middle.
Qed.

Lemma send_inv i s tr s' evs : inv s tr → send_step i s = Some (s', evs) → inv s' (tr ++ evs).
Proof using Type.
  intros [] H. unfold send_step in H. destruct (fl_producers s !! i) as [[|e es]|] eqn:Ei; try done.
  case_decide as Hc; [|done]. injection H as <- <-. split; simpl; try done.
  - intros j. specialize (inv_producers0 j). hist. destruct (decide (i = j)) as [->|Hij].
    + rewrite Ei in inv_producers0. simpl in inv_producers0. rewrite list_lookup_insert_eq by (by eapply lookup_lt_Some).
      simpl. by rewrite <-app_assoc.
    + rewrite list_lookup_insert_ne by done. rewrite app_nil_r. done.
  - rewrite <-inv_total0, (concat_insert _ _ _ _ Ei). hist. by rewrite <-app_assoc.
  - hist. by rewrite inv_ch0, app_assoc.
  - rewrite length_app. simpl. lia.
  - intros k Hk. specialize (inv_hand0 k Hk). unfold in_hand in *. hist. done.
  - intros k x0 Hk. destruct (inv_sink0 k x0 Hk) as (x & Hx & Hok). exists x. split; [done|]. by apply sink_ok_frame.
Qed.

Lemma take_inv s tr s' evs : inv s tr → take_step s = Some (s', evs) → inv s' (tr ++ evs).
Proof using Type.
  intros [] H. unfold take_step in H. destruct (fl_hand s) eqn:Eh; [done|]. destruct (fl_ch s) as [|e ch] eqn:Ec; [done|].
  injection H as <- <-. split; simpl; try done.
  - intros j. specialize (inv_producers0 j). by hist.
  - by hist.
  - hist. by rewrite inv_ch0, <-app_assoc.
  - simpl in inv_cap0. lia.
  - intros k Hk. specialize (inv_hand0 k Hk). unfold in_hand in *. simpl. rewrite Eh in inv_hand0. hist. by rewrite inv_hand0.
  - intros ? ? ? [= <- <- <-]. split; [lia|done].
  - intros k x0 Hk. destruct (inv_sink0 k x0 Hk) as (x & Hx & Hok). exists x. split; [done|]. by apply sink_ok_frame.
Qed.

(** The other sinks are not concerned by a step of sink [k]. *)
Lemma other_sinks k x s tr ev :
  (∀ j e, ev = Accepted j e ∨ ev = Lost j e → j = k) → (∀ j pe, ev = Polled j pe → j = k) →
  (∀ j x0, sinks !! j = Some x0 → ∃ x, fl_sinks s !! j = Some x ∧ sink_ok j x0 x tr) →
  ∀ j x0, j ≠ k → sinks !! j = Some x0 →
    ∃ x', <[k := x]> (fl_sinks s) !! j = Some x' ∧ sink_ok j x0 x' (tr ++ [ev]).
Proof using Type.
  intros He Hp Hall j x0 Hj Hx0. destruct (Hall j x0 Hx0) as (x' & Hx' & Hok). exists x'.
  rewrite list_lookup_insert_ne by done. split; [done|].
  apply sink_ok_frame; [..|done]; unfold polled, accepted, lost; destruct ev; simpl; try done; rewrite decide_False; try done;
    intros ->; apply Hj; eauto.
Qed.

Lemma advance_inv s tr e k b x0 x ev :
  inv s tr → fl_hand s = Some (e, k, b) → sinks !! k = Some x0 → ev = Accepted k e ∨ ev = Lost k e →
  sink_ok k x0 x (tr ++ [ev]) → (∀ p, fl_done s = false → x = Buffered p → ps_polling p = true) →
  inv (set_hand (set_sink s k x) (Some (e, S k, false))) (tr ++ [ev]).
Proof using Type.
  intros [] Hh Hx0 Hev Hok Hpoll. pose proof (lookup_lt_Some _ _ _ Hx0) as Hk.
  assert (sent [ev] = [] ∧ (∀ i, sent_by i [ev] = []) ∧ taken [ev] = [] ∧ polled k [ev] = []) as (Hs & Hsb & Ht & _)
    by (by destruct Hev as [-> | ->]).
  split; simpl.
  - intros i. unfold sent_by in *. rewrite omap_app, Hsb, app_nil_r. apply inv_producers0.
  - unfold sent in *. by rewrite omap_app, Hs, app_nil_r.
  - unfold sent, taken in *. by rewrite !omap_app, Hs, Ht, !app_nil_r.
  - done.
  - intros j Hj. specialize (inv_hand0 j Hj). unfold in_hand in *. rewrite Hh in inv_hand0. simpl.
    unfold offered, taken in *. rewrite !omap_app, Ht, app_nil_r. rewrite <-inv_hand0, <-app_assoc. f_equal.
    destruct (decide (j = k)) as [->|Hjk].
    + rewrite (decide_True (P := k ≤ k)) by lia. rewrite decide_False by lia. by destruct Hev as [-> | ->]; simpl; rewrite decide_True.
    + assert (omap (λ ev, match ev with Accepted i e | Lost i e => if decide (i = j) then Some e else None | _ => None end) [ev] = [])
        as -> by (destruct Hev as [-> | ->]; simpl; by rewrite decide_False).
      repeat case_decide; try lia; done.
  - intros ? ? ? [= <- <- <-]. split; [lia|done].
  - by rewrite length_insert.
  - intros j y Hy. destruct (decide (j = k)) as [->|Hj].
    + simplify_eq. exists x. rewrite list_lookup_insert_eq by lia. done.
    + eapply (other_sinks k x s tr ev); [naive_solver|naive_solver|done..].
  - intros j p Hd Hp. destruct (decide (j = k)) as [->|Hj].
    + rewrite list_lookup_insert_eq in Hp by lia. naive_solver.
    + rewrite list_lookup_insert_ne in Hp by done. eauto.
Qed.

(** Ending the call, or beginning to wait, changes the position only. *)
Lemma set_hand_inv s tr h evs :
  inv s tr → evs = [] ∨ (∃ k, evs = [Full k]) → (∀ k, k < length sinks → in_hand k (set_hand s h) = in_hand k s) →
  (∀ e k b, h = Some (e, k, b) → k ≤ length sinks ∧ (b = true → ∃ w0, sinks !! k = Some (inl w0))) →
  inv (set_hand s h) (tr ++ evs).
Proof using Type.
  intros [] Hev Hh Hi. split; simpl; try done.
  - intros i. specialize (inv_producers0 i). by destruct Hev as [->|[? ->]]; hist.
  - by destruct Hev as [->|[? ->]]; hist.
  - by destruct Hev as [->|[? ->]]; hist.
  - intros k Hk. rewrite Hh by done. specialize (inv_hand0 k Hk). by destruct Hev as [->|[? ->]]; hist.
  - intros k x0 Hk. destruct (inv_sink0 k x0 Hk) as (x & Hx & Hok). exists x. split; [done|].
    apply sink_ok_frame; [..|done]; by destruct Hev as [->|[? ->]].
Qed.

Lemma offer_inv s tr s' evs : inv s tr → offer_step s = Some (s', evs) → inv s' (tr ++ evs).
Proof using Type.
  intros Hinv H. pose proof Hinv as []. unfold offer_step in H. destruct (fl_hand s) as [[[e k] b]|] eqn:Eh; [|done].
  destruct (inv_index0 e k b eq_refl) as [Hk Hb].
  destruct (fl_sinks s !! k) as [[p|d]|] eqn:Ek.
  2: { injection H as <- <-. destruct (lookup_lt_is_Some_2 sinks k) as [x0 Hx0].
       { rewrite <-inv_length0. by eapply lookup_lt_Some. }
       destruct (inv_sink0 k x0 Hx0) as (x & Hx & Hok). rewrite Ek in Hx. injection Hx as <-.
       eapply advance_inv; [done|done|done|by left| |done].
       destruct x0 as [w0|d0]; [done|]. simpl in *. destruct Hok as [-> Hl]. hist.
       rewrite decide_True by done. by rewrite foldl_app. }
  2: { injection H as <- <-. apply set_hand_inv; [done|by left| |done]. intros j Hj. unfold in_hand. rewrite Eh. simpl.
       apply lookup_ge_None in Ek. rewrite decide_False by lia. done. }
  destruct (lookup_lt_is_Some_2 sinks k) as [x0 Hx0].
  { rewrite <-inv_length0. by eapply lookup_lt_Some. }
  destruct (inv_sink0 k x0 Hx0) as (x & Hx & Hok). rewrite Ek in Hx. injection Hx as <-.
  destruct x0 as [w0|d0]; [|done].
  destruct (negb b && fl_done s) eqn:Ed.
  { injection H as <- <-. assert (s = set_sink s k (Buffered p)) as Hset.
    { destruct s; unfold set_sink; simpl in *. by rewrite list_insert_id. }
    rewrite Hset. eapply advance_inv; [done|done|done|by right| |].
    - unfold sink_ok in *. hist. done.
    - intros q Hd [= <-]. by eapply inv_polling0. }
  case_decide as Hc.
  - injection H as <- <-. eapply advance_inv; [done|done|done|by left| |].
    + unfold sink_ok in *. simpl. destruct Hok as (Hp & Hnd & Ha & Hlen). hist. rewrite decide_True by done.
      rewrite Ha, length_app. simpl. split_and!; [done|done|by rewrite app_assoc|lia].
    + intros q Hd [= <-]. simpl. by eapply inv_polling0.
  - destruct b; [done|]. injection H as <- <-. apply set_hand_inv; [done|right; by exists k| |].
    + intros j Hj. unfold in_hand. by rewrite Eh.
    + intros ? ? ? [= <- <- <-]. split; [done|by exists w0].
Qed.

Lemma timeout_inv s tr s' evs : inv s tr → timeout_step s = Some (s', evs) → inv s' (tr ++ evs).
Proof using Type.
  intros Hinv H. pose proof Hinv as []. unfold timeout_step in H. destruct (fl_hand s) as [[[e k] []]|] eqn:Eh; [|done..].
  injection H as <- <-. destruct (inv_index0 e k true eq_refl) as [_ [w0 Hx0]]; [done|].
  destruct (inv_sink0 k _ Hx0) as (x & Hx & Hok). destruct x as [p|]; [|done].
  assert (s = set_sink s k (Buffered p)) as Hset.
  { destruct s; unfold set_sink; simpl in *. by rewrite list_insert_id. }
  rewrite Hset. eapply advance_inv; [done|done|done|by right| |].
  - unfold sink_ok in *. hist. done.
  - intros q Hd [= <-]. by eapply inv_polling0.
Qed.

(** A turn of [poll] of one sink. *)
Lemma poll_inv s tr k p w0 input ev w cache stopped :
  inv s tr → sinks !! k = Some (inl w0) → fl_sinks s !! k = Some (Buffered p) → ev.2 ≠ PollDone →
  ps_input p = received [ev] ++ input →
  poll flush_at (ps_writer p) (ps_cache p) [ev] = Returns (w, cache, stopped) →
  inv (set_sink s k (Buffered {| ps_writer := w; ps_input := input; ps_cache := cache;
                                 ps_polling := negb (fl_done s) |})) (tr ++ [Polled k ev]).
Proof using Type.
  intros [] Hx0 Hx Hnd Hin Hp. pose proof (lookup_lt_Some _ _ _ Hx) as Hk.
  destruct (inv_sink0 k _ Hx0) as (x & Hx' & Hok). rewrite Hx in Hx'. injection Hx' as <-.
  assert (stopped = false) as ->.
  { destruct ev as [t []]; simpl in *; [| |done]; destruct (flush_at _ _ _); repeat case_match; by simplify_eq. }
  split; simpl.
  - intros i. specialize (inv_producers0 i). by hist.
  - by hist.
  - by hist.
  - done.
  - intros j Hj. specialize (inv_hand0 j Hj). unfold in_hand in *. by hist.
  - done.
  - by rewrite length_insert.
  - intros j y Hy. destruct (decide (j = k)) as [->|Hj].
    + rewrite Hx0 in Hy. injection Hy as <-. eexists. rewrite list_lookup_insert_eq by done. split; [done|].
      destruct Hok as (Hpp & Hnd' & Ha & Hlen). unfold sink_ok. simpl. unfold polled, accepted in *.
      rewrite !omap_app. simpl. rewrite decide_True by done. rewrite app_nil_r. split_and!.
      * by rewrite poll_app, Hpp.
      * apply Forall_app. split; [done|by constructor].
      * rewrite received_app by done. by rewrite Ha, Hin, app_assoc.
      * rewrite Hin, length_app in Hlen. lia.
    + eapply (other_sinks k _ s tr (Polled k ev)); [naive_solver|naive_solver|done..].
  - intros j q Hd Hq. destruct (decide (j = k)) as [->|Hj].
    + rewrite list_lookup_insert_eq in Hq by done. injection Hq as <-. simpl. by rewrite Hd.
    + rewrite list_lookup_insert_ne in Hq by done. eauto.
Qed.

Lemma buffered_writer s tr k p :
  inv s tr → fl_sinks s !! k = Some (Buffered p) → ∃ w0, sinks !! k = Some (inl w0).
Proof using Type.
  intros [] Hx. destruct (lookup_lt_is_Some_2 sinks k) as [x0 Hx0].
  { rewrite <-inv_length0. by eapply lookup_lt_Some. }
  destruct (inv_sink0 k x0 Hx0) as (x & Hx' & Hok). rewrite Hx in Hx'. injection Hx' as <-. destruct x0; [eauto|done].
Qed.

Lemma stop_inv s tr k p b :
  inv s tr → fl_sinks s !! k = Some (Buffered p) → fl_done s = true →
  inv (set_sink s k (Buffered {| ps_writer := ps_writer p; ps_input := ps_input p; ps_cache := ps_cache p;
                                 ps_polling := b |})) (tr ++ []).
Proof using Type.
  intros Hinv Hx Hd. destruct (buffered_writer _ _ _ _ Hinv Hx) as [w0 Hx0]. destruct Hinv.
  pose proof (lookup_lt_Some _ _ _ Hx) as Hk. rewrite app_nil_r. split; simpl; try done.
  - by rewrite length_insert.
  - intros j y Hy. destruct (inv_sink0 j y Hy) as (x & Hxj & Hok). destruct (decide (j = k)) as [->|Hj].
    + eexists. rewrite list_lookup_insert_eq by done. split; [done|]. by simplify_eq.
    + exists x. by rewrite list_lookup_insert_ne.
  - congruence.
Qed.

Lemma step_inv l s tr s' evs : inv s tr → step flush_at l s = Some (s', evs) → inv s' (tr ++ evs).
Proof using Type.
  intros Hinv. destruct l as [i| | | |k t|k t|k|]; simpl.
  - by apply send_inv.
  - by apply take_inv.
  - by apply offer_inv.
  - by apply timeout_inv.
  - destruct (fl_sinks s !! k) as [[p|]|] eqn:Ek; [|done..]. destruct (ps_input p) as [|e input] eqn:Ei; [done|].
    unfold poll_step. destruct (ps_polling p); [|done].
    destruct (poll _ _ _ _) as [[[w cache] st]| |] eqn:Ep; [|done..]. intros [= <- <-].
    destruct (buffered_writer _ _ _ _ Hinv Ek) as [w0 Hw0]. by eapply poll_inv.
  - destruct (fl_sinks s !! k) as [[p|]|] eqn:Ek; [|done..]. unfold poll_step. destruct (ps_polling p); [|done].
    destruct (poll _ _ _ _) as [[[w cache] st]| |] eqn:Ep; [|done..]. intros [= <- <-].
    destruct (buffered_writer _ _ _ _ Hinv Ek) as [w0 Hw0]. by eapply poll_inv.
  - destruct (fl_sinks s !! k) as [[p|]|] eqn:Ek; [|done..]. destruct (fl_done s) eqn:Ed; [|done]. intros [= <- <-].
    by apply stop_inv.
  - intros [= <- <-]. destruct Hinv. rewrite app_nil_r. by split.
Qed.

Lemma start_inv : inv (start producers sinks) [].
Proof using Type.
  split; simpl; try done.
  - lia.
  - by rewrite length_fmap.
  - intros k x0 Hk. exists (fresh x0). rewrite list_lookup_fmap, Hk. split; [done|].
    destruct x0; simpl; [|done]. split_and!; [done|constructor|done|lia].
  - intros k p _ Hk. rewrite list_lookup_fmap in Hk. destruct (sinks !! k) as [[]|]; simplify_eq/=. done.
Qed.

Lemma reach_inv s tr : reach flush_at (start producers sinks) s tr → inv s tr.
Proof using Type. induction 1 as [|s tr l s' evs _ IH Hs]; [apply start_inv|by eapply step_inv]. Qed.

Lemma run_reach ls s tr s' evs :
  reach flush_at (start producers sinks) s tr → run flush_at ls s = Some (s', evs) →
  reach flush_at (start producers sinks) s' (tr ++ evs).
Proof using Type.
  revert s tr evs. induction ls as [|l ls IH]; intros s tr evs Hr H; simpl in H.
  { injection H as <- <-. by rewrite app_nil_r. }
  destruct (step flush_at l s) as [[s1 e1]|] eqn:E1; simpl in H; [|done].
  destruct (run flush_at ls s1) as [[s2 e2]|] eqn:E2; simpl in H; [|done]. injection H as <- <-.
  rewrite app_assoc. eapply IH; [|done]. by econstructor.
Qed.

Lemma run_from_start ls p :
  run flush_at ls (start producers sinks) = Some p → reach flush_at (start producers sinks) p.1 p.2.
Proof using Type. destruct p as [s evs]. apply (run_reach ls _ []). constructor. Qed.
End step.

(** ** Envelopes that the flush accepts *)

Section live.
Context (P : Envelope → Prop).
Context (flush_returns : ∀ t w b, Forall P b → ∃ w', flush_at t w b = Returns w').
Context (producers : list (list Envelope)) (sinks : list (W + D)).
Hypothesis HP : Forall (Forall P) producers.

(** What is offered to a sink is what it accepted and what it lost, in this order of events. *)
Lemma offered_split k tr : offered k tr ≡ₚ accepted k tr ++ lost k tr.
Proof using Type.
  induction tr as [|ev tr IH]; [done|]. unfold offered, accepted, lost in *. destruct ev; simpl; try done;
    case_decide; simpl; try done; [by rewrite IH|]. rewrite IH. apply Permutation_middle.
Qed.

Lemma accepted_sublist k tr : accepted k tr `sublist_of` offered k tr ∧ lost k tr `sublist_of` offered k tr.
Proof using Type.
  induction tr as [|ev tr [IH1 IH2]]; [done|]. unfold offered, accepted, lost in *. destruct ev; simpl; try done;
    case_decide; simpl; split; try done; by constructor.
Qed.

Lemma accepted_all k tr : lost k tr = [] → accepted k tr = offered k tr.
Proof using Type.
  induction tr as [|ev tr IH]; [done|]. unfold offered, accepted, lost in *. destruct ev; simpl; try done;
    case_decide; simpl; intros Hl; try done; try exact (IH Hl). f_equal. exact (IH Hl).
Qed.

Section reached.
Context s tr (Hinv : flow_inv producers sinks s tr).

Lemma sent_P : Forall P (sent tr).
Proof using HP Hinv.
  destruct Hinv. apply Forall_forall. intros e He.
  assert (e ∈ concat producers) as Hc by (rewrite <-inv_total0; apply elem_of_app; by left).
  apply Forall_concat in HP. rewrite Forall_forall in HP. by apply HP.
Qed.

Lemma taken_P : Forall P (taken tr).
Proof using HP Hinv. pose proof sent_P as H. destruct Hinv as [_ _ Hch _ _ _ _ _ _]. rewrite Hch in H. by apply Forall_app in H as [H _]. Qed.

Lemma accepted_P k x0 : sinks !! k = Some x0 → Forall P (accepted k tr).
Proof using HP Hinv.
  intros Hk%lookup_lt_Some. pose proof taken_P as H. destruct Hinv as [_ _ _ _ Hh _ _ _ _]. rewrite <-(Hh k Hk) in H.
  apply Forall_app in H as [H _]. rewrite offered_split in H. by apply Forall_app in H as [H _].
Qed.

(** The batches of a PostgreSQL sink. *)
Lemma sink_batches k w0 p :
  sinks !! k = Some (inl w0) → fl_sinks s !! k = Some (Buffered p) →
  ∃ bs, flush_all flush_at w0 bs = Returns (ps_writer p) ∧
    concat bs.*2 ++ ps_cache p ++ ps_input p = accepted k tr ∧
    Forall (λ b, len b.2 ≤ cacheLimit)%Z bs ∧ (len (ps_cache p) < cacheLimit)%Z.
Proof using HP Hinv flush_returns.
  intros Hk Hp. pose proof Hinv as []. destruct (inv_sink0 k _ Hk) as (x & Hx & Hok). rewrite Hp in Hx. injection Hx as <-.
  destruct Hok as (Hpoll & Hnd & Ha & Hlen). pose proof (accepted_P k _ Hk) as HPa. rewrite Ha in HPa.
  apply Forall_app in HPa as [HPa _].
  destruct (poll_from flush_at P flush_returns w0 [] (polled k tr)) as (w' & bs & rest & st & Hr & Hf & Hc & Hb & Hl); [done..|].
  rewrite Hpoll in Hr. injection Hr as -> -> <-. exists bs. rewrite app_assoc, Hc, Ha. by split_and!.
Qed.
End reached.

(** ** Progress *)

(** The work that is left: every envelope weighs what its way to the sinks costs. *)
Definition sink_weight (x : sink W D) : nat :=
  match x with Buffered p => 2 * length (ps_input p) + length (ps_cache p) | Direct _ => 0 end.
Definition hand_weight (s : flow W D) : nat :=
  match fl_hand s with
  | Some (_, k, b) => 4 * (length (fl_sinks s) - k) + (if b then 1 else 2)
  | None => 0
  end.
Definition measure (s : flow W D) : nat :=
  let n := length (fl_sinks s) in
  (4 * n + 4) * length (concat (fl_producers s)) + (4 * n + 3) * length (fl_ch s) + hand_weight s +
  sum_list (sink_weight <$> fl_sinks s).

(** Everything was handed over. *)
Definition drained (s : flow W D) : Prop :=
  Forall (λ es, es = []) (fl_producers s) ∧ fl_ch s = [] ∧ fl_hand s = None ∧
  Forall (λ x, sink_weight x = 0) (fl_sinks s).

Lemma sum_insert (l : list (sink W D)) k x y :
  l !! k = Some x → sum_list (sink_weight <$> <[k := y]> l) + sink_weight x = sum_list (sink_weight <$> l) + sink_weight y.
Proof using Type.
  revert k. induction l as [|z l IH]; intros [|k] Hk; simplify_eq/=; [lia|]. specialize (IH k Hk). lia.
Qed.

(** A turn of [poll] that has something to do decreases the weight of its sink. *)
Lemma poll_weight w cache ev w' cache' st :
  poll flush_at w cache [ev] = Returns (w', cache', st) → ev.2 ≠ PollDone →
  length cache' ≤ length cache + length (received [ev]) ∧ (ev.2 = PollTick → cache' = []).
Proof using Type.
  destruct ev as [t [e| |]]; simpl; [| |done].
  - destruct (_ <? _)%Z; [|destruct (flush_at _ _ _); try done]; intros [= <- <- <-] _; rewrite ?length_app; simpl; split; [lia|done..|lia|done].
  - destruct (flush_at _ _ _); try done. intros [= <- <- <-] _. simpl. split; [lia|done].
Qed.

(** Steps that do no work: a tick of a sink with an empty cache, and the end of the program. *)
Definition idle (l : label) (s : flow W D) : Prop :=
  match l with
  | Tick k _ => ∃ p, fl_sinks s !! k = Some (Buffered p) ∧ ps_cache p = []
  | Stop _ | Cancel => True
  | _ => False
  end.

Lemma step_measure l s tr s' evs :
  flow_inv producers sinks s tr →
  step flush_at l s = Some (s', evs) → measure s' ≤ measure s ∧ (measure s' < measure s ∨ idle l s).
Proof using Type.
  intros Hinv. destruct l as [i| | | |k t|k t|k|]; simpl.
  - unfold send_step. destruct (fl_producers s !! i) as [[|e es]|] eqn:Ei; try done. case_decide; [|done].
    intros [= <- <-]. unfold measure, hand_weight. simpl. rewrite length_app. simpl.
    pose proof (Permutation_length (concat_insert _ _ _ _ Ei)) as Hl. simpl in Hl. rewrite Hl. split; [|left]; nia.
  - unfold take_step. destruct (fl_hand s) eqn:Eh; [done|]. destruct (fl_ch s) as [|e ch] eqn:Ec; [done|].
    intros [= <- <-]. unfold measure, hand_weight. simpl. rewrite Eh, Ec. simpl. split; [|left]; nia.
  - unfold offer_step. destruct (fl_hand s) as [[[e k] b]|] eqn:Eh; [|done].
    destruct (fl_sinks s !! k) as [[p|d]|] eqn:Ek.
    + pose proof (lookup_lt_Some _ _ _ Ek) as Hk.
      destruct (negb b && fl_done s).
      { intros [= <- <-]. unfold measure, hand_weight. simpl. rewrite Eh. split; [|left]; destruct b; lia. }
      case_decide.
      { intros [= <- <-]. unfold measure, hand_weight. simpl. rewrite Eh, length_insert.
        pose proof (sum_insert _ _ _ (Buffered {| ps_writer := ps_writer p; ps_input := ps_input p ++ [e];
          ps_cache := ps_cache p; ps_polling := ps_polling p |}) Ek) as Hs. simpl in Hs. rewrite length_app in Hs. simpl in Hs.
        split; [|left]; destruct b; lia. }
      destruct b; [done|]. intros [= <- <-]. unfold measure, hand_weight. simpl. rewrite Eh. split; [|left]; lia.
    + pose proof (lookup_lt_Some _ _ _ Ek) as Hk.
      intros [= <- <-]. unfold measure, hand_weight. simpl. rewrite Eh, length_insert.
      pose proof (sum_insert _ _ _ (Direct (Write e d).1) Ek) as Hs. simpl in Hs. split; [|left]; destruct b; lia.
    + intros [= <- <-]. unfold measure, hand_weight. simpl. rewrite Eh. split; [|left]; destruct b; lia.
  - unfold timeout_step. destruct (fl_hand s) as [[[e k] []]|] eqn:Eh; [|done..]. intros [= <- <-].
    destruct (inv_index _ _ _ _ Hinv e k true Eh) as [_ [w0 Hk%lookup_lt_Some]]; [done|].
    rewrite <-(inv_length _ _ _ _ Hinv) in Hk.
    unfold measure, hand_weight. simpl. rewrite Eh. split; [|left]; lia.
  - destruct (fl_sinks s !! k) as [[p|]|] eqn:Ek; [|done..]. destruct (ps_input p) as [|e input] eqn:Ei; [done|].
    unfold poll_step. destruct (ps_polling p); [|done].
    destruct (poll _ _ _ _) as [[[w cache] st]| |] eqn:Ep; [|done..]. intros [= <- <-].
    apply poll_weight in Ep as [Hw _]; [|done]. simpl in Hw.
    pose proof (sum_insert _ _ _ (Buffered {| ps_writer := w; ps_input := input; ps_cache := cache; ps_polling := negb (fl_done s) |}) Ek) as Hs.
    simpl in Hs. rewrite Ei in Hs. simpl in Hs.
    unfold measure, hand_weight. simpl. rewrite length_insert. split; [|left]; lia.
  - destruct (fl_sinks s !! k) as [[p|]|] eqn:Ek; [|done..]. unfold poll_step. destruct (ps_polling p); [|done].
    destruct (poll _ _ _ _) as [[[w cache] st]| |] eqn:Ep; [|done..]. intros [= <- <-].
    apply poll_weight in Ep as [_ Hc]; [|done]. rewrite Hc by done.
    pose proof (sum_insert _ _ _ (Buffered {| ps_writer := w; ps_input := ps_input p; ps_cache := []; ps_polling := negb (fl_done s) |}) Ek) as Hs.
    simpl in Hs. unfold measure, hand_weight. simpl. rewrite length_insert.
    split; [lia|]. destruct (ps_cache p) eqn:Ecp; [right; by exists p|left]. simpl in Hs. lia.
  - destruct (fl_sinks s !! k) as [[p|]|] eqn:Ek; [|done..]. destruct (fl_done s); [|done]. intros [= <- <-].
    pose proof (sum_insert _ _ _ (Buffered {| ps_writer := ps_writer p; ps_input := ps_input p; ps_cache := ps_cache p; ps_polling := false |}) Ek) as Hs.
    simpl in Hs. unfold measure, hand_weight. simpl. rewrite length_insert. split; [lia|by right].
  - intros [= <- <-]. unfold measure, hand_weight. simpl. split; [lia|by right].
Qed.

(** A sink with something in its channel or cache can take a turn. *)
Lemma poll_enabled s tr k p ev input :
  flow_inv producers sinks s tr → fl_done s = false → fl_sinks s !! k = Some (Buffered p) → ev.2 ≠ PollDone →
  ps_input p = received [ev] ++ input → ∃ s' evs, poll_step flush_at s k p input ev = Some (s', evs).
Proof using HP flush_returns.
  intros Hinv Hd Hk Hnd Hin. destruct (buffered_writer _ _ _ _ _ _ Hinv Hk) as [w0 Hw0].
  unfold poll_step. rewrite (inv_polling _ _ _ _ Hinv k p Hd Hk).
  destruct (sink_batches s tr Hinv k w0 p Hw0 Hk) as (bs & _ & Hc & _ & Hl).
  pose proof (accepted_P s tr Hinv k _ Hw0) as HPa. rewrite <-Hc in HPa. apply Forall_app in HPa as [_ HPa].
  destruct (poll_from flush_at P flush_returns (ps_writer p) (ps_cache p) [ev]) as (w' & bs' & rest & st & -> & _); [done| |by do 2 eexists].
  rewrite Hin, app_assoc in HPa. by apply Forall_app in HPa as [HPa _].
Qed.

(** The goroutine that calls the sinks is never stuck with a message. *)
Lemma writer_enabled s e k b :
  fl_hand s = Some (e, k, b) → ∃ l s' evs, step flush_at l s = Some (s', evs) ∧ ¬ idle l s.
Proof using Type.
  intros Hh. destruct (step flush_at Offer s) as [[s' evs]|] eqn:E.
  { exists Offer, s', evs. by split; [|intros []]. }
  simpl in E. unfold offer_step in E. rewrite Hh in E. destruct (fl_sinks s !! k) as [[p|d]|] eqn:Ek; [|done..].
  destruct (negb b && fl_done s) eqn:Ed; [done|]. case_decide; [done|]. destruct b; [|done].
  exists Timeout. simpl. unfold timeout_step. rewrite Hh. do 2 eexists. split; [done|by intros []].
Qed.

Lemma flow_progress s tr :
  flow_inv producers sinks s tr → fl_done s = false →
  drained s ∨ ∃ l s' evs, step flush_at l s = Some (s', evs) ∧ ¬ idle l s.
Proof using HP flush_returns.
  intros Hinv Hd. destruct (fl_hand s) as [[[e k] b]|] eqn:Eh; [right; by eapply writer_enabled|].
  destruct (fl_ch s) as [|e ch] eqn:Ec.
  2: { right. exists Take. simpl. unfold take_step. rewrite Eh, Ec. do 2 eexists. split; [done|by intros []]. }
  destruct (decide (Forall (λ es, es = []) (fl_producers s))) as [Hp|Hp].
  2: { right. apply not_Forall_Exists in Hp; [|apply _]. apply Exists_exists in Hp as (es & [i Hi]%list_elem_of_lookup & Hne).
       destruct es as [|e es]; [by destruct Hne|]. exists (Send i). simpl. unfold send_step. rewrite Hi, Ec.
       rewrite decide_True by (unfold measurementCh_cap; simpl; lia). do 2 eexists. split; [done|by intros []]. }
  destruct (decide (Forall (λ x, sink_weight x = 0) (fl_sinks s))) as [Hs|Hs]; [by left|right].
  apply not_Forall_Exists in Hs; [|apply _]. apply Exists_exists in Hs as (x & [k Hk]%list_elem_of_lookup & Hne).
  destruct x as [p|]; [|by destruct Hne]. unfold compose in Hne. simpl in Hne. destruct (ps_input p) as [|e input] eqn:Ei.
  - destruct (poll_enabled s tr k p (0, PollTick) []) as (s' & evs & Hs'); [done..|].
    exists (Tick k 0), s', evs. simpl. rewrite Hk, Ei. split; [done|]. intros (p' & Hp' & Hc). injection Hp' as <-. rewrite Hc in Hne. simpl in Hne. lia.
  - destruct (poll_enabled s tr k p (0, PollInput e) input) as (s' & evs & Hs'); [done..|].
    exists (Receive k 0), s', evs. simpl. rewrite Hk, Ei. split; [done|by intros []].
Qed.

(** A run of steps that all do work. *)
Inductive works : flow W D → flow W D → nat → Prop :=
  | works_none s : works s s 0
  | works_step s l s1 evs s2 n : step flush_at l s = Some (s1, evs) → ¬ idle l s → works s1 s2 n → works s s2 (S n).

Lemma works_bounded s tr s' n : flow_inv producers sinks s tr → works s s' n → n + measure s' ≤ measure s.
Proof using Type.
  intros Hinv Hw. revert tr Hinv. induction Hw as [|s l s1 evs s2 n Hs Hi _ IH]; intros tr Hinv; [lia|].
  specialize (IH _ (step_inv _ _ _ _ _ _ _ Hinv Hs)). destruct (step_measure _ _ _ _ _ Hinv Hs) as [_ [?|?]]; [lia|done].
Qed.

(** From every state the system can finish its work. *)
Lemma works_drained s tr :
  flow_inv producers sinks s tr → fl_done s = false → ∃ s' n, works s s' n ∧ drained s'.
Proof using HP flush_returns.
  remember (measure s) as m eqn:Hm. revert s tr Hm. induction m as [m IH] using lt_wf_ind. intros s tr -> Hinv Hd.
  destruct (flow_progress s tr Hinv Hd) as [Hdr|(l & s1 & evs & Hs & Hi)]; [exists s, 0; by split; [constructor|]|].
  destruct (step_measure _ _ _ _ _ Hinv Hs) as [_ [Hlt|?]]; [|done].
  assert (fl_done s1 = false) as Hd1.
  { destruct l; simpl in Hs, Hi; unfold send_step, take_step, offer_step, timeout_step, poll_step in Hs;
      repeat (case_match; try done); by simplify_eq/=. }
  destruct (IH _ Hlt s1 _ eq_refl (step_inv _ _ _ _ _ _ _ Hinv Hs) Hd1) as (s' & n & Hw & Hdr).
  exists s', (S n). split; [by econstructor|done].
Qed.
End live.

(** Every loss before the end of the program is that of an envelope that found the channel full. *)
Definition waiting (k : nat) s : nat :=
  match fl_hand s with Some (_, j, true) => if decide (j = k) then 1 else 0 | _ => 0 end.

Lemma step_lost l s s' evs k :
  step flush_at l s = Some (s', evs) → fl_done s' = false →
  fl_done s = false ∧ length (lost k evs) + waiting k s' ≤ length (full k evs) + waiting k s.
Proof using Type.
  destruct l as [i| | | |j t|j t|j|]; simpl.
  - unfold send_step. destruct (fl_producers s !! i) as [[|e es]|]; try done. case_decide; [|done]. by intros [= <- <-].
  - unfold take_step. destruct (fl_hand s) eqn:Eh; [done|]. destruct (fl_ch s); [done|]. intros [= <- <-] Hd. split; [done|].
    unfold waiting. rewrite Eh. simpl. lia.
  - unfold offer_step, waiting. destruct (fl_hand s) as [[[e j] b]|]; [|done].
    destruct (fl_sinks s !! j) as [[p|d]|].
    + destruct (negb b && fl_done s) eqn:Ed; [intros [= <- <-] Hd; simpl in Hd; rewrite Hd, andb_false_r in Ed; done|].
      destruct (decide (length (ps_input p) < input_cap)); [intros [= <- <-] Hd; simpl; split; [done|destruct b; lia]|].
      destruct b; [done|]. intros [= <- <-] Hd. simpl. split; [done|]. case_decide; simpl; lia.
    + intros [= <- <-] Hd. simpl. split; [done|destruct b; lia].
    + intros [= <- <-] Hd. simpl. split; [done|destruct b; lia].
  - unfold timeout_step, waiting. destruct (fl_hand s) as [[[e j] []]|]; [|done..]. intros [= <- <-] Hd. simpl. split; [done|].
    case_decide; simpl; lia.
  - destruct (fl_sinks s !! j) as [[p|]|]; [|done..]. destruct (ps_input p); [done|]. unfold poll_step.
    destruct (ps_polling p); [|done]. destruct (poll _ _ _ _) as [[[]]| |]; [|done..]. by intros [= <- <-].
  - destruct (fl_sinks s !! j) as [[p|]|]; [|done..]. unfold poll_step.
    destruct (ps_polling p); [|done]. destruct (poll _ _ _ _) as [[[]]| |]; [|done..]. by intros [= <- <-].
  - destruct (fl_sinks s !! j) as [[p|]|]; [|done..]. destruct (fl_done s) eqn:Ed; [|done].
    intros [= <- <-]. simpl. congruence.
  - by intros [= <- <-].
Qed.

Lemma lost_full producers sinks s tr k :
  reach flush_at (start producers sinks) s tr → fl_done s = false →
  length (lost k tr) + waiting k s ≤ length (full k tr).
Proof using Type.
  induction 1 as [|s tr l s' evs _ IH Hs]; [done|]. intros Hd'. destruct (step_lost _ _ _ _ k Hs Hd') as [Hd Hle].
  specialize (IH Hd). unfold lost, full in *. rewrite !omap_app, !length_app. lia.
Qed.
End invariant.

(** ** The theorems *)

Section theorems.
Context {DB D : Type} `{!SinkDB DB} `{!Writer D} (fmt_float : value → string).
Context (marshal_tags : gmap string string → result string) (marshal_row : Measurement → result string).
Context `{!SinkDBLaws fmt_float marshal_tags marshal_row DB}.
Context (so : nat → sort_func MetricName) (ro : nat → range_order) (clk : nat → nat → Z).

Definition pg_flush (t : nat) : PostgresWriter DB → list Envelope → outcome (PostgresWriter DB) :=
  flush (so t) (ro t) (clk t).

Abbreviation named := (λ e, MetricName e ≠ "").

Lemma pg_flush_returns t w b : Forall named b → ∃ w', pg_flush t w b = Returns w'.
Proof using SinkDBLaws0.
  intros Hb. destruct (flush_prepared fmt_float marshal_tags marshal_row (so t) (ro t) (clk t) w b Hb) as (w' & _ & Hw & _).
  by exists w'.
Qed.

(** C2.  In every run of the system, up to any moment: each goroutine's envelopes were put on the
    channel of the reaper in the order it produced them; those that were taken from it are a prefix of
    those that were put on it, and the channel holds the rest, 256 at most; every sink was offered all
    of them in this order, except the one that is being written.  A JSON, RPC or Prometheus sink has
    handled what it was offered.  A PostgreSQL sink accepted a part of it; the batches it flushed, its
    cache and its channel are together what it accepted, in order, and each holds 256 envelopes at
    most.  While the program runs, it loses an envelope only if that envelope found the channel of the
    sink full.  (The bound on what is still in memory is also that on what a stop of the program loses.) *)
Theorem flow_conserves producers (sinks : list (PostgresWriter DB + D)) s tr :
  Forall (Forall named) producers → reach pg_flush (start producers sinks) s tr →
  (∀ i, sent_by i tr ++ default [] (fl_producers s !! i) = default [] (producers !! i)) ∧
  sent tr = taken tr ++ fl_ch s ∧ length (fl_ch s) ≤ measurementCh_cap ∧
  ∀ k x0, sinks !! k = Some x0 →
    offered k tr ++ in_hand k s = taken tr ∧
    accepted k tr `sublist_of` offered k tr ∧ offered k tr ≡ₚ accepted k tr ++ lost k tr ∧
    match x0, fl_sinks s !! k with
    | inl w0, Some (Buffered p) =>
        (∃ bs, flush_all pg_flush w0 bs = Returns (ps_writer p) ∧
           concat bs.*2 ++ ps_cache p ++ ps_input p = accepted k tr ∧
           Forall (λ b, length b.2 ≤ 256) bs) ∧
        length (ps_cache p) < 256 ∧ length (ps_input p) ≤ 256 ∧
        (fl_done s = false → length (lost k tr) ≤ length (full k tr))
    | inr d0, Some (Direct d) => d = foldl (λ d e, (Write e d).1) d0 (offered k tr)
    | _, _ => False
    end.
Proof using SinkDBLaws0.
  intros HP Hr. pose proof (reach_inv _ _ _ _ _ Hr) as Hinv. pose proof Hinv as [].
  split_and!; [done..|]. intros k x0 Hk. pose proof (lookup_lt_Some _ _ _ Hk) as Hlt.
  pose proof (offered_split k tr) as Hoff. split_and!; [by apply inv_hand0|apply accepted_sublist|done|].
  destruct (inv_sink0 k x0 Hk) as (x & Hx & Hok). rewrite Hx. destruct x0 as [w0|d0], x as [p|d]; try done.
  - destruct (sink_batches pg_flush named pg_flush_returns producers sinks HP s tr Hinv k w0 p Hk Hx) as (bs & Hf & Hc & Hb & Hl).
    pose proof (lost_full pg_flush producers sinks s tr k Hr) as Hfull. destruct Hok as (_ & _ & _ & Hin).
    unfold cacheLimit in *. split_and!; [|lia|unfold input_cap, cacheLimit in Hin; lia|].
    + exists bs. split_and!; [done..|]. eapply Forall_impl; [done|]. intros b. simpl. lia.
    + intros Hd. specialize (Hfull Hd). lia.
  - simpl in Hok. destruct Hok as [-> Hl].
    by rewrite accepted_all.
Qed.

(** When everything was handed over. *)
Lemma drained_sink producers (sinks : list (PostgresWriter DB + D)) s tr :
  Forall (Forall named) producers → reach pg_flush (start producers sinks) s tr → drained s →
  ∀ k x0, sinks !! k = Some x0 →
    accepted k tr ++ lost k tr ≡ₚ concat producers ∧
    match x0, fl_sinks s !! k with
    | inl w0, Some (Buffered p) =>
        ∃ bs, flush_all pg_flush w0 bs = Returns (ps_writer p) ∧ concat bs.*2 = accepted k tr
    | inr _, Some (Direct _) => lost k tr = []
    | _, _ => False
    end.
Proof using SinkDBLaws0.
  intros HP Hr (Hp & Hch & Hh & Hs) k x0 Hk. pose proof (reach_inv _ _ _ _ _ Hr) as Hinv. pose proof Hinv as [].
  pose proof (lookup_lt_Some _ _ _ Hk) as Hlt. split.
  - rewrite <-offered_split. specialize (inv_hand0 k Hlt). unfold in_hand in inv_hand0. rewrite Hh, app_nil_r in inv_hand0.
    rewrite inv_hand0. rewrite Hch, app_nil_r in inv_ch0. rewrite <-inv_ch0, <-inv_total0.
    assert (concat (fl_producers s) = []) as ->; [|by rewrite app_nil_r].
    clear -Hp. induction Hp as [|es l -> _ IH]; [done|exact IH].
  - destruct (inv_sink0 k x0 Hk) as (x & Hx & Hok). rewrite Hx. destruct x0 as [w0|d0], x as [p|d]; try done; [|by destruct Hok].
    destruct (sink_batches pg_flush named pg_flush_returns producers sinks HP s tr Hinv k w0 p Hk Hx) as (bs & Hf & Hc & _).
    assert (sink_weight (Buffered p) = 0) as Hw by (rewrite Forall_lookup in Hs; by apply (Hs k)).
    simpl in Hw. destruct (ps_input p); [|simpl in Hw; lia]. destruct (ps_cache p); [|simpl in Hw; lia].
    rewrite !app_nil_r in Hc. by exists bs.
Qed.

(** C3.  The system does not block.  As long as the program runs, some goroutine can do some work unless
    everything has been handed over; there is a bound on the steps of work from any state, whatever the
    interleaving; the system can finish its work from there; and when it has, every envelope of every
    goroutine has reached every sink, where a PostgreSQL sink has flushed all that it accepted, and
    what it did not accept was lost. *)
Theorem flow_drains producers (sinks : list (PostgresWriter DB + D)) s tr :
  Forall (Forall named) producers → reach pg_flush (start producers sinks) s tr → fl_done s = false →
  (drained s ∨ ∃ l s' evs, step pg_flush l s = Some (s', evs) ∧ ¬ idle l s) ∧
  (∀ s' n, works pg_flush s s' n → n ≤ measure s) ∧
  (∃ s' n, works pg_flush s s' n ∧ drained s') ∧
  (drained s → ∀ k x0, sinks !! k = Some x0 →
    accepted k tr ++ lost k tr ≡ₚ concat producers ∧
    match x0, fl_sinks s !! k with
    | inl w0, Some (Buffered p) =>
        ∃ bs, flush_all pg_flush w0 bs = Returns (ps_writer p) ∧ concat bs.*2 = accepted k tr
    | inr _, Some (Direct _) => lost k tr = []
    | _, _ => False
    end).
Proof using SinkDBLaws0.
  intros HP Hr Hd. pose proof (reach_inv _ _ _ _ _ Hr) as Hinv. split_and!.
  - by eapply flow_progress, Hd; [apply pg_flush_returns| |].
  - intros s' n Hw. pose proof (works_bounded _ _ _ _ _ _ _ Hinv Hw). lia.
  - by eapply works_drained, Hd; [apply pg_flush_returns| |].
  - intros Hdr. by apply drained_sink.
Qed.
End theorems.

(** ** Example: two workers, a PostgreSQL and a JSON sink *)

#[export] Instance json_sink : Writer JSONWriter := {|
  SyncMetric := JSONWriter_SyncMetric; Write := JSONWriter_Write (λ _, None) |}.

Definition sample_producers : list (list Envelope) := [take 2 sample_batch; drop 2 sample_batch].
Definition sample_sinks : list (PostgresWriter mem_db + JSONWriter) :=
  [inl (mem_writer ∅); inr {| jw_ctx_err := None; jw_written := [] |}].
Definition sample_start : flow (PostgresWriter mem_db) JSONWriter := start sample_producers sample_sinks.

Abbreviation sample_flush := (pg_flush (λ _, sample_sort) (λ _, tree_order) (λ _, sample_clock)).

(** The second worker comes first; the sink flushes once in between. *)
Definition sample_labels : list label :=
  [Send 1; Send 0; Take; Offer; Receive 0 0; Send 0; Offer; Offer; Take; Tick 0 1; Offer; Offer; Offer;
   Receive 0 2; Take; Offer; Offer; Offer; Receive 0 3; Tick 0 4].

Definition sample_end : flow (PostgresWriter mem_db) JSONWriter * list event :=
  default (sample_start, []) (run sample_flush sample_labels sample_start).

Lemma sample_reached : reach sample_flush sample_start sample_end.1 sample_end.2.
Proof. apply (run_from_start _ _ _ sample_labels). vm_compute. reflexivity. Qed.

Lemma sample_producers_named : Forall (Forall (λ e, MetricName e ≠ "")) sample_producers.
Proof. repeat constructor; done. Qed.

Lemma sample_drained : drained sample_end.1.
Proof. split_and!; [|done|done|]; vm_compute; repeat constructor. Qed.

Example sample_stored :
  match fl_sinks sample_end.1 with
  | [Buffered p; Direct d] => (row_time <$> db_table (sinkDb (ps_writer p)) "wal", j_dbname <$> jw_written d)
  | _ => ([], [])
  end = ([9; 5]%Z, ["db2"; "db1"; "db1"]).
Proof. vm_compute. reflexivity. Qed.

Lemma flow_conserves_witness :
  let s := sample_end.1 in let tr := sample_end.2 in
  (∀ i, sent_by i tr ++ default [] (fl_producers s !! i) = default [] (sample_producers !! i)) ∧
  sent tr = taken tr ++ fl_ch s ∧ length (fl_ch s) ≤ measurementCh_cap ∧
  ∀ k x0, sample_sinks !! k = Some x0 →
    offered k tr ++ in_hand k s = taken tr ∧
    accepted k tr `sublist_of` offered k tr ∧ offered k tr ≡ₚ accepted k tr ++ lost k tr ∧
    match x0, fl_sinks s !! k with
    | inl w0, Some (Buffered p) =>
        (∃ bs, flush_all sample_flush w0 bs = Returns (ps_writer p) ∧
           concat bs.*2 ++ ps_cache p ++ ps_input p = accepted k tr ∧
           Forall (λ b, length b.2 ≤ 256) bs) ∧
        length (ps_cache p) < 256 ∧ length (ps_input p) ≤ 256 ∧
        (fl_done s = false → length (lost k tr) ≤ length (full k tr))
    | inr d0, Some (Direct d) => d = foldl (λ d e, (Write e d).1) d0 (offered k tr)
    | _, _ => False
    end.
Proof.
  apply (flow_conserves (λ _, "float") show_tags show_row (λ _, sample_sort) (λ _, tree_order) (λ _, sample_clock)
    sample_producers sample_sinks); [exact sample_producers_named|exact sample_reached].
Defined.

Lemma flow_drains_witness :
  drained sample_end.1 ∧ ∀ k x0, sample_sinks !! k = Some x0 →
    accepted k sample_end.2 ++ lost k sample_end.2 ≡ₚ concat sample_producers ∧
    match x0, fl_sinks sample_end.1 !! k with
    | inl w0, Some (Buffered p) =>
        ∃ bs, flush_all sample_flush w0 bs = Returns (ps_writer p) ∧ concat bs.*2 = accepted k sample_end.2
    | inr _, Some (Direct _) => lost k sample_end.2 = []
    | _, _ => False
    end.
Proof.
  split; [exact sample_drained|].
  apply (flow_drains (λ _, "float") show_tags show_row (λ _, sample_sort) (λ _, tree_order) (λ _, sample_clock)
    sample_producers sample_sinks sample_end.1 sample_end.2 sample_producers_named sample_reached);
    [vm_compute; reflexivity|exact sample_drained].
Defined.
