(* ===== verification/EndToEnd.v ===== *)
(** * From the workers to the tables

    The composition of [Worker], [Flow] and [Pipeline]: any number of workers over any number of rounds,
    any interleaving of the goroutines, and the tables of a PostgreSQL sink at the end. *)

From S2P Require Import Prelude GoStrings Metrics Sinks CopySource PgSink PgPoll.
From S2P Require Import Sources Changes Conn InstanceCache Scheduler RowTypes Pipeline Worker Flow.
From stdpp Require Import options.

Local Open Scope nat_scope.

Abbreviation named := (λ n : string, n ≠ "").

(** ** What a worker sends in its life *)

(** The surroundings of a round, as far as values are concerned: the change detectors ask through
    [QueryMeasurements], the figures of the operating system and the shared cache can be written as
    JSON, and no metric has an empty name. *)
Record round_ok (r : round) (sr : DbConnReaper) : Prop := {
  ok_query : ∃ answer clk cause, ∀ sql, change_query (rd_env r) sql = QueryMeasurements answer clk cause sql;
  ok_os : ∀ name data, os_stats (rd_env r) name = Ok data → json_rows data;
  ok_cache : json_cache (measurementCache sr);
  ok_names : activeMetrics (sr_md sr) !! "" = None;
}.

Lemma reap_tick_envelopes r sr sr' :
  round_ok r sr → reap_tick (rd_env r) sr = Some sr' →
  json_cache (measurementCache sr') ∧ ∃ out, measurementCh sr' = measurementCh sr ++ out ∧ json_envelopes named out.
Proof.
  intros [(answer & clk & cause & Hq) Hos Hc Hne] Ht.
  destruct (reap_tick_json named) with (rd_env r) sr sr' as (Hc' & out & Hout & Hj); try done.
  - by repeat constructor.
  - intros sn name Hn. unfold storage_name. by case_bool_decide.
  - intros sql data Hd. rewrite Hq in Hd. by eapply QueryMeasurements_json.
  - intros name v Hv ->. by rewrite Hne in Hv.
  - eauto.
Qed.

Lemma Reap_envelopes sr rs sr' :
  along round_ok sr rs → Reap sr rs = Some sr' →
  ∃ out, measurementCh sr' = measurementCh sr ++ out ∧ json_envelopes named out.
Proof.
  revert sr. induction rs as [|r rs IH]; intros sr Hal Hr; simpl in Hr.
  { injection Hr as <-. exists []. rewrite app_nil_r. split; [done|constructor]. }
  destruct Hal as [Hok Hal]. destruct (reap_round r sr) as [sr1|] eqn:E; simpl in Hr; [|done].
  destruct (reap_tick_envelopes _ _ _ Hok E) as (_ & out & Hout & Hj). destruct (IH sr1 Hal Hr) as (out' & -> & Hj').
  assert (measurementCh (refresh r sr) = measurementCh sr) as Hch.
  { done. }
  exists (out ++ out'). rewrite Hout, Hch, <-app_assoc. split; [done|]. by apply Forall_app.
Qed.

(** ** What the batches leave in a table *)

Section tables.
Context {DB D : Type} `{!SinkDB DB} `{!Writer D} (ff : value → string).
Context (marshal_tags : gmap string string → result string) (marshal_row : Measurement → result string).
Context `{!SinkDBLaws ff marshal_tags marshal_row DB}.
Context (so : nat → sort_func MetricName) (ro : nat → range_order) (clk : nat → nat → Z).
Hypothesis marshal_tags_ok : ∀ t, ∃ json, marshal_tags t = Ok json.
Hypothesis marshal_row_ok : ∀ m, json_row m → ∃ json, marshal_row m = Ok json.

Abbreviation table w := (db_table (sinkDb w)).

(** The number of rows of a metric in a list of envelopes. *)
Definition rows_in (n : string) (es : list Envelope) : nat :=
  sum_list ((λ e, length (Data e)) <$> filter (λ e, MetricName e = n) es).

(** One flush after the other, as metric [n] sees it: all rows of a batch are appended to its table,
    or none, after an error of the database. *)
Inductive table_run (n : string) : PostgresWriter DB → list (nat * list Envelope) → list bool → PostgresWriter DB → Prop :=
  | table_end w : table_run n w [] [] w
  | table_kept w t b w1 bs oks w' rows :
      pg_flush so ro clk t w b = Returns w1 →
      rows_of ff marshal_tags marshal_row (filter (λ e, MetricName e = n) (prepared (so t) (clk t) b)) rows →
      length rows = rows_in n b → table w1 n = table w n ++ rows →
      table_run n w1 bs oks w' → table_run n w ((t, b) :: bs) (true :: oks) w'
  | table_refused w t b w1 bs oks w' outs :
      pg_flush so ro clk t w b = Returns w1 →
      stored ff marshal_tags marshal_row (table w) (groups (prepared (so t) (clk t) b)) outs (table w1) →
      Exists (λ o, o ≠ None) outs → table w1 n = table w n →
      table_run n w1 bs oks w' → table_run n w ((t, b) :: bs) (false :: oks) w'.

Lemma batches_stored n w bs w' :
  Forall (λ b, storable n b.2) bs → flush_all (pg_flush so ro clk) w bs = Returns w' →
  ∃ oks, table_run n w bs oks w'.
Proof using marshal_tags_ok marshal_row_ok SinkDBLaws0.
  intros Hj. revert w. induction Hj as [|[t b] bs Hb _ IH]; intros w Hf; simpl in Hf.
  { injection Hf as <-. exists []. constructor. }
  destruct (flush_prepared ff marshal_tags marshal_row (so t) (ro t) (clk t) w b) as (w1 & outs & Hw1 & Hst);
    [by eapply storable_named|]. unfold pg_flush in Hf. rewrite Hw1 in Hf. destruct (IH w1 Hf) as [oks Hrun].
  destruct (metric_stored _ _ _ _ _ _ _ _ _ n marshal_tags_ok marshal_row_ok Hb Hst) as (rows & ? & ? & [?|[? ?]]);
    eexists; [by eapply table_kept|by eapply table_refused].
Qed.

(** Without refusals the table grows by the rows of all batches. *)
Lemma table_run_kept n w bs oks w' :
  table_run n w bs oks w' → Forall (λ ok, ok = true) oks →
  length (table w' n) = length (table w n) + rows_in n (concat bs.*2).
Proof using Type.
  induction 1 as [|w t b w1 bs oks w' rows _ _ Hlen Ht _ IH|]; intros Hok; csimpl; [unfold rows_in; simpl; lia| |by inversion Hok].
  apply Forall_cons in Hok as [_ Hok]. rewrite IH by done. rewrite Ht, length_app, Hlen.
  unfold rows_in. rewrite filter_app, fmap_app, sum_list_with_app. lia.
Qed.
End tables.

(** ** The whole way *)

Section whole.
Context {DB D : Type} `{!SinkDB DB} `{!Writer D} (ff : value → string).
Context (marshal_tags : gmap string string → result string) (marshal_row : Measurement → result string).
Context `{!SinkDBLaws ff marshal_tags marshal_row DB}.
Context (so : nat → sort_func MetricName) (ro : nat → range_order) (clk : nat → nat → Z).

Abbreviation table w := (db_table (sinkDb w)).

(** A worker with the rounds of its life. *)
Definition lived (x : DbConnReaper * list round) (out : list Envelope) : Prop :=
  measurementCh x.1 = [] ∧ along round_ok x.1 x.2 ∧ ∃ sr', Reap x.1 x.2 = Some sr' ∧ measurementCh sr' = out.

Lemma lived_json x out : lived x out → json_envelopes named out.
Proof using Type.
  intros (Hch & Hal & sr' & Hr & <-). destruct (Reap_envelopes _ _ _ Hal Hr) as (out & Hout & Hj).
  by rewrite Hout, Hch.
Qed.

Lemma rows_in_perm n es es' : es ≡ₚ es' → rows_in n es = rows_in n es'.
Proof using Type. intros Hp. unfold rows_in. by apply sum_list_perm, fmap_Permutation, filter_Permutation. Qed.

(** Any run of the system that has handed everything over, whoever sent: what the sink accepted and what
    it lost are together what was sent, and what was accepted is in the tables but for refused batches. *)
Lemma sent_rows_reach_tables producers (sinks : list (PostgresWriter DB + D)) s tr k pgw n :
  (∀ t, ∃ json, marshal_tags t = Ok json) → (∀ m, json_row m → ∃ json, marshal_row m = Ok json) →
  Forall (storable n) producers → sinks !! k = Some (inl pgw) →
  reach (pg_flush so ro clk) (start producers sinks) s tr → fl_done s = false → drained s →
  accepted k tr ++ lost k tr ≡ₚ concat producers ∧
  (full k tr = [] → lost k tr = []) ∧
  ∃ p bs oks, fl_sinks s !! k = Some (Buffered p) ∧ concat bs.*2 = accepted k tr ∧
    table_run ff marshal_tags marshal_row so ro clk n pgw bs oks (ps_writer p) ∧
    (lost k tr = [] → Forall (λ ok, ok = true) oks →
     length (table (ps_writer p) n) = length (table pgw n) + rows_in n (concat producers)).
Proof using SinkDBLaws0.
  intros Hmt Hmr Hj Hk Hr Hd Hdr.
  assert (Forall (Forall (λ e, MetricName e ≠ "")) producers) as Hn.
  { eapply Forall_impl; [exact Hj|]. apply storable_named. }
  destruct (drained_sink ff marshal_tags marshal_row so ro clk _ _ _ _ Hn Hr Hdr k _ Hk) as [Hperm Hsink].
  split; [done|]. split.
  { intros Hf. pose proof (lost_full _ _ _ _ _ k Hr Hd) as Hle. rewrite Hf in Hle. simpl in Hle.
    apply nil_length_inv. lia. }
  destruct (fl_sinks s !! k) as [[p|]|]; [|done..]. destruct Hsink as (bs & Hf & Hc).
  assert (Forall (λ b, storable n b.2) bs) as Hb.
  { assert (storable n (concat bs.*2)) as Hall.
    { rewrite Hc. assert (storable n (accepted k tr ++ lost k tr)) as H.
      { unfold storable. rewrite Hperm. by apply Forall_concat. }
      by apply Forall_app in H as [H _]. }
    unfold storable in Hall. rewrite Forall_concat, Forall_fmap in Hall. exact Hall. }
  destruct (batches_stored ff marshal_tags marshal_row so ro clk Hmt Hmr n pgw bs _ Hb Hf) as [oks Hrun].
  exists p, bs, oks. split_and!; [done..|]. intros Hlost Hok. rewrite (table_run_kept _ _ _ _ _ _ _ _ _ _ _ Hrun Hok), Hc.
  rewrite Hlost, app_nil_r in Hperm. by rewrite (rows_in_perm n _ _ Hperm).
Qed.
End whole.

(** ** Example: a worker that measures a [NaN] in two rounds *)

Definition nan_env_at (t : Z) : surroundings := {|
  metricDefs := metricDefs nan_env; cacheAge := 0; RealDbnameField := "real_dbname"; SystemIdentifierField := "sys_id";
  parse_config := parse_config nan_env; query_simple := query_simple nan_env; query_batch := query_batch nan_env;
  change_query := change_query nan_env; settings_query := settings_query nan_env;
  ping_error := None; same_host := false; os_stats := os_stats nan_env; fmt_float := fmt_float nan_env;
  now := t; clock := λ _, t; batch_end := t; map_order := tree_order |}.

Definition nan_round (t : Z) : round := {|
  rd_main := id; rd_cache := id; rd_server := sample_server; rd_ctx := None; rd_asked := t; rd_answered := t;
  rd_env := nan_env_at t; rd_end := t |}.

Definition nan_life : DbConnReaper * list round :=
  (NewDbConnReaper ∅ sample_conn, [nan_round (1000 * time_Second); nan_round (1100 * time_Second)]).

Definition nan_out : list Envelope :=
  match Reap nan_life.1 nan_life.2 with Some sr => measurementCh sr | None => [] end.

Lemma nan_lived : lived nan_life nan_out.
Proof.
  split; [done|]. split.
  - assert (∀ t sr, measurementCache sr = ∅ → activeMetrics (sr_md sr) !! "" = None → round_ok (nan_round t) sr) as Hok.
    { intros t sr Hc Hn. split; [by exists (λ _, Ok []), (λ _, 0%Z), (ErrorString "timeout")|done|by rewrite Hc|done]. }
    cbn [along nan_life fst snd]. split; [by apply Hok|].
    set (x := reap_round _ _). vm_compute in x. subst x. cbn [along]. split; [|by destruct (reap_round _ _)]. by apply Hok.
  - destruct (Reap nan_life.1 nan_life.2) as [sr|] eqn:E; [|vm_compute in E; done]. exists sr. split; [done|].
    unfold nan_out. by rewrite E.
Qed.
