(* ===== verification/OsStats.v ===== *)
(** * Operating system statistics ([internal/reaper/psutil.go], [file.go])

    When the collector runs on the host of the server, some metrics are read from the operating
    system.  What the system library answers is a parameter; the figures derived from it are
    computed in IEEE double precision, operation by operation as in the source (an implementation
    may fuse a product and a sum, which the program is not built for on its main platform).

    The theorems show when figures are not numbers, and what follows from that: a host without swap
    has no percentage of used swap, the row cannot be encoded, and the sink stores none of the memory
    statistics of the batch.  Disk usage is asked for once per device. *)

From Stdlib Require Import SpecFloat.
From S2P Require Import Prelude GoStrings Metrics Sources Conn CopySource PgSink PgPoll PromSink Scheduler.
From stdpp Require Import options.

Local Open Scope Z_scope.

(** ** Arithmetic *)

Definition fadd : spec_float → spec_float → spec_float := SFadd 53 1024.
Definition fsub : spec_float → spec_float → spec_float := SFsub 53 1024.
Definition fmul : spec_float → spec_float → spec_float := SFmul 53 1024.
Definition fdiv : spec_float → spec_float → spec_float := SFdiv 53 1024.

Declare Scope float64_scope.
Delimit Scope float64_scope with f64.
Infix "+" := fadd : float64_scope.
Infix "-" := fsub : float64_scope.
Infix "*" := fmul : float64_scope.
Infix "/" := fdiv : float64_scope.

(** [math.Round]: to the nearest integer, halves away from zero. *)
Definition math_Round (f : spec_float) : spec_float :=
  match f with
  | S754_finite s m e =>
      if 0 <=? e then f
      else
        let q := (Z.pos m + 2 ^ (- e - 1)) / 2 ^ (- e) in
        binary_normalize 53 1024 (if s then - q else q) 0 s
  | _ => f
  end.

Definition f100 : spec_float := float64_of_Z 100.
Definition f10000 : spec_float := float64_of_Z 10000.

(** [math.Round(100*x) / 100]. *)
Definition round2 (x : spec_float) : spec_float := (math_Round (f100 * x) / f100)%f64.

(** ** What the system answers *)

Record TimesStat := {
  User : spec_float; System : spec_float; Idle : spec_float; Nice : spec_float; Iowait : spec_float;
  Irq : spec_float; Softirq : spec_float; Steal : spec_float; Guest : spec_float; GuestNice : spec_float;
}.

Record AvgStat := { Load1 : spec_float; Load5 : spec_float; Load15 : spec_float }.

Record VirtualMemoryStat := {
  Total : Z; Used : Z; Free : Z; Buffers : Z; Available : Z; UsedPercent : spec_float;
  SwapTotal : Z; SwapCached : Z; SwapFree : Z;
}.

Record UsageStat := { us_Total : Z; us_Used : Z; us_Free : Z; us_UsedPercent : spec_float }.

Record IOCountersStat := { ReadBytes : Z; WriteBytes : Z; ReadCount : Z; WriteCount : Z }.

Record gopsutil := {
  cpu_Times : result (list TimesStat);
  cpu_Counts : result Z;
  load_Avg : result AvgStat;
  mem_VirtualMemory : result VirtualMemoryStat;
  disk_IOCounters : result (gmap string IOCountersStat);
  readable : string → bool;                     (* [os.ReadDir] succeeds *)
  device_ID : string → result Z;                (* [GetPathUnderlyingDeviceID] *)
  disk_Usage : string → result UsageStat;
  ps_now : nat → Z;
}.

(** ** CPU *)

(** The statistics of the last call, kept in package variables. *)
Record cpu_cache := { prevCPULoadTimeStats : TimesStat; prevCPULoadTimestamp : Z }.

Definition cpuTotal (c : TimesStat) : spec_float :=
  (User c + System c + Idle c + Nice c + Iowait c + Irq c + Softirq c + Steal c)%f64.

Definition goPsutilCalcCPUUtilization (probe0 probe1 : TimesStat) : spec_float :=
  (f100 - (f100 * (Idle probe1 - Idle probe0 + Iowait probe1 - Iowait probe0 + Steal probe1 - Steal probe0) /
           (cpuTotal probe1 - cpuTotal probe0)))%f64.

(** A share of the time that passed, in percent. *)
Definition share (x totalDiff : spec_float) : spec_float := (math_Round (f10000 * x / totalDiff) / f100)%f64.

Definition GetGoPsutilCPU (ps : gopsutil) (st : cpu_cache) (interval : Z)
    : cpu_cache * outcome (result Measurements) :=
  let prevTime := prevCPULoadTimestamp st in
  let prev := prevCPULoadTimeStats st in
  match cpu_Times ps with
  | Err e => (st, Returns (Err e))
  | Ok stats =>
      let elapsed := interval <=? time_Sub (ps_now ps 0) prevTime in
      match stats with
      | [] =>
          (* the first element is read at once if the time has passed, else for the row *)
          (st, if elapsed then Panics
               else match load_Avg ps with
                    | Err e => Returns (Err e)
                    | Ok _ => match cpu_Counts ps with Err e => Returns (Err e) | Ok _ => Panics end
                    end)
      | cur :: _ =>
          let st := if elapsed
                    then {| prevCPULoadTimeStats := cur; prevCPULoadTimestamp := ps_now ps 1 |} else st in
          (st, Returns
            match load_Avg ps with
            | Err e => Err e
            | Ok la =>
                match cpu_Counts ps with
                | Err e => Err e
                | Ok cpus =>
                    let n := float64_of_Z cpus in
                    let totalDiff := (cpuTotal cur - cpuTotal prev)%f64 in
                    Ok [list_to_map [
                      (EpochColumnName, VInt64 (ps_now ps 2));
                      ("cpu_utilization", VFloat64 (round2 (goPsutilCalcCPUUtilization prev cur)));
                      ("load_1m_norm", VFloat64 (math_Round (f100 * Load1 la / n) / f100)%f64);
                      ("load_1m", VFloat64 (round2 (Load1 la)));
                      ("load_5m_norm", VFloat64 (math_Round (f100 * Load5 la / n) / f100)%f64);
                      ("load_5m", VFloat64 (round2 (Load5 la)));
                      ("user", VFloat64 (share (User cur - User prev)%f64 totalDiff));
                      ("system", VFloat64 (share (System cur - System prev)%f64 totalDiff));
                      ("idle", VFloat64 (share (Idle cur - Idle prev)%f64 totalDiff));
                      ("iowait", VFloat64 (share (Iowait cur - Iowait prev)%f64 totalDiff));
                      ("irqs", VFloat64 (share (Irq cur - Irq prev + Softirq cur - Softirq prev)%f64 totalDiff));
                      ("other", VFloat64 (share (Steal cur - Steal prev + Guest cur - Guest prev +
                                                 GuestNice cur - GuestNice prev)%f64 totalDiff))]]
                end
            end)
      end
  end.

(** ** Memory, load, disks *)

Definition GetGoPsutilMem (ps : gopsutil) : result Measurements :=
  match mem_VirtualMemory ps with
  | Err e => Err e
  | Ok vm =>
      Ok [list_to_map [
        (EpochColumnName, VInt64 (ps_now ps 0));
        ("total", VInt64 (wrap64 (Total vm)));
        ("used", VInt64 (wrap64 (Used vm)));
        ("free", VInt64 (wrap64 (Free vm)));
        ("buff_cache", VInt64 (wrap64 (Buffers vm)));
        ("available", VInt64 (wrap64 (Available vm)));
        ("percent", VFloat64 (round2 (UsedPercent vm)));
        ("swap_total", VInt64 (wrap64 (SwapTotal vm)));
        ("swap_used", VInt64 (wrap64 (SwapCached vm)));
        ("swap_free", VInt64 (wrap64 (SwapFree vm)));
        ("swap_percent", VFloat64 (math_Round (f100 * float64_of_Z (SwapCached vm) /
                                               float64_of_Z (SwapTotal vm)) / f100)%f64)]]
  end.

Definition GetGoPsutilDiskTotals (ro : range_order) (ps : gopsutil) : result Measurements :=
  match disk_IOCounters ps with
  | Err e => Err e
  | Ok d =>
      let total (f : IOCountersStat → Z) :=
        foldl (λ acc kv, (acc + float64_of_Z (f kv.2))%f64) (S754_zero false) (range ro d) in
      Ok [list_to_map [
        (EpochColumnName, VInt64 (ps_now ps 0));
        ("read_bytes", VFloat64 (total ReadBytes));
        ("write_bytes", VFloat64 (total WriteBytes));
        ("read_count", VFloat64 (total ReadCount));
        ("write_count", VFloat64 (total WriteCount))]]
  end.

Definition GetLoadAvgLocal (ps : gopsutil) : result Measurements :=
  match load_Avg ps with
  | Err e => Err e
  | Ok la => Ok [list_to_map [(EpochColumnName, VInt64 (ps_now ps 0));
                              ("load_1min", VFloat64 (Load1 la)); ("load_5min", VFloat64 (Load5 la));
                              ("load_15min", VFloat64 (Load15 la))]]
  end.

Definition CheckFolderExistsAndReadable (ps : gopsutil) (path : string) : bool :=
  if bool_decide (path = "") then false else readable ps path.

Definition disk_row (epochNs : Z) (name path : string) (u : UsageStat) : Measurement :=
  list_to_map [
    (EpochColumnName, VInt64 epochNs); ("tag_dir_or_tablespace", VString name); ("tag_path", VString path);
    ("total", VFloat64 (float64_of_Z (us_Total u))); ("used", VFloat64 (float64_of_Z (us_Used u)));
    ("free", VFloat64 (float64_of_Z (us_Free u))); ("percent", VFloat64 (round2 (us_UsedPercent u)))].

(** The loop of [GetGoPsutilDiskPG]: [usageCache] maps devices to their usage.  [None] is the panic
    of a failed type assertion. *)
Fixpoint disk_loop (ps : gopsutil) (epochNs : Z) (pgDirs : Measurements) (usageCache : gmap Z UsageStat)
    : option (result Measurements) :=
  match pgDirs with
  | [] => Some (Ok [])
  | row :: pgDirs' =>
      match row !! "path", row !! "name" with
      | Some (VString path), Some (VString name) =>
          if negb (CheckFolderExistsAndReadable ps path) then disk_loop ps epochNs pgDirs' usageCache
          else
            match device_ID ps path with
            | Err e => Some (Err e)
            | Ok devID =>
                match (match usageCache !! devID with
                       | Some u => Ok u
                       | None => disk_Usage ps path
                       end) with
                | Err e => Some (Err e)
                | Ok u =>
                    rest ← disk_loop ps epochNs pgDirs' (<[devID := u]> usageCache);
                    Some (match rest with
                          | Ok rows => Ok (disk_row epochNs name path u :: rows)
                          | Err e => Err e
                          end)
                end
            end
      | _, _ => None
      end
  end.
Definition GetGoPsutilDiskPG (ps : gopsutil) (pgDirs : Measurements) : option (result Measurements) :=
  disk_loop ps (ps_now ps 0) pgDirs ∅.

(** The data of [FetchStatsDirectlyFromOS] for a metric; [query] is [QueryMeasurements] of the
    directories of the server. *)
Definition os_data (ro : range_order) (ps : gopsutil) (st : cpu_cache) (interval : Z)
    (query : result Measurements) (metricName : string) : cpu_cache * outcome (result Measurements) :=
  if bool_decide (metricName = "cpu_load") then (st, Returns (GetLoadAvgLocal ps))
  else if bool_decide (metricName = "psutil_cpu") then GetGoPsutilCPU ps st interval
  else if bool_decide (metricName = "psutil_disk") then
    (st, match query with
         | Err e => Returns (Err e)
         | Ok pgDirs => match GetGoPsutilDiskPG ps pgDirs with Some r => Returns r | None => Panics end
         end)
  else if bool_decide (metricName = "psutil_disk_io_total") then (st, Returns (GetGoPsutilDiskTotals ro ps))
  else if bool_decide (metricName = "psutil_mem") then (st, Returns (GetGoPsutilMem ps))
  else (st, Returns (Ok [])).

(** ** Figures that are not numbers *)

Lemma swap_percent_nan ps vm :
  mem_VirtualMemory ps = Ok vm → SwapTotal vm = 0 → SwapCached vm = 0 →
  ∃ row, GetGoPsutilMem ps = Ok [row] ∧ row !! "swap_percent" = Some (VFloat64 S754_nan).
Proof.
  intros Hvm Ht Hc. unfold GetGoPsutilMem. rewrite Hvm, Ht, Hc. eexists. split; [done|].
  do 10 (rewrite list_to_map_cons, lookup_insert_ne by done).
  rewrite list_to_map_cons, lookup_insert_eq. reflexivity.
Qed.

Definition is_finite (f : spec_float) : bool := negb (math_IsNaN f || math_IsInf f).

Lemma fsub_diag x : is_finite x = true → fsub x x = S754_zero false.
Proof.
  destruct x as [[]| | |s m e]; intros Hx; try done.
  unfold fsub, SFsub. rewrite Z.sub_diag. reflexivity.
Qed.

(** No time passed: the share of anything is not a number, and the row cannot be encoded. *)
Lemma cpu_shares_nan ps st interval la n cs :
  cpu_Times ps = Ok (prevCPULoadTimeStats st :: cs) → load_Avg ps = Ok la → cpu_Counts ps = Ok n →
  is_finite (User (prevCPULoadTimeStats st)) = true → is_finite (cpuTotal (prevCPULoadTimeStats st)) = true →
  ∃ row, (GetGoPsutilCPU ps st interval).2 = Returns (Ok [row]) ∧ row !! "user" = Some (VFloat64 S754_nan).
Proof.
  intros Ht Hl Hn Hu Htot. unfold GetGoPsutilCPU. rewrite Ht, Hl, Hn, !(fsub_diag _ Hu), !(fsub_diag _ Htot).
  eexists. split; [done|]. do 6 (rewrite list_to_map_cons, lookup_insert_ne by done).
  rewrite list_to_map_cons, lookup_insert_eq. reflexivity.
Qed.

Lemma AddSysinfo_lookup env data md row k v :
  row ∈ data → row !! k = Some v → k ≠ SystemIdentifierField env → k ≠ RealDbnameField env →
  ∃ row', row' ∈ AddSysinfoToMeasurements env data md ∧ row' !! k = Some v.
Proof.
  intros Hrow Hk H1 H2. eexists. split; [by apply list_elem_of_fmap_2|].
  unfold add_field. repeat case_bool_decide; by rewrite ?lookup_insert_ne by done.
Qed.

(** ** Disks *)

(** The loop without a cache. *)
Fixpoint disk_rows (ps : gopsutil) (epochNs : Z) (pgDirs : Measurements) : option (result Measurements) :=
  match pgDirs with
  | [] => Some (Ok [])
  | row :: pgDirs' =>
      match row !! "path", row !! "name" with
      | Some (VString path), Some (VString name) =>
          if negb (CheckFolderExistsAndReadable ps path) then disk_rows ps epochNs pgDirs'
          else
            match device_ID ps path, disk_Usage ps path with
            | Err e, _ | Ok _, Err e => Some (Err e)
            | Ok _, Ok u =>
                rest ← disk_rows ps epochNs pgDirs';
                Some (match rest with Ok rows => Ok (disk_row epochNs name path u :: rows) | Err e => Err e end)
            end
      | _, _ => None
      end
  end.

Lemma disk_loop_uncached ps epochNs pgDirs cache :
  (∀ p p' d, device_ID ps p = Ok d → device_ID ps p' = Ok d → disk_Usage ps p = disk_Usage ps p') →
  (∀ d u, cache !! d = Some u → ∃ p, device_ID ps p = Ok d ∧ disk_Usage ps p = Ok u) →
  disk_loop ps epochNs pgDirs cache = disk_rows ps epochNs pgDirs.
Proof.
  intros Hdev. revert cache. induction pgDirs as [|row pgDirs IH]; intros cache Hc; simpl; [done|].
  destruct (row !! "path") as [[]|], (row !! "name") as [[]|]; try done.
  case_match; [by apply IH|]. destruct (device_ID ps s) as [d|e] eqn:Ed; [|done].
  assert (match cache !! d with Some u => Ok u | None => disk_Usage ps s end = disk_Usage ps s) as ->.
  { destruct (cache !! d) as [u|] eqn:Eu; [|done]. destruct (Hc d u Eu) as (p & Hp & <-). by apply (Hdev p s d). }
  destruct (disk_Usage ps s) as [u|] eqn:Eu; [|done]. rewrite IH; [done|].
  intros d' u'. destruct (decide (d' = d)) as [->|]; [rewrite lookup_insert_eq|rewrite lookup_insert_ne by done; apply Hc].
  intros [= <-]. by exists s.
Qed.

(** Asking for the usage of a disk once per device, as [GetGoPsutilDiskPG] does, gives the rows,
    the error or the panic of asking for every directory, if the answer depends on the device only. *)
Theorem disk_usage_cached ps pgDirs :
  (∀ p p' d, device_ID ps p = Ok d → device_ID ps p' = Ok d → disk_Usage ps p = disk_Usage ps p') →
  GetGoPsutilDiskPG ps pgDirs = disk_rows ps (ps_now ps 0) pgDirs.
Proof. intros Hdev. apply disk_loop_uncached; [done|]. intros d u. by rewrite lookup_empty. Qed.

(** On a host without swap the percentage of used swap is not a number.  If the encoder of rows
    refuses such numbers, as JSON does, then the sink stores none of the memory statistics in a
    batch with those of such a host, of whatever source; the flush returns nonetheless. *)
Theorem swapless_memory_lost (ff : value → string) marshal_tags marshal_row {DB}
    `{!SinkDB DB} `{!SinkDBLaws ff marshal_tags marshal_row DB} env sr ps vm so ro clk (pgw : PostgresWriter DB) :
  mem_VirtualMemory ps = Ok vm → SwapTotal vm = 0 → SwapCached vm = 0 →
  os_stats env "psutil_mem" = GetGoPsutilMem ps →
  SystemIdentifierField env ≠ "swap_percent" → RealDbnameField env ≠ "swap_percent" →
  (∀ (m : Measurement) k, m !! k = Some (VFloat64 S754_nan) → ∃ err, marshal_row m = Err err) →
  ∃ msg, FetchStatsDirectlyFromOS env sr "psutil_mem" = Ok (Some msg) ∧
    ∀ msgs, Forall (λ e, MetricName e ≠ "") msgs → msg ∈ msgs →
      ∃ pgw', flush so ro clk pgw msgs = Returns pgw' ∧
        db_table (sinkDb pgw') "psutil_mem" = db_table (sinkDb pgw) "psutil_mem".
Proof.
  intros Hvm Ht Hc Hos Hs1 Hs2 Henc. destruct (swap_percent_nan ps vm Hvm Ht Hc) as (row & Hmem & Hnan).
  eexists. split.
  { unfold FetchStatsDirectlyFromOS. rewrite bool_decide_true by (by apply (bool_decide_unpack _)).
    rewrite Hos, Hmem. reflexivity. }
  intros msgs Hn Hin.
  destruct (AddSysinfo_lookup env [row] (sr_md sr) row "swap_percent" (VFloat64 S754_nan))
    as (row' & Hrow' & Hk); [by left|done..|].
  eapply (unencodable_unstored ff marshal_tags marshal_row so ro clk pgw msgs _ row' "swap_percent" _ Hn Hin);
    [exact Hrow'|exact Hk|done|done|]. intros m Hm. by apply (Henc m "swap_percent").
Qed.

(** *** Witnesses *)

Definition no_times : TimesStat := {|
  User := S754_zero false; System := S754_zero false; Idle := S754_zero false; Nice := S754_zero false;
  Iowait := S754_zero false; Irq := S754_zero false; Softirq := S754_zero false; Steal := S754_zero false;
  Guest := S754_zero false; GuestNice := S754_zero false |}.

Definition swapless_host : gopsutil := {|
  cpu_Times := Ok [no_times]; cpu_Counts := Ok 4;
  load_Avg := Ok {| Load1 := float64_of_Z 2; Load5 := float64_of_Z 1; Load15 := float64_of_Z 1 |};
  mem_VirtualMemory := Ok {| Total := 1000; Used := 400; Free := 100; Buffers := 500; Available := 600;
    UsedPercent := float64_of_Z 40; SwapTotal := 0; SwapCached := 0; SwapFree := 0 |};
  disk_IOCounters := Ok ∅; readable := λ _, true;
  device_ID := λ p, Ok (if String.prefix "/data" p then 1 else 2);
  disk_Usage := λ p, if String.prefix "/data" p
    then Ok {| us_Total := 10; us_Used := 5; us_Free := 5; us_UsedPercent := float64_of_Z 50 |}
    else Err (ErrorString "no such device");
  ps_now := λ i, 1000 + Z.of_nat i |}.

(** No time passed since the last probe; the load is divided among four processors. *)
Example psutil_figures :
  match (GetGoPsutilCPU swapless_host {| prevCPULoadTimeStats := no_times; prevCPULoadTimestamp := 0 |} 500).2 with
  | Returns (Ok [row]) => (λ k, row !! k) <$> ["epoch_ns"; "load_1m_norm"; "load_5m"; "user"]
  | _ => []
  end = [Some (VInt64 1002); Some (VFloat64 (fdiv (float64_of_Z 1) (float64_of_Z 2)));
         Some (VFloat64 (float64_of_Z 1)); Some (VFloat64 S754_nan)].
Proof. vm_compute. reflexivity. Qed.

Definition swapless_env : surroundings := {|
  metricDefs := ∅; cacheAge := 0; RealDbnameField := "real_dbname"; SystemIdentifierField := "sys_id";
  parse_config := λ _, Err (ErrorString "unused"); query_simple := λ _, Rows [];
  query_batch := λ _ _, Rows []; change_query := λ _, Err (ErrorString "unused");
  settings_query := λ _, Err (ErrorString "unused"); ping_error := None; same_host := true;
  os_stats := λ n, match (os_data tree_order swapless_host {| prevCPULoadTimeStats := no_times;
                            prevCPULoadTimestamp := 0 |} 60 (Ok []) n).2 with Returns r => r | _ => Ok [] end;
  fmt_float := λ _, "float"; now := 0; clock := λ _, 0; batch_end := 0; map_order := tree_order |}.

Lemma swapless_memory_lost_witness :
  ∃ msg, FetchStatsDirectlyFromOS swapless_env sample_worker "psutil_mem" = Ok (Some msg) ∧
    ∀ msgs, Forall (λ e, MetricName e ≠ "") msgs → msg ∈ msgs →
      ∃ pgw', @flush _ (mem_ops strict_row) sample_sort tree_order sample_clock (mem_writer ∅) msgs = Returns pgw' ∧
        @db_table _ (mem_ops strict_row) (sinkDb pgw') "psutil_mem" =
        @db_table _ (mem_ops strict_row) (sinkDb (mem_writer ∅)) "psutil_mem".
Proof.
  eapply (@swapless_memory_lost (λ _, "float") show_tags strict_row mem_db (mem_ops strict_row) (mem_laws strict_row)
    swapless_env sample_worker swapless_host _ sample_sort tree_order sample_clock (mem_writer ∅));
    try reflexivity; try done. exact strict_row_nan.
Defined.

Lemma disk_usage_cached_witness :
  let pgDirs : Measurements :=
    [{["path" := VString "/data"; "name" := VString "data_directory"]};
     {["path" := VString "/data/log"; "name" := VString "log_directory"]}] in
  GetGoPsutilDiskPG swapless_host pgDirs = disk_rows swapless_host (ps_now swapless_host 0) pgDirs.
Proof.
  apply (disk_usage_cached swapless_host). intros p p' d. cbn [device_ID disk_Usage swapless_host].
  destruct (String.prefix "/data" p), (String.prefix "/data" p'); intros; congruence.
Defined.
