(* ===== verification/PromReaper.v ===== *)
(** * Scraping exporters ([internal/reaper/prometheus.go])

    The worker of a Prometheus source scrapes the exporter, turns every family of metrics into an
    envelope with a row per sample, and forwards the families whose interval has passed.  The decoder
    of the exposition format is a parameter: the families it finds before the end of the body or
    before an error.

    The theorems show that the families of a source are limited in rate independently of each other,
    neither more often than configured nor starved, what a sample becomes at the Prometheus sink, and
    that a family with a sample that is not a number is not stored by the PostgreSQL sink. *)

From Stdlib Require Import SpecFloat.
From S2P Require Import Prelude GoStrings Metrics Sources Changes Conn PromConn CopySource.
From S2P Require Import PgSink PgPoll PromSink Scheduler.
From stdpp Require Import options.

Local Open Scope Z_scope.

(** ** Families of metrics *)

Inductive MetricType := COUNTER | GAUGE | SUMMARY | UNTYPED | HISTOGRAM | GAUGE_HISTOGRAM.

#[export] Instance MetricType_eq_dec : EqDecision MetricType.
Proof. solve_decision. Defined.

(** A sample, with the parts of it that are read; a missing part reads as zero. *)
Record dto_Metric := {
  Label : list (string * string);
  Gauge : option spec_float;
  Counter : option spec_float;
  Histogram_SampleCount : option Z;
  Summary_SampleSum : option spec_float;
  Untyped : option spec_float;
  TimestampMs : option Z;
}.

Record MetricFamily := { mf_Name : string; mf_Type : MetricType; mf_Metric : list dto_Metric }.

Definition float_zero : spec_float := S754_zero false.

Definition promMetricValue (m : dto_Metric) (mtype : MetricType) : spec_float :=
  match mtype with
  | GAUGE => default float_zero (Gauge m)
  | COUNTER => default float_zero (Counter m)
  | HISTOGRAM => float64_of_Z (default 0 (Histogram_SampleCount m))
  | SUMMARY => default float_zero (Summary_SampleSum m)
  | _ => default float_zero (Untyped m)
  end.

(** ** One scrape *)

(** The columns of the labels of a sample. *)
Definition label_columns (m : dto_Metric) : Measurement :=
  foldl (λ row lp, if bool_decide (lp.1 ≠ "__name__") then <[TagPrefix +:+ lp.1 := VString lp.2]> row else row)
    ∅ (Label m).

Definition sample_epoch (now : Z) (m : dto_Metric) : Z :=
  let ts := default 0 (TimestampMs m) in if ts =? 0 then now else wrap64 (ts * 1000000).

Definition sample_row (familyName : string) (mtype : MetricType) (now : Z) (m : dto_Metric) : Measurement :=
  <[EpochColumnName := VInt64 (sample_epoch now m)]>
    (<[familyName := VFloat64 (promMetricValue m mtype)]> (label_columns m)).

Section scrape.
Context (io : net) (decode : string → string → list MetricFamily * option error).

(** [clk i j] is the time when sample [j] of family [i] is converted. *)
Definition family_envelope (kind : string) (clk : nat → nat → Z) (i : nat) (mf : MetricFamily) : MeasurementEnvelope := {|
  DBName := ""; MetricName := mf_Name mf; SourceKind := kind; CustomTags := None;
  Data := imap (λ j m, sample_row (mf_Name mf) (mf_Type mf) (clk i j) m) (mf_Metric mf) |}.

Definition ScrapeAll (clk : nat → nat → Z) (pc : PromConn) : result (list MeasurementEnvelope) :=
  match Scrape io pc with
  | Err e => Err e
  | Ok resp =>
      if 300 <=? StatusCode resp then Err (ErrorString ("scrapeall: unexpected status " +:+ Status resp))
      else
        match decode (ContentType resp) (Body resp) with
        | (_, Some e) => Err (WrapError "scrapeall: decoding" e)
        | (mfs, None) => Ok (imap (family_envelope (Kind (pc_Source pc)) clk) mfs)
        end
  end.
End scrape.

(** ** The worker *)

Definition defaultScrapeInterval : Z := 60 * time_Second.

Definition calcScrapeInterval (ro : range_order) (pc : PromConn) : Z :=
  let m := default ∅ (SrcMetrics (pc_Source pc)) in
  if bool_decide (m = ∅) then defaultScrapeInterval
  else
    let intervals := (λ p, Z.max p.2 minTickInterval) <$> range ro m in
    seconds (Z.max (GCDSlice intervals) minTickInterval).

Definition stamp (pc : PromConn) (env : MeasurementEnvelope) : MeasurementEnvelope := {|
  DBName := Name (pc_Source pc); MetricName := MetricName env; SourceKind := SourcePrometheus;
  CustomTags := SrcCustomTags (pc_Source pc); Data := Data env |}.

(** The family is held back: it has an interval, which has not passed since it was last emitted. *)
Definition held_back (pc : PromConn) (scrapeAll : bool) (now : Z) (lastEmitted : gmap string Z) (name : string) : bool :=
  if scrapeAll then false
  else
    let emitInterval := PromConn_GetMetricInterval pc name in
    if 0 <? emitInterval then
      let last := default zero_time (lastEmitted !! name) in
      negb (time_IsZero last) && (time_Sub now last <? emitInterval)
    else false.

Fixpoint emit_loop (pc : PromConn) (scrapeAll : bool) (now : Z) (lastEmitted : gmap string Z)
    (envelopes : list MeasurementEnvelope) : gmap string Z * list MeasurementEnvelope :=
  match envelopes with
  | [] => (lastEmitted, [])
  | env :: envelopes =>
      if held_back pc scrapeAll now lastEmitted (MetricName env)
      then emit_loop pc scrapeAll now lastEmitted envelopes
      else
        let '(lastEmitted, out) := emit_loop pc scrapeAll now (<[MetricName env := now]> lastEmitted) envelopes in
        (lastEmitted, stamp pc env :: out)
  end.

(** What the loop finds in one turn: the connection with the intervals configured at that time, the
    network, and the times at which samples and the whole scrape are dated. *)
Record turn := { tn_conn : PromConn; tn_net : net; tn_clock : nat → nat → Z; tn_now : Z }.

Section reap.
Context (decode : string → string → list MetricFamily * option error) (scrapeAll : bool).

Definition prom_turn (lastEmitted : gmap string Z) (t : turn) : gmap string Z * list MeasurementEnvelope :=
  match ScrapeAll (tn_net t) decode (tn_clock t) (tn_conn t) with
  | Err _ => (lastEmitted, [])
  | Ok envelopes => emit_loop (tn_conn t) scrapeAll (tn_now t) lastEmitted envelopes
  end.

(** The envelopes of every turn. *)
Fixpoint prom_turns (lastEmitted : gmap string Z) (ts : list turn) : list (list MeasurementEnvelope) :=
  match ts with
  | [] => []
  | t :: ts => let '(lastEmitted, out) := prom_turn lastEmitted t in out :: prom_turns lastEmitted ts
  end.
End reap.

(** [Reap]: the mode is chosen once, from the intervals at the start. *)
Definition PromReaper_Reap decode (pc : PromConn) (ts : list turn) : list (list MeasurementEnvelope) :=
  prom_turns decode (bool_decide (default ∅ (SrcMetrics (pc_Source pc)) = ∅)) ∅ ts.

(** ** Rate of the families *)

Lemma filter_Forall_iff {A} (P Q : A → Prop) `{!∀ x, Decision (P x), !∀ x, Decision (Q x)} l :
  Forall (λ x, P x ↔ Q x) l → filter P l = filter Q l.
Proof.
  induction 1 as [|x l Hx _ IH]; [done|]. rewrite !filter_cons, IH. by rewrite (decide_ext _ _ _ _ Hx).
Qed.

Abbreviation names es := (fmap (M := list) MetricName es).

Definition emits (f : string) (es : list MeasurementEnvelope) : bool := bool_decide (f ∈ names es).

Lemma emit_loop_spec pc sa now le envs le' out :
  NoDup (names envs) → emit_loop pc sa now le envs = (le', out) →
  out = stamp pc <$> filter (λ e, held_back pc sa now le (MetricName e) = false) envs ∧
  ∀ n, le' !! n = if decide (n ∈ names envs ∧ held_back pc sa now le n = false) then Some now else le !! n.
Proof.
  revert le le' out. induction envs as [|e envs IH]; intros le le' out Hnd; cbn [emit_loop].
  { intros [= <- <-]. split; [done|]. intros n. rewrite decide_False; [done|]. intros [[]%elem_of_nil _]. }
  apply NoDup_cons in Hnd as [He Hnd]. rewrite filter_cons.
  destruct (held_back pc sa now le (MetricName e)) eqn:Eh.
  - rewrite decide_False by done. intros [-> Hle']%IH; [|done]. split; [done|]. intros n. rewrite Hle'.
    apply decide_ext. rewrite fmap_cons, elem_of_cons. naive_solver congruence.
  - destruct (emit_loop pc sa now (<[MetricName e := now]> le) envs) as [le1 out1] eqn:Ee.
    apply IH in Ee as [-> Hle1]; [|done]. intros [= <- <-]. rewrite decide_True by done.
    assert (∀ n, n ∈ names envs →
      held_back pc sa now (<[MetricName e := now]> le) n = held_back pc sa now le n) as Hsame.
    { intros n Hn. unfold held_back. rewrite lookup_insert_ne; [done|]. by intros <-. }
    split.
    + rewrite fmap_cons. f_equal. f_equal. apply filter_Forall_iff, Forall_forall. intros x Hx.
      rewrite Hsame; [done|]. by apply list_elem_of_fmap_2.
    + intros n. rewrite Hle1. rewrite fmap_cons. destruct (decide (n = MetricName e)) as [->|Hne].
      * rewrite decide_False by (by intros []). rewrite lookup_insert_eq, decide_True; [done|].
        split; [by left|done].
      * rewrite lookup_insert_ne by done. apply decide_ext. rewrite elem_of_cons. split.
        { intros [Hn Hh]. rewrite Hsame in Hh by done. auto. }
        intros [[?|Hn] Hh]; [done|]. by rewrite Hsame.
Qed.

Lemma names_stamped pc (P : MeasurementEnvelope → Prop) `{!∀ e, Decision (P e)} (es : list MeasurementEnvelope) f :
  f ∈ names (stamp pc <$> filter P es) ↔ ∃ e, e ∈ es ∧ P e ∧ MetricName e = f.
Proof.
  rewrite <-list_fmap_compose, list_elem_of_fmap. setoid_rewrite list_elem_of_filter. naive_solver.
Qed.

(** A rate limiter for one family: when it was seen, with which interval, and whether at all. *)
Fixpoint limiter (last : option Z) (obs : list (Z * Z * bool)) : list bool :=
  match obs with
  | [] => []
  | (now, interval, present) :: obs =>
      let e := present && ((interval <=? 0) ||
                 match last with None => true | Some l => interval <=? time_Sub now l end) in
      e :: limiter (if e then Some now else last) obs
  end.

Section rate.
Context (decode : string → string → list MetricFamily * option error).

Definition scraped (t : turn) : list MeasurementEnvelope :=
  match ScrapeAll (tn_net t) decode (tn_clock t) (tn_conn t) with Ok es => es | Err _ => [] end.

(** What the limiter of family [f] sees of a turn; in the mode that scrapes all there is no limit. *)
Definition observed (sa : bool) (f : string) (t : turn) : Z * Z * bool :=
  (tn_now t, if sa then 0 else PromConn_GetMetricInterval (tn_conn t) f, bool_decide (f ∈ names (scraped t))).

Definition valid_turn (t : turn) : Prop := NoDup (names (scraped t)) ∧ zero_time < tn_now t.

Lemma prom_turn_spec sa le t le' out :
  NoDup (names (scraped t)) → prom_turn decode sa le t = (le', out) →
  out = stamp (tn_conn t) <$> filter (λ e, held_back (tn_conn t) sa (tn_now t) le (MetricName e) = false) (scraped t) ∧
  ∀ n, le' !! n = if decide (n ∈ names (scraped t) ∧ held_back (tn_conn t) sa (tn_now t) le n = false)
                  then Some (tn_now t) else le !! n.
Proof.
  unfold prom_turn, scraped. destruct (ScrapeAll _ _ _ _) as [envs|e]; [apply emit_loop_spec|].
  intros _ [= <- <-]. split; [done|]. intros n. rewrite decide_False; [done|]. intros [[]%elem_of_nil _].
Qed.

Lemma prom_turns_limited sa le ts f :
  Forall valid_turn ts → map_Forall (λ _ t, zero_time < t) le →
  (emits f <$> prom_turns decode sa le ts) =
  limiter (le !! f) (observed sa f <$> ts).
Proof.
  intros Hts. revert le. induction Hts as [|t ts [Hnd Hnow] Hts IH]; intros le Hle; [done|].
  cbn [prom_turns]. destruct (prom_turn decode sa le t) as [le' out] eqn:Et.
  destruct (prom_turn_spec _ _ _ _ _ Hnd Et) as [-> Hle']. rewrite !fmap_cons. unfold observed at 1.
  cbn [limiter]. set (e := bool_decide (f ∈ names (scraped t)) && _).
  assert (bool_decide (f ∈ names (scraped t)) && negb (held_back (tn_conn t) sa (tn_now t) le f) = e) as He.
  { unfold e, held_back. f_equal. destruct sa; [done|].
    rewrite Z.leb_antisym. destruct (0 <? PromConn_GetMetricInterval (tn_conn t) f); [|done].
    destruct (le !! f) as [l|] eqn:El; simpl; [|done].
    pose proof (Hle f l El) as Hl. simpl in Hl. unfold time_IsZero. rewrite (proj2 (Z.eqb_neq l zero_time)) by lia. simpl.
    by rewrite Z.leb_antisym. }
  f_equal.
  - rewrite <-He. unfold emits. apply Bool.eq_iff_eq_true. rewrite andb_true_iff, negb_true_iff, !bool_decide_eq_true, names_stamped,
      list_elem_of_fmap. naive_solver.
  - rewrite IH.
    + f_equal. rewrite Hle', <-He. destruct (decide (f ∈ names (scraped t) ∧ _)) as [[Hf Hh]|Hd].
      * by rewrite bool_decide_true, Hh by done.
      * case_bool_decide; [|done]. destruct (held_back _ _ _ _ f) eqn:?; [done|]. by destruct Hd.
    + intros n l. rewrite Hle'. destruct (decide _); [by intros [= <-]|apply Hle].
Qed.

(** C23.  The worker of an exporter limits the rate of every family on its own: whether a turn emits a
    family is decided by the limiter of that family, which sees the turns in which the family was
    scraped, the interval configured at the time, and nothing of other families or of failed scrapes.
    What is emitted is what was scraped in that turn, under the name and with the tags of the source. *)
Theorem families_limited pc ts f :
  Forall valid_turn ts →
  let sa := bool_decide (default ∅ (SrcMetrics (pc_Source pc)) = ∅) in
  let out := PromReaper_Reap decode pc ts in
  (emits f <$> out) = limiter None (observed sa f <$> ts) ∧
  Forall2 (λ t es, Forall (λ e, ∃ e0, e0 ∈ scraped t ∧ e = stamp (tn_conn t) e0) es ∧ NoDup (names es)) ts out.
Proof.
  intros Hts sa out. unfold out, PromReaper_Reap. split.
  { rewrite prom_turns_limited; [by rewrite lookup_empty|done|apply map_Forall_empty]. }
  fold sa. generalize (∅ : gmap string Z) as le. induction Hts as [|t ts [Hnd _] _ IH]; intros le; cbn [prom_turns].
  { constructor. }
  destruct (prom_turn decode sa le t) as [le' es] eqn:Et.
  destruct (prom_turn_spec _ _ _ _ _ Hnd Et) as [-> _]. constructor; [|apply IH]. split.
  - apply Forall_fmap, Forall_forall. intros e [_ He]%list_elem_of_filter. simpl. eauto.
  - rewrite <-list_fmap_compose. change (MetricName ∘ stamp (tn_conn t)) with MetricName.
    eapply sublist_NoDup; [exact Hnd|]. apply fmap_sublist, sublist_filter.
Qed.
End rate.

(** ** Rate of one family *)

(** Consecutive times are at least [g] apart. *)
Abbreviation spaced g := (Sorted (λ a b : Z, a + g ≤ b)).
Abbreviation times obs := ((λ o : Z * Z * bool, o.1.1) <$> obs).

Section limiter.
Context (v g : Z) (Hv : 0 < v < 2 ^ 63) (Hg : 0 ≤ g).

Abbreviation constant obs := (Forall (λ o : Z * Z * bool, o.1.2 = v) obs).

Lemma limiter_since l obs j o :
  constant obs → limiter (Some l) obs !! j = Some true → spaced g (l :: times obs) →
  obs !! j = Some o → v ≤ o.1.1 - l.
Proof using Hv Hg.
  revert l j. induction obs as [|[[t v'] p] obs IH]; intros l j Hc Hj Hs Ho; [by rewrite lookup_nil in Ho|].
  apply Forall_cons in Hc as [Hc1 Hc]. simpl in Hc1. subst v'. cbn [limiter] in Hj.
  destruct (p && _) eqn:Ee; destruct j as [|j]; simpl in Hj, Ho; simplify_eq.
  - apply andb_prop in Ee as [_ Ee]. simpl in *.
    apply orb_prop in Ee as [Ee|Ee]; apply Z.leb_le in Ee; [lia|]. by apply time_Sub_le in Ee; [|lia].
  - apply Sorted_inv in Hs as [Hs Hl]. apply HdRel_inv in Hl. specialize (IH t j Hc Hj Hs Ho). simpl in *. lia.
  - eapply IH; [exact Hc|exact Hj| |done]. apply Sorted_inv in Hs as [Hs Hl]. apply HdRel_inv in Hl.
    apply Sorted_inv in Hs as [Hs Ht]. constructor; [done|]. destruct obs as [|o' obs]; csimpl; [constructor|].
    csimpl in Ht. apply HdRel_inv in Ht. constructor. simpl in *. lia.
Qed.

(** Two emissions of the family are at least its interval apart. *)
Lemma limiter_apart last obs i j o o' :
  constant obs → spaced g (times obs) → (i < j)%nat →
  limiter last obs !! i = Some true → limiter last obs !! j = Some true →
  obs !! i = Some o → obs !! j = Some o' → v ≤ o'.1.1 - o.1.1.
Proof using Hv Hg.
  revert last i j. induction obs as [|[[t v'] p] obs IH]; intros last i j Hc Hs Hij Hi Hj Ho Ho'; [done|].
  apply Forall_cons in Hc as [_ Hc]. cbn [limiter] in Hi, Hj. destruct j as [|j]; [lia|].
  destruct i as [|i]; simpl in *; simplify_eq.
  - rewrite Hi in Hj. by eapply limiter_since.
  - apply Sorted_inv in Hs as [Hs _]. eapply (IH _ i j); [done..|lia|exact Hi|exact Hj|done|done].
Qed.

Context (m : nat) (Hm : v ≤ Z.of_nat m * g).
Abbreviation all_present obs := (Forall (λ o : Z * Z * bool, o.2 = true) obs).

(** Some time after the last emission, [k] turns ago, the next one is not far. *)
Lemma limiter_next l k obs :
  constant obs → all_present obs → spaced g (times obs) →
  (k ≤ m)%nat → Forall (λ t, l + Z.of_nat k * g ≤ t) (take 1 (times obs)) → (m - k < length obs)%nat →
  ∃ j, (j ≤ m - k)%nat ∧ limiter (Some l) obs !! j = Some true.
Proof using Hv Hg Hm.
  remember (m - k)%nat as d eqn:Hd. revert k obs Hd.
  induction d as [|d IH]; intros k [|[[t v'] p] obs] Hd Hc Hp Hs Hk Ht Hlen; simpl in Hlen; try lia;
    apply Forall_cons in Hc as [Hc1 Hc]; apply Forall_cons in Hp as [Hp1 Hp]; simpl in Hc1, Hp1; subst v' p;
    csimpl in Ht; rewrite firstn_O in Ht; apply Forall_cons in Ht as [Ht _]; simpl in Ht.
  - exists 0%nat. split; [lia|]. cbn [limiter]. assert (k = m) as -> by lia.
    rewrite (proj2 (Z.leb_le v (time_Sub t l))), orb_true_r; [done|]. apply time_Sub_le; [lia|]. lia.
  - cbn [limiter]. destruct (true && _) eqn:Ee; [exists 0%nat; split; [lia|done]|].
    apply Sorted_inv in Hs as [Hs Hhd]. destruct (IH (S k) obs) as (j & Hj & Hjt); [lia|done..|lia| |lia|].
    + destruct obs as [|o obs]; csimpl; [constructor|]. rewrite firstn_O. apply Forall_singleton.
      csimpl in Hhd. apply HdRel_inv in Hhd. simpl in *. lia.
    + exists (S j). split; [lia|done].
Qed.

(** In every [m] consecutive turns the family is emitted. *)
Lemma limiter_live last obs i :
  constant obs → all_present obs → spaced g (times obs) → (0 < m)%nat →
  (∀ l, last = Some l → Forall (λ t, l + g ≤ t) (take 1 (times obs))) → (i + m ≤ length obs)%nat →
  ∃ j, (i ≤ j < i + m)%nat ∧ limiter last obs !! j = Some true.
Proof using Hv Hg Hm.
  revert last obs. induction i as [|i IH]; intros last obs Hc Hp Hs Hm0 Hl Hlen.
  - destruct last as [l|].
    + destruct (limiter_next l 1 obs) as (j & ? & ?); [done..|lia| |lia|exists j; split; [lia|done]].
      eapply Forall_impl; [by apply Hl|]. intros t. simpl. lia.
    + destruct obs as [|[[t v'] p] obs]; [simpl in Hlen; lia|]. apply Forall_cons in Hp as [Hp1 _]. simpl in Hp1. subst p.
      exists 0%nat. split; [lia|]. cbn [limiter]. by rewrite orb_true_r.
  - destruct obs as [|[[t v'] p] obs]; [simpl in Hlen; lia|]. cbn [limiter]. set (e := p && _).
    apply Forall_cons in Hc as [_ Hc]. apply Forall_cons in Hp as [_ Hp].
    apply Sorted_inv in Hs as [Hs Hhd]. simpl in Hlen.
    destruct (IH (if e then Some t else last) obs) as (j & ? & ?); [done..| |lia|exists (S j); split; [lia|done]].
    intros l Hl'. destruct obs as [|o obs]; csimpl; [constructor|]. rewrite firstn_O. apply Forall_singleton.
    csimpl in Hhd. apply HdRel_inv in Hhd. destruct e; simplify_eq; [done|].
    specialize (Hl l eq_refl). apply Forall_cons in Hl as [Hl _]. simpl in *. lia.
Qed.
End limiter.

(** ** The interval of the loop *)

Lemma calcScrapeInterval_gcd ro pc f v :
  default ∅ (SrcMetrics (pc_Source pc)) !! f = Some v → 1 ≤ v ≤ 9223372036 →
  ∃ g, calcScrapeInterval ro pc = g * time_Second ∧ 1 ≤ g ∧ (g | v).
Proof.
  intros Hf Hv. unfold calcScrapeInterval. set (am := default ∅ (SrcMetrics (pc_Source pc))) in *.
  rewrite bool_decide_false by (intros Ham; by rewrite Ham, lookup_empty in Hf).
  set (ivs := (λ p : string * Z, Z.max p.2 minTickInterval) <$> range ro am).
  assert (v ∈ ivs) as Hin.
  { apply list_elem_of_fmap. exists (f, v). split; [simpl; unfold minTickInterval; lia|by apply elem_of_range]. }
  destruct (GCDSlice_spec ivs) as (H1 & H2 & _).
  { intros Hnil. rewrite Hnil in Hin. by apply elem_of_nil in Hin. }
  { apply Forall_fmap, Forall_forall. intros [] _. simpl. unfold minTickInterval. lia. }
  rewrite Forall_forall in H2. specialize (H2 v Hin). exists (GCDSlice ivs).
  assert (GCDSlice ivs ≤ v) by (apply Z.divide_pos_le; [lia|done]).
  unfold minTickInterval. rewrite Z.max_l by lia. split_and!; [apply seconds_small; lia|done|done].
Qed.

(** C24.  With unchanged intervals and turns at least [calcScrapeInterval] apart, as the loop sleeps
    that long, a family with an interval of [v] seconds is never emitted twice within [v] seconds; and
    if every scrape has it, it is emitted in every [v] seconds' worth of turns: the time between two
    turns divides the interval of the family. *)
Theorem exporter_cadence decode ro pc ts f v :
  default ∅ (SrcMetrics (pc_Source pc)) !! f = Some v → 1 ≤ v ≤ 9223372036 →
  Forall (λ t, valid_turn decode t ∧ SrcMetrics (pc_Source (tn_conn t)) = SrcMetrics (pc_Source pc)) ts →
  spaced (calcScrapeInterval ro pc) (tn_now <$> ts) →
  let flags := emits f <$> PromReaper_Reap decode pc ts in
  (∀ i j t t', (i < j)%nat → flags !! i = Some true → flags !! j = Some true →
     ts !! i = Some t → ts !! j = Some t' → v * time_Second ≤ tn_now t' - tn_now t) ∧
  ∃ m, Z.of_nat m * calcScrapeInterval ro pc = v * time_Second ∧
    (Forall (λ t, f ∈ names (scraped decode t)) ts →
     ∀ i, (i + m ≤ length ts)%nat → ∃ j, (i ≤ j < i + m)%nat ∧ flags !! j = Some true).
Proof.
  intros Hf Hv Hts Hs flags. destruct (calcScrapeInterval_gcd ro pc f v Hf Hv) as (g & Hg & Hg1 & k & Hk).
  set (sa := bool_decide (default ∅ (SrcMetrics (pc_Source pc)) = ∅)).
  assert (sa = false) as Hsa.
  { apply bool_decide_eq_false. intros Ham. by rewrite Ham, lookup_empty in Hf. }
  assert (flags = limiter None (observed decode sa f <$> ts)) as ->.
  { unfold flags, PromReaper_Reap. fold sa.
    rewrite prom_turns_limited; [by rewrite lookup_empty| |apply map_Forall_empty].
    eapply Forall_impl; [exact Hts|]. by intros t []. }
  set (obs := observed decode sa f <$> ts).
  assert (Forall (λ o : Z * Z * bool, o.1.2 = v * time_Second) obs) as Hc.
  { apply Forall_fmap. eapply Forall_impl; [exact Hts|]. intros t [_ Ht]. simpl. rewrite Hsa.
    unfold PromConn_GetMetricInterval, interval_of. rewrite Ht, Hf. apply seconds_small. lia. }
  assert (spaced (calcScrapeInterval ro pc) (times obs)) as Hs'.
  { unfold obs. by rewrite <-list_fmap_compose. }
  assert (0 < v * time_Second < 2 ^ 63) as Hv' by (unfold time_Second; lia).
  assert (0 ≤ calcScrapeInterval ro pc) as Hg' by (rewrite Hg; unfold time_Second; lia).
  split.
  - intros i j t t' Hij Hi Hj Ht Ht'.
    eapply (limiter_apart _ _ Hv' Hg' None obs i j (observed decode sa f t) (observed decode sa f t'));
      [done..| |]; unfold obs; by rewrite list_lookup_fmap, ?Ht, ?Ht'.
  - exists (Z.to_nat k). assert (0 < k) by nia. rewrite Hg, Z2Nat.id by lia. split; [lia|].
    intros Hp i Hi. apply (limiter_live _ _ Hv' Hg' (Z.to_nat k)); [|done| |done|lia|done|].
    + rewrite Hg, Z2Nat.id by lia. lia.
    + apply Forall_fmap. eapply Forall_impl; [exact Hp|]. intros t Ht. by apply bool_decide_eq_true.
    + unfold obs. by rewrite length_fmap.
Qed.

(** ** What a sample becomes at the Prometheus sink *)

Definition usable (v : value) : bool := negb (bool_decide (v = VNil ∨ v = VString "")).

#[local] Arguments cut_prefix : simpl never.

(** A pass over columns with different names, by column. *)
Lemma scan_columns ff isProm kvs st :
  NoDup kvs.*1 →
  let m : Measurement := list_to_map kvs in
  let st' := foldl (scan_column ff isProm) st kvs in
  (∀ l, labels st' !! l = match m !! (TagPrefix +:+ l) with
                          | Some v => if usable v then Some (fmt_v ff v) else labels st !! l
                          | None => labels st !! l
                          end) ∧
  (∀ f, f ≠ EpochColumnName → cut_prefix TagPrefix f = None →
        fields st' !! f = match m !! f ≫= λ v, guard (usable v) ≫= λ _, numeric v with
                          | Some x => Some x | None => fields st !! f end) ∧
  (∀ f, f = EpochColumnName ∨ is_Some (cut_prefix TagPrefix f) → fields st' !! f = fields st !! f) ∧
  rowEpochTime st' = match m !! EpochColumnName with
                     | Some (VInt64 ns) => if isProm && negb (ns =? 0) then ns else rowEpochTime st
                     | _ => rowEpochTime st
                     end.
Proof.
  revert st. induction kvs as [|[k v] kvs IH]; intros st Hnd; simpl; [by split_and!|].
  apply NoDup_cons in Hnd as [Hk Hnd]. apply (not_elem_of_list_to_map_1 (M := gmap string)) in Hk. simpl in Hk.
  set (st1 := scan_column ff isProm st (k, v)). destruct (IH st1 Hnd) as (H1 & H2 & H3 & H4). clear IH.
  assert (∀ l : string, cut_prefix TagPrefix (TagPrefix +:+ l) = Some l) as Htag by (intros; apply cut_prefix_app).
  split_and!.
  - intros l. rewrite H1. destruct (decide (k = TagPrefix +:+ l)) as [->|Hne].
    + rewrite Hk, lookup_insert_eq. unfold st1, scan_column, usable. rewrite bool_decide_false by done.
      destruct (bool_decide (v = VNil ∨ v = VString "")) eqn:Ev; [done|].
      rewrite Htag. simpl. by rewrite lookup_insert_eq.
    + rewrite lookup_insert_ne by done.
      assert (labels st1 !! l = labels st !! l) as ->; [|done].
      unfold st1, scan_column. case_bool_decide; [by repeat case_match|]. case_bool_decide; [done|].
      destruct (cut_prefix TagPrefix k) as [l'|] eqn:El; [|by destruct (numeric v)].
      simpl. rewrite lookup_insert_ne; [done|]. intros ->. by apply cut_prefix_Some in El.
  - intros f Hf1 Hf2. rewrite H2 by done. destruct (decide (k = f)) as [->|Hne].
    + rewrite Hk, lookup_insert_eq. simpl. unfold st1, scan_column, usable. rewrite bool_decide_false by done.
      destruct (bool_decide (v = VNil ∨ v = VString "")) eqn:Ev; [done|].
      rewrite Hf2. simpl. destruct (numeric v); simpl; [by rewrite lookup_insert_eq|done].
    + rewrite lookup_insert_ne by done. assert (fields st1 !! f = fields st !! f) as ->; [|done].
      unfold st1, scan_column. case_bool_decide; [by repeat case_match|]. case_bool_decide; [done|].
      destruct (cut_prefix TagPrefix k); [done|]. destruct (numeric v); simpl; [by rewrite lookup_insert_ne|done].
  - intros f Hf. rewrite H3 by done. unfold st1, scan_column. case_bool_decide; [by repeat case_match|].
    case_bool_decide; [done|]. destruct (cut_prefix TagPrefix k) eqn:El; [done|].
    destruct (numeric v); simpl; [|done]. rewrite lookup_insert_ne; [done|]. intros ->. rewrite El in Hf.
    destruct Hf as [?|[? ?]]; done.
  - etrans; [exact H4|]. destruct (decide (k = EpochColumnName)) as [->|Hne].
    + rewrite Hk, lookup_insert_eq. unfold st1, scan_column. rewrite bool_decide_true by done. by repeat case_match.
    + rewrite lookup_insert_ne by done. assert (rowEpochTime st1 = rowEpochTime st) as ->; [|done].
      unfold st1, scan_column. rewrite bool_decide_false by done. by repeat case_match.
Qed.

Lemma label_columns_lookup m k :
  NoDup (Label m).*1 →
  label_columns m !! k = match cut_prefix TagPrefix k with
                         | Some l => if decide (l = "__name__") then None
                                     else VString <$> (list_to_map (Label m) : gmap string string) !! l
                         | None => None
                         end.
Proof.
  unfold label_columns. intros Hnd.
  assert (∀ row : Measurement,
    foldl (λ row lp, if bool_decide (lp.1 ≠ "__name__") then <[TagPrefix +:+ lp.1 := VString lp.2]> row else row)
      row (Label m) !! k =
    match cut_prefix TagPrefix k ≫= λ l, guard (l ≠ "__name__") ≫= λ _,
            (list_to_map (Label m) : gmap string string) !! l with
    | Some x => Some (VString x) | None => row !! k end) as H.
  { revert Hnd. induction (Label m) as [|[l x] ls IH]; intros Hnd row; cbn [foldl].
    { destruct (cut_prefix TagPrefix k); simpl; [|done]. case_guard; simpl; by rewrite ?lookup_empty. }
    apply NoDup_cons in Hnd as [Hl Hnd]. apply (not_elem_of_list_to_map_1 (M := gmap string)) in Hl. simpl in Hl.
    rewrite IH by done. cbn [fst snd]. rewrite list_to_map_cons.
    destruct (cut_prefix TagPrefix k) as [l'|] eqn:Ek; simpl.
    - apply cut_prefix_Some in Ek as ->. case_guard as Hn; simpl.
      + destruct (decide (l = l')) as [->|Hne].
        * rewrite Hl, lookup_insert_eq, bool_decide_true by done. simpl. by rewrite lookup_insert_eq.
        * rewrite lookup_insert_ne by done. destruct ((list_to_map ls : gmap string string) !! l'); [done|]. case_bool_decide; [|done].
          rewrite lookup_insert_ne; [done|]. intros Heq%string_app_inj_l. done.
      + case_bool_decide; [|done]. rewrite lookup_insert_ne; [done|]. intros Heq%string_app_inj_l. by subst l'.
    - case_bool_decide; [|done]. rewrite lookup_insert_ne; [done|]. intros <-. by rewrite cut_prefix_app in Ek. }
  rewrite H, lookup_empty. destruct (cut_prefix TagPrefix k); simpl; [|done]. by case_guard; case_decide.
Qed.

(** The labels of a sample that have a value. *)
Definition sample_labels (m : dto_Metric) : gmap string string :=
  list_to_map (filter (λ lp, lp.1 ≠ "__name__" ∧ lp.2 ≠ "") (Label m)).

Lemma sample_labels_lookup m l :
  NoDup (Label m).*1 →
  sample_labels m !! l =
  match label_columns m !! (TagPrefix +:+ l) with
  | Some v => if usable v then Some (fmt_v (λ _, "") v) else None
  | None => None
  end.
Proof.
  intros Hnd. rewrite label_columns_lookup, cut_prefix_app by done. unfold sample_labels.
  assert (NoDup (filter (λ lp : string * string, lp.1 ≠ "__name__" ∧ lp.2 ≠ "") (Label m)).*1) as Hnd'.
  { eapply sublist_NoDup; [exact Hnd|]. apply fmap_sublist, sublist_filter. }
  apply option_eq. intros x. rewrite <-elem_of_list_to_map by done. rewrite list_elem_of_filter. simpl.
  rewrite (elem_of_list_to_map (M := gmap string)) by done. case_decide as Hn.
  { split; [intros [[] _]; done|done]. }
  destruct ((list_to_map (Label m) : gmap string string) !! l) as [y|]; simpl; [|naive_solver].
  unfold usable. case_bool_decide as Hu; simpl.
  - destruct Hu as [?|[= ->]]; naive_solver.
  - split; [naive_solver|]. intros [= ->]. split_and!; [done| |done]. intros ->. apply Hu. by right.
Qed.


(** A family of an exporter with a sample that is not a number, which the exposition format
    allows, is not stored by the PostgreSQL sink, and neither are the other samples of that family in
    the same batch, of whatever source, if rows with such a number cannot be encoded. *)
Theorem nan_family_lost ff marshal_tags marshal_row {DB} `{!SinkDB DB} `{!SinkDBLaws ff marshal_tags marshal_row DB}
    kind clk i mf m pc so ro clk' (pgw : PostgresWriter DB) msgs :
  m ∈ mf_Metric mf → promMetricValue m (mf_Type mf) = S754_nan →
  cut_prefix TagPrefix (mf_Name mf) = None → mf_Name mf ≠ EpochColumnName →
  (∀ (row : Measurement) k, row !! k = Some (VFloat64 S754_nan) → ∃ err, marshal_row row = Err err) →
  Forall (λ e, MetricName e ≠ "") msgs → stamp pc (family_envelope kind clk i mf) ∈ msgs →
  ∃ pgw', flush so ro clk' pgw msgs = Returns pgw' ∧
    db_table (sinkDb pgw') (mf_Name mf) = db_table (sinkDb pgw) (mf_Name mf).
Proof.
  intros [j Hj]%list_elem_of_lookup Hnan Htag Hne Henc Hn Hin.
  eapply (unencodable_unstored ff marshal_tags marshal_row so ro clk' pgw msgs _
    (sample_row (mf_Name mf) (mf_Type mf) (clk i j) m) (mf_Name mf) (VFloat64 S754_nan) Hn Hin); [| |done|done|].
  - simpl. apply list_elem_of_lookup_2 with j. by rewrite list_lookup_imap, Hj.
  - unfold sample_row. rewrite lookup_insert_ne by done. by rewrite lookup_insert_eq, Hnan.
  - intros row Hrow. by apply (Henc row (mf_Name mf)).
Qed.

(** *** Witnesses *)

Definition gauge_sample (v : spec_float) (labels : list (string * string)) : dto_Metric := {|
  Label := labels; Gauge := Some v; Counter := None; Histogram_SampleCount := None; Summary_SampleSum := None;
  Untyped := None; TimestampMs := None |}.

Definition up_family : MetricFamily := {|
  mf_Name := "patroni_up"; mf_Type := GAUGE;
  mf_Metric := [gauge_sample (float64_of_Z 1) [("scope", "demo"); ("__name__", "x"); ("empty", "")];
                gauge_sample S754_nan [("scope", "other")]] |}.

Definition sample_decode (_ _ : string) : list MetricFamily * option error := ([up_family], None).

Definition connected : PromConn :=
  PromConn_SetMetricIntervals (PromConn_Connect sample_net exporter).1 (Some {["patroni_up" := 30; "other" := 20]}).

Definition turn_at (s : Z) : turn := {|
  tn_conn := connected; tn_net := sample_net; tn_clock := λ _ j, s * time_Second + Z.of_nat j; tn_now := s * time_Second |}.

Definition sample_turns : list turn := turn_at <$> [100; 110; 121; 131; 141; 151].

Example sample_emissions :
  emits "patroni_up" <$> PromReaper_Reap sample_decode connected sample_turns = [true; false; false; true; false; false].
Proof. vm_compute. reflexivity. Qed.

Lemma sample_turns_valid : Forall (valid_turn sample_decode) sample_turns.
Proof.
  repeat (apply Forall_cons; split; [split; [apply (bool_decide_unpack _); vm_compute; exact I|vm_compute; reflexivity]|]).
  apply Forall_nil. done.
Qed.

Lemma families_limited_witness :
  let out := PromReaper_Reap sample_decode connected sample_turns in
  (emits "patroni_up" <$> out) = limiter None (observed sample_decode false "patroni_up" <$> sample_turns) ∧
  Forall2 (λ t es, Forall (λ e, ∃ e0, e0 ∈ scraped sample_decode t ∧ e = stamp (tn_conn t) e0) es ∧ NoDup (names es))
    sample_turns out.
Proof. apply (families_limited sample_decode connected sample_turns "patroni_up"). exact sample_turns_valid. Defined.

Lemma exporter_cadence_witness :
  let flags := emits "patroni_up" <$> PromReaper_Reap sample_decode connected sample_turns in
  (∀ i j t t', (i < j)%nat → flags !! i = Some true → flags !! j = Some true →
     sample_turns !! i = Some t → sample_turns !! j = Some t' → 30 * time_Second ≤ tn_now t' - tn_now t) ∧
  ∃ m, Z.of_nat m * calcScrapeInterval tree_order connected = 30 * time_Second ∧
    (Forall (λ t, "patroni_up" ∈ names (scraped sample_decode t)) sample_turns →
     ∀ i, (i + m ≤ length sample_turns)%nat → ∃ j, (i ≤ j < i + m)%nat ∧ flags !! j = Some true).
Proof.
  apply (exporter_cadence sample_decode tree_order connected sample_turns "patroni_up" 30); [done|lia| |].
  - apply Forall_fmap, Forall_forall. intros s Hs. split; [|done].
    pose proof sample_turns_valid as Hv. rewrite Forall_forall in Hv. apply Hv. by apply list_elem_of_fmap_2.
  - repeat constructor; vm_compute; discriminate.
Defined.


Lemma nan_family_lost_witness :
  let msg := stamp connected (family_envelope "prometheus" (λ _ j, Z.of_nat j) 0 up_family) in
  ∃ pgw', @flush _ (mem_ops strict_row) sample_sort tree_order sample_clock (mem_writer ∅) [msg] = Returns pgw' ∧
    @db_table _ (mem_ops strict_row) (sinkDb pgw') "patroni_up" =
    @db_table _ (mem_ops strict_row) (sinkDb (mem_writer ∅)) "patroni_up".
Proof.
  apply (@nan_family_lost (λ _, "float") show_tags strict_row mem_db (mem_ops strict_row) (mem_laws strict_row)
    "prometheus" (λ _ j, Z.of_nat j) 0 up_family (gauge_sample S754_nan [("scope", "other")]) connected);
    try done; [right; by left|exact strict_row_nan|by repeat constructor|by left].
Defined.
