(* ===== verification/Producers.v ===== *)
(** * Everything that is sent ([internal/reaper])

    The goroutines that put envelopes on the channel of measurements: the main loop, the worker of a
    database, the two readers of server logs and the worker of an exporter.  For each of them the envelopes
    that it sends in its life, and what these envelopes are like: the main loop sends only reports of sources
    that are down, the readers of logs only counters, and rows that JSON cannot express come from exporters
    alone. *)

From Stdlib Require Import SpecFloat.
From S2P Require Import Prelude GoStrings Metrics Sources Changes Conn PromConn Sinks CopySource PgSink PgPoll.
From S2P Require Import InstanceCache Scheduler RowTypes Pipeline Reaper Resolver Discovery MainLoop.
From S2P Require Import Regexp LogParser LogLocal LogRemote Worker Flow EndToEnd PromReaper.
From stdpp Require Import options.

Local Open Scope nat_scope.

(** ** The main loop *)

(** From one state of the reaper to the next, nothing but reports of sources that are down was sent. *)
Definition is_down (e : MeasurementEnvelope) : Prop := ∃ env name, e = instance_down env name.
Definition only_reports (r r' : reaper) : Prop := ∃ sfx, out r' = out r ++ sfx ∧ Forall is_down sfx.

#[export] Instance only_reports_preorder : PreOrder only_reports.
Proof.
  split.
  - intros r. exists []. by rewrite app_nil_r.
  - intros r1 r2 r3 (s1 & H1 & F1) (s2 & H2 & F2). exists (s1 ++ s2). rewrite H2, H1, app_assoc. split; [done|]. by apply Forall_app.
Qed.

Lemma same_out r r' : out r' = out r → only_reports r r'.
Proof. intros H. exists []. by rewrite app_nil_r. Qed.

(** Most steps send nothing and leave the definitions of the metrics alone. *)
Definition quiet (r r' : reaper) : Prop := out r' = out r ∧ defs r' = defs r.

#[export] Instance quiet_preorder : PreOrder quiet.
Proof. split; [by intros r|]. intros r1 r2 r3 [] []. split; congruence. Qed.

Lemma quiet_reports r r' : quiet r r' → only_reports r r'.
Proof. intros [H _]. by apply same_out. Qed.

Lemma foldl_quiet {A} (f : reaper → A → reaper) ls r : (∀ r a, quiet r (f r a)) → quiet r (foldl f r ls).
Proof. intros Hf. revert r. induction ls as [|a ls IH]; intros r; cbn [foldl]; [done|]. by etrans; [|apply IH]. Qed.

Lemma ShutdownWorker_quiet r name : quiet r (ShutdownWorker r name).
Proof. unfold ShutdownWorker, close_at. destruct (GetMonitoredDatabase _ _ _) as [l|]; [|done]. by destruct (objs _ !! l). Qed.

Lemma alloc_quiet r cs : quiet r (alloc r cs).1.
Proof.
  revert r. induction cs as [|c cs IH]; intros r; cbn [alloc]; [done|].
  match goal with |- context [alloc ?r1 cs] => specialize (IH r1); destruct (alloc r1 cs) end. exact IH.
Qed.

Lemma ref_FromPostgres_quiet renv r v s : quiet r (ref_FromPostgres renv r v s).1.1.
Proof.
  unfold ref_FromPostgres. destruct (resolveDatabasesFromPostgres renv s) as [dbs|].
  - pose proof (alloc_quiet r dbs) as H. by destruct (alloc r dbs).
  - by destruct (ref_databases v !! _) as [[|]|].
Qed.

Lemma ref_member_dbs_quiet renv s hc ms r v : quiet r (ref_member_dbs renv r v s hc ms).1.1.
Proof.
  revert r v. induction ms as [|m ms IH]; intros r v; cbn [ref_member_dbs]; [done|]. destruct (_ && _); [apply IH|].
  pose proof (ref_FromPostgres_quiet renv r v (member_source s hc m)) as H. destruct (ref_FromPostgres _ _ _ _) as [[r1 v1] res].
  specialize (IH r1 v1). destruct (ref_member_dbs _ _ _ _ _ _) as [[r2 v2] rest]. by etrans.
Qed.

Lemma ref_ResolveDatabase_quiet renv s r v : quiet r (ref_ResolveDatabase renv r v s).1.1.
Proof.
  unfold ref_ResolveDatabase. case_bool_decide; [|case_bool_decide].
  - unfold ref_FromPatroni. destruct (NewHostConfig _ _) as [hc|]; [|done].
    destruct (get_members _ _ _ _) as [[rv res]|]; [|done]. destruct (known_members rv s res) as [[rv1 members] err].
    match goal with |- context [ref_member_dbs ?a ?b ?c ?d ?e ?f] =>
      pose proof (ref_member_dbs_quiet a d e f b c) as Ho; by destruct (ref_member_dbs a b c d e f) as [[]] end.
  - pose proof (ref_FromPostgres_quiet renv r v s) as Ho. by destruct (ref_FromPostgres _ _ _ _) as [[r1 v1] []].
  - pose proof (alloc_quiet r [NewSourceConn s]) as Ho. by destruct (alloc r _).
Qed.

Lemma resolve_all_quiet renv srcs r v conns down err :
  quiet r (foldl (ref_resolve_one renv) (r, v, conns, down, err) srcs).1.1.1.1.
Proof.
  revert r v conns down err. induction srcs as [|s srcs IH]; intros r v conns down err; cbn [foldl]; [done|].
  unfold ref_resolve_one at 2. pose proof (ref_ResolveDatabase_quiet renv s r v) as H.
  destruct (ref_ResolveDatabase renv r v s) as [[r1 v1] [ls [e|]]]; (etrans; [exact H|apply IH]).
Qed.

Lemma merge_quiet r news : quiet r (merge_sources r news).1.
Proof.
  revert r. induction news as [|x news IH]; intros r; cbn [merge_sources]; [done|].
  destruct (objs r !! x) as [c|]; [|apply IH]. assert (quiet r (merge_one r x c).1) as H1.
  { unfold merge_one. destruct (GetMonitoredDatabase _ _ _) as [o|]; [|done]. destruct (objs r !! o); [|done].
    destruct (Source_Equal _ _); [done|]. apply ShutdownWorker_quiet. }
  destruct (merge_one r x c) as [r1 l1]. specialize (IH r1). destruct (merge_sources r1 news). by etrans.
Qed.

Lemma Cleanup_quiet env ctx_done r : quiet r (CleanupRemovedWorkers env ctx_done r).
Proof.
  unfold CleanupRemovedWorkers. etrans; [|apply foldl_quiet].
  - apply foldl_quiet. intros r1 n. unfold cleanup_worker. destruct (GetMonitoredDatabase _ _ _); [destruct ctx_done|];
      (apply ShutdownWorker_quiet || done).
  - intros r1 l. unfold cleanup_prev, close_at. destruct (obj_name r1 l); [|done].
    destruct (GetMonitoredDatabase _ _ _); [done|]. by destruct (objs r1 !! l).
Qed.

Lemma down_reports env down r : only_reports r (foldl (WriteInstanceDown env) r down).
Proof.
  revert r. induction down as [|n down IH]; intros r; cbn [foldl]; [done|]. transitivity (WriteInstanceDown env r n); [|apply IH].
  exists [instance_down env n]. split; [done|]. repeat constructor. by exists env, n.
Qed.

Lemma process_source_reports env r l r' : process_source env r l = Returns r' → only_reports r r' ∧ defs r' = defs r.
Proof.
  unfold process_source. destruct (objs r !! l) as [c|]; [|done]. destruct (connect env c) as [[c' err]| |]; [|done..].
  destruct err; [intros [= <-]; split; [exact (down_reports env [Name (GetSource c)] (update_obj r l c'))|done]|].
  enough (∀ r', _ = Returns r' → quiet r r') as H by (intros H1; pose proof (H _ H1) as H2; split; [by apply quiet_reports|apply H2]).
  clear r'. intros r'. assert (∀ r1 name, quiet r1 (StartWorker r1 name l)) as Hst.
  { intros r1 name. unfold StartWorker. by destruct (cancelFuncs r1 !! name). }
  destruct c' as [md|]; [|intros [= <-]; apply (Hst (update_obj r l _))].
  destruct (FetchRuntimeInfo _ _ _ _ md true) as [md2 [e|]]; [by intros [= <-]|].
  set (r2 := update_obj _ _ (ConnDb md2)). unfold FilterSource.
  destruct (_ && _); [intros [= <-]; apply (ShutdownWorker_quiet r2)|].
  destruct (_ && _); [intros [= <-]; apply (ShutdownWorker_quiet r2)|].
  destruct (CreateSourceHelpers env r2 md2); [|done..]. intros [= <-]. etrans; [|apply Hst].
  change (quiet (TrackRecoveryStatus r2 md2) (SyncMetricsToSinks env (TrackRecoveryStatus r2 md2) md2)).
  apply foldl_quiet. intros r1 n. by case_match.
Qed.

Lemma sweep_reports env ls r r' : sweep env r ls = Returns r' → only_reports r r'.
Proof.
  revert r. induction ls as [|l ls IH]; intros r Hs; simpl in Hs; [by injection Hs as <-|].
  destruct (process_source env r l) as [r1| |] eqn:E; [|done..]. transitivity r1; [by eapply (process_source_reports _ _ _ _ E)|by apply IH].
Qed.

Lemma LoadSources_reports renv env trig read r v :
  let r' := (ref_LoadSources renv env trig read r v).1.1 in only_reports r r' ∧ defs r' = defs r.
Proof.
  unfold ref_LoadSources. destruct trig; [split; [by apply same_out|done]|]. destruct read as [srcs|]; [|done]. unfold ref_ResolveDatabases.
  pose proof (resolve_all_quiet renv (filter (λ s, wanted_source env s = true) srcs) r v [] [] None) as H.
  destruct (foldl _ _ _) as [[[[r1 v1] news] down] err1]. pose proof (merge_quiet (foldl (WriteInstanceDown env) r1 down) news) as Hm.
  pose proof (down_reports env down r1) as Hd. rewrite writes_down in *. destruct (merge_sources _ news) as [r2 ls]. split.
  - transitivity r1; [by apply quiet_reports|]. etrans; [exact Hd|]. by apply (quiet_reports _ r2).
  - destruct H as [_ H], Hm as [_ Hm]. simpl in *. congruence.
Qed.

Lemma LoadMetrics_reports read r :
  let r' := (LoadMetrics read r).1 in only_reports r r' ∧ defs r' = match read with Ok d => d | Err _ => defs r end.
Proof.
  split; [apply same_out, LoadMetrics_out|]. unfold LoadMetrics. destruct read as [d|]; [|done]. cbn [fst].
  match goal with |- defs (foldl _ ?r1 _) = _ => apply (foldl_quiet apply_presets (monitoredSources r1) r1) end.
  intros r1 l. unfold apply_presets. by repeat case_match.
Qed.

Lemma round_reports lr r v r' v' :
  ref_round (lr_renv lr) (lr_env lr) (lr_triggerfile lr) (lr_sources lr) (lr_metrics lr) (lr_schedule lr) (lr_done lr) r v
    = Returns (r', v') → only_reports r r'.
Proof.
  unfold ref_round. pose proof (LoadSources_reports (lr_renv lr) (lr_env lr) (lr_triggerfile lr) (lr_sources lr) r v) as [H1 _].
  destruct (ref_LoadSources _ _ _ _ _ _) as [[r1 v1] err]. simpl in H1.
  destruct (sweep _ _ _) as [r2| |] eqn:Es; [|done..]. intros [= <- <-]. apply sweep_reports in Es.
  transitivity r1; [done|]. etrans; [apply (LoadMetrics_reports (lr_metrics lr))|].
  etrans; [exact Es|]. apply quiet_reports, Cleanup_quiet.
Qed.

Lemma rounds_reports rs r v r' v' : rounds rs r v = Returns (r', v') → only_reports r r'.
Proof.
  revert r v. induction rs as [|lr rs IH]; intros r v Hr; cbn [rounds] in Hr; [by injection Hr as <- <-|].
  destruct (ref_round _ _ _ _ _ _ _ _ _) as [[r1 v1]| |] eqn:E; [|done..]. apply round_reports in E.
  destruct (lr_done lr); [by injection Hr as <- <-|]. transitivity r1; [done|by eapply IH].
Qed.

(** What the main loop sends from its start are reports of sources that are down. *)
Lemma main_loop_sends rs p : MainLoop.Reap rs newReaper = Returns p → Forall is_down (out (p_reaper p)).
Proof.
  unfold MainLoop.Reap. destruct (rounds _ _ _) as [[r v]| |] eqn:E; [|done..]. intros [= <-].
  apply rounds_reports in E as (sfx & Ho & H). simpl in *. by rewrite Ho.
Qed.

Lemma is_down_json e : is_down e → json_rows (Data e) ∧ MetricName e = "instance_up".
Proof.
  intros (env & name & ->). split; [|done]. apply json_rows_cons; [|constructor]. apply json_row_insert; [done|].
  by apply map_Forall_singleton.
Qed.

(** ** The readers of server logs *)

(** Every envelope that was sent is a report of the counters of some time. *)
Definition is_counts (e : MeasurementEnvelope) : Prop := ∃ lp now, e = GetMeasurementEnvelope lp now.

Lemma is_counts_json e : is_counts e → json_rows (Data e) ∧ MetricName e = specialMetricServerLogEventCounts.
Proof.
  intros (lp & now & ->). split; [|done]. apply json_rows_cons; [|constructor].
  generalize (json_row_new now). generalize (NewMeasurement now) as m. generalize pgSeverities as ss.
  induction ss as [|s ss IH]; intros m Hm; cbn [foldl]; [done|]. apply IH. unfold severity_columns.
  by do 2 (apply json_row_insert; [done|]).
Qed.

Abbreviation reported lp := (Forall is_counts (StoreCh lp)).

Lemma send_reported lp clk d lp' : send_if_needed lp clk d = Some lp' → reported lp → reported lp'.
Proof.
  unfold send_if_needed. repeat case_match; intros; simplify_eq; [|done]. apply Forall_app. split; [done|].
  repeat constructor. by eexists _, _.
Qed.

Lemma remember_reported lp f n : StoreCh (remember_offset lp f n) = StoreCh lp.
Proof. unfold remember_offset. by case_match. Qed.

Lemma local_line_reported lp line lp' : local_line lp line = Some (inl lp') → StoreCh lp' = StoreCh lp.
Proof.
  unfold local_line. destruct (FindStringSubmatch _ _) as [ms|]; [|by intros [= <-]].
  destruct (regexMatchesToMap lp ms) as [m|]; [|done]. cbn [mbind option_bind].
  destruct (m !! _); [|done]. destruct (m !! _); [|done]. by intros [= <-].
Qed.

Lemma remote_line_reported lp line lp' : remote_line lp line = Some lp' → StoreCh lp' = StoreCh lp.
Proof.
  unfold remote_line. destruct (FindStringSubmatch _ _) as [ms|]; [|by intros [= <-]].
  destruct (regexMatchesToMap lp ms) as [m|]; [|done]. cbn [mbind option_bind]. by intros [= <-].
Qed.

Lemma local_send_reported o st : reported (ls_lp st) → reported (ls_lp (local_send o st)).
Proof. unfold local_send. destruct (send_if_needed _ _ _) eqn:E; [by eapply send_reported|done]. Qed.

Lemma remote_send_reported o st : reported (rs_lp st) → reported (rs_lp (remote_send o st)).
Proof. unfold remote_send. destruct (send_if_needed _ _ _) eqn:E; [by eapply send_reported|done]. Qed.

Lemma local_step_reported o st st' : local_step o st = Some st' → reported (ls_lp st) → reported (ls_lp st').
Proof.
  unfold local_step. intros Hs Hr. destruct (ls_phase st); [injection Hs as <-; by rewrite local_outer_lp| |by injection Hs as <-].
  unfold local_inner in Hs. destruct (ReadString _ _ _) as [[line|partial|] pos]; [..|by injection Hs as <-].
  - destruct (local_line _ line) as [[lp|]|] eqn:El; [| |done]; injection Hs as <-; [|done].
    apply local_send_reported. cbn. by rewrite (local_line_reported _ _ _ El).
  - destruct (os_done o); [by injection Hs as <-|]. case_bool_decide; injection Hs as <-; [|by apply local_send_reported].
    cbn. by rewrite remember_reported.
Qed.

Lemma remote_check_reported o st :
  match remote_check o st with inl st' | inr st' => StoreCh (rs_lp st') = StoreCh (rs_lp st) end.
Proof.
  unfold remote_check. destruct (sl_state o (latestLogFile st)) as [[sz m]|e]; cbn;
    (destruct (_ || _); [destruct (sl_next o _) as [[f sz']|]; [case_bool_decide|]|]; cbn; try done; apply remember_reported).
Qed.

Lemma remote_rest_reported o st st' : remote_rest o st = Some st' → reported (rs_lp st) → reported (rs_lp st').
Proof.
  unfold remote_rest. destruct (_ <? _)%Z; [|intros [= <-]; apply remote_send_reported].
  destruct (if (_ <? 0)%Z then None else _) as [line|]; [|done]. cbn [mbind option_bind].
  destruct (remote_line (rs_lp st) line) as [lp|] eqn:El; [|done]. intros [= <-] Hr. apply remote_send_reported. cbn.
  by rewrite (remote_line_reported _ _ _ El).
Qed.

Lemma remote_step_reported o st st' : remote_step o st = Some st' → reported (rs_lp st) → reported (rs_lp st').
Proof.
  unfold remote_step. intros Hs Hr. destruct (rs_phase st); [injection Hs as <-; by rewrite remote_outer_lp| |by injection Hs as <-].
  unfold remote_inner in Hs. destruct (_ =? _)%Z; [|by eapply remote_rest_reported]. destruct (sl_done o); [by injection Hs as <-|].
  pose proof (remote_check_reported o st) as Hc. destruct (remote_check o st) as [st1|st1].
  - eapply remote_rest_reported; [exact Hs|]. by rewrite Hc.
  - injection Hs as <-. cbn. by rewrite Hc.
Qed.

Lemma local_run_reported env n st st' : local_run env n st = Some st' → reported (ls_lp st) → reported (ls_lp st').
Proof.
  revert st'. induction n as [|n IH]; intros st' Hr H0; cbn [local_run] in Hr; [by injection Hr as <-|].
  destruct (local_run env n st) as [st1|]; [|done]. eapply local_step_reported; [exact Hr|by apply IH].
Qed.

Lemma remote_run_reported env n st st' : remote_run env n st = Some st' → reported (rs_lp st) → reported (rs_lp st').
Proof.
  revert st'. induction n as [|n IH]; intros st' Hr H0; cbn [remote_run] in Hr; [by injection Hr as <-|].
  destruct (remote_run env n st) as [st1|]; [|done]. eapply remote_step_reported; [exact Hr|by apply IH].
Qed.

Lemma NewLogParser_empty answer mdb lp : NewLogParser answer mdb = Returns (Ok lp) → StoreCh lp = [].
Proof. unfold NewLogParser. repeat case_match; intros; simplify_eq; done. Qed.

(** ** The worker of an exporter *)

Lemma label_columns_json m : json_row (label_columns m).
Proof.
  unfold label_columns. assert (json_row ∅) as H0 by apply map_Forall_empty. revert H0. generalize (∅ : Measurement).
  induction (Label m) as [|lp ls IH]; intros row Hr; cbn [foldl]; [done|]. apply IH. case_bool_decide; [|done].
  by apply json_row_insert.
Qed.

Definition finite_family (mf : MetricFamily) : Prop :=
  Forall (λ m, json_value (VFloat64 (promMetricValue m (mf_Type mf)))) (mf_Metric mf).

(** The decoder finds no family without a name, and only finite samples in those of name [n]. *)
Definition decoded (n : string) (decode : string → string → list MetricFamily * option error) : Prop :=
  ∀ ct body, Forall (λ mf, mf_Name mf ≠ "" ∧ (mf_Name mf = n → finite_family mf)) (decode ct body).1.

Lemma family_json kind clk i mf : finite_family mf → json_rows (Data (family_envelope kind clk i mf)).
Proof.
  intros Hf. apply Forall_lookup. intros j row Hj. cbn [family_envelope Data] in Hj. rewrite list_lookup_imap in Hj.
  destruct (mf_Metric mf !! j) as [m|] eqn:Em; [|done]. injection Hj as <-. unfold sample_row.
  apply json_row_insert; [done|]. apply json_row_insert; [|apply label_columns_json]. by eapply Forall_lookup_1 in Hf.
Qed.

Section exporter.
Context (n : string) (decode : string → string → list MetricFamily * option error) (Hd : decoded n decode).

Lemma ScrapeAll_storable io clk pc es : ScrapeAll io decode clk pc = Ok es → storable n es.
Proof using Hd.
  unfold ScrapeAll. destruct (Scrape io pc) as [resp|]; [|done]. destruct (_ <=? _)%Z; [done|].
  specialize (Hd (ContentType resp) (Body resp)). destruct (decode _ _) as [mfs [e|]]; [done|]. intros [= <-].
  apply Forall_lookup. intros i e He. rewrite list_lookup_imap in He. destruct (mfs !! i) as [mf|] eqn:Em; [|done].
  injection He as <-. eapply Forall_lookup_1 in Hd as [Hne Hfin]; [|exact Em]. split; [done|]. intros Hn. by apply family_json, Hfin.
Qed.

Lemma emit_storable pc sa now le es : storable n es → storable n (emit_loop pc sa now le es).2.
Proof using Type.
  intros H. revert le. induction H as [|e es He Hes IH]; intros le; cbn [emit_loop]; [constructor|].
  destruct (held_back _ _ _ _ _); [apply IH|]. specialize (IH (<[MetricName e := now]> le)).
  destruct (emit_loop _ _ _ _ _) as [le' o]. by constructor.
Qed.

Lemma turns_storable sa le ts : storable n (concat (prom_turns decode sa le ts)).
Proof using Hd.
  revert le. induction ts as [|t ts IH]; intros le; cbn [prom_turns]; [constructor|]. unfold prom_turn.
  destruct (ScrapeAll _ _ _ _) as [es|] eqn:E; [|apply IH].
  pose proof (emit_storable (tn_conn t) sa (tn_now t) le es (ScrapeAll_storable _ _ _ _ E)) as H.
  destruct (emit_loop _ _ _ _ _) as [le' o]. apply Forall_app. split; [exact H|apply IH].
Qed.
End exporter.

(** ** All goroutines *)

(** What a goroutine finds in its life. *)
Inductive goroutine :=
  | MainLoop (rs : list loop_round)
  | DbWorker (sr : DbConnReaper) (rounds : list round)
  | LocalLog (answer : result LogConfig) (mdb : DbConn) (env : nat → os) (turns : nat)
  | RemoteLog (answer : result LogConfig) (mdb : DbConn) (env : nat → server_log) (turns : nat)
  | ExporterWorker (decode : string → string → list MetricFamily * option error) (pc : PromConn) (ts : list turn).

(** The envelopes it puts on the channel, as long as it does not panic.  The worker of a database starts
    with an empty history. *)
Definition sends (g : goroutine) : option (list Envelope) :=
  match g with
  | MainLoop rs => match MainLoop.Reap rs newReaper with Returns p => Some (out (p_reaper p)) | _ => None end
  | DbWorker sr rounds => measurementCh <$> Worker.Reap sr rounds
  | LocalLog answer mdb env turns =>
      match NewLogParser answer mdb with
      | Returns (Ok lp) => StoreCh ∘ ls_lp <$> local_run env turns (parseLogsLocal_start lp)
      | Returns (Err _) => Some []
      | _ => None
      end
  | RemoteLog answer mdb env turns =>
      match NewLogParser answer mdb with
      | Returns (Ok lp) => StoreCh ∘ rs_lp <$> remote_run env turns (parseLogsRemote_start lp)
      | Returns (Err _) => Some []
      | _ => None
      end
  | ExporterWorker decode pc ts => Some (concat (PromReaper_Reap decode pc ts))
  end.

(** What the surroundings deliver to it, as far as metric [n] is concerned: a worker starts with nothing
    sent, in the surroundings of [round_ok]; an exporter is decoded to named families, and to finite
    samples in those of name [n].  Of the others nothing is asked. *)
Definition surrounded (n : string) (g : goroutine) : Prop :=
  match g with
  | DbWorker sr rounds => measurementCh sr = [] ∧ along round_ok sr rounds
  | ExporterWorker decode _ _ => decoded n decode
  | _ => True
  end.

Lemma all_storable (P : MeasurementEnvelope → Prop) name n es :
  (∀ e, P e → json_rows (Data e) ∧ MetricName e = name) → name ≠ "" → Forall P es → storable n es.
Proof. intros HP Hne H. eapply Forall_impl; [exact H|]. intros e [? ->]%HP. done. Qed.

Lemma sends_storable n g es : surrounded n g → sends g = Some es → storable n es.
Proof.
  destruct g as [rs|sr rounds|answer mdb env turns|answer mdb env turns|decode pc ts]; cbn [sends surrounded]; intros Hs He.
  - destruct (MainLoop.Reap rs newReaper) as [p| |] eqn:E; [|done..]. injection He as <-.
    by eapply all_storable; [exact is_down_json| |eapply main_loop_sends].
  - destruct (Worker.Reap sr rounds) as [sr'|] eqn:E; [|done]. injection He as <-. apply json_storable.
    apply (lived_json (sr, rounds)). destruct Hs. split_and!; [done..|]. by exists sr'.
  - destruct (NewLogParser answer mdb) as [[lp|]| |] eqn:El; [|by injection He as <-; constructor|done..].
    destruct (local_run _ _ _) as [st|] eqn:E; [|done]. injection He as <-.
    eapply all_storable; [exact is_counts_json|done|]. eapply local_run_reported; [exact E|].
    cbn. rewrite (NewLogParser_empty _ _ _ El). constructor.
  - destruct (NewLogParser answer mdb) as [[lp|]| |] eqn:El; [|by injection He as <-; constructor|done..].
    destruct (remote_run _ _ _) as [st|] eqn:E; [|done]. injection He as <-.
    eapply all_storable; [exact is_counts_json|done|]. eapply remote_run_reported; [exact E|].
    cbn. rewrite (NewLogParser_empty _ _ _ El). constructor.
  - injection He as <-. by apply turns_storable.
Qed.
