(* ===== verification/System.v ===== *)
(** * The reaper as a whole ([internal/reaper])

    The main loop and the workers run at the same time and share objects: the connections, which the main
    loop opens, closes and gives new intervals while workers read and refresh them; the definitions of the
    metrics, which the main loop replaces; and the cache of instance-level measurements.  Here they are one
    system, in which a step is a part of a round of the main loop or a round of one worker, and the steps
    interleave in every way.

    A round of a worker is one step: it works with the connection as it is when the round begins.  The parts
    of the main loop are the reload of the sources, that of the definitions, the processing of one source
    (in any order, since the sources of a sweep are processed concurrently), and the clean-up.

    The theorems are the agreement between the main loop and the running workers in every reachable state,
    the cadence of a configured metric in such a system, and the way of everything that is sent to the tables
    of a PostgreSQL sink. *)

From S2P Require Import Prelude GoStrings Metrics Sources Changes Conn PromConn Sinks CopySource PgSink PgPoll.
From S2P Require Import InstanceCache Scheduler RowTypes Pipeline Reaper Resolver Discovery MainLoop.
From S2P Require Import Regexp LogParser LogLocal LogRemote Worker Flow EndToEnd PromReaper Producers.
From stdpp Require Import options.

Local Open Scope nat_scope.

(** ** State *)

(** Running; asked to stop, which it does after the round it may be in; gone. *)
Inductive worker_status := Running | Cancelled | Ended.

(** What a worker keeps for itself; the one of an exporter with what it has sent. *)
Inductive activity :=
  | Reaping (sr : DbConnReaper)
  | Scraping (scrapeAll : bool) (lastEmitted : gmap string Z) (sent : list Envelope).

Record worker := WorkerOf { wk_name : string; wk_ref : nat; wk_status : worker_status; wk_activity : activity }.

#[export] Instance worker_status_eq_dec : EqDecision worker_status.
Proof. solve_decision. Defined.

(** Where the main loop is in its round. *)
Inductive loop_phase :=
  | AtHead
  | Loaded (lr : loop_round)
  | Sweeping (lr : loop_round) (todo : list nat)
  | Over.

Record system := System {
  sy_main : reaper;
  sy_resolver : ref_resolver;
  sy_cache : InstanceMetricCache;
  sy_phase : loop_phase;
  sy_workers : list worker;
}.

Definition sys_start : system :=
  System (p_reaper newReaper) (p_resolver newReaper) (p_cache newReaper) AtHead [].

(** ** Steps *)

(** What happens next.  The surroundings of a worker's round are chosen freely but for what it shares. *)
Inductive sys_label :=
  | ReloadSources (lr : loop_round)
  | ReloadMetrics
  | Process (k : nat)
  | CleanUp
  | WorkerRound (i : nat) (rd : round)
  | ExporterTurn (i : nat) (t : turn)
  | WorkerEnds (i : nat).

(** A worker whose entry is gone was cancelled.  No step removes an entry and sets it again. *)
Definition settle_one (r : reaper) (w : worker) : worker :=
  match wk_status w with
  | Running =>
      if bool_decide (cancelFuncs r !! wk_name w = Some (wk_ref w)) then w
      else WorkerOf (wk_name w) (wk_ref w) Cancelled (wk_activity w)
  | _ => w
  end.
Definition settle (r : reaper) (ws : list worker) : list worker := settle_one r <$> ws.

(** The goroutine that [StartWorker] starts on a connection. *)
Definition first_activity (cache : InstanceMetricCache) (c : source_conn) : activity :=
  match c with
  | ConnDb md => Reaping (NewDbConnReaper cache md)
  | ConnProm pc => Scraping (bool_decide (default ∅ (SrcMetrics (pc_Source pc)) = ∅)) ∅ []
  end.
Definition new_workers (cache : InstanceMetricCache) (r r' : reaper) (l : nat) : list worker :=
  match objs r' !! l with
  | None => []
  | Some c =>
      let name := Name (GetSource c) in
      match cancelFuncs r !! name, cancelFuncs r' !! name with
      | None, Some l' => [WorkerOf name l' Running (first_activity cache c)]
      | _, _ => []
      end
  end.

(** The shared parts of a round: the connection, the cache, the definitions. *)
Definition with_metricDefs (d : gmap string Metric) (env : surroundings) : surroundings := {|
  metricDefs := d; cacheAge := cacheAge env; RealDbnameField := RealDbnameField env;
  SystemIdentifierField := SystemIdentifierField env; parse_config := parse_config env; query_simple := query_simple env;
  query_batch := query_batch env; change_query := change_query env; settings_query := settings_query env;
  ping_error := ping_error env; same_host := same_host env; os_stats := os_stats env; fmt_float := fmt_float env;
  now := now env; clock := clock env; batch_end := batch_end env; map_order := map_order env |}.
Definition meets (s : system) (md : DbConn) (rd : round) : round := {|
  rd_main := λ _, md; rd_cache := λ _, sy_cache s; rd_server := rd_server rd; rd_ctx := rd_ctx rd;
  rd_asked := rd_asked rd; rd_answered := rd_answered rd;
  rd_env := with_metricDefs (MetricDefs (defs (sy_main s))) (rd_env rd); rd_end := rd_end rd |}.
Definition turn_with (pc : PromConn) (t : turn) : turn := {|
  tn_conn := pc; tn_net := tn_net t; tn_clock := tn_clock t; tn_now := tn_now t |}.

(** A cancelled worker ends with the round it was in. *)
Definition after_round (st : worker_status) : worker_status := match st with Running => Running | _ => Ended end.

Section steps.
Context (decode : string → string → list MetricFamily * option error).

(** The main loop. *)
Definition main_step (lab : sys_label) (s : system) : option system :=
  let r := sy_main s in
  let v := sy_resolver s in
  let ws := sy_workers s in
  match lab, sy_phase s with
  | ReloadSources lr, AtHead =>
      let '(r', v', _) := ref_LoadSources (lr_renv lr) (lr_env lr) (lr_triggerfile lr) (lr_sources lr) r v in
      Some (System r' v' (sy_cache s) (Loaded lr) (settle r' ws))
  | ReloadMetrics, Loaded lr =>
      let r' := (LoadMetrics (lr_metrics lr) r).1 in
      Some (System r' v (sy_cache s) (Sweeping lr (monitoredSources r')) ws)
  | Process k, Sweeping lr todo =>
      l ← todo !! k;
      match process_source (lr_env lr) r l with
      | Returns r' =>
          Some (System r' v (sy_cache s) (Sweeping lr (delete k todo)) (settle r' ws ++ new_workers (sy_cache s) r r' l))
      | _ => None
      end
  | CleanUp, Sweeping lr [] =>
      let r' := CleanupRemovedWorkers (lr_env lr) (lr_done lr) r in
      Some (System r' v (sy_cache s) (if lr_done lr then Over else AtHead) (settle r' ws))
  | _, _ => None
  end.

(** A worker: its new activity, its connection and the shared cache after the step, and the label with what
    the round found in place of its shared parts. *)
Definition worker_turn (lab : sys_label) (s : system) (a : activity) (c : source_conn)
    : option (sys_label * activity * source_conn * InstanceMetricCache) :=
  match lab, a, c with
  | WorkerRound i rd, Reaping sr, ConnDb md =>
      let rd := meets s md rd in
      sr' ← reap_round rd sr;
      Some (WorkerRound i rd, Reaping sr', ConnDb (sr_md sr'), measurementCache sr')
  | ExporterTurn i t, Scraping sa le sent, ConnProm pc =>
      let t := turn_with pc t in
      let '(le', es) := prom_turn decode sa le t in
      Some (ExporterTurn i t, Scraping sa le' (sent ++ es), c, sy_cache s)
  | _, _, _ => None
  end.

Definition worker_step (lab : sys_label) (i : nat) (s : system) : option (sys_label * system) :=
  w ← sy_workers s !! i;
  if bool_decide (wk_status w = Ended) then None
  else
    c ← objs (sy_main s) !! wk_ref w;
    '(lab', a, c', cache) ← worker_turn lab s (wk_activity w) c;
    Some (lab', System (update_obj (sy_main s) (wk_ref w) c') (sy_resolver s) cache (sy_phase s)
                  (<[i := WorkerOf (wk_name w) (wk_ref w) (after_round (wk_status w)) a]> (sy_workers s))).

(** A cancelled worker that waits ends. *)
Definition worker_end (i : nat) (s : system) : option system :=
  w ← sy_workers s !! i;
  if bool_decide (wk_status w = Cancelled) then
    Some (System (sy_main s) (sy_resolver s) (sy_cache s) (sy_phase s)
            (<[i := WorkerOf (wk_name w) (wk_ref w) Ended (wk_activity w)]> (sy_workers s)))
  else None.

(** A step.  [None]: it is not possible, or it is a panic. *)
Definition sys_step (lab : sys_label) (s : system) : option (sys_label * system) :=
  match lab with
  | WorkerRound i _ | ExporterTurn i _ => worker_step lab i s
  | WorkerEnds i => (λ s', (lab, s')) <$> worker_end i s
  | _ => (λ s', (lab, s')) <$> main_step lab s
  end.

(** Runs in which every step satisfies [P] where it is taken. *)
Inductive sys_run (P : sys_label → system → Prop) (s0 : system) : list sys_label → system → Prop :=
  | run_start : sys_run P s0 [] s0
  | run_step tr s lab lab' s' :
      sys_run P s0 tr s → P lab s → sys_step lab s = Some (lab', s') → sys_run P s0 (tr ++ [lab']) s'.

(** The same as a function, for examples. *)
Fixpoint sys_exec (labs : list sys_label) (s : system) : option (list sys_label * system) :=
  match labs with
  | [] => Some ([], s)
  | lab :: labs =>
      '(lab', s') ← sys_step lab s;
      '(tr, s'') ← sys_exec labs s';
      Some (lab' :: tr, s'')
  end.
End steps.

(** What one worker did in a run. *)
Definition rounds_of (i : nat) (tr : list sys_label) : list round :=
  omap (λ lab, match lab with WorkerRound j rd => if bool_decide (i = j) then Some rd else None | _ => None end) tr.
Definition turns_of (i : nat) (tr : list sys_label) : list turn :=
  omap (λ lab, match lab with ExporterTurn j t => if bool_decide (i = j) then Some t else None | _ => None end) tr.

(** The envelopes of a worker, and of the whole reaper: the main loop first. *)
Definition worker_sent (w : worker) : list Envelope :=
  match wk_activity w with Reaping sr => measurementCh sr | Scraping _ _ sent => sent end.
Definition system_sent (s : system) : list (list Envelope) := out (sy_main s) :: (worker_sent <$> sy_workers s).

(** ** The parts of the main loop *)

(** Which workers the processing of a source leaves. *)
Lemma process_cancel env r l r' c :
  process_source env r l = Returns r' → objs r !! l = Some c →
  cancelFuncs r' ⊆ cancelFuncs r ∨
  cancelFuncs r !! Name (GetSource c) = None ∧ cancelFuncs r' = <[Name (GetSource c) := l]> (cancelFuncs r).
Proof.
  unfold process_source. intros Hp Hc. rewrite Hc in Hp.
  assert (∀ r1, cancelFuncs r1 = cancelFuncs r →
    let r2 := StartWorker r1 (Name (GetSource c)) l in cancelFuncs r2 ⊆ cancelFuncs r ∨
      cancelFuncs r !! Name (GetSource c) = None ∧ cancelFuncs r2 = <[Name (GetSource c) := l]> (cancelFuncs r)) as Hstart.
  { intros r1 H1 r2. unfold r2, StartWorker. rewrite H1. destruct (cancelFuncs r !! _) eqn:E; [left; by rewrite H1|].
    right. split; [done|]. simpl. congruence. }
  destruct (connect env c) as [[c' err]| |]; [|done..]. destruct err; [injection Hp as <-; by left|].
  destruct c' as [md|]; [|injection Hp as <-; by apply Hstart].
  destruct (FetchRuntimeInfo _ _ _ _ md true) as [md2 [e|]]; [injection Hp as <-; by left|].
  set (r2 := update_obj _ _ (ConnDb md2)) in *. unfold FilterSource in Hp.
  assert (cancelFuncs (ShutdownWorker r2 (Name (md_Source md2))) ⊆ cancelFuncs r) as Hsh.
  { destruct (ShutdownWorker_lists r2 (Name (md_Source md2))) as [_ ->]. apply delete_subseteq. }
  destruct (_ && _); [injection Hp as <-; by left|]. destruct (_ && _); [injection Hp as <-; by left|].
  destruct (CreateSourceHelpers env r2 md2); [|done..]. injection Hp as <-. apply Hstart.
  by destruct (SyncMetricsToSinks_lists env (TrackRecoveryStatus r2 md2) md2) as [_ ->].
Qed.

Lemma merge_cancel news r : cancelFuncs (merge_sources r news).1 ⊆ cancelFuncs r.
Proof.
  revert r. induction news as [|l news IH]; intros r; cbn [merge_sources]; [done|]. destruct (objs r !! l) as [c|]; [|apply IH].
  assert (cancelFuncs (merge_one r l c).1 ⊆ cancelFuncs r) as H1.
  { unfold merge_one. destruct (GetMonitoredDatabase _ _ _) as [o|]; [|done]. destruct (objs r !! o); [|done].
    destruct (Source_Equal _ _); [done|]. cbn [fst].
    match goal with |- cancelFuncs (ShutdownWorker _ ?n) ⊆ _ => destruct (ShutdownWorker_lists r n) as [_ ->] end. apply delete_subseteq. }
  destruct (merge_one r l c) as [r1 l1]. specialize (IH r1). destruct (merge_sources r1 news). by etrans.
Qed.

Lemma LoadSources_cancel renv env trig read r v :
  fresh_objs r → cancelFuncs (ref_LoadSources renv env trig read r v).1.1 ⊆ cancelFuncs r.
Proof.
  intros Hf. unfold ref_LoadSources. destruct trig; [done|]. destruct read as [srcs|]; [|done]. unfold ref_ResolveDatabases.
  pose proof (ref_resolves_framed renv (filter (λ s, wanted_source env s = true) srcs) r v [] [] None Hf) as H.
  destruct (foldl _ _ _) as [[[[r1 v1] news] down] err1]. destruct H as [(_ & _ & _ & Hc & _) _]. rewrite writes_down.
  pose proof (merge_cancel news (add_out r1 (instance_down env <$> down))) as Hm. destruct (merge_sources _ news) as [r2 ls].
  simpl in *. by rewrite <-Hc.
Qed.

Lemma LoadSources_kept P renv env trig read r v :
  durable P → fresh_objs r → kept P r (ref_LoadSources renv env trig read r v).1.1.
Proof.
  intros HP Hf. unfold ref_LoadSources. destruct trig; [by apply kept_objs|]. destruct read as [srcs|]; [|by apply kept_objs].
  unfold ref_ResolveDatabases.
  pose proof (ref_resolves_framed renv (filter (λ s, wanted_source env s = true) srcs) r v [] [] None Hf) as H.
  destruct (foldl _ _ _) as [[[[r1 v1] news] down] err1]. destruct H as [(Hsub & _) _]. rewrite writes_down.
  pose proof (kept_merge P HP (add_out r1 (instance_down env <$> down)) news) as Hm. destruct (merge_sources _ news) as [r2 ls].
  eapply kept_preorder; [by apply kept_sub|]. eapply kept_preorder; [exact Hm|]. by apply kept_objs.
Qed.

(** ** The invariant *)

(** The kind of a connection never changes. *)
Definition is_db (c : source_conn) : bool := match c with ConnDb _ => true | ConnProm _ => false end.
Definition fits (w : worker) (c : source_conn) : Prop :=
  is_db c = match wk_activity w with Reaping _ => true | Scraping _ _ _ => false end.

Lemma stable_is_db b : stable (λ c, is_db c = b).
Proof.
  split; [split|].
  - by intros [md|pc].
  - intros env [md|pc] c' err <-; simpl.
    + destruct (DbConn_Connect _ _ _ _ md) as [[]| |]; [|done..]. by intros [= <- _].
    + destruct (PromConn_Connect _ pc). by intros [= <- _].
  - done.
  - by intros d [md|pc].
Qed.

(** What the main loop is entitled to in each phase. *)
Definition main_inv (s : system) : Prop :=
  let r := sy_main s in
  let v := sy_resolver s in
  match sy_phase s with
  | AtHead => loop_inv r v
  | Loaded _ => round_inv r ∧ cache_exists r v
  | Sweeping _ todo => round_inv r ∧ cache_exists r v ∧ ∀ l, l ∈ todo → l ∈ monitoredSources r
  | Over => loop_inv r v ∧ cancelFuncs r = ∅
  end.

Record workers_inv (r : reaper) (ws : list worker) : Prop := {
  wi_entry : ∀ i w, ws !! i = Some w → wk_status w = Running → cancelFuncs r !! wk_name w = Some (wk_ref w);
  wi_unique : ∀ i j w w', ws !! i = Some w → ws !! j = Some w' → wk_status w = Running → wk_status w' = Running →
    wk_name w = wk_name w' → i = j;
  wi_running : ∀ name l, cancelFuncs r !! name = Some l →
    ∃ i w, ws !! i = Some w ∧ wk_status w = Running ∧ wk_name w = name ∧ wk_ref w = l;
  wi_fits : ∀ i w, ws !! i = Some w → ∃ c, objs r !! wk_ref w = Some c ∧ fits w c;
}.

Definition sys_inv (s : system) : Prop := main_inv s ∧ workers_inv (sy_main s) (sy_workers s).

Lemma settle_lookup r ws i w : settle r ws !! i = Some w ↔ ∃ w0, ws !! i = Some w0 ∧ w = settle_one r w0.
Proof. unfold settle. rewrite list_lookup_fmap, fmap_Some. done. Qed.

Lemma settle_one_fields r w :
  wk_name (settle_one r w) = wk_name w ∧ wk_ref (settle_one r w) = wk_ref w ∧ wk_activity (settle_one r w) = wk_activity w ∧
  (wk_status (settle_one r w) = Running ↔ wk_status w = Running ∧ cancelFuncs r !! wk_name w = Some (wk_ref w)).
Proof. unfold settle_one. destruct (wk_status w) eqn:E; [case_bool_decide|..]; simpl; rewrite ?E; naive_solver. Qed.

(** A step that only stops workers. *)
Lemma workers_settle r r' ws :
  workers_inv r ws → cancelFuncs r' ⊆ cancelFuncs r → (∀ b, kept (λ c, is_db c = b) r r') → workers_inv r' (settle r' ws).
Proof.
  intros [H1 H2 H3 H4] Hsub Hk. split.
  - intros i w (w0 & Hi & ->)%settle_lookup. destruct (settle_one_fields r' w0) as (-> & -> & _ & ->). naive_solver.
  - intros i j w w' (w0 & Hi & ->)%settle_lookup (w0' & Hj & ->)%settle_lookup.
    destruct (settle_one_fields r' w0) as (-> & _ & _ & ->), (settle_one_fields r' w0') as (-> & _ & _ & ->). naive_solver.
  - intros name l Hl. destruct (H3 name l) as (i & w & Hi & Hs & Hn & Hr); [by eapply lookup_weaken|].
    exists i, (settle_one r' w). destruct (settle_one_fields r' w) as (-> & -> & _ & ->). split; [by apply settle_lookup; eauto|].
    naive_solver.
  - intros i w (w0 & Hi & ->)%settle_lookup. destruct (settle_one_fields r' w0) as (_ & -> & Ha & _).
    destruct (H4 i w0 Hi) as (c & Hc & Hf). unfold fits in *. rewrite Ha. by apply (Hk _ _ _ Hc).
Qed.

(** A worker that starts. *)
Lemma workers_add r r' ws w :
  workers_inv r ws → cancelFuncs r !! wk_name w = None → wk_status w = Running →
  cancelFuncs r' = <[wk_name w := wk_ref w]> (cancelFuncs r) → (∀ b, kept (λ c, is_db c = b) r r') →
  (∃ c, objs r' !! wk_ref w = Some c ∧ fits w c) → workers_inv r' (settle r' ws ++ [w]).
Proof.
  intros [H1 H2 H3 H4] Hno Hst Hcf Hk Hw.
  assert (settle r' ws = ws) as ->.
  { unfold settle. etrans; [|apply list_fmap_id]. apply list_fmap_ext. intros i w0 Hi. unfold settle_one. simpl.
    destruct (wk_status w0) eqn:E; [|done..]. rewrite bool_decide_true; [done|]. pose proof (H1 i w0 Hi E) as He.
    rewrite Hcf, lookup_insert_ne; [done|]. intros Heq. by rewrite <-Heq, Hno in He. }
  assert (∀ i w', (ws ++ [w]) !! i = Some w' → ws !! i = Some w' ∨ i = length ws ∧ w' = w) as Happ.
  { intros i w' [?|[Hle Hi]]%lookup_app_Some; [by left|]. right. destruct (i - length ws) eqn:E; simpl in Hi; [|done].
    simplify_eq. split; [lia|done]. }
  split.
  - intros i w' [Hi|[-> ->]]%Happ Hr; rewrite Hcf; [|apply lookup_insert_eq]. pose proof (H1 i w' Hi Hr) as He.
    rewrite lookup_insert_ne; [done|]. intros Heq. by rewrite <-Heq, Hno in He.
  - intros i j w1 w2 [Hi|[-> ->]]%Happ [Hj|[-> ->]]%Happ Hr1 Hr2 Hn; [by eapply H2| | |done]; exfalso.
    + pose proof (H1 i w1 Hi Hr1) as He. by rewrite Hn, Hno in He.
    + pose proof (H1 j w2 Hj Hr2) as He. by rewrite <-Hn, Hno in He.
  - intros name l. rewrite Hcf. intros [[<- <-]|[Hne Hl]]%lookup_insert_Some.
    + exists (length ws), w. split_and!; [|done..]. by apply list_lookup_middle.
    + destruct (H3 name l Hl) as (i & w' & Hi & ?). exists i, w'. split; [|done]. by apply lookup_app_l_Some.
  - intros i w' [Hi|[-> ->]]%Happ; [|done]. destruct (H4 i w' Hi) as (c & Hc & Hf). by apply (Hk _ _ _ Hc).
Qed.

(** A worker that goes on, and leaves the names and kinds of the connections. *)
Lemma workers_update r r' ws i w w' :
  workers_inv r ws → ws !! i = Some w → cancelFuncs r' = cancelFuncs r → (∀ b, kept (λ c, is_db c = b) r r') →
  wk_name w' = wk_name w → wk_ref w' = wk_ref w → (wk_status w' = Running ↔ wk_status w = Running) →
  (∀ c, fits w c → fits w' c) → workers_inv r' (<[i := w']> ws).
Proof.
  intros [H1 H2 H3 H4] Hi Hcf Hk Hn Hr Hs Hf. pose proof (lookup_lt_Some _ _ _ Hi) as Hlen.
  assert (∀ j w0, <[i := w']> ws !! j = Some w0 → ∃ w1, ws !! j = Some w1 ∧ wk_name w0 = wk_name w1 ∧ wk_ref w0 = wk_ref w1 ∧
    (wk_status w0 = Running ↔ wk_status w1 = Running) ∧ ∀ c, fits w1 c → fits w0 c) as Hold.
  { intros j w0 [(<- & <- & _)|[Hne Hj]]%list_lookup_insert_Some; [by exists w|]. by exists w0. }
  split.
  - intros j w0 (w1 & Hj & -> & -> & -> & _)%Hold. rewrite Hcf. eapply H1; done.
  - intros j k w0 w0' (w1 & Hj & -> & _ & -> & _)%Hold (w1' & Hj' & -> & _ & -> & _)%Hold. by eapply H2.
  - intros name l. rewrite Hcf. intros (j & w0 & Hj & Hst & Hname & Href)%H3. destruct (decide (j = i)) as [->|Hne].
    + exists i, w'. rewrite list_lookup_insert_eq by done. simplify_eq. split_and!; [done|by apply Hs|congruence..].
    + exists j, w0. by rewrite list_lookup_insert_ne.
  - intros j w0 (w1 & Hj & _ & -> & _ & Hfit)%Hold. destruct (H4 j w1 Hj) as (c & Hc & Hc').
    destruct (Hk _ _ _ Hc Hc') as (c' & ? & ?). exists c'. split; [done|]. apply Hfit. done.
Qed.

(** ** Every step keeps the invariant *)

(** The condition on a reload: the resolver returns distinct names. *)
Definition resolves (lab : sys_label) (s : system) : Prop :=
  match lab with ReloadSources lr => distinct_names lr (sy_main s) (sy_resolver s) | _ => True end.

Lemma main_inv_same s r' c' ws' :
  main_inv s → same_lists (sy_main s) r' → cancelFuncs r' = cancelFuncs (sy_main s) →
  main_inv (System r' (sy_resolver s) c' (sy_phase s) ws').
Proof.
  intros Hm Hs Hc. pose proof Hs as (Hn & _ & Hmon & Hprev).
  assert (round_inv (sy_main s) → round_inv r') as Hr by (intros H; eapply round_inv_weaken; [exact H|done|by rewrite Hc]).
  assert (cache_exists (sy_main s) (sy_resolver s) → cache_exists r' (sy_resolver s)) as Hce by (by apply cache_exists_names).
  assert (loop_inv (sy_main s) (sy_resolver s) → loop_inv r' (sy_resolver s)) as Hl.
  { intros ([H1 H2] & H3 & H4). split_and!; [split; [auto|]|auto|congruence]. rewrite Hmon, Hc. done. }
  unfold main_inv in *. simpl. destruct (sy_phase s); [auto|naive_solver|rewrite Hmon; naive_solver|rewrite Hc; naive_solver].
Qed.

Lemma reap_round_source s md rd sr sr' :
  reap_round (meets s md rd) sr = Some sr' → md_Source (sr_md sr') = md_Source md.
Proof.
  intros H. destruct (reap_tick_same _ _ _ H) as [-> _]. by destruct (refresh_frame (meets s md rd) sr) as (_ & _ & ->).
Qed.

Lemma reload_inv s lr :
  sys_inv s → sy_phase s = AtHead → distinct_names lr (sy_main s) (sy_resolver s) →
  let '(r', v', _) := ref_LoadSources (lr_renv lr) (lr_env lr) (lr_triggerfile lr) (lr_sources lr) (sy_main s) (sy_resolver s) in
  round_inv r' ∧ cache_exists r' v' ∧ workers_inv r' (settle r' (sy_workers s)).
Proof.
  intros [Hm Hw] Hp Hd. unfold main_inv in Hm. rewrite Hp in Hm. pose proof (LoadSources_loop_inv lr _ _ Hm Hd) as Hi.
  assert (fresh_objs (sy_main s)) as Hf by (eapply inv_fresh_objs, Hm).
  pose proof (LoadSources_cancel (lr_renv lr) (lr_env lr) (lr_triggerfile lr) (lr_sources lr) _ (sy_resolver s) Hf) as Hc.
  assert (∀ b, kept (λ c, is_db c = b) (sy_main s)
    (ref_LoadSources (lr_renv lr) (lr_env lr) (lr_triggerfile lr) (lr_sources lr) (sy_main s) (sy_resolver s)).1.1) as Hk.
  { intros b. apply LoadSources_kept; [apply (stable_is_db b)|done]. }
  destruct (ref_LoadSources _ _ _ _ _ _) as [[r' v'] err]. destruct Hi as [? ?]. split_and!; [done..|]. by eapply workers_settle.
Qed.

Lemma process_inv lr s todo k l r' :
  sys_inv s → sy_phase s = Sweeping lr todo → todo !! k = Some l → process_source (lr_env lr) (sy_main s) l = Returns r' →
  main_inv (System r' (sy_resolver s) (sy_cache s) (Sweeping lr (delete k todo)) []) ∧
  workers_inv r' (settle r' (sy_workers s) ++ new_workers (sy_cache s) (sy_main s) r' l).
Proof.
  intros [Hm Hw] Hp Hk Hr. unfold main_inv in Hm. rewrite Hp in Hm. destruct Hm as (Hri & Hce & Htodo).
  pose proof (process_source_step _ _ _ _ Hr) as Hstep. pose proof Hstep as [(Hn & _ & Hmon & _) _].
  assert (l ∈ monitoredSources (sy_main s)) as Hl by (by apply Htodo; eapply list_elem_of_lookup_2). split.
  { split_and!; [by eapply sweep_step_inv|by eapply cache_exists_names|]. simpl. rewrite Hmon. intros x Hx. apply Htodo.
    eapply elem_of_submseteq; [exact Hx|]. apply sublist_submseteq, sublist_delete. }
  assert (∀ b, kept (λ c, is_db c = b) (sy_main s) r') as Hkept.
  { intros b. eapply kept_process; [apply (stable_is_db b)|exact Hr]. }
  pose proof (inv_exists _ Hri l Hl) as [name Hname]. unfold obj_name in Hname. destruct (objs (sy_main s) !! l) as [c|] eqn:Ec; [|done].
  pose proof (Hn l) as Hn'. unfold obj_name in Hn'. rewrite Ec in Hn'. destruct (objs r' !! l) as [c'|] eqn:Ec'; [|done].
  injection Hn' as Hn'. unfold new_workers. rewrite Ec'. unfold compose in Hn'. rewrite Hn'.
  destruct (process_cancel _ _ _ _ _ Hr Ec) as [Hsub|[Hno Hcf]].
  - assert (workers_inv r' (settle r' (sy_workers s))) as Hset by (by eapply workers_settle).
    destruct (cancelFuncs (sy_main s) !! _) eqn:E1; [by rewrite app_nil_r|].
    assert (cancelFuncs r' !! Name (GetSource c) = None) as -> by (by eapply lookup_weaken_None). by rewrite app_nil_r.
  - rewrite Hno, Hcf, lookup_insert_eq. apply (workers_add (sy_main s)); [done..|]. exists c'. split; [done|].
    unfold fits. by destruct c'.
Qed.

Lemma main_step_inv lab s s' : sys_inv s → resolves lab s → main_step lab s = Some s' → sys_inv s'.
Proof.
  intros Hinv Hok Hs. pose proof Hinv as [Hm Hw]. unfold main_step in Hs.
  destruct lab as [lr| |k| |? ?|? ?|?]; destruct (sy_phase s) as [|lr'|lr' todo|] eqn:Ep; try discriminate Hs.
  - pose proof (reload_inv s lr Hinv Ep Hok) as H. destruct (ref_LoadSources _ _ _ _ _ _) as [[r' v'] err].
    injection Hs as <-. destruct H as (? & ? & ?). by split_and!.
  - injection Hs as <-. unfold main_inv in Hm. rewrite Ep in Hm. destruct Hm as [Hri Hce].
    destruct (LoadMetrics_lists (lr_metrics lr') (sy_main s)) as [Hl Hc]. pose proof Hl as (Hn & _). split; [split_and!|]; simpl.
    + eapply round_inv_weaken; [exact Hri|done|by rewrite Hc].
    + by eapply cache_exists_names.
    + done.
    + destruct Hw as [H1 H2 H3 H4]. split; [by rewrite Hc|done|by rewrite Hc|].
      intros i w Hi. destruct (H4 i w Hi) as (c & Hci & Hf). eapply (kept_metrics (λ c, is_db c = _)); [|exact Hci|exact Hf].
      intros d _. apply (stable_presets _ (stable_is_db _)).
  - destruct (todo !! k) as [l|] eqn:Ek; [|done]. cbn [mbind option_bind] in Hs.
    destruct (process_source _ _ l) as [r'| |] eqn:Er; [|done..]. injection Hs as <-.
    destruct (process_inv lr' s todo k l r' Hinv Ep Ek Er) as [? ?]. by split.
  - destruct todo; [|done]. injection Hs as <-. unfold main_inv in Hm. rewrite Ep in Hm. destruct Hm as (Hri & Hce & _).
    destruct (CleanupRemovedWorkers_spec (lr_env lr') (lr_done lr') (sy_main s)) as (Hn & _ & Hmon & Hprev & Hc).
    set (r' := CleanupRemovedWorkers _ _ _) in *.
    assert (loop_inv r' (sy_resolver s)) as Hloop.
    { split_and!; [by apply round_head_inv|by eapply cache_exists_names|congruence]. }
    split.
    + unfold main_inv. simpl. destruct (lr_done lr') eqn:Ed; [|done]. split; [done|]. apply map_eq. intros name.
      rewrite Hc, lookup_empty. unfold removed. by rewrite ?Ed.
    + apply (workers_settle (sy_main s)); [done| |].
      * apply map_subseteq_spec. intros name l. rewrite Hc. by destruct (removed _ _ _).
      * intros b. apply kept_cleanup, (stable_durable _ (stable_is_db b)).
Qed.

Lemma after_round_running st : after_round st = Running ↔ st = Running.
Proof. by destruct st. Qed.

(** A step of a worker leaves the source and the kind of its connection. *)
Lemma worker_turn_frame decode lab s a c lab' a' c' cache :
  worker_turn decode lab s a c = Some (lab', a', c', cache) →
  GetSource c' = GetSource c ∧ is_db c' = is_db c ∧
  match a, a' with Reaping _, Reaping _ | Scraping _ _ _, Scraping _ _ _ => True | _, _ => False end.
Proof.
  unfold worker_turn. destruct lab, a as [sr|sa le sent], c as [md|pc]; try done.
  - destruct (reap_round _ sr) as [sr'|] eqn:E; [|done]. intros [= <- <- <- <-]. simpl. by rewrite (reap_round_source _ _ _ _ _ E).
  - destruct (prom_turn _ _ _ _). by intros [= <- <- <- <-].
Qed.

Lemma worker_step_inv decode lab i s lab' s' :
  sys_inv s → worker_step decode lab i s = Some (lab', s') → sys_inv s'.
Proof.
  intros [Hm Hw] Hs. unfold worker_step in Hs. destruct (sy_workers s !! i) as [w|] eqn:Ei; [|done].
  cbn [mbind option_bind] in Hs. case_bool_decide as Hst; [done|].
  destruct (objs (sy_main s) !! wk_ref w) as [c|] eqn:Ec; [|done]. cbn [mbind option_bind] in Hs.
  destruct (worker_turn _ _ _ _ _) as [[[[lab1 a'] c'] cache]|] eqn:Et; [|done]. injection Hs as _ <-.
  destruct (worker_turn_frame _ _ _ _ _ _ _ _ _ Et) as (Hsrc & Hdb & Hact). split.
  - apply main_inv_same; [done| |done]. eapply update_obj_lists; [exact Ec|by rewrite Hsrc].
  - eapply workers_update; [exact Hw|exact Ei|done| |done|done|apply after_round_running|].
    + intros b. eapply kept_update; [exact Ec|by rewrite Hdb].
    + intros c0. unfold fits. simpl. by destruct (wk_activity w), a'.
Qed.

Lemma sys_step_inv decode lab s lab' s' :
  sys_inv s → resolves lab s → sys_step decode lab s = Some (lab', s') → sys_inv s'.
Proof.
  intros Hinv Hok Hs. destruct lab as [lr| |k| |i rd|i t|i]; cbn [sys_step] in Hs.
  1-4: destruct (main_step _ s) as [s1|] eqn:E; [|done]; injection Hs as _ <-; by eapply main_step_inv.
  1-2: by eapply worker_step_inv.
  unfold worker_end in Hs. destruct (sy_workers s !! i) as [w|] eqn:Ei; [|done]. cbn [mbind option_bind] in Hs.
  case_bool_decide as Hc; [|done]. injection Hs as _ <-. destruct Hinv as [Hm Hw]. split; [exact Hm|].
  eapply workers_update; [exact Hw|exact Ei|done|by intros b; apply kept_objs|done|done|by rewrite Hc|done].
Qed.

Lemma sys_start_inv : sys_inv sys_start.
Proof.
  split; [apply newReaper_inv|]. split; [done|done| |done]. intros name l. simpl. by rewrite lookup_empty.
Qed.

Lemma run_inv decode P tr s :
  (∀ lab s, P lab s → resolves lab s) → sys_run decode P sys_start tr s → sys_inv s.
Proof. intros HP. induction 1 as [|tr s lab lab' s' _ IH Hp Hs]; [apply sys_start_inv|]. eapply sys_step_inv; [exact IH|by apply HP|exact Hs]. Qed.

(** The main loop can always go on, unless it creates helpers, which can panic. *)
Definition main_enabled (s : system) : Prop :=
  match sy_phase s with
  | AtHead => ∀ lr, is_Some (main_step (ReloadSources lr) s)
  | Loaded _ => is_Some (main_step ReloadMetrics s)
  | Sweeping lr [] => is_Some (main_step CleanUp s)
  | Sweeping lr todo => CreateHelpers (lr_env lr) = false → ∀ k, k < length todo → is_Some (main_step (Process k) s)
  | Over => True
  end.

Lemma inv_enabled s : sys_inv s → main_enabled s.
Proof.
  intros [Hm _]. unfold main_inv, main_enabled, main_step in *. destruct (sy_phase s) as [|lr|lr [|x todo]|]; [|by eexists..| |done].
  - intros lr. destruct (ref_LoadSources _ _ _ _ _ _) as [[]]. by eexists.
  - intros Hh k Hk. destruct Hm as (Hri & _ & Hin). destruct (lookup_lt_is_Some_2 (x :: todo) k Hk) as [l Hl].
    rewrite Hl. cbn [mbind option_bind]. destruct (process_source_returns (lr_env lr) (sy_main s) l) as [r' ->]; [|done|by eexists].
    pose proof (inv_exists _ Hri l (Hin l (list_elem_of_lookup_2 _ _ _ Hl))) as He. unfold obj_name in He. by rewrite fmap_is_Some in He.
Qed.

(** ** What a run does *)

(** The definitions that a step reads. *)
Definition loaded (lab : sys_label) (s : system) : option Metrics :=
  match lab, sy_phase s with
  | ReloadMetrics, Loaded lr => match lr_metrics lr with Ok d => Some d | Err _ => None end
  | _, _ => None
  end.

(** A step of the main loop: what it sends, keeps and reads. *)
Lemma main_step_effect lab s s' :
  sys_inv s → main_step lab s = Some s' →
  only_reports (sy_main s) (sy_main s') ∧ sy_cache s' = sy_cache s ∧
  defs (sy_main s') = default (defs (sy_main s)) (loaded lab s) ∧
  ∀ P, durable P → (∀ d, loaded lab s = Some d → preset_stable d P) → kept P (sy_main s) (sy_main s').
Proof.
  intros [Hm _] Hs. unfold main_inv, main_step, loaded in *. destruct lab as [lr| |k| | | |]; try discriminate Hs;
    (destruct (sy_phase s) as [|lr'|lr' todo|]; try discriminate Hs).
  - pose proof (LoadSources_reports (lr_renv lr) (lr_env lr) (lr_triggerfile lr) (lr_sources lr) (sy_main s) (sy_resolver s)) as [H1 H2].
    assert (fresh_objs (sy_main s)) as Hf by (eapply inv_fresh_objs, Hm).
    pose proof (λ P HP, LoadSources_kept P (lr_renv lr) (lr_env lr) (lr_triggerfile lr) (lr_sources lr) (sy_main s) (sy_resolver s) HP Hf) as Hk.
    destruct (ref_LoadSources _ _ _ _ _ _) as [[r' v'] err]. injection Hs as <-. split_and!; [done..|]. intros P HP _. by apply Hk.
  - injection Hs as <-. destruct (LoadMetrics_reports (lr_metrics lr') (sy_main s)) as [H1 H2]. split_and!; [done|done| |].
    + simpl. rewrite H2. by destruct (lr_metrics lr').
    + intros P HP Hd. apply kept_metrics. intros d Hr. apply Hd. by rewrite Hr.
  - destruct (todo !! k) as [l|]; [|done]. cbn [mbind option_bind] in Hs. destruct (process_source _ _ l) as [r'| |] eqn:E; [|done..].
    injection Hs as <-. destruct (process_source_reports _ _ _ _ E) as [H1 H2]. split_and!; [done..|]. intros P HP _. by eapply kept_process.
  - destruct todo; [|done]. injection Hs as <-. pose proof (Cleanup_quiet (lr_env lr') (lr_done lr') (sy_main s)) as Hq.
    split_and!; [by apply quiet_reports|done|apply Hq|]. intros P HP _. by apply kept_cleanup.
Qed.

(** The life of one worker between two states. *)
Definition last_emitted decode (sa : bool) (le : gmap string Z) (ts : list turn) : gmap string Z :=
  foldl (λ le t, (prom_turn decode sa le t).1) le ts.
Definition advances decode (i : nat) (tr : list sys_label) (w w' : worker) : Prop :=
  wk_name w' = wk_name w ∧ wk_ref w' = wk_ref w ∧
  match wk_activity w, wk_activity w' with
  | Reaping sr, Reaping sr' => Reap sr (rounds_of i tr) = Some sr'
  | Scraping sa le sent, Scraping sa' le' sent' =>
      sa' = sa ∧ le' = last_emitted decode sa le (turns_of i tr) ∧
      sent' = sent ++ concat (prom_turns decode sa le (turns_of i tr))
  | _, _ => False
  end.

Lemma Reap_app sr rs rs' : Reap sr (rs ++ rs') = Reap sr rs ≫= λ sr', Reap sr' rs'.
Proof.
  revert sr. induction rs as [|r rs IH]; intros sr; [done|]. simpl. destruct (reap_round r sr); [apply IH|done].
Qed.

Lemma prom_turns_app decode sa le ts ts' :
  prom_turns decode sa le (ts ++ ts') = prom_turns decode sa le ts ++ prom_turns decode sa (last_emitted decode sa le ts) ts'.
Proof.
  revert le. induction ts as [|t ts IH]; intros le; [done|]. simpl. destruct (prom_turn decode sa le t) as [le' o]. simpl. by rewrite IH.
Qed.

Lemma advances_app decode i tr tr' w w' w'' :
  advances decode i tr w w' → advances decode i tr' w' w'' → advances decode i (tr ++ tr') w w''.
Proof.
  unfold advances, rounds_of, turns_of. rewrite !omap_app. intros (H1 & H2 & H3) (H1' & H2' & H3').
  split_and!; [congruence..|]. destruct (wk_activity w), (wk_activity w'), (wk_activity w''); try done.
  - by rewrite Reap_app, H3.
  - destruct H3 as (-> & -> & ->), H3' as (-> & -> & ->). unfold last_emitted. rewrite foldl_app, prom_turns_app, concat_app, app_assoc. done.
Qed.

Lemma advances_refl decode i w w' :
  wk_name w' = wk_name w → wk_ref w' = wk_ref w → wk_activity w' = wk_activity w → advances decode i [] w w'.
Proof. intros H1 H2 H3. split_and!; [done..|]. rewrite H3. destruct (wk_activity w); [done|]. by rewrite app_nil_r. Qed.

(** A step of the main loop leaves what the workers have; new ones are at their beginning. *)
Lemma main_step_workers decode lab s s' :
  main_step lab s = Some s' →
  (∀ i w, sy_workers s !! i = Some w → ∃ w', sy_workers s' !! i = Some w' ∧ advances decode i [] w w') ∧
  (∀ i w', sy_workers s' !! i = Some w' → sy_workers s !! i = None → ∃ c, wk_activity w' = first_activity (sy_cache s) c).
Proof.
  assert (∀ r ws new,
    (∀ i w, ws !! i = Some w → ∃ w', (settle r ws ++ new) !! i = Some w' ∧ advances decode i [] w w') ∧
    (∀ i w', (settle r ws ++ new) !! i = Some w' → ws !! i = None → w' ∈ new)) as Hset.
  { intros r ws new. split.
    - intros i w Hi. exists (settle_one r w). destruct (settle_one_fields r w) as (? & ? & ? & _). split; [|by apply advances_refl].
      apply lookup_app_l_Some, settle_lookup. eauto.
    - intros i w' Hi Hn. apply lookup_app_Some in Hi as [(w0 & Hi & _)%settle_lookup|[_ Hi]]; [by rewrite Hn in Hi|].
      by eapply list_elem_of_lookup_2. }
  intros Hs. unfold main_step in Hs. destruct lab as [lr| |k| | | |]; try discriminate Hs;
    (destruct (sy_phase s) as [|lr'|lr' todo|]; try discriminate Hs).
  - destruct (ref_LoadSources _ _ _ _ _ _) as [[r' v'] err]. injection Hs as <-. simpl.
    destruct (Hset r' (sy_workers s) []) as [H1 H2]. rewrite app_nil_r in H1, H2. split; [done|].
    intros i w' Hi Hn. by destruct (elem_of_nil w') as [[] _]; eapply H2.
  - injection Hs as <-. simpl. split; [intros i w Hi; exists w; split; [done|by apply advances_refl]|]. intros i w' Hi Hn. by rewrite Hn in Hi.
  - destruct (todo !! k) as [l|]; [|done]. cbn [mbind option_bind] in Hs. destruct (process_source _ _ l) as [r'| |]; [|done..].
    injection Hs as <-. simpl. destruct (Hset r' (sy_workers s) (new_workers (sy_cache s) (sy_main s) r' l)) as [H1 H2].
    split; [done|]. intros i w' Hi Hn. specialize (H2 i w' Hi Hn). unfold new_workers in H2.
    repeat case_match; try (by apply elem_of_nil in H2). apply list_elem_of_singleton in H2 as ->. by eexists.
  - destruct todo; [|done]. injection Hs as <-. simpl.
    match goal with |- context [settle ?r _] => destruct (Hset r (sy_workers s) []) as [H1 H2] end.
    rewrite app_nil_r in H1, H2. split; [done|]. intros i w' Hi Hn. by destruct (elem_of_nil w') as [[] _]; eapply H2.
Qed.

Lemma worker_step_spec decode lab i s lab' s' :
  worker_step decode lab i s = Some (lab', s') →
  ∃ w c a c' cache, sy_workers s !! i = Some w ∧ objs (sy_main s) !! wk_ref w = Some c ∧
    worker_turn decode lab s (wk_activity w) c = Some (lab', a, c', cache) ∧
    s' = System (update_obj (sy_main s) (wk_ref w) c') (sy_resolver s) cache (sy_phase s)
           (<[i := WorkerOf (wk_name w) (wk_ref w) (after_round (wk_status w)) a]> (sy_workers s)).
Proof.
  unfold worker_step. destruct (sy_workers s !! i) as [w|]; [|done]. cbn [mbind option_bind]. case_bool_decide; [done|].
  destruct (objs (sy_main s) !! wk_ref w) as [c|] eqn:Ec; [|done]. cbn [mbind option_bind].
  destruct (worker_turn _ _ _ _ _) as [[[[lab1 a] c'] cache]|] eqn:Et; [|done]. intros [= -> <-]. by exists w, c, a, c', cache.
Qed.

(** The label of a step belongs to the worker that took it. *)
Definition label_of (lab : sys_label) : option nat :=
  match lab with WorkerRound i _ | ExporterTurn i _ => Some i | _ => None end.

Lemma others_idle j lab : label_of lab ≠ Some j → rounds_of j [lab] = [] ∧ turns_of j [lab] = [].
Proof. intros Hl. unfold rounds_of, turns_of. destruct lab; simpl; try done; by rewrite bool_decide_false by (intros ->; by apply Hl). Qed.

Lemma advances_idle decode j lab w w' :
  label_of lab ≠ Some j → advances decode j [] w w' → advances decode j [lab] w w'.
Proof. unfold advances. by intros [-> ->]%others_idle. Qed.

Lemma worker_step_advances decode lab i s lab' s' j w :
  label_of lab = Some i → worker_step decode lab i s = Some (lab', s') → sy_workers s !! j = Some w →
  ∃ w', sy_workers s' !! j = Some w' ∧ advances decode j [lab'] w w'.
Proof.
  intros Hlab (w0 & c & a & c' & cache & Hi & Hc & Ht & ->)%worker_step_spec Hj. simpl.
  assert (label_of lab' = Some i) as Hlab'.
  { unfold worker_turn in Ht. destruct lab, (wk_activity w0), c; try done; cbn [mbind option_bind] in Ht;
      [destruct (reap_round _ _); [|done]|destruct (prom_turn _ _ _ _)]; by injection Ht as <- _ _ _. }
  destruct (decide (j = i)) as [->|Hne].
  - rewrite list_lookup_insert_eq by (by eapply lookup_lt_Some). eexists. split; [done|]. assert (w0 = w) as -> by congruence.
    unfold advances. cbn [wk_name wk_ref wk_activity]. split_and!; [done..|]. unfold worker_turn in Ht.
    destruct lab as [| | | |i' rd|i' t|]; try done; injection Hlab as ->;
      destruct (wk_activity w) as [sr|sa le sent], c as [md|pc]; try done.
    + destruct (reap_round _ sr) as [sr'|] eqn:E; [|done]. injection Ht as <- <- <- <-.
      unfold rounds_of. simpl. rewrite bool_decide_true by done. simpl. by rewrite E.
    + destruct (prom_turn _ _ _ _) as [le' es] eqn:E. injection Ht as <- <- <- <-.
      unfold turns_of, last_emitted. simpl. rewrite bool_decide_true by done. simpl. rewrite E. simpl. by rewrite app_nil_r.
  - rewrite list_lookup_insert_ne by done. exists w. split; [done|]. apply advances_idle; [congruence|]. by apply advances_refl.
Qed.

Lemma step_advances decode lab s lab' s' j w :
  sys_step decode lab s = Some (lab', s') → sy_workers s !! j = Some w →
  ∃ w', sy_workers s' !! j = Some w' ∧ advances decode j [lab'] w w'.
Proof.
  intros Hs Hj. destruct lab as [lr| |k| |i rd|i t|i]; cbn [sys_step] in Hs.
  1-4: destruct (main_step _ s) as [s1|] eqn:E; [|done]; injection Hs as <- <-;
    destruct (proj1 (main_step_workers decode _ _ _ E) j w Hj) as (w' & ? & ?); exists w'; split; [done|]; by apply advances_idle.
  1-2: by eapply worker_step_advances; [| |exact Hj]; [|exact Hs].
  unfold worker_end in Hs. destruct (sy_workers s !! i) as [w0|] eqn:Ei; [|done]. cbn [mbind option_bind] in Hs.
  case_bool_decide as Hc; [|done]. injection Hs as <- <-. simpl. destruct (decide (j = i)) as [->|Hne].
  - rewrite list_lookup_insert_eq by (by eapply lookup_lt_Some). eexists. split; [done|]. simplify_eq.
    apply advances_idle; [done|]. by apply advances_refl.
  - rewrite list_lookup_insert_ne by done. exists w. split; [done|]. apply advances_idle; [done|]. by apply advances_refl.
Qed.

(** In a run of the system, every worker lives a life of its own loop. *)
Lemma run_advances decode P s0 tr s i w :
  sys_run decode P s0 tr s → sy_workers s0 !! i = Some w →
  ∃ w', sy_workers s !! i = Some w' ∧ advances decode i tr w w'.
Proof.
  intros Hr Hi. induction Hr as [|tr s lab lab' s' Hr (w1 & H1 & A1) Hp Hs]; [exists w; split; [done|by apply advances_refl]|].
  destruct (step_advances _ _ _ _ _ _ _ Hs H1) as (w2 & H2 & A2). exists w2. split; [done|]. by eapply advances_app.
Qed.

(** ** What a worker measures is what is configured *)

Section configured.
Context (decode : string → string → list MetricFamily * option error).
Context (l : nat) (am : gmap string Z) (preset name : string) (metric : Metric).

(** A connection to a database with these intervals, from the source itself or from this preset, and none
    for standby servers. *)
Definition has_intervals (c : source_conn) : Prop :=
  ∃ md, c = ConnDb md ∧ plain_intervals am md ∧ PresetMetrics (md_Source md) = preset ∧ PresetMetricsStandby (md_Source md) = "".

(** Definitions that agree with them and define the metric. *)
Definition agrees (d : Metrics) : Prop :=
  (preset_intervals d preset = None ∨ preset_intervals d preset = Some am) ∧ MetricDefs d !! name = Some metric.

Lemma has_intervals_source c c' :
  is_db c' = is_db c → GetSource c' = GetSource c → has_intervals c → has_intervals c'.
Proof using Type.
  intros Hk Hs (md & -> & Hp). destruct c' as [md'|]; [|done]. exists md'. split; [done|]. simpl in Hs.
  unfold plain_intervals in *. by rewrite Hs.
Qed.

Lemma durable_intervals : durable has_intervals.
Proof using Type.
  split.
  - intros c. apply has_intervals_source; [by destruct c|]. destruct c as [md|]; [|done]. simpl. unfold DbConn_Close. by destruct (md_Conn md).
  - intros env c c' err Hp Hc. eapply has_intervals_source; [| |exact Hp].
    + by eapply (stable_connect _ (stable_is_db (is_db c))).
    + destruct c as [md|pc]; simpl in Hc.
      * destruct (DbConn_Connect _ _ _ _ md) as [[md' e]| |] eqn:E; [|done..]. injection Hc as <- _. simpl. by eapply Connect_source.
      * pose proof (PromConn_Connect_source (prom_net env) pc) as Hs. destruct (PromConn_Connect _ pc). by injection Hc as <- _.
  - intros sv n1 n2 md. apply has_intervals_source; [done|]. simpl. apply FetchRuntimeInfo_frame.
Qed.

Lemma agrees_stable d : agrees d → preset_stable d has_intervals.
Proof using Type.
  intros [Hd _] c (md & -> & [Hm Hs] & Hp & Hps). eexists. split; [done|]. cbn [GetSource]. rewrite Hp, Hps.
  unfold plain_intervals. simpl. rewrite Hm, Hs. by destruct Hd as [-> | ->].
Qed.

(** The state of the shared objects that goes with it. *)
Definition configured_state (s : system) : Prop :=
  (∃ c, objs (sy_main s) !! l = Some c ∧ has_intervals c) ∧ MetricDefs (defs (sy_main s)) !! name = Some metric.

(** Runs in which the resolver returns distinct names and every reload agrees. *)
Definition steady_config (lab : sys_label) (s : system) : Prop :=
  resolves lab s ∧ ∀ d, loaded lab s = Some d → agrees d.

Lemma configured_step lab s lab' s' :
  sys_inv s → steady_config lab s → sys_step decode lab s = Some (lab', s') → configured_state s → configured_state s'.
Proof using Type.
  intros Hinv [_ Hl] Hs [(c & Hc & Hi) Hd]. destruct lab as [lr| |k| |i rd|i t|i]; cbn [sys_step] in Hs.
  1-4: destruct (main_step _ s) as [s1|] eqn:E; [|done]; injection Hs as <- <-;
    destruct (main_step_effect _ _ _ Hinv E) as (_ & _ & Hdef & Hk);
    (split; [eapply Hk; [exact durable_intervals|intros d Hld; apply agrees_stable; by apply Hl|exact Hc|exact Hi]|]);
    rewrite Hdef; match goal with |- context [loaded ?lab ?s0] => destruct (loaded lab s0) as [d|] eqn:Eld; [by apply (Hl d)|done] end.
  1-2: apply worker_step_spec in Hs as (w & c0 & a & c' & cache & Hi0 & Hc0 & Ht & ->); split; [|done];
    destruct (worker_turn_frame _ _ _ _ _ _ _ _ _ Ht) as (Hsrc & Hdb & _); simpl;
    (destruct (decide (l = wk_ref w)) as [Heq|Hne]; [|rewrite lookup_insert_ne by done; eauto]);
    rewrite Heq, lookup_insert_eq; rewrite Heq in Hc; simplify_eq; eexists; (split; [done|]); by eapply has_intervals_source.
  unfold worker_end in Hs. destruct (sy_workers s !! i) as [w0|]; [|done]. cbn [mbind option_bind] in Hs.
  case_bool_decide; [|done]. injection Hs as <- <-. split; [eauto|done].
Qed.

(** The rounds of its worker find it. *)
Definition finds_configured (rd : round) : Prop :=
  (∀ md, plain_intervals am md → plain_intervals am (rd_main rd md)) ∧ metricDefs (rd_env rd) !! name = Some metric.

Lemma configured_rounds s0 tr s i w :
  sys_inv s0 → configured_state s0 → sy_workers s0 !! i = Some w → wk_ref w = l → sys_run decode steady_config s0 tr s →
  sys_inv s ∧ configured_state s ∧ Forall finds_configured (rounds_of i tr).
Proof using Type.
  intros Hinv Hc Hi Hl Hr. induction Hr as [|tr s lab lab' s' Hr (Hinv1 & Hc1 & Hf) Hp Hs]; [by split_and!|].
  split_and!; [eapply sys_step_inv; [exact Hinv1|apply Hp|exact Hs]|by eapply configured_step|].
  unfold rounds_of. rewrite omap_app. apply Forall_app. split; [exact Hf|].
  destruct (run_advances _ _ _ _ _ _ _ Hr Hi) as (w1 & H1 & _ & Hr1 & _). fold (rounds_of i [lab']).
  destruct (decide (label_of lab' = Some i)) as [Hlab|Hlab]; [|by destruct (others_idle _ _ Hlab) as [-> _]].
  destruct lab as [lr| |k| |j rd|j t|j]; cbn [sys_step] in Hs.
  1-4: destruct (main_step _ s) as [s1|]; [|done]; by injection Hs as <- _.
  3: destruct (worker_end j s); [|done]; by injection Hs as <- _.
  all: apply worker_step_spec in Hs as (w0 & c0 & a & c' & cache & Hj & Hc0 & Ht & ->); unfold worker_turn in Ht;
    destruct (wk_activity w0), c0 as [md|pc]; try done; cbn [mbind option_bind] in Ht.
  - destruct (reap_round _ sr) as [sr'|]; [|done]. injection Ht as <- <- <- <-. injection Hlab as ->. assert (w0 = w1) as -> by congruence.
    unfold rounds_of. simpl. rewrite bool_decide_true by done. constructor; [|constructor].
    destruct Hc1 as [(c & Hc1 & md' & -> & Hpl & _) Hd]. rewrite Hr1, Hl, Hc1 in Hc0. injection Hc0 as ->. split; [done|]. exact Hd.
  - destruct (prom_turn _ _ _ _). injection Ht as <- <- <- <-. constructor.
Qed.
End configured.

(** ** What the reaper sends *)

(** No metric of the source has an empty name. *)
Definition names_metrics (md : DbConn) : Prop :=
  default ∅ (SrcMetrics (md_Source md)) !! "" = None ∧ default ∅ (MetricsStandby (md_Source md)) !! "" = None.

(** The surroundings of the rounds of workers: the change detectors ask through [QueryMeasurements], the
    figures of the operating system can be written as JSON, and no metric has an empty name. *)
Definition fair (lab : sys_label) (s : system) : Prop :=
  resolves lab s ∧
  match lab with
  | WorkerRound i rd =>
      (∃ answer clk cause, ∀ sql, change_query (rd_env rd) sql = QueryMeasurements answer clk cause sql) ∧
      (∀ name data, os_stats (rd_env rd) name = Ok data → json_rows data) ∧
      ∀ w md, sy_workers s !! i = Some w → objs (sy_main s) !! wk_ref w = Some (ConnDb md) → names_metrics md
  | _ => True
  end.

Section sent.
Context (n : string) (decode : string → string → list MetricFamily * option error) (Hd : decoded n decode).

Definition sent_ok (s : system) : Prop :=
  Forall is_down (out (sy_main s)) ∧ json_cache (sy_cache s) ∧ Forall (storable n ∘ worker_sent) (sy_workers s).

Lemma meets_ok s md rd sr :
  json_cache (sy_cache s) → names_metrics md →
  (∃ answer clk cause, ∀ sql, change_query (rd_env rd) sql = QueryMeasurements answer clk cause sql) →
  (∀ name data, os_stats (rd_env rd) name = Ok data → json_rows data) →
  round_ok (meets s md rd) (refresh (meets s md rd) sr).
Proof using Type.
  intros Hc [H1 H2] Hq Hos. split; [done|done|exact Hc|]. destruct (refresh_frame (meets s md rd) sr) as (_ & _ & Hs).
  unfold activeMetrics, ActiveMetrics. rewrite lookup_fmap, Hs. simpl. destruct (_ && _); [by rewrite H2|by rewrite H1].
Qed.

Lemma worker_turn_sent lab s w c lab' a c' cache :
  json_cache (sy_cache s) → storable n (worker_sent w) →
  worker_turn decode lab s (wk_activity w) c = Some (lab', a, c', cache) →
  (∀ i rd md, lab = WorkerRound i rd → c = ConnDb md → names_metrics md ∧
     (∃ answer clk cause, ∀ sql, change_query (rd_env rd) sql = QueryMeasurements answer clk cause sql) ∧
     (∀ name data, os_stats (rd_env rd) name = Ok data → json_rows data)) →
  json_cache cache ∧ ∀ st, storable n (worker_sent (WorkerOf (wk_name w) (wk_ref w) st a)).
Proof using Hd.
  intros Hc Hw Ht Hok. unfold worker_turn in Ht. unfold worker_sent in *.
  destruct lab as [| | | |i rd|i t|], (wk_activity w) as [sr|sa le sent], c as [md|pc]; try done; simpl in Hw.
  - destruct (reap_round _ sr) as [sr'|] eqn:E; [|done]. injection Ht as <- <- <- <-. destruct (Hok i rd md) as (Hn & Hq & Hos); [done..|].
    destruct (reap_tick_envelopes _ _ _ (meets_ok s md rd sr Hc Hn Hq Hos) E) as (Hc' & out & Hout & Hj). split; [done|].
    intros st. simpl. rewrite Hout. apply Forall_app. split; [exact Hw|by apply json_storable].
  - destruct (prom_turn _ _ _ _) as [le' es] eqn:E. injection Ht as <- <- <- <-. split; [done|]. intros st. simpl.
    apply Forall_app. split; [exact Hw|]. pose proof (turns_storable n decode Hd sa le [turn_with pc t]) as H.
    cbn [prom_turns] in H. rewrite E in H. simpl in H. by rewrite app_nil_r in H.
Qed.

Lemma sent_step lab s lab' s' :
  sys_inv s → fair lab s → sys_step decode lab s = Some (lab', s') → sent_ok s → sent_ok s'.
Proof using Hd.
  intros Hinv [_ Hf] Hs (Ho & Hc & Hw). destruct lab as [lr| |k| |i rd|i t|i]; cbn [sys_step] in Hs.
  1-4: destruct (main_step _ s) as [s1|] eqn:E; [|done]; injection Hs as <- <-;
    destruct (main_step_effect _ _ _ Hinv E) as ((sfx & Hsfx & Hdown) & Hcache & _);
    destruct (main_step_workers decode _ _ _ E) as [Hold Hnew]; split_and!;
    [rewrite Hsfx; by apply Forall_app|by rewrite Hcache|]; apply Forall_lookup; intros j w' Hj;
    (destruct (sy_workers s !! j) as [w|] eqn:Ej;
      [destruct (Hold j w Ej) as (w1 & Hj1 & _ & _ & Ha); rewrite Hj in Hj1; injection Hj1 as <-; pose proof (Forall_lookup_1 _ _ _ _ Hw Ej) as Hsw;
       unfold worker_sent, compose in *; destruct (wk_activity w), (wk_activity w'); try done;
       [by injection Ha as <-|destruct Ha as (_ & _ & ->); by rewrite app_nil_r]
      |destruct (Hnew j w' Hj Ej) as [c Ha]; unfold worker_sent, compose; rewrite Ha; destruct c; constructor]).
  1-2: apply worker_step_spec in Hs as (w & c & a & c' & cache & Hi & Hco & Ht & ->);
    pose proof (Forall_lookup_1 _ _ _ _ Hw Hi) as Hsw;
    (destruct (worker_turn_sent _ _ _ _ _ _ _ _ Hc Hsw Ht) as [Hc' Ha];
      [intros i0 rd0 md0 Hlab ->; first [discriminate Hlab|injection Hlab as <- <-; destruct Hf as (Hq & Hos & Hn); split_and!; [by eapply Hn|done..]]|]);
    (split_and!; [exact Ho|exact Hc'|]); apply Forall_insert; [done|apply Ha].
  unfold worker_end in Hs. destruct (sy_workers s !! i) as [w0|] eqn:Ei; [|done]. cbn [mbind option_bind] in Hs.
  case_bool_decide; [|done]. injection Hs as <- <-. split_and!; [done|done|]. apply Forall_insert; [done|].
  exact (Forall_lookup_1 _ _ _ _ Hw Ei).
Qed.

Lemma run_sent tr s : sys_run decode fair sys_start tr s → Forall (storable n) (system_sent s).
Proof using Hd.
  intros Hr. assert (sys_inv s ∧ sent_ok s) as [_ (Ho & _ & Hw)].
  { induction Hr as [|tr s lab lab' s' Hr [Hinv Hok] Hp Hs]; [split; [apply sys_start_inv|]|].
    - split_and!; [constructor|apply map_Forall_empty|constructor].
    - split; [eapply sys_step_inv; [exact Hinv|apply Hp|exact Hs]|by eapply sent_step]. }
  constructor; [|by apply Forall_fmap]. by eapply all_storable; [exact is_down_json|done|].
Qed.
End sent.

(** ** Theorems *)



Section tables.
Context {DB D : Type} `{!SinkDB DB} `{!Writer D} (ff : value → string).
Context (marshal_tags : gmap string string → result string) (marshal_row : Measurement → result string).
Context `{!SinkDBLaws ff marshal_tags marshal_row DB}.
Context (so : nat → sort_func MetricName) (ro : nat → range_order) (clk : nat → nat → Z).

End tables.

(** ** Example: a database and an exporter, with two readers of logs *)

Definition monitored_db : Source := {|
  Name := "db1"; Group := ""; ConnStr := "postgres://db1"; SrcMetrics := Some {["bgw" := 90%Z; "locks" := 30%Z]};
  MetricsStandby := None; Kind := SourcePostgres; IncludePattern := ""; ExcludePattern := ""; PresetMetrics := "";
  PresetMetricsStandby := ""; IsEnabled := true; SrcCustomTags := None; OnlyIfMaster := false |}.
Definition monitored_exporter : Source :=
  with_kind (set_metrics (sample_source "node") (Some {["patroni_up" := 30%Z]}) None) SourcePrometheus.
Definition configured_defs : Metrics := {| MetricDefs := {["bgw" := sql_metric "select bgw"]}; PresetDefs := ∅ |}.

(** A round of the main loop; [down]: the database does not answer. *)
Definition round_env (down : bool) : loop_env := {|
  parse := parse sample_env_loop; show_version := λ _ _, None;
  ping := λ _ _, if down then Some (ErrorString "refused") else None; new_pool := λ _, None; prom_net := sample_net;
  servers := λ _, Conn.sample_server; available_extensions := λ _, Ok []; create_extension := λ _ _, None;
  exec_helper := λ _ _, None; Groups := []; MinDbSizeMB := 0; TryCreateListedExtsIfMissing := ""; CreateHelpers := false;
  loop_now := 1700000000000000000; order := tree_order |}.
Definition reaper_round (down stop : bool) : loop_round := {|
  lr_env := round_env down; lr_renv := sample_resolver_env true; lr_triggerfile := false;
  lr_sources := Ok [monitored_db; monitored_exporter]; lr_metrics := Ok configured_defs; lr_schedule := λ ls, ls; lr_done := stop |}.

(** The first round starts the workers, that of the exporter first; in the second one the database does not
    answer, which is reported; in the third one the program is asked to stop. *)
Definition worker_round (k : Z) : sys_label := WorkerRound 1 (nan_round ((1000 + 31 * k) * time_Second)).
Definition started_labels : list sys_label :=
  [ReloadSources (reaper_round false false); ReloadMetrics; Process 1; ExporterTurn 0 (turn_at 100); Process 0].
Definition later_labels : list sys_label :=
  [worker_round 0; CleanUp; worker_round 1; ReloadSources (reaper_round true false); worker_round 2; ReloadMetrics; Process 0;
   worker_round 3; Process 0; CleanUp; ExporterTurn 0 (turn_at 131); worker_round 4; ReloadSources (reaper_round false true);
   ReloadMetrics; Process 0; Process 0; CleanUp; worker_round 5; WorkerEnds 0].

Definition exec_from (labs : list sys_label) (s : system) : list sys_label * system :=
  default ([], s) (sys_exec sample_decode labs s).
Definition started_run := exec_from started_labels sys_start.
Definition later_run := exec_from later_labels started_run.2.

Example later_workers :
  (λ w, (wk_name w, wk_status w)) <$> sy_workers started_run.2 = [("node", Running); ("db1", Running)] ∧
  (λ w, (wk_name w, wk_status w)) <$> sy_workers later_run.2 = [("node", Ended); ("db1", Ended)] ∧
  map (map MetricName) (system_sent later_run.2) = [["instance_up"]; ["patroni_up"; "patroni_up"]; ["bgw"; "bgw"]].
Proof. split_and!; vm_compute; reflexivity. Qed.

(** *** Conditions on runs, checked *)

Fixpoint exec_all (f : sys_label → system → bool) (labs : list sys_label) (s : system) : bool :=
  match labs with
  | [] => true
  | lab :: labs => f lab s && match sys_step sample_decode lab s with Some (_, s') => exec_all f labs s' | None => true end
  end.

Lemma exec_run (P : sys_label → system → Prop) (f : sys_label → system → bool) labs s0 tr0 s tr s' :
  (∀ lab s, lab ∈ labs → f lab s = true → P lab s) → sys_run sample_decode P s0 tr0 s →
  exec_all f labs s = true → sys_exec sample_decode labs s = Some (tr, s') → sys_run sample_decode P s0 (tr0 ++ tr) s'.
Proof.
  revert tr0 s tr. induction labs as [|lab labs IH]; intros tr0 s tr Hp Hr Hf He; simpl in *.
  { injection He as <- <-. by rewrite app_nil_r. }
  apply andb_prop in Hf as [Hf Hfs].
  destruct (sys_step sample_decode lab s) as [[lab1 s1]|] eqn:E; [|done]. simpl in He.
  destruct (sys_exec sample_decode labs s1) as [[tr1 s2]|] eqn:E1; [|done]. injection He as <- <-.
  rewrite cons_middle, app_assoc. eapply IH; [|  |exact Hfs|exact E1]; [intros; apply Hp; [by right|done]|].
  eapply run_step; [exact Hr|apply Hp; [by left|done]|exact E].
Qed.

Definition resolves_b (lab : sys_label) (s : system) : bool :=
  match lab with ReloadSources lr => distinct_names_b lr (sy_main s) (sy_resolver s) | _ => true end.
Lemma resolves_b_sound lab s : resolves_b lab s = true → resolves lab s.
Proof.
  destruct lab as [lr| | | | | |]; try done. simpl. intros Hd srcs Hsrc Ht. unfold distinct_names_b in Hd. rewrite Hsrc, Ht in Hd.
  destruct (ref_ResolveDatabases _ _ _ _) as [[[[r1 v1] news] down] err]. by apply bool_decide_eq_true in Hd.
Qed.

#[local] Instance names_metrics_dec md : Decision (names_metrics md).
Proof. apply _. Defined.
Definition fair_b (lab : sys_label) (s : system) : bool :=
  resolves_b lab s &&
  match lab with
  | WorkerRound i rd =>
      match sy_workers s !! i with
      | Some w => match objs (sy_main s) !! wk_ref w with Some (ConnDb md) => bool_decide (names_metrics md) | _ => true end
      | None => true
      end
  | _ => true
  end.

Lemma fair_b_sound lab s : lab ∈ started_labels ++ later_labels → fair_b lab s = true → fair lab s.
Proof.
  intros Hin [Hr Hn]%andb_prop. split; [by apply resolves_b_sound|]. destruct lab as [| | | |i rd| |]; try done.
  assert (∃ t, rd = nan_round t) as [t ->].
  { assert (Forall (λ lab, ∀ i rd, lab = WorkerRound i rd → ∃ t, rd = nan_round t) (started_labels ++ later_labels)) as H.
    { repeat (apply Forall_cons; split; [intros i0 rd0 H0; first [discriminate H0|injection H0 as <- <-; by eexists]|]). by apply Forall_nil. }
    rewrite Forall_forall in H. by eapply H. }
  split_and!; [by exists (λ _, Ok []), (λ _, 0%Z), (ErrorString "timeout")|done|].
  intros w md Hw Hc. rewrite Hw, Hc in Hn. by apply bool_decide_eq_true in Hn.
Qed.

Lemma exec_from_spec labs s :
  is_Some (sys_exec sample_decode labs s) → sys_exec sample_decode labs s = Some (exec_from labs s).
Proof. intros [p Hp]. unfold exec_from. by rewrite Hp. Qed.

Lemma exec_started : sys_exec sample_decode started_labels sys_start = Some started_run.
Proof. apply exec_from_spec, (bool_decide_unpack _). vm_compute. exact I. Qed.

Lemma exec_later : sys_exec sample_decode later_labels started_run.2 = Some later_run.
Proof. apply exec_from_spec, (bool_decide_unpack _). vm_compute. exact I. Qed.

Lemma started_resolves : sys_run sample_decode resolves sys_start started_run.1 started_run.2.
Proof.
  apply (exec_run resolves resolves_b started_labels sys_start [] sys_start started_run.1 started_run.2);
    [intros lab s _; apply resolves_b_sound|apply run_start| |].
  - vm_compute. reflexivity.
  - rewrite exec_started. apply f_equal, surjective_pairing.
Qed.


(** *** The cadence of the metric of the example *)

Definition bgw_intervals : gmap string Z := {["bgw" := 90%Z; "locks" := 30%Z]}.
Abbreviation bgw_metric := (sql_metric "select bgw").

Definition steady_b (lab : sys_label) (s : system) : bool :=
  resolves_b lab s &&
  match loaded lab s with
  | Some d => bool_decide (preset_intervals d "" = None) && bool_decide (MetricDefs d !! "bgw" = Some bgw_metric)
  | None => true
  end.

Lemma steady_b_sound lab s : steady_b lab s = true → steady_config bgw_intervals "" "bgw" bgw_metric lab s.
Proof.
  intros [Hr Hl]%andb_prop. split; [by apply resolves_b_sound|]. intros d Hd. rewrite Hd in Hl. apply andb_prop in Hl as [H1 H2].
  apply bool_decide_eq_true in H1, H2. split; [by left|done].
Qed.

Lemma later_steady : sys_run sample_decode (steady_config bgw_intervals "" "bgw" bgw_metric) started_run.2 later_run.1 later_run.2.
Proof.
  apply (exec_run _ steady_b later_labels started_run.2 [] started_run.2 later_run.1 later_run.2);
    [intros lab s _; apply steady_b_sound|apply run_start| |].
  - vm_compute. reflexivity.
  - rewrite exec_later. apply f_equal, surjective_pairing.
Qed.

(** The worker of the database as it was started. *)
Definition bgw_worker : worker := default (WorkerOf "" 0 Ended (Scraping true ∅ [])) (sy_workers started_run.2 !! 1).
Definition bgw_conn : DbConn := match objs (sy_main started_run.2) !! 0 with Some (ConnDb md) => md | _ => NewDbConn monitored_db end.

Lemma bgw_started :
  sy_workers started_run.2 !! 1 = Some bgw_worker ∧ wk_activity bgw_worker = Reaping (NewDbConnReaper ∅ bgw_conn) ∧
  wk_ref bgw_worker = 0 ∧ objs (sy_main started_run.2) !! 0 = Some (ConnDb bgw_conn).
Proof. split_and!; vm_compute; reflexivity. Qed.

(** The times of a round are those of its label. *)
Definition same_times (r r' : round) : Prop :=
  now (rd_env r') = now (rd_env r) ∧ (∀ name, clock (rd_env r') name = clock (rd_env r) name) ∧
  batch_end (rd_env r') = batch_end (rd_env r) ∧ rd_end r' = rd_end r.

Lemma exec_times decode i labs s tr s' :
  sys_exec decode labs s = Some (tr, s') → Forall2 same_times (rounds_of i labs) (rounds_of i tr).
Proof.
  revert s tr. induction labs as [|lab labs IH]; intros s tr He; simpl in He; [injection He as <- <-; constructor|].
  destruct (sys_step decode lab s) as [[lab1 s1]|] eqn:E; [|done]. simpl in He.
  destruct (sys_exec decode labs s1) as [[tr1 s2]|] eqn:E1; [|done]. injection He as <- <-. specialize (IH _ _ E1).
  change (lab :: labs) with ([lab] ++ labs). change (lab1 :: tr1) with ([lab1] ++ tr1). unfold rounds_of. rewrite !omap_app.
  apply Forall2_app; [|exact IH]. clear IH E1. destruct lab as [lr| |k| |j rd|j t|j]; cbn [sys_step] in E.
  1-4: destruct (main_step _ s); [|done]; injection E as <- <-; constructor.
  3: destruct (worker_end j s); [|done]; injection E as <- <-; constructor.
  all: apply worker_step_spec in E as (w & c & a & c' & cache & _ & _ & Ht & _); unfold worker_turn in Ht;
    destruct (wk_activity w), c; try done; cbn [mbind option_bind] in Ht.
  - destruct (reap_round _ _); [|done]. injection Ht as <- <- <- <-. simpl. case_bool_decide; repeat constructor.
  - destruct (prom_turn _ _ _ _). injection Ht as <- <- <- <-. constructor.
Qed.

Lemma later_times : Forall2 same_times (rounds_of 1 later_labels) (rounds_of 1 later_run.1).
Proof. eapply (exec_times sample_decode 1 later_labels started_run.2). rewrite exec_later. apply f_equal, surjective_pairing. Qed.

Lemma later_timed : Forall timed (rounds_of 1 later_run.1).
Proof.
  assert (Forall timed (rounds_of 1 later_labels)) as H.
  { change (rounds_of 1 later_labels) with ((λ k, nan_round ((1000 + 31 * k) * time_Second)) <$> [0; 1; 2; 3; 4; 5]%Z).
    apply Forall_fmap, Forall_forall. intros k Hk. assert (0 ≤ k)%Z by (set_unfold; lia). unfold timed, compose. simpl.
    unfold time_Second. split_and!; intros; lia. }
  revert H. generalize later_times. generalize (rounds_of 1 later_labels), (rounds_of 1 later_run.1).
  induction 1 as [|r r' rs rs' (H1 & H2 & H3 & H4) _ IH]; [done|]. intros [Ht Hts]%Forall_cons. constructor; [|auto].
  unfold timed in *. rewrite H1, H3, H4. destruct Ht as (? & Hc & ?). split; [done|]. split; [|done]. intros name. by rewrite H2.
Qed.

Lemma later_paced :
  Sorted (λ r r', rd_end r + calcTickInterval tree_order bgw_conn ≤ now (rd_env r'))%Z (rounds_of 1 later_run.1).
Proof.
  assert (Sorted (λ r r', rd_end r + calcTickInterval tree_order bgw_conn ≤ now (rd_env r'))%Z (rounds_of 1 later_labels)) as H.
  { repeat constructor; vm_compute; discriminate. }
  revert H. generalize later_times. generalize (rounds_of 1 later_labels), (rounds_of 1 later_run.1).
  induction 1 as [|r r' rs rs' (_ & _ & _ & H4) Hrs IH]; [done|]. intros [Hs Hh]%Sorted_inv. constructor; [auto|].
  destruct Hrs as [|r1 r1' rs rs' (H1 & _) _]; [constructor|]. apply HdRel_inv in Hh. constructor. by rewrite H1, H4.
Qed.


Example bgw_flags :
  fetches "bgw" (NewDbConnReaper ∅ bgw_conn) (rounds_of 1 later_run.1) = [true; false; false; true; false; false].
Proof. vm_compute. reflexivity. Qed.

(** *** The way to the tables *)

(** The whole run, and what it sends. *)
Definition whole_labels : list sys_label := started_labels ++ later_labels.
Definition whole_run := exec_from whole_labels sys_start.

Lemma exec_whole : sys_exec sample_decode whole_labels sys_start = Some whole_run.
Proof. apply exec_from_spec, (bool_decide_unpack _). vm_compute. exact I. Qed.

Lemma whole_fair : sys_run sample_decode fair sys_start whole_run.1 whole_run.2.
Proof.
  apply (exec_run fair fair_b whole_labels sys_start [] sys_start whole_run.1 whole_run.2);
    [intros lab s; apply fair_b_sound|apply run_start| |].
  - vm_compute. reflexivity.
  - rewrite exec_whole. apply f_equal, surjective_pairing.
Qed.

Lemma sample_decoded : decoded "bgw" sample_decode.
Proof. intros ct body. apply Forall_cons. split; [|apply Forall_nil; exact I]. split; discriminate. Qed.

(** Two readers of a log that grows. *)
Definition log_readers : list goroutine :=
  [LocalLog (Ok (sample_log_settings "C.")) sample_log_conn growing_env 9;
   RemoteLog (Ok (sample_log_settings "C.")) sample_log_conn growing_server 9].
Definition log_outs : list (list Envelope) := (λ g, default [] (sends g)) <$> log_readers.

Lemma log_readers_send : Forall2 (λ g es, sends g = Some es) log_readers log_outs.
Proof.
  unfold log_outs. rewrite Forall2_fmap_r. apply Forall_Forall2_diag.
  assert (Forall (λ g, is_Some (sends g)) log_readers) as H by (apply (bool_decide_unpack _); vm_compute; exact I).
  eapply Forall_impl; [exact H|]. intros g [es Hg]. simpl. by rewrite Hg.
Qed.

Definition all_outs : list (list Envelope) := system_sent whole_run.2 ++ log_outs.

Example all_sent :
  map (map MetricName) all_outs =
  [["instance_up"]; ["patroni_up"; "patroni_up"]; ["bgw"; "bgw"]; ["server_log_event_counts"]; ["server_log_event_counts"]].
Proof. vm_compute. reflexivity. Qed.

Definition pg_sinks : list (PostgresWriter mem_db + JSONWriter) := [inl (mem_writer ∅)].

Abbreviation pg_flush_sample := (@pg_flush mem_db (mem_ops strict_row) (λ _, sample_sort) (λ _, tree_order) (λ _, sample_clock)).

(** The goroutines take turns; the first two envelopes are distributed and flushed together. *)
Definition flow_labels : list label :=
  [Send 2; Send 1; Take; Offer; Offer; Take; Offer; Receive 0 0; Offer; Receive 0 0; Tick 0 1] ++
  concat ((λ i, [Send i; Take; Offer; Offer; Receive 0 2]) <$> [4; 1; 0; 2; 3]) ++ [Tick 0 3].

Definition flow_end : flow (PostgresWriter mem_db) JSONWriter * list event :=
  default (start [] [], []) (run pg_flush_sample flow_labels (start all_outs pg_sinks)).

Lemma flow_reached : reach pg_flush_sample (start all_outs pg_sinks) flow_end.1 flow_end.2.
Proof.
  assert (is_Some (run pg_flush_sample flow_labels (start all_outs pg_sinks))) as [[s tr] Hrun].
  { apply (bool_decide_unpack _). vm_compute. exact I. }
  apply (run_from_start _ _ _ flow_labels). unfold flow_end. by rewrite Hrun.
Qed.

Lemma flow_drained : fl_done flow_end.1 = false ∧ drained flow_end.1.
Proof. split; [vm_compute; reflexivity|]. unfold drained. vm_compute. repeat constructor. Qed.


(** The rows of every metric are stored, but for the family with the [NaN]. *)
Example rows_stored :
  match fl_sinks flow_end.1 with
  | [Buffered p] =>
      (λ n, length (@db_table _ (mem_ops strict_row) (sinkDb (ps_writer p)) n)) <$>
        ["bgw"; "instance_up"; "server_log_event_counts"; "patroni_up"]
  | _ => []
  end = [2; 1; 2; 0].
Proof. vm_compute. reflexivity. Qed.
