(* ===== verification/Logging.v ===== *)
(** * Logging ([internal/log])

    The formatter of log entries, the broker that forwards formatted entries to subscribers, the set-up of
    the logger, and the adaptor for the database driver.
    The printing of times, of levels and of values of unknown types are parameters.

    The theorems show that every field of an entry is written exactly once, in the documented order;
    that the broker keeps messages in order and loses none while a subscriber is ready; and that the
    broker is given every entry the program logs.  [LogStream] has the sessions of the web server. *)

From Stdlib Require Import Ascii.
From S2P Require Import Prelude GoStrings Metrics.
From stdpp Require Import options.

Local Open Scope Z_scope.

(** ** Entries *)

(** The levels of the logging library, the most severe first. *)
Inductive Level := PanicLevel | FatalLevel | ErrorLevel | WarnLevel | InfoLevel | DebugLevel | TraceLevel.

#[export] Instance Level_eq_dec : EqDecision Level.
Proof. solve_decision. Defined.

Definition Level_rank (l : Level) : Z :=
  match l with
  | PanicLevel => 0 | FatalLevel => 1 | ErrorLevel => 2 | WarnLevel => 3 | InfoLevel => 4 | DebugLevel => 5 | TraceLevel => 6
  end.

Record Frame := { File : string; Line : Z; Function_ : string }.

Record Entry := {
  Time : Z;
  EntryLevel : Level;
  Message : string;
  EntryData : gmap string value;
  Caller : option Frame;
}.

(** ** The formatter *)

Record Formatter := {
  FieldsOrder : option (list string);
  TimestampFormat : string;
  HideKeys : bool;
  NoColors : bool;
  NoFieldsColors : bool;
  NoFieldsSpace : bool;
  ShowFullLevel : bool;
  NoUppercaseLevel : bool;
  TrimMessages : bool;
  CallerFirst : bool;
  CustomCallerFormatter : option (Frame → string);
}.

Definition newFormatter (noColors : bool) : Formatter := {|
  FieldsOrder := Some ["source"; "metric"; "sink"; "db"; "filename"; "address"; "rows"; "sql"; "params"];
  TimestampFormat := "2006-01-02 15:04:05.000";
  HideKeys := false; NoColors := noColors; NoFieldsColors := false; NoFieldsSpace := false;
  ShowFullLevel := true; NoUppercaseLevel := false; TrimMessages := false; CallerFirst := false;
  CustomCallerFormatter := None |}.

Definition colorRed : Z := 31.
Definition colorBlue : Z := 36.
Definition colorMagenta : Z := 35.
Definition colorGreen : Z := 32.

Definition getColorByLevel (level : Level) : Z :=
  match level with
  | DebugLevel | TraceLevel => colorBlue
  | WarnLevel => colorMagenta
  | ErrorLevel | FatalLevel | PanicLevel => colorRed
  | InfoLevel => colorGreen
  end.

Definition ascii_to_upper (c : ascii) : ascii :=
  let n := nat_of_ascii c in if bool_decide (97 ≤ n ∧ n ≤ 122)%nat then ascii_of_nat (n - 32) else c.
Fixpoint strings_ToUpper (s : string) : string :=
  match s with "" => "" | String c s => String (ascii_to_upper c) (strings_ToUpper s) end.

(** [strings.TrimSpace], for ASCII white space. *)
Fixpoint trim_left (s : string) : string :=
  match s with "" => "" | String c s' => if is_space c then trim_left s' else s end.
Fixpoint trim_right (s : string) : string :=
  match s with "" => "" | String c s' => if is_blank s then "" else String c (trim_right s') end.
Definition strings_TrimSpace (s : string) : string := trim_right (trim_left s).

Definition trimFilename (s : string) : string :=
  match str_cut "internal/" s with Some (_, after) => after | None => s end.

Definition strings_concat (ss : list string) : string := strings_Join ss "".

Definition escape : string := String (ascii_of_nat 27) "[".

(** [sort.Strings]. *)
Definition sort_Strings (l : list string) : list string := merge_sort String.le l.

Section format.
Context (ro : range_order).
Context (fmt_float : value → string).
Implicit Types (f : Formatter) (entry : Entry).

Definition writeCaller f entry : string :=
  match Caller entry with
  | None => ""
  | Some c =>
      match CustomCallerFormatter f with
      | Some custom => custom c
      | None =>
          if contains "PgxLogger" (Function_ c) then ""
          else " (" +:+ trimFilename (File c) +:+ ":" +:+ pretty (Line c) +:+ " " +:+ trimFilename (Function_ c) +:+ ")"
      end
  end.

(** A field that is missing prints as [nil]. *)
Definition writeField f entry (field : string) : string :=
  let v := fmt_v fmt_float (default VNil (EntryData entry !! field)) in
  (if HideKeys f then "[" +:+ v +:+ "]" else "[" +:+ field +:+ ":" +:+ v +:+ "]") +:+
  (if NoFieldsSpace f then "" else " ").

Definition writeFields f entry : string :=
  if bool_decide (size (EntryData entry) ≠ 0%nat)
  then strings_concat (writeField f entry <$> sort_Strings (range_keys ro (EntryData entry))) else "".

(** The loop over the configured order: the text, the fields found and the number of fields left. *)
Fixpoint write_known f entry (order : list string) (found : gset string) (length : Z) : list string * gset string * Z :=
  match order with
  | [] => ([], found, length)
  | field :: order =>
      match EntryData entry !! field with
      | Some _ =>
          let '(text, found, length) := write_known f entry order ({[field]} ∪ found) (length - 1) in
          (writeField f entry field :: text, found, length)
      | None => write_known f entry order found length
      end
  end.

Definition writeOrderedFields f entry (order : list string) : string :=
  let '(text, found, length) := write_known f entry order ∅ (Z.of_nat (size (EntryData entry))) in
  strings_concat text +:+
  (if 0 <? length then
     strings_concat (writeField f entry <$>
       sort_Strings (filter (λ field, field ∉ found) (range_keys ro (EntryData entry))))
   else "").

(** *** Every field once *)

Lemma strings_concat_app l k : strings_concat (l ++ k) = strings_concat l +:+ strings_concat k.
Proof using Type.
  unfold strings_concat. induction l as [|x l IH]; [done|]. destruct l as [|y l], k as [|z k]; simpl in *.
  - by rewrite string_app_nil_r.
  - done.
  - by rewrite IH, !string_app_nil_r.
  - rewrite IH. by rewrite !string_app_nil_l, string_app_assoc.
Qed.

Lemma write_known_spec f entry order found n :
  write_known f entry order found n =
  (writeField f entry <$> filter (λ k, is_Some (EntryData entry !! k)) order,
   list_to_set (filter (λ k, is_Some (EntryData entry !! k)) order) ∪ found,
   n - len (filter (λ k, is_Some (EntryData entry !! k)) order)).
Proof using Type.
  revert found n. induction order as [|k order IH]; intros found n; simpl.
  { by rewrite (left_id_L ∅ _), Z.sub_0_r. }
  rewrite filter_cons. destruct (EntryData entry !! k) as [v|] eqn:Ev.
  - rewrite decide_True by done. rewrite IH. simpl. f_equal; [|lia]. f_equal.
    by rewrite (assoc_L (∪)), (comm_L (∪) _ {[k]}).
  - rewrite decide_False by (by intros []). apply IH.
Qed.

(** [Level.String] and [Time.Format] are parameters; the slice [level[:4]] panics on a shorter name. *)
Definition Format (Level_String : Level → string) (time_Format : string → Z → string) f entry : outcome string :=
  let levelColor := getColorByLevel (EntryLevel entry) in
  let timestampFormat := if bool_decide (TimestampFormat f = "") then "Jan _2 15:04:05.000" else TimestampFormat f in
  let level := if NoUppercaseLevel f then Level_String (EntryLevel entry)
               else strings_ToUpper (Level_String (EntryLevel entry)) in
  if negb (ShowFullLevel f) && (String.length level <? 4)%nat then Panics else Returns (
  time_Format timestampFormat (Time entry) +:+
  (if CallerFirst f then writeCaller f entry else "") +:+
  (if NoColors f then "" else escape +:+ pretty levelColor +:+ "m") +:+
  " [" +:+ (if ShowFullLevel f then level else String.substring 0 4 level) +:+ "]" +:+
  (if NoFieldsSpace f then "" else " ") +:+
  (if negb (NoColors f) && NoFieldsColors f then escape +:+ "0m" else "") +:+
  (match FieldsOrder f with None => writeFields f entry | Some order => writeOrderedFields f entry order end) +:+
  (if NoFieldsSpace f then " " else "") +:+
  (if negb (NoColors f) && negb (NoFieldsColors f) then escape +:+ "0m" else "") +:+
  (if TrimMessages f then strings_TrimSpace (Message entry) else Message entry) +:+
  (if CallerFirst f then "" else writeCaller f entry) +:+
  String (ascii_of_nat 10) "").

(** The fields that are written, in the order they are written in. *)
Definition field_sequence (data : gmap string value) (order : list string) : list string :=
  let known := filter (λ k, is_Some (data !! k)) order in
  known ++ sort_Strings (filter (λ k, k ∉ known) (range_keys ro data)).

Lemma field_sequence_perm data order : NoDup order → field_sequence data order ≡ₚ range_keys ro data.
Proof using Type.
  intros Hnd. unfold field_sequence, sort_Strings. rewrite (merge_sort_Permutation String.le). set (known := filter _ order).
  assert (NoDup (range_keys ro data)) as Hk by apply NoDup_range_keys.
  apply NoDup_Permutation; [|done|].
  - apply NoDup_app. split_and!; [by apply NoDup_filter| |by apply NoDup_filter].
    intros k Hin [Hnot _]%list_elem_of_filter. done.
  - intros k. rewrite elem_of_app, list_elem_of_filter. split; [|destruct (decide (k ∈ known)); tauto].
    intros [Hin|[_ ?]]; [|done]. apply list_elem_of_filter in Hin as [Hin _]. by apply elem_of_range_keys.
Qed.

Lemma writeOrderedFields_spec f entry order :
  NoDup order →
  writeOrderedFields f entry order = strings_concat (writeField f entry <$> field_sequence (EntryData entry) order).
Proof using Type.
  intros Hnd. unfold writeOrderedFields. rewrite write_known_spec. unfold field_sequence.
  set (known := filter _ order). rewrite fmap_app, strings_concat_app. f_equal. rewrite (right_id_L ∅ _).
  assert (filter (λ k, k ∉ (list_to_set known : gset string)) (range_keys ro (EntryData entry)) =
          filter (λ k, k ∉ known) (range_keys ro (EntryData entry))) as ->.
  { apply list_filter_iff. intros k. by rewrite elem_of_list_to_set. }
  destruct (Z.ltb_spec 0 (Z.of_nat (size (EntryData entry)) - len known)) as [|Hle]; [done|].
  pose proof (Permutation_length (field_sequence_perm (EntryData entry) order Hnd)) as Hlen.
  unfold field_sequence in Hlen. fold known in Hlen. rewrite length_app in Hlen.
  unfold range_keys in Hlen at 2. rewrite length_fmap, length_range in Hlen.
  destruct (sort_Strings _); [done|]. simpl in Hlen. lia.
Qed.
End format.

(** A formatted entry is the time, the level in brackets, the fields, the message and the caller.
    Every field of the entry is written exactly once: first those of the configured order, in that
    order, then the others in alphabetical order. *)
Theorem Format_fields ro ff Level_String time_Format noColors entry :
  let f := newFormatter noColors in
  ∃ known others, known ++ others ≡ₚ range_keys ro (EntryData entry) ∧ NoDup (known ++ others) ∧
    known `sublist_of` default [] (FieldsOrder f) ∧ others ## default [] (FieldsOrder f) ∧
    StronglySorted String.le others ∧
    Format ro ff Level_String time_Format f entry = Returns (
      time_Format (TimestampFormat f) (Time entry) +:+
      (if noColors then "" else escape +:+ pretty (getColorByLevel (EntryLevel entry)) +:+ "m") +:+
      " [" +:+ strings_ToUpper (Level_String (EntryLevel entry)) +:+ "] " +:+
      strings_concat (writeField ff f entry <$> known ++ others) +:+
      (if noColors then "" else escape +:+ "0m") +:+ Message entry +:+ writeCaller f entry +:+
      String (ascii_of_nat 10) "").
Proof.
  intros f. set (order := default [] (FieldsOrder f)). assert (NoDup order) as Hnd.
  { apply (bool_decide_unpack _). vm_compute. exact I. }
  set (known := filter (λ k, is_Some (EntryData entry !! k)) order).
  set (others := sort_Strings (filter (λ k, k ∉ known) (range_keys ro (EntryData entry)))).
  pose proof (field_sequence_perm ro (EntryData entry) order Hnd) as Hp.
  exists known, others. split_and!.
  - exact Hp.
  - change (NoDup (field_sequence ro (EntryData entry) order)). rewrite Hp. apply NoDup_range_keys.
  - apply sublist_filter.
  - intros k Hk Ho. unfold others, sort_Strings in Hk. rewrite (merge_sort_Permutation String.le) in Hk.
    apply list_elem_of_filter in Hk as [Hk Hd]. apply Hk, list_elem_of_filter. by apply elem_of_range_keys in Hd.
  - apply (StronglySorted_merge_sort String.le).
  - change (known ++ others) with (field_sequence ro (EntryData entry) order).
    rewrite <-writeOrderedFields_spec by done. unfold Format. cbn [f newFormatter TimestampFormat NoUppercaseLevel
      CallerFirst NoColors ShowFullLevel NoFieldsSpace NoFieldsColors FieldsOrder TrimMessages negb andb].
    by destruct noColors; rewrite ?string_app_nil_l, ?string_app_assoc.
Qed.

(** A name that is listed twice would be counted twice, and the last field would be dropped. *)
Example duplicate_order_drops ro :
  let f := {| FieldsOrder := Some ["db"; "db"]; TimestampFormat := ""; HideKeys := false; NoColors := true;
              NoFieldsColors := false; NoFieldsSpace := false; ShowFullLevel := true; NoUppercaseLevel := false;
              TrimMessages := false; CallerFirst := false; CustomCallerFormatter := None |} in
  let entry := {| Time := 0; EntryLevel := InfoLevel; Message := "m";
                  EntryData := {["db" := VString "x"; "zone" := VString "y"]}; Caller := None |} in
  writeOrderedFields ro (λ _, "") f entry ["db"; "db"] = "[db:x] [db:x] ".
Proof. reflexivity. Qed.

(** ** The broker *)

Definition cacheLimit : Z := 512.

(** Channels of subscribers are known by a number.  [input] holds the formatted messages that [poll]
    has not taken yet, [received] what every subscriber was given.  No [formatter] stands for the default one, a
    formatter of the logging library. *)
Record BrokerHook := {
  subscribers : list nat;
  input : list string;
  ctx_done : bool;
  hook_level : string;
  formatter : option Formatter;
  received : gmap nat (list string);
}.

Definition NewBrokerHook (level : string) : BrokerHook :=
  {| subscribers := []; input := []; ctx_done := false; hook_level := level; formatter := None; received := ∅ |}.

Definition with_subscribers (h : BrokerHook) (s : list nat) : BrokerHook :=
  {| subscribers := s; input := input h; ctx_done := ctx_done h; hook_level := hook_level h; formatter := formatter h; received := received h |}.
Definition with_input (h : BrokerHook) (i : list string) : BrokerHook :=
  {| subscribers := subscribers h; input := i; ctx_done := ctx_done h; hook_level := hook_level h; formatter := formatter h; received := received h |}.
Definition with_received (h : BrokerHook) (r : gmap nat (list string)) : BrokerHook :=
  {| subscribers := subscribers h; input := input h; ctx_done := ctx_done h; hook_level := hook_level h; formatter := formatter h; received := r |}.

Definition AddSubscriber (h : BrokerHook) (ch : nat) : BrokerHook := with_subscribers h (subscribers h ++ [ch]).

Definition RemoveSubscriber (h : BrokerHook) (ch : nat) : BrokerHook :=
  with_subscribers h (filter (λ e, e ≠ ch) (subscribers h)).

Definition SetBrokerFormatter (h : BrokerHook) (f : option Formatter) : BrokerHook :=
  {| subscribers := subscribers h; input := input h; ctx_done := ctx_done h; hook_level := hook_level h; formatter := f;
     received := received h |}.

(** [Fire] of an entry that was formatted as [raw]; a full queue that stays full for the time limit
    drops the message. *)
Definition Fire (h : BrokerHook) (raw : result string) : BrokerHook * option error :=
  if ctx_done h then (h, None)
  else
    match raw with
    | Err e => (h, Some e)
    | Ok raw => if len (input h) <? cacheLimit then (with_input h (input h ++ [raw]), None) else (h, None)
    end.

(** [AllLevels] is the list of the logging library. *)
Definition Levels (AllLevels : list Level) (h : BrokerHook) : list Level :=
  if bool_decide (hook_level h = "none") then []
  else if bool_decide (hook_level h = "debug") then AllLevels
  else if bool_decide (hook_level h = "info") then [PanicLevel; FatalLevel; ErrorLevel; WarnLevel; InfoLevel]
  else [PanicLevel; FatalLevel; ErrorLevel].

(** A subscriber that is not ready to receive misses the message. *)
Definition deliver (ready : nat → bool) (msg : string) (r : gmap nat (list string)) (ch : nat) : gmap nat (list string) :=
  if ready ch then <[ch := default [] (r !! ch) ++ [msg]]> r else r.

Definition hook_send (ready : nat → bool) (h : BrokerHook) (msg : string) : BrokerHook :=
  if bool_decide (subscribers h = []) then h
  else with_received h (foldl (deliver ready msg) (received h) (subscribers h)).

(** What happens to the broker: an entry is logged, [poll] takes a message while some subscribers are
    ready, a subscriber comes or goes, the context ends. *)
Inductive hook_event :=
  | EvFire (raw : result string)
  | EvPoll (ready : nat → bool)
  | EvAdd (ch : nat)
  | EvRemove (ch : nat)
  | EvDone.

Definition hook_step (h : BrokerHook) (ev : hook_event) : BrokerHook :=
  match ev with
  | EvFire raw => (Fire h raw).1
  | EvPoll ready =>
      if ctx_done h then h
      else match input h with [] => h | msg :: rest => hook_send ready (with_input h rest) msg end
  | EvAdd ch => AddSubscriber h ch
  | EvRemove ch => RemoveSubscriber h ch
  | EvDone => {| subscribers := subscribers h; input := input h; ctx_done := true; hook_level := hook_level h;
                 formatter := formatter h; received := received h |}
  end.

Definition hook_run (h : BrokerHook) (evs : list hook_event) : BrokerHook := foldl hook_step h evs.

Definition got (h : BrokerHook) (ch : nat) : list string := default [] (received h !! ch).

(** The messages the queue accepted, in order. *)
Fixpoint accepted (h : BrokerHook) (evs : list hook_event) : list string :=
  match evs with
  | [] => []
  | ev :: evs =>
      (match ev with
       | EvFire (Ok raw) => if negb (ctx_done h) && (len (input h) <? cacheLimit) then [raw] else []
       | _ => []
       end) ++ accepted (hook_step h ev) evs
  end.

(** The subscription of [ch] does not change, and [ch] is ready at every delivery. *)
Definition steady (ch : nat) (ev : hook_event) : Prop :=
  match ev with EvAdd c | EvRemove c => c ≠ ch | EvDone => False | _ => True end.
Definition attentive (ch : nat) (ev : hook_event) : Prop :=
  match ev with EvPoll ready => ready ch = true | _ => True end.

(** [ch] is subscribed once. *)
Definition subscribed_once (ch : nat) (chs : list nat) : Prop :=
  ∃ l k, chs = l ++ ch :: k ∧ ch ∉ l ∧ ch ∉ k.

Lemma deliver_others ready msg chs r ch : ch ∉ chs → foldl (deliver ready msg) r chs !! ch = r !! ch.
Proof.
  revert r. induction chs as [|c chs IH]; intros r Hc; simpl; [done|]. apply not_elem_of_cons in Hc as [? ?].
  rewrite IH by done. unfold deliver. destruct (ready c); [by rewrite lookup_insert_ne|done].
Qed.

Lemma deliver_got ready msg chs r ch :
  subscribed_once ch chs →
  default [] (foldl (deliver ready msg) r chs !! ch) = default [] (r !! ch) ++ (if ready ch then [msg] else []).
Proof.
  intros (l & k & -> & Hl & Hk). rewrite foldl_app. simpl. rewrite deliver_others by done. unfold deliver at 1.
  destruct (ready ch); rewrite ?lookup_insert_eq, deliver_others by done; [done|by rewrite app_nil_r].
Qed.

(** One step keeps, for a subscriber, what it has and what is still to come. *)
Lemma hook_step_steady h ev ch :
  subscribed_once ch (subscribers h) → ctx_done h = false → steady ch ev →
  let h' := hook_step h ev in
  subscribed_once ch (subscribers h') ∧ ctx_done h' = false ∧
  ∃ taken given, got h' ch = got h ch ++ given ∧ taken ++ input h' = input h ++ accepted h [ev] ∧
    given `sublist_of` taken ∧ (attentive ch ev → given = taken).
Proof.
  intros Hch Hctx Hst. destruct ev as [raw|ready|c|c|]; simpl in *.
  - unfold Fire. rewrite Hctx. simpl. destruct raw as [raw|e]; [|by split_and!; try done; exists [], []; rewrite !app_nil_r].
    destruct (_ <? _); simpl; (split_and!; [done..|]); exists [], []; by rewrite !app_nil_r.
  - rewrite Hctx in *. destruct (input h) as [|msg rest] eqn:Ei.
    { split_and!; [done..|]. exists [], []. rewrite Ei. by rewrite !app_nil_r. }
    unfold hook_send, got. simpl. case_bool_decide as Hs; [by rewrite Hs in Hch; destruct Hch as ([] & ? & ? & _)|].
    simpl. split_and!; [done..|]. rewrite deliver_got by done.
    exists [msg], (if ready ch then [msg] else []). rewrite app_nil_r. split_and!; [done|done| |].
    + destruct (ready ch); [done|apply sublist_nil_l].
    + by intros ->.
  - split_and!; [|done|exists [], []; by rewrite !app_nil_r]. destruct Hch as (l & k & -> & ? & ?).
    exists l, (k ++ [c]). rewrite <-app_assoc. split_and!; [done..|]. rewrite elem_of_app, list_elem_of_singleton. naive_solver.
  - split_and!; [|done|exists [], []; by rewrite !app_nil_r]. destruct Hch as (l & k & -> & ? & ?).
    exists (filter (λ e, e ≠ c) l), (filter (λ e, e ≠ c) k). rewrite filter_app, filter_cons, decide_True by congruence.
    split_and!; [done|rewrite list_elem_of_filter; tauto..].
  - done.
Qed.

(** While a subscription lasts, a subscriber is given messages in the order in which they were
    logged, each at most once; if it is ready whenever the broker has one, then what it was given and
    what is still queued are exactly what was queued before and what the queue accepted since. *)
Theorem broker_delivers h evs ch :
  subscribed_once ch (subscribers h) → ctx_done h = false → Forall (steady ch) evs →
  let h' := hook_run h evs in
  ∃ taken given, got h' ch = got h ch ++ given ∧ taken ++ input h' = input h ++ accepted h evs ∧
    given `sublist_of` taken ∧ (Forall (attentive ch) evs → given = taken).
Proof.
  revert h. induction evs as [|ev evs IH]; intros h Hch Hctx Hst; simpl.
  { exists [], []. by rewrite !app_nil_r. }
  apply Forall_cons in Hst as [Hev Hst].
  destruct (hook_step_steady h ev ch Hch Hctx Hev) as (Hch' & Hctx' & t1 & g1 & Hg1 & Ht1 & Hs1 & Ha1).
  destruct (IH (hook_step h ev) Hch' Hctx' Hst) as (t2 & g2 & Hg2 & Ht2 & Hs2 & Ha2).
  exists (t1 ++ t2), (g1 ++ g2). split_and!.
  - change (hook_run h (ev :: evs)) with (hook_run (hook_step h ev) evs). by rewrite Hg2, Hg1, app_assoc.
  - rewrite <-app_assoc. change (foldl hook_step (hook_step h ev) evs) with (hook_run (hook_step h ev) evs).
    rewrite Ht2, app_assoc, Ht1. simpl. by rewrite app_nil_r, <-app_assoc.
  - by apply sublist_app.
  - intros [? ?]%Forall_cons. by rewrite Ha1, Ha2.
Qed.

(** The queue is bounded. *)
Lemma hook_run_bounded h evs : len (input h) ≤ cacheLimit → len (input (hook_run h evs)) ≤ cacheLimit.
Proof.
  revert h. induction evs as [|ev evs IH]; intros h Hh; [done|]. apply IH. destruct ev as [raw|ready|c|c|]; simpl; try done.
  - unfold Fire. destruct (ctx_done h), raw; try done. destruct (Z.ltb_spec (len (input h)) cacheLimit); [|done].
    simpl. rewrite length_app. simpl. lia.
  - destruct (ctx_done h); [done|]. destruct (input h) eqn:Ei; [by rewrite Ei|]. unfold hook_send. simpl in *.
    case_bool_decide; simpl; lia.
Qed.

(** ** Levels *)

(** The values the command line accepts. *)
Definition logLevel_choices : list string := ["debug"; "info"; "error"].

Section levels.
(** What is used of [logrus]: [ParseLevel] knows the names of the levels, [AllLevels] lists them all,
    and a logger writes the entries up to its level, to the standard output and to its hooks. *)
Context (ParseLevel : string → option Level) (AllLevels : list Level) (IsLevelEnabled : Level → Level → bool).
Context (ParseLevel_debug : ParseLevel "debug" = Some DebugLevel) (ParseLevel_info : ParseLevel "info" = Some InfoLevel)
  (ParseLevel_error : ParseLevel "error" = Some ErrorLevel).
Context (AllLevels_all : ∀ l, l ∈ AllLevels).
Context (IsLevelEnabled_rank : ∀ logger l, IsLevelEnabled logger l = (Level_rank l <=? Level_rank logger)).

(** The options, and where and how a log file is written. *)
Record LogOpts := {
  LogLevel : string;
  LogFile : string;
  LogFileFormat : string;
  LogFileRotate : bool;
  LogFileSize : Z;
  LogFileAge : Z;
  LogFileNumber : Z;
}.
Inductive log_writer := PlainFile (name : string) | RotatingFile (name : string) (MaxSize MaxBackups MaxAge : Z).
Inductive file_formatter := TextFile (f : Formatter) | JSONFormatter.

Definition getLogFileWriter (opts : LogOpts) : log_writer :=
  if LogFileRotate opts then RotatingFile (LogFile opts) (LogFileSize opts) (LogFileNumber opts) (LogFileAge opts)
  else PlainFile (LogFile opts).

Definition disableColors : bool := true.
Definition enableColors : bool := false.

Definition getLogFileFormatter (opts : LogOpts) : file_formatter :=
  if bool_decide (LogFileFormat opts = "text") then TextFile (newFormatter disableColors) else JSONFormatter.

Record logger := {
  lg_broker : BrokerHook;
  lg_file : option (log_writer * file_formatter);
  lg_level : Level;
  lg_formatter : Formatter;
  lg_reportCaller : bool;
}.

(** The level falls back to [info]; callers are reported below [info]. *)
Definition logger_level (logLevel : string) : Level := default InfoLevel (ParseLevel logLevel).
Definition report_caller (logLevel : string) : bool := Level_rank InfoLevel <? Level_rank (logger_level logLevel).

(** [log.Init]. *)
Definition log_Init (opts : LogOpts) : logger := {|
  lg_broker := SetBrokerFormatter (NewBrokerHook (LogLevel opts)) (Some (newFormatter disableColors));
  lg_file := if bool_decide (LogFile opts = "") then None else Some (getLogFileWriter opts, getLogFileFormatter opts);
  lg_level := logger_level (LogLevel opts);
  lg_formatter := newFormatter enableColors;
  lg_reportCaller := report_caller (LogLevel opts) |}.

Definition FallbackLogger : logger := log_Init
  {| LogLevel := ""; LogFile := ""; LogFileFormat := ""; LogFileRotate := false; LogFileSize := 0; LogFileAge := 0; LogFileNumber := 0 |}.

(** What the program logs reaches the broker, whatever level was chosen. *)
Lemma stream_carries_log opts l :
  LogLevel opts ∈ logLevel_choices → IsLevelEnabled (lg_level (log_Init opts)) l = true →
  l ∈ Levels AllLevels (lg_broker (log_Init opts)).
Proof using ParseLevel_debug ParseLevel_info ParseLevel_error AllLevels_all IsLevelEnabled_rank.
  unfold logLevel_choices, Levels, log_Init, logger_level. simpl. rewrite !elem_of_cons, elem_of_nil, IsLevelEnabled_rank.
  intros [->|[->|[->|[]]]]; rewrite ?ParseLevel_debug, ?ParseLevel_info, ?ParseLevel_error; simpl; intros Hl; [done|..];
    destruct l; try done; apply (bool_decide_unpack _); vm_compute; exact I.
Qed.
End levels.

(** ** The log of the database driver *)

Inductive pgx_level := PgxTrace | PgxDebug | PgxInfo | PgxWarn | PgxError | PgxNone | PgxOther (n : Z).

(** The values of a context that logging uses: a logger, by number, and the mark for expected errors. *)
Record log_ctx := { cx_logger : option nat; cx_suppress : option bool }.

Definition WithLogger (ctx : log_ctx) (l : nat) : log_ctx := {| cx_logger := Some l; cx_suppress := cx_suppress ctx |}.
Definition WithSuppressedPgxErrors (ctx : log_ctx) : log_ctx := {| cx_logger := cx_logger ctx; cx_suppress := Some true |}.
Definition pgxErrorsSuppressed (ctx : log_ctx) : bool := default false (cx_suppress ctx).
Definition GetLogger (fallback : nat) (ctx : log_ctx) : nat := default fallback (cx_logger ctx).

(** [PgxLogger.Log]: the logger, the level of the entry and the field that is added. *)
Definition PgxLogger_Log (own fallback : nat) (ctx : log_ctx) (level : pgx_level) : nat * Level * option string :=
  let logger := GetLogger fallback ctx in
  let logger := if bool_decide (logger = fallback) then own else logger in
  match level with
  | PgxTrace => (logger, DebugLevel, Some "PGX_LOG_LEVEL")
  | PgxDebug | PgxInfo => (logger, DebugLevel, None)
  | PgxWarn => (logger, WarnLevel, None)
  | PgxError => (logger, if pgxErrorsSuppressed ctx then DebugLevel else ErrorLevel, None)
  | _ => (logger, ErrorLevel, Some "INVALID_PGX_LOG_LEVEL")
  end.

(** Suppressing changes the entries for failed statements and no others; they are still written, by the same logger. *)
Lemma suppressed_entries own fallback ctx level :
  PgxLogger_Log own fallback (WithSuppressedPgxErrors ctx) level =
  match level with
  | PgxError => ((PgxLogger_Log own fallback ctx level).1.1, DebugLevel, None)
  | _ => PgxLogger_Log own fallback ctx level
  end.
Proof. by destruct level. Qed.

(** The adaptor never writes to the fallback logger. *)
Lemma never_fallback own fallback ctx level : own ≠ fallback → (PgxLogger_Log own fallback ctx level).1.1 ≠ fallback.
Proof. intros Hne. unfold PgxLogger_Log. case_bool_decide; by destruct level. Qed.

(** *** Witness *)

Definition ready_all (_ : nat) : bool := true.

Lemma broker_delivers_witness :
  let h := AddSubscriber (AddSubscriber (NewBrokerHook "info") 0) 1 in
  let evs := [EvFire (Ok "a"); EvFire (Ok "b"); EvPoll ready_all; EvRemove 0; EvPoll ready_all; EvFire (Ok "c")] in
  let h' := hook_run h evs in
  (got h' 1, got h' 0, input h') = (["a"; "b"], ["a"], ["c"]) ∧
  ∃ taken given, got h' 1 = got h 1 ++ given ∧ taken ++ input h' = input h ++ accepted h evs ∧
    given `sublist_of` taken ∧ (Forall (attentive 1) evs → given = taken).
Proof.
  split; [vm_compute; reflexivity|]. apply broker_delivers; [|done|].
  - exists [0%nat], []. split_and!; [done|set_solver|set_solver].
  - repeat constructor; done.
Defined.
