(* ===== verification/LogStream.v ===== *)
(** * The log stream of the web server ([internal/webserver/wslog.go])

    A client opens a web socket; one goroutine subscribes to the broker of [Logging] and writes its messages and pings
    to the socket, another reads from the socket to learn that it was closed.  Whichever ends closes the socket.
    Here all sessions and the broker run together: a step is a step of the broker or of one goroutine, the
    environment chooses which, and which operations on sockets succeed.  A message is handed over only to a writer
    that waits for one, and a writer that has just subscribed or written may be late for it.

    The theorem shows that a session is subscribed exactly while its writer runs, that the client gets messages of the log in order and each
    at most once, and that both goroutines end, within a bounded number of steps, when the socket is closed. *)

From S2P Require Import Prelude GoStrings Metrics Logging.
From stdpp Require Import options.

(** ** Sessions *)

Inductive frame := TextMessage (msg : string) | PingMessage.
Definition text (f : frame) : option string := match f with TextMessage msg => Some msg | PingMessage => None end.

(** Where the goroutines are.  The deferred calls of [writer] run in two steps: it unsubscribes and then closes the socket. *)
Inductive writer_state := WStart | WWaiting | WWriting (f : frame) | WUnsubscribing | WClosing | WEnded.
Inductive reader_state := RStart | RReading | RClosing | REnded.

(** A session; [ss_sent] is what was written to the socket, [ss_failed] the frame that could not be. *)
Record session := Session {
  ss_writer : writer_state;
  ss_reader : reader_state;
  ss_open : bool;
  ss_done : bool;
  ss_sent : list frame;
  ss_failed : option frame;
}.

Definition set_writer (s : session) (w : writer_state) : session :=
  Session w (ss_reader s) (ss_open s) (ss_done s) (ss_sent s) (ss_failed s).
Definition set_reader (s : session) (r : reader_state) : session :=
  Session (ss_writer s) r (ss_open s) (ss_done s) (ss_sent s) (ss_failed s).
Definition close_socket (s : session) : session :=
  Session (ss_writer s) (ss_reader s) false (ss_done s) (ss_sent s) (ss_failed s).
Definition close_done (s : session) : session :=
  Session (ss_writer s) (ss_reader s) (ss_open s) true (ss_sent s) (ss_failed s).

Inductive session_label :=
  | PingTick                  (* the ticker of [writer] *)
  | WriteFrame (ok : bool)    (* deadline and write *)
  | SeeDone
  | CloseWriter
  | SetReadDeadline (ok : bool)
  | ReadMessage (ok : bool)
  | CloseReader.

(** [writer]. *)
Definition writer_step (l : session_label) (s : session) : option session :=
  match l, ss_writer s with
  | PingTick, WWaiting => Some (set_writer s (WWriting PingMessage))
  | WriteFrame ok, WWriting f =>
      Some (if ok && ss_open s
            then Session WWaiting (ss_reader s) (ss_open s) (ss_done s) (ss_sent s ++ [f]) (ss_failed s)
            else Session WUnsubscribing (ss_reader s) (ss_open s) (ss_done s) (ss_sent s) (Some f))
  | SeeDone, WWaiting => if ss_done s then Some (set_writer s WUnsubscribing) else None
  | CloseWriter, WClosing => Some (close_socket (set_writer s WEnded))
  | _, _ => None
  end.

(** [reader]; if the deadline cannot be set it returns without closing [done]. *)
Definition reader_step (l : session_label) (s : session) : option session :=
  match l, ss_reader s with
  | SetReadDeadline ok, RStart => Some (set_reader s (if ok then RReading else RClosing))
  | ReadMessage ok, RReading => Some (if ok && ss_open s then s else close_done (set_reader s RClosing))
  | CloseReader, RClosing => Some (close_socket (set_reader s REnded))
  | _, _ => None
  end.

Definition session_step (l : session_label) (s : session) : option session :=
  match l with
  | PingTick | WriteFrame _ | SeeDone | CloseWriter => writer_step l s
  | _ => reader_step l s
  end.

(** ** All sessions and the broker *)

(** A session has the number of its channel. *)
Record hub := Hub { hb_broker : BrokerHook; hb_sessions : gmap nat session }.

Definition new_session : session := Session WStart RStart true false [] None.

(** [serveWsLog]: the status of the reply if there is no stream. *)
Definition serveWsLog (upgrade : option error) (id : nat) (h : hub) : hub * option Z :=
  match upgrade with
  | Some _ => (h, Some 400%Z)
  | None => (Hub (hb_broker h) (<[id := new_session]> (hb_sessions h)), None)
  end.

Definition waiting (h : hub) (id : nat) : bool :=
  match hb_sessions h !! id with Some (Session WWaiting _ _ _ _ _) => true | _ => false end.

(** A writer that is about to wait may be [late]. *)
Definition receptive (h : hub) (late : nat → bool) (id : nat) : bool := waiting h id && negb (late id).

Definition hand_over (h : hub) (late : nat → bool) (msg : string) (id : nat) (s : session) : session :=
  if receptive h late id && bool_decide (id ∈ subscribers (hb_broker h)) then set_writer s (WWriting (TextMessage msg)) else s.

Inductive hub_label :=
  | LogEntry (raw : result string)
  | Broadcast (late : nat → bool)
  | Connect (id : nat) (upgrade : option error)
  | Subscribe (id : nat)
  | Unsubscribe (id : nat)
  | Do (id : nat) (l : session_label).

Definition hub_step (l : hub_label) (h : hub) : option hub :=
  match l with
  | LogEntry raw => Some (Hub (Fire (hb_broker h) raw).1 (hb_sessions h))
  | Broadcast late =>
      match input (hb_broker h) with
      | [] => None
      | msg :: _ => Some (Hub (hook_step (hb_broker h) (EvPoll (receptive h late)))
                              (map_imap (λ id s, Some (hand_over h late msg id s)) (hb_sessions h)))
      end
  | Connect id upgrade =>
      match hb_sessions h !! id with Some _ => None | None => Some (serveWsLog upgrade id h).1 end
  | Subscribe id =>
      s ← hb_sessions h !! id;
      match ss_writer s with
      | WStart => Some (Hub (AddSubscriber (hb_broker h) id) (<[id := set_writer s WWaiting]> (hb_sessions h)))
      | _ => None
      end
  | Unsubscribe id =>
      s ← hb_sessions h !! id;
      match ss_writer s with
      | WUnsubscribing => Some (Hub (RemoveSubscriber (hb_broker h) id) (<[id := set_writer s WClosing]> (hb_sessions h)))
      | _ => None
      end
  | Do id l =>
      s ← hb_sessions h !! id; s' ← session_step l s;
      Some (Hub (hb_broker h) (<[id := s']> (hb_sessions h)))
  end.

(** The entries that the broker accepts. *)
Definition logged (l : hub_label) (h : hub) : list string :=
  match l with
  | LogEntry (Ok raw) => if (len (input (hb_broker h)) <? cacheLimit)%Z then [raw] else []
  | _ => []
  end.

Inductive reach (level : string) : hub → list string → Prop :=
  | reach_start : reach level (Hub (NewBrokerHook level) ∅) []
  | reach_step l h log h' : reach level h log → hub_step l h = Some h' → reach level h' (log ++ logged l h).

(** ** The invariant *)

Definition subscribed (s : session) : bool :=
  match ss_writer s with WWaiting | WWriting _ | WUnsubscribing => true | _ => false end.

(** The message that the writer was given and has not written, or could not write. *)
Definition in_hand (s : session) : list string :=
  match ss_writer s with WWriting f => option_list (text f) | _ => [] end ++ option_list (ss_failed s ≫= text).

(** Whoever ended has closed the socket; a failed write is the last one. *)
Definition session_ok (s : session) : Prop :=
  (ss_writer s = WEnded ∨ ss_reader s = REnded → ss_open s = false) ∧
  match ss_writer s with
  | WStart => ss_sent s = [] ∧ ss_failed s = None
  | WWaiting | WWriting _ => ss_failed s = None
  | _ => True
  end.

Record hub_inv (h : hub) (log : list string) : Prop := {
  hi_running : ctx_done (hb_broker h) = false;
  hi_once : NoDup (subscribers (hb_broker h));
  hi_subscribed id : id ∈ subscribers (hb_broker h) ↔ ∃ s, hb_sessions h !! id = Some s ∧ subscribed s = true;
  hi_session id s : hb_sessions h !! id = Some s →
    session_ok s ∧ got (hb_broker h) id = omap text (ss_sent s) ++ in_hand s;
  hi_other id : hb_sessions h !! id = None → got (hb_broker h) id = [];
  hi_log : ∃ taken, taken ++ input (hb_broker h) = log ∧ ∀ id, got (hb_broker h) id `sublist_of` taken;
}.

(** Handing a message to the waiting subscribers. *)
Lemma poll_got b ready msg rest :
  ctx_done b = false → input b = msg :: rest → NoDup (subscribers b) →
  let b' := hook_step b (EvPoll ready) in
  ctx_done b' = false ∧ subscribers b' = subscribers b ∧ input b' = rest ∧
  ∀ id, got b' id = got b id ++ (if ready id && bool_decide (id ∈ subscribers b) then [msg] else []).
Proof.
  intros Hd Hi Hnd. simpl. rewrite Hd, Hi. unfold hook_send, got. simpl. case_bool_decide as Hs.
  { simpl. rewrite Hs, Hd. split_and!; [done..|]. intros id. rewrite (bool_decide_false (id ∈ [])) by set_solver.
    by rewrite andb_false_r, app_nil_r. }
  simpl. rewrite Hd. split_and!; [done..|]. intros id. case_bool_decide as Hin.
  - rewrite andb_true_r, deliver_got; [done|]. apply list_elem_of_split in Hin as (l & k & Heq). exists l, k. rewrite Heq in Hnd.
    apply NoDup_app in Hnd as (_ & Hl & Hk). apply NoDup_cons in Hk as [Hk _]. split_and!; [done| |done].
    intros H. by apply (Hl id H), list_elem_of_here.
  - by rewrite andb_false_r, app_nil_r, deliver_others.
Qed.

Lemma session_step_ok l s s' :
  session_step l s = Some s' → session_ok s →
  session_ok s' ∧ subscribed s' = subscribed s ∧ omap text (ss_sent s') ++ in_hand s' = omap text (ss_sent s) ++ in_hand s.
Proof.
  intros Hs [Hc Hok]. destruct s as [w r o d sent failed]. destruct l as [|ok| | |ok|ok|]; simpl in Hs; unfold writer_step, reader_step in Hs; simpl in Hs;
    [destruct w|destruct w|destruct w|destruct w|destruct r|destruct r|destruct r]; try done.
  - injection Hs as <-. unfold session_ok, subscribed, in_hand in *. simpl in *. naive_solver.
  - injection Hs as <-. simpl in Hok. subst failed. destruct (ok && o); unfold session_ok, subscribed, in_hand; simpl in *.
    + split_and!; [naive_solver|done|done|]. rewrite omap_app, !app_nil_r. destruct f; by rewrite ?app_nil_r.
    + split_and!; [naive_solver|done|done|]. destruct f; by rewrite ?app_nil_r.
  - destruct d; [|done]. injection Hs as <-. unfold session_ok, subscribed, in_hand in *. simpl in *. naive_solver.
  - injection Hs as <-. unfold session_ok, subscribed, in_hand in *. simpl in *. naive_solver.
  - injection Hs as <-. unfold session_ok, subscribed, in_hand in *. simpl in *. destruct ok, w; naive_solver.
  - injection Hs as <-. destruct (ok && o); [by split_and!|]. unfold session_ok, subscribed, in_hand in *. simpl in *. destruct w; naive_solver.
  - injection Hs as <-. unfold session_ok, subscribed, in_hand in *. simpl in *. destruct w; naive_solver.
Qed.

(** Steps that leave the broker alone and change one session as [session_step_ok] says. *)
Lemma inv_session h log id s s' :
  hub_inv h log → hb_sessions h !! id = Some s → session_ok s' → subscribed s' = subscribed s →
  omap text (ss_sent s') ++ in_hand s' = omap text (ss_sent s) ++ in_hand s →
  hub_inv (Hub (hb_broker h) (<[id := s']> (hb_sessions h))) log.
Proof.
  intros [Hr Ho Hs Hk Hn Hl] Hid Hok Hsub Hgot. split; simpl; [done|done| | | |done].
  - intros j. rewrite Hs. destruct (decide (j = id)) as [->|]; [|by rewrite lookup_insert_ne].
    rewrite lookup_insert_eq. naive_solver congruence.
  - intros j sj. destruct (decide (j = id)) as [->|]; [|rewrite lookup_insert_ne by done; apply Hk].
    rewrite lookup_insert_eq. intros [= <-]. rewrite Hgot. split; [done|]. by apply Hk.
  - intros j. destruct (decide (j = id)) as [->|]; [by rewrite lookup_insert_eq|]. rewrite lookup_insert_ne by done. apply Hn.
Qed.

Lemma entry_inv h log raw : hub_inv h log → hub_inv (Hub (Fire (hb_broker h) raw).1 (hb_sessions h)) (log ++ logged (LogEntry raw) h).
Proof.
  intros [Hr Ho Hs Hk Hn (taken & <- & Hsub)]. unfold Fire, logged. rewrite Hr.
  destruct raw as [raw|]; [destruct (_ <? _)%Z|]; simpl; (split; simpl; [done..|]); exists taken; rewrite <-?app_assoc, ?app_nil_r; done.
Qed.

Lemma broadcast_inv h log late msg rest :
  input (hb_broker h) = msg :: rest → hub_inv h log →
  hub_inv (Hub (hook_step (hb_broker h) (EvPoll (receptive h late)))
    (map_imap (λ id s, Some (hand_over h late msg id s)) (hb_sessions h))) log.
Proof.
  intros Hi [Hr Ho Hs Hk Hn (taken & Hlog & Hsub)].
  destruct (poll_got (hb_broker h) (receptive h late) msg rest Hr Hi Ho) as (Hr' & Hsubs & Hin & Hgot).
  assert (∀ id, map_imap (λ id s, Some (hand_over h late msg id s)) (hb_sessions h) !! id = hand_over h late msg id <$> hb_sessions h !! id) as Hl.
  { intros id. rewrite map_lookup_imap. by destruct (_ !! id). }
  assert (∀ id s, hb_sessions h !! id = Some s → subscribed (hand_over h late msg id s) = subscribed s) as Hhand.
  { intros id s Hid. unfold hand_over, receptive, waiting. rewrite Hid. destruct s as [[] ? ? ? ? ?]; simpl; try done. destruct (late id); simpl; [done|]. by case_bool_decide. }
  split; cbn [hb_broker hb_sessions]; [done|by rewrite Hsubs| | | |].
  - intros id. rewrite Hsubs, Hs, Hl. split.
    + intros (s & Hid & Hsb). rewrite Hid. eexists. split; [done|]. by rewrite Hhand.
    + intros (s' & Hid & Hsb). destruct (hb_sessions h !! id) as [s|] eqn:E; [|done]. injection Hid as <-. rewrite Hhand in Hsb by done. eauto.
  - intros id s'. rewrite Hl. destruct (hb_sessions h !! id) as [s|] eqn:E; [|done]. intros [= <-].
    destruct (Hk id s E) as [Hok Hg]. rewrite Hgot, Hg. unfold hand_over. destruct (receptive h late id && bool_decide _) eqn:Ew; [|by rewrite app_nil_r].
    apply andb_prop in Ew as [[Ew _]%andb_prop _]. unfold waiting in Ew. rewrite E in Ew. destruct s as [[] r o d sent failed]; try done.
    destruct Hok as [Hc Hok]. simpl in Hok. subst failed. unfold session_ok, in_hand. simpl in *. rewrite !app_nil_r. naive_solver.
  - intros id. rewrite Hl, Hgot. destruct (hb_sessions h !! id) eqn:E; [done|]. intros _. rewrite Hn by done. unfold receptive, waiting. by rewrite E.
  - exists (taken ++ [msg]). split; [by rewrite Hin, <-app_assoc, <-Hlog, Hi|]. intros id. rewrite Hgot.
    apply sublist_app; [done|]. destruct (_ && _); [done|apply sublist_nil_l].
Qed.

Lemma connect_inv h log id : hub_inv h log → hb_sessions h !! id = None → hub_inv (Hub (hb_broker h) (<[id := new_session]> (hb_sessions h))) log.
Proof.
  intros [Hr Ho Hs Hk Hn Hl] Hid. split; simpl; [done|done| | | |done].
  - intros j. rewrite Hs. destruct (decide (j = id)) as [->|]; [|by rewrite lookup_insert_ne].
    rewrite lookup_insert_eq, Hid. split; intros (s & [= <-] & Hsb); done.
  - intros j sj. destruct (decide (j = id)) as [->|]; [|rewrite lookup_insert_ne by done; apply Hk].
    rewrite lookup_insert_eq. intros [= <-]. rewrite Hn by done. split; [|done]. split; [naive_solver|done].
  - intros j. destruct (decide (j = id)) as [->|]; [by rewrite lookup_insert_eq|]. rewrite lookup_insert_ne by done. apply Hn.
Qed.

(** The channel of a session comes and goes with its writer. *)
Lemma subscribe_inv h log id s :
  hub_inv h log → hb_sessions h !! id = Some s → ss_writer s = WStart →
  hub_inv (Hub (AddSubscriber (hb_broker h) id) (<[id := set_writer s WWaiting]> (hb_sessions h))) log.
Proof.
  intros [Hr Ho Hs Hk Hn Hl] Hid Hw. destruct (Hk id s Hid) as [[Hc Hok] Hg]. rewrite Hw in Hok. destruct Hok as [Hsent Hfail].
  split; simpl; [done| | | | |done].
  - apply NoDup_app. split; [done|]. split; [|apply NoDup_singleton]. intros j Hj ->%list_elem_of_singleton.
    apply Hs in Hj as (s0 & Hid' & Hsb). rewrite Hid in Hid'. injection Hid' as <-. unfold subscribed in Hsb. by rewrite Hw in Hsb.
  - intros j. rewrite elem_of_app, list_elem_of_singleton, Hs. destruct (decide (j = id)) as [->|]; [|rewrite lookup_insert_ne by done; naive_solver].
    rewrite lookup_insert_eq. split; [intros _; by eexists|by right].
  - intros j sj. destruct (decide (j = id)) as [->|]; [|rewrite lookup_insert_ne by done; apply Hk].
    rewrite lookup_insert_eq. intros [= <-]. change (got (AddSubscriber (hb_broker h) id) id) with (got (hb_broker h) id). rewrite Hg.
    unfold session_ok, in_hand. rewrite Hw. simpl. naive_solver.
  - intros j. destruct (decide (j = id)) as [->|]; [by rewrite lookup_insert_eq|]. rewrite lookup_insert_ne by done. apply Hn.
Qed.

Lemma unsubscribe_inv h log id s :
  hub_inv h log → hb_sessions h !! id = Some s → ss_writer s = WUnsubscribing →
  hub_inv (Hub (RemoveSubscriber (hb_broker h) id) (<[id := set_writer s WClosing]> (hb_sessions h))) log.
Proof.
  intros [Hr Ho Hs Hk Hn Hl] Hid Hw. destruct (Hk id s Hid) as [[Hc Hok] Hg]. split; simpl; [done| | | | |done].
  - by apply NoDup_filter.
  - intros j. rewrite list_elem_of_filter, Hs. destruct (decide (j = id)) as [->|]; [|rewrite lookup_insert_ne by done; naive_solver].
    rewrite lookup_insert_eq. split; [naive_solver|]. by intros (s' & [= <-] & Hsb).
  - intros j sj. destruct (decide (j = id)) as [->|]; [|rewrite lookup_insert_ne by done; apply Hk].
    rewrite lookup_insert_eq. intros [= <-]. change (got (RemoveSubscriber (hb_broker h) id) id) with (got (hb_broker h) id). rewrite Hg.
    unfold session_ok, in_hand. rewrite Hw. simpl. naive_solver.
  - intros j. destruct (decide (j = id)) as [->|]; [by rewrite lookup_insert_eq|]. rewrite lookup_insert_ne by done. apply Hn.
Qed.

Lemma hub_reach_inv level h log : reach level h log → hub_inv h log.
Proof.
  induction 1 as [|l h log h' _ IH Hstep].
  { split; simpl; [done|apply NoDup_nil_2|..]; try done; [|by exists []].
    intros id. split; [intros []%not_elem_of_nil|by intros (s & ? & _)]. }
  assert ((∀ raw, l ≠ LogEntry raw) → logged l h = []) as Hlog by (destruct l; naive_solver).
  destruct l as [raw|late|id upgrade|id|id|id l]; cbn [hub_step] in Hstep; [injection Hstep as <-; by apply entry_inv|rewrite Hlog, app_nil_r by done..].
  - destruct (input (hb_broker h)) as [|msg rest] eqn:E; [done|]. injection Hstep as <-. by apply (broadcast_inv h log late msg rest).
  - destruct (hb_sessions h !! id) eqn:E; [done|]. injection Hstep as <-. destruct upgrade; simpl; [by destruct h|by apply connect_inv].
  - destruct (hb_sessions h !! id) as [s|] eqn:E; [|done]. simpl in Hstep. destruct (ss_writer s) eqn:Ew; try done.
    injection Hstep as <-. by apply subscribe_inv.
  - destruct (hb_sessions h !! id) as [s|] eqn:E; [|done]. simpl in Hstep. destruct (ss_writer s) eqn:Ew; try done.
    injection Hstep as <-. by apply unsubscribe_inv.
  - destruct (hb_sessions h !! id) as [s|] eqn:E; [|done]. simpl in Hstep. destruct (session_step l s) as [s'|] eqn:Es; [|done].
    injection Hstep as <-. destruct (session_step_ok l s s' Es) as (? & ? & ?); [by eapply hi_session|]. by eapply inv_session.
Qed.

(** ** A closed socket ends both goroutines *)

Definition weight (s : session) : nat :=
  (match ss_writer s with WStart => 5 | WWaiting => 4 | WWriting _ => 3 | WUnsubscribing => 2 | WClosing => 1 | WEnded => 0 end) +
  (match ss_reader s with RStart => 3 | RReading => 2 | RClosing => 1 | REnded => 0 end).

(** The steps that are those of session [id]. *)
Definition of_session (id : nat) (l : hub_label) : Prop :=
  match l with Subscribe i | Unsubscribe i | Do i _ => i = id | _ => False end.

Lemma closed_step l s s' :
  session_step l s = Some s' → ss_open s = false → ss_open s' = false ∧ weight s' < weight s.
Proof.
  intros Hs Ho. destruct s as [w r o d sent failed]. simpl in Ho. subst o.
  destruct l as [|ok| | |ok|ok|]; simpl in Hs; unfold writer_step, reader_step in Hs; simpl in Hs; rewrite ?andb_false_r in Hs;
    [destruct w|destruct w|destruct w|destruct w|destruct r|destruct r|destruct r]; try done; try (destruct d; [|done]);
    injection Hs as <-; unfold weight; simpl; try (destruct ok; simpl); lia.
Qed.

Lemma closed_hub_step l h h' id s :
  hub_step l h = Some h' → hb_sessions h !! id = Some s → ss_open s = false →
  ∃ s', hb_sessions h' !! id = Some s' ∧ ss_open s' = false ∧ weight s' ≤ weight s ∧ (of_session id l → weight s' < weight s).
Proof.
  intros Hstep Hid Ho. destruct l as [raw|late|i upgrade|i|i|i l]; simpl in Hstep.
  - injection Hstep as <-. exists s. simpl. by split_and!.
  - destruct (input (hb_broker h)) as [|msg rest]; [done|]. injection Hstep as <-. exists (hand_over h late msg id s). simpl.
    rewrite map_lookup_imap, Hid. split; [done|]. unfold hand_over, receptive, waiting. rewrite Hid.
    destruct s as [[] r o d sent failed]; simpl; try by split_and!. destruct (late id); simpl; [by split_and!|]. case_bool_decide; unfold weight; simpl in *; split_and!; done || lia.
  - destruct (hb_sessions h !! i) eqn:E; [done|]. injection Hstep as <-. exists s. destruct upgrade; simpl; [by split_and!|].
    rewrite lookup_insert_ne by congruence. by split_and!.
  - destruct (hb_sessions h !! i) as [si|] eqn:E; [|done]. simpl in Hstep. destruct (ss_writer si) eqn:Ew; try done. injection Hstep as <-. simpl.
    destruct (decide (i = id)) as [->|]; [|exists s; rewrite lookup_insert_ne by done; by split_and!].
    rewrite Hid in E. injection E as <-. eexists. rewrite lookup_insert_eq. split; [done|]. unfold weight. rewrite Ew. simpl. split_and!; done || lia.
  - destruct (hb_sessions h !! i) as [si|] eqn:E; [|done]. simpl in Hstep. destruct (ss_writer si) eqn:Ew; try done. injection Hstep as <-. simpl.
    destruct (decide (i = id)) as [->|]; [|exists s; rewrite lookup_insert_ne by done; by split_and!].
    rewrite Hid in E. injection E as <-. eexists. rewrite lookup_insert_eq. split; [done|]. unfold weight. rewrite Ew. simpl. split_and!; done || lia.
  - destruct (hb_sessions h !! i) as [si|] eqn:E; [|done]. simpl in Hstep. destruct (session_step l si) as [s'|] eqn:Es; [|done].
    injection Hstep as <-. simpl. destruct (decide (i = id)) as [->|]; [|exists s; rewrite lookup_insert_ne by done; by split_and!].
    rewrite Hid in E. injection E as <-. destruct (closed_step l s s' Es Ho). exists s'. rewrite lookup_insert_eq. split_and!; done || lia.
Qed.

Lemma closed_progress h log id s :
  hub_inv h log → hb_sessions h !! id = Some s → ss_open s = false → 0 < weight s →
  ∃ l h', of_session id l ∧ hub_step l h = Some h'.
Proof.
  intros Hinv Hid Ho Hw. destruct s as [w r o d sent failed]. simpl in Ho. subst o.
  destruct r; [eexists (Do id (SetReadDeadline false)), _|eexists (Do id (ReadMessage false)), _|eexists (Do id CloseReader), _|];
    try (split; [done|]; simpl; rewrite Hid; reflexivity).
  destruct w; [eexists (Subscribe id), _|eexists (Do id PingTick), _|eexists (Do id (WriteFrame false)), _|eexists (Unsubscribe id), _|
    eexists (Do id CloseWriter), _|by unfold weight in Hw; simpl in Hw; lia]; (split; [done|]; simpl; rewrite Hid; reflexivity).
Qed.

(** C40.  The log stream.  In every run of the broker and of any number of sessions: a session is subscribed exactly while its
    writer has not left, and once; what was written to its socket, with the message the writer has in hand or could not write, are
    messages of the log, in order and each at most once.  When one of its goroutines has ended the socket is closed; and with a closed socket both end: no step
    opens it again or moves them away from the end, each of their own steps brings them closer, and there is one as long as
    one of them runs.  Then nothing is left of the session in the broker. *)
Theorem log_stream level h log :
  reach level h log →
  NoDup (subscribers (hb_broker h)) ∧
  (∀ id, id ∈ subscribers (hb_broker h) ↔ ∃ s, hb_sessions h !! id = Some s ∧ subscribed s = true) ∧
  ∃ taken, taken ++ input (hb_broker h) = log ∧
  ∀ id s, hb_sessions h !! id = Some s →
    omap text (ss_sent s) ++ in_hand s `sublist_of` taken ∧
    (ss_writer s = WEnded ∨ ss_reader s = REnded → ss_open s = false) ∧
    (ss_open s = false →
     (∀ l h', hub_step l h = Some h' → ∃ s', hb_sessions h' !! id = Some s' ∧ ss_open s' = false ∧ weight s' ≤ weight s ∧
                                             (of_session id l → weight s' < weight s)) ∧
     (0 < weight s → ∃ l h', of_session id l ∧ hub_step l h = Some h') ∧
     (weight s = 0 → ss_writer s = WEnded ∧ ss_reader s = REnded ∧ id ∉ subscribers (hb_broker h))).
Proof.
  intros Hr%hub_reach_inv. destruct (hi_log _ _ Hr) as (taken & Hl & Hsub). split_and!; [apply Hr..|]. exists taken. split; [done|].
  intros id s Hid. destruct (hi_session _ _ Hr id s Hid) as [[Hc _] Hg]. split_and!; [by rewrite <-Hg|done|]. intros Ho. split_and!.
  - intros l h' Hs. by eapply closed_hub_step.
  - intros Hw. by eapply closed_progress.
  - intros Hw. rewrite (hi_subscribed _ _ Hr). destruct s as [[] [] ? ? ? ?]; try by unfold weight in Hw; simpl in Hw; lia.
    split_and!; [done..|]. rewrite Hid. by intros (s & [= <-] & ?).
Qed.

(** A client reads one message and goes away: the reader notices, and the writer leaves. *)
Definition sample_run : list hub_label :=
  [Connect 0 None; Do 0 (SetReadDeadline true); Subscribe 0; LogEntry (Ok "a"); LogEntry (Ok "b"); Broadcast (λ _, false); Broadcast (λ _, false);
   Do 0 (WriteFrame true); LogEntry (Ok "c"); Do 0 (ReadMessage false); Do 0 CloseReader].
Definition hub_run (ls : list hub_label) (h : hub) : option hub := foldl (λ h l, h ≫= hub_step l) (Some h) ls.

Lemma reach_run level ls h log :
  reach level h log → ∀ h', hub_run ls h = Some h' → ∃ log', reach level h' log'.
Proof.
  assert (∀ ks, foldl (λ h l, h ≫= hub_step l) None ks = None) as Hnone by (intros ks; by induction ks).
  revert h log. unfold hub_run. induction ls as [|l ls IH]; intros h log Hr h'; simpl; [intros [= <-]; eauto|].
  destruct (hub_step l h) as [h1|] eqn:E; [|by rewrite Hnone]. apply (IH h1 (log ++ logged l h)). by eapply reach_step.
Qed.

Lemma sample_run_ends : ∃ h s, hub_run sample_run (Hub (NewBrokerHook "info") ∅) = Some h ∧ hb_sessions h !! 0 = Some s ∧
  ss_sent s = [TextMessage "a"] ∧ ss_open s = false ∧ weight s = 4 ∧ ss_done s = true.
Proof. do 2 eexists. vm_compute. by split_and!. Qed.

Lemma log_stream_witness : ∃ h log s, reach "info" h log ∧ hb_sessions h !! 0 = Some s ∧ ss_sent s = [TextMessage "a"] ∧
  ∃ l h', of_session 0 l ∧ hub_step l h = Some h'.
Proof.
  destruct sample_run_ends as (h & s & Hrun & Hs & Hsent & Ho & Hw & _).
  destruct (reach_run "info" sample_run _ [] (reach_start "info") h Hrun) as [log Hr].
  destruct (log_stream "info" h log Hr) as (_ & _ & taken & _ & H). exists h, log, s. split; [done|]. split; [done|]. split; [done|].
  destruct (H 0 s Hs) as (_ & _ & Hend). destruct (Hend Ho) as (_ & Hp & _). apply Hp. rewrite Hw. lia.
Defined.
