(* ===== verification/ConfigSchema.v ===== *)
(** * The schema of the configuration database ([internal/metrics/postgres_schema.go], [postgres_schema.sql])

    The schema is created, with the default definitions, in one transaction; later versions change
    it by migrations.  The library that runs the pending migrations is not part of the program; a
    migration is a function on the tables, which runs in a transaction.

    The theorems show that the set-up is all or nothing and does nothing to a schema that is there;
    that the migration to separate recommendation metrics can be repeated and does to metrics and
    sources what it says; and that it does not do so to presets, because the trigger that keeps
    presets in step with metrics runs first. *)

From S2P Require Import Prelude GoStrings Metrics Sources Changes SourceStores MetricStore.
From stdpp Require Import options.

Local Open Scope Z_scope.

(** ** Tables *)

(** The schema [pgwatch]: metrics and presets, sources, the recorded migrations, and the kinds of
    source that the check constraint admits. *)
Record config_schema := {
  cs_defs : metric_db;
  cs_sources : gmap string source_row;
  cs_migrations : list string;
  cs_dbtypes : list string;
}.

Definition with_defs (s : config_schema) (d : metric_db) : config_schema := {|
  cs_defs := d; cs_sources := cs_sources s; cs_migrations := cs_migrations s; cs_dbtypes := cs_dbtypes s |}.
Definition with_sources (s : config_schema) (t : gmap string source_row) : config_schema := {|
  cs_defs := cs_defs s; cs_sources := t; cs_migrations := cs_migrations s; cs_dbtypes := cs_dbtypes s |}.

Definition dbtypes : list string :=
  ["postgres"; "pgbouncer"; "postgres-continuous-discovery"; "patroni"; "pgpool"; "prometheus"].

(** What [postgres_schema.sql] creates. *)
Definition sqlConfigSchema (order : range_order) (fails : string → option error) : config_schema := {|
  cs_defs := MetricDb ∅ ∅ ∅ order fails; cs_sources := ∅;
  cs_migrations := ["00179 Apply metrics migrations for v3";
                    "00824 Refactor recommendations metrics to use metric_storage_name";
                    "01405 Add prometheus to source dbtype check constraint"];
  cs_dbtypes := dbtypes |}.

(** ** Set-up *)

Section init.
Context (order : range_order) (fails : string → option error) (GetDefaultMetrics : Metrics).

(** [db.DoesSchemaExist]: a database without the schema is [None]. *)
Definition DoesSchemaExist (db : option config_schema) : result bool :=
  match fails "schema exists" with Some e => Err e | None => Ok (bool_decide (is_Some db)) end.

(** [initSchema], with the deferred rollback: what an open transaction did is dropped on an error. *)
Definition initSchema (db : option config_schema) : option config_schema * option error :=
  match DoesSchemaExist db with
  | Err e => (db, Some e)
  | Ok true => (db, None)
  | Ok false =>
      match fails "begin schema" with
      | Some e => (db, Some e)
      | None =>
          match fails "create schema" with
          | Some e => (db, Some e)
          | None =>
              let tx := sqlConfigSchema order fails in
              match writeMetricsToPostgres (cs_defs tx) GetDefaultMetrics with
              | (_, Some e) => (db, Some e)
              | (defs, None) =>
                  match fails "commit schema" with
                  | Some e => (db, Some e)
                  | None => (Some (with_defs tx defs), None)
                  end
              end
          end
      end
  end.

Definition EnsureConfigSchema := initSchema.
End init.

(** ** Migrations *)

Definition reco_metrics : gmap string Z := {[
  "reco_add_index" := 43200; "reco_default_public_schema" := 50400; "reco_disabled_triggers" := 57600;
  "reco_drop_index" := 64800; "reco_nested_views" := 72000; "reco_partial_index_candidates" := 79200;
  "reco_sprocs_wo_search_path" := 86400; "reco_superusers" := 93600 ]}.

Definition placeholder : string := "recommendations".

(** [name LIKE 'reco_%']: the underscore stands for any character. *)
Definition like_reco (name : string) : bool :=
  match cut_prefix "reco" name with Some (String _ _) => true | _ => false end.

Definition set_storage (m : Metric) (s : string) : Metric := {|
  SQLs := SQLs m; InitSQL := InitSQL m; NodeStatus := NodeStatus m; Gauges := Gauges m;
  IsInstanceLevel := IsInstanceLevel m; StorageName := s; Description := Description m |}.

(** [metrics - 'recommendations' || reco_metrics], if the placeholder is there. *)
Definition replace_placeholder (ms : gmap string Z) : gmap string Z :=
  match ms !! placeholder with Some _ => reco_metrics ∪ delete placeholder ms | None => ms end.

Definition migrate_metric (name : string) (m : Metric) : Metric :=
  if like_reco name && bool_decide (StorageName m = "") then set_storage m placeholder else m.

Definition set_pr_metrics (r : preset_row) (ms : gmap string Z) : preset_row :=
  {| pr_description := pr_description r; pr_metrics := ms |}.

Definition migrate_preset (name : string) (r : preset_row) : preset_row :=
  if bool_decide (name = "exhaustive" ∨ name = "full") then set_pr_metrics r (replace_placeholder (pr_metrics r)) else r.

Definition set_configs (r : source_row) (c cs : option (gmap string Z)) : source_row := {|
  r_name := r_name r; r_group := r_group r; r_dbtype := r_dbtype r; r_connstr := r_connstr r;
  r_config := c; r_config_standby := cs; r_preset_config := r_preset_config r;
  r_preset_config_standby := r_preset_config_standby r; r_include_pattern := r_include_pattern r;
  r_exclude_pattern := r_exclude_pattern r; r_custom_tags := r_custom_tags r;
  r_only_if_master := r_only_if_master r; r_is_enabled := r_is_enabled r |}.

Definition migrate_source (r : source_row) : source_row :=
  set_configs r (replace_placeholder <$> r_config r) (replace_placeholder <$> r_config_standby r).

(** The statement [DELETE FROM pgwatch.metric] and the trigger [update_preset] it fires. *)
Definition delete_metric_row (st : metric_db) (n : string) : metric_db :=
  match t_metric st !! n with
  | None => st
  | Some _ => with_preset (with_metric st (delete n (t_metric st)))
                ((λ r, set_pr_metrics r (delete n (pr_metrics r))) <$> t_preset st)
  end.

(** The statements of migration 00824, in their order. *)
Definition migration_00824 (s : config_schema) : config_schema :=
  let st := cs_defs s in
  let st := with_metric st (map_imap (λ n m, Some (migrate_metric n m)) (t_metric st)) in
  let st := delete_metric_row st placeholder in
  let st := with_preset st (map_imap (λ n r, Some (migrate_preset n r)) (t_preset st)) in
  let st := match t_preset st !! placeholder with
            | Some _ => st
            | None => with_preset st (<[placeholder := {| pr_description := "performance and security recommendations";
                                                           pr_metrics := reco_metrics |}]> (t_preset st))
            end in
  with_sources (with_defs s st) (migrate_source <$> cs_sources s).

(** Migration 01405 replaces the check constraint; it fails if a row violates the new one. *)
Definition migration_01405 (s : config_schema) : result config_schema :=
  if bool_decide (map_Forall (λ _ r, r_dbtype r ∈ dbtypes) (cs_sources s))
  then Ok {| cs_defs := cs_defs s; cs_sources := cs_sources s; cs_migrations := cs_migrations s; cs_dbtypes := dbtypes |}
  else Err (PgError "23514").

Definition MigrationsCount : Z := 3.

(** ** What they do *)

(** A new schema takes the default definitions, and holds exactly them. *)
Lemma write_defaults order fails defaults :
  (∀ s, fails s = None) → yaml_defs defaults →
  ∃ defs, writeMetricsToPostgres (cs_defs (sqlConfigSchema order fails)) defaults = (defs, None) ∧ db_defs defs = defaults.
Proof.
  intros Hf Hy. destruct (step_holds (MetricsStoreLaws := db_MetricsStoreLaws ∅) (cs_defs (sqlConfigSchema order fails))
    {| MetricDefs := ∅; PresetDefs := ∅ |} (McWrite defaults)) as [Hh He]; [by split_and!|done|].
  change ((writeMetricsToPostgres (cs_defs (sqlConfigSchema order fails)) defaults).2 = None) in He.
  change (db_mholds ∅ (writeMetricsToPostgres (cs_defs (sqlConfigSchema order fails)) defaults).1
    (db_write_over {| MetricDefs := ∅; PresetDefs := ∅ |} defaults)) in Hh.
  destruct (writeMetricsToPostgres _ defaults) as [defs err]. simpl in He. subst err. exists defs. split; [done|].
  destruct Hh as (_ & _ & Hd). simpl in Hd. rewrite Hd. unfold db_write_over. simpl. rewrite !map_union_empty. by destruct defaults.
Qed.


Lemma migrate_metric_twice n m : migrate_metric n (migrate_metric n m) = migrate_metric n m.
Proof.
  unfold migrate_metric. destruct (like_reco n); simpl; [|done].
  destruct (bool_decide (StorageName m = "")) eqn:E; [done|]. by rewrite E.
Qed.

Lemma replace_placeholder_gone ms : replace_placeholder ms !! placeholder = None.
Proof.
  unfold replace_placeholder. destruct (ms !! placeholder) eqn:E; [|done].
  rewrite lookup_union_None. split; [vm_compute; reflexivity|apply lookup_delete_eq].
Qed.

Lemma replace_placeholder_absent ms : ms !! placeholder = None → replace_placeholder ms = ms.
Proof. unfold replace_placeholder. by intros ->. Qed.

Lemma migrate_source_twice r : migrate_source (migrate_source r) = migrate_source r.
Proof.
  unfold migrate_source, set_configs. simpl. f_equal; [destruct (r_config r)|destruct (r_config_standby r)]; simpl;
    rewrite ?(replace_placeholder_absent (replace_placeholder _)) by apply replace_placeholder_gone; done.
Qed.

Lemma migrated_metrics s n :
  t_metric (cs_defs (migration_00824 s)) !! n =
  if decide (n = placeholder) then None else migrate_metric n <$> t_metric (cs_defs s) !! n.
Proof.
  unfold migration_00824. set (st1 := with_metric (cs_defs s) _). set (st2 := delete_metric_row st1 placeholder).
  assert (∀ p : gmap string preset_row, t_metric (match p !! placeholder with Some _ => with_preset st2 p
    | None => with_preset (with_preset st2 p) (<[placeholder := {| pr_description :=
        "performance and security recommendations"; pr_metrics := reco_metrics |}]> p) end) = t_metric st2) as H
    by (intros p; by destruct (p !! placeholder)).
  cbn [cs_defs with_sources with_defs]. etrans; [apply (f_equal (.!! n)), H|]. unfold st2, delete_metric_row.
  assert (t_metric st1 !! n = migrate_metric n <$> t_metric (cs_defs s) !! n) as H1.
  { unfold st1. simpl. rewrite map_lookup_imap. by destruct (_ !! n). }
  destruct (t_metric st1 !! placeholder) as [m|] eqn:E; simpl.
  - case_decide as Hn; [subst n; apply lookup_delete_eq|]. by rewrite lookup_delete_ne.
  - case_decide as Hn; [by subst n|done].
Qed.

(** The presets before the new one is added. *)
Lemma migrated_presets s n :
  n ≠ placeholder →
  t_preset (cs_defs (migration_00824 s)) !! n =
  (λ r, match t_metric (cs_defs s) !! placeholder with
        | Some _ => set_pr_metrics r (delete placeholder (pr_metrics r))
        | None => migrate_preset n r
        end) <$> t_preset (cs_defs s) !! n.
Proof.
  intros Hn. unfold migration_00824. set (st1 := with_metric (cs_defs s) _). set (st2 := delete_metric_row st1 placeholder).
  set (ps := map_imap _ (t_preset st2)). cbn [cs_defs with_sources with_defs].
  assert (t_preset (match t_preset (with_preset st2 ps) !! placeholder with Some _ => with_preset st2 ps
    | None => with_preset (with_preset st2 ps) (<[placeholder := {| pr_description :=
        "performance and security recommendations"; pr_metrics := reco_metrics |}]> (t_preset (with_preset st2 ps))) end) !! n =
    ps !! n) as ->.
  { simpl. destruct (ps !! placeholder); simpl; [done|]. by rewrite lookup_insert_ne. }
  unfold ps. rewrite map_lookup_imap. unfold st2, delete_metric_row.
  assert (t_metric st1 !! placeholder = migrate_metric placeholder <$> t_metric (cs_defs s) !! placeholder) as ->.
  { unfold st1. simpl. rewrite map_lookup_imap. by destruct (_ !! placeholder). }
  destruct (t_metric (cs_defs s) !! placeholder); simpl; [rewrite lookup_fmap|]; destruct (t_preset _ !! n) as [r|]; simpl;
    [|done..]. f_equal. unfold migrate_preset. case_bool_decide; [|done]. unfold set_pr_metrics. simpl.
  by rewrite replace_placeholder_absent by apply lookup_delete_eq.
Qed.

Lemma migrated_placeholder s :
  t_preset (cs_defs (migration_00824 s)) !! placeholder =
  Some (match t_preset (cs_defs s) !! placeholder with
        | Some r => match t_metric (cs_defs s) !! placeholder with
                    | Some _ => set_pr_metrics r (delete placeholder (pr_metrics r))
                    | None => r
                    end
        | None => {| pr_description := "performance and security recommendations"; pr_metrics := reco_metrics |}
        end).
Proof.
  unfold migration_00824. set (st1 := with_metric (cs_defs s) _). set (st2 := delete_metric_row st1 placeholder).
  set (ps := map_imap _ (t_preset st2)). cbn [cs_defs with_sources with_defs].
  assert (ps !! placeholder = (λ r, match t_metric (cs_defs s) !! placeholder with
    | Some _ => set_pr_metrics r (delete placeholder (pr_metrics r)) | None => r end) <$> t_preset (cs_defs s) !! placeholder) as Hp.
  { unfold ps. rewrite map_lookup_imap. unfold st2, delete_metric_row.
    assert (t_metric st1 !! placeholder = migrate_metric placeholder <$> t_metric (cs_defs s) !! placeholder) as ->.
    { unfold st1. simpl. rewrite map_lookup_imap. by destruct (_ !! placeholder). }
    destruct (t_metric (cs_defs s) !! placeholder); simpl; [rewrite lookup_fmap|]; by destruct (t_preset _ !! placeholder). }
  simpl. rewrite Hp. destruct (t_preset (cs_defs s) !! placeholder); simpl; [by rewrite Hp|by rewrite lookup_insert_eq].
Qed.

Lemma migrate_preset_twice n r : migrate_preset n (migrate_preset n r) = migrate_preset n r.
Proof.
  unfold migrate_preset. case_bool_decide; [|done]. unfold set_pr_metrics. simpl.
  by rewrite (replace_placeholder_absent (replace_placeholder _)) by apply replace_placeholder_gone.
Qed.

Lemma migrate_preset_pruned n r :
  migrate_preset n (set_pr_metrics r (delete placeholder (pr_metrics r))) =
  set_pr_metrics r (delete placeholder (pr_metrics r)).
Proof.
  unfold migrate_preset. case_bool_decide; [|done]. unfold set_pr_metrics. simpl.
  by rewrite replace_placeholder_absent by apply lookup_delete_eq.
Qed.

Lemma migrated_rest s :
  let s' := migration_00824 s in
  t_refs (cs_defs s') = t_refs (cs_defs s) ∧ t_order (cs_defs s') = t_order (cs_defs s) ∧
  t_fail (cs_defs s') = t_fail (cs_defs s) ∧ cs_migrations s' = cs_migrations s ∧ cs_dbtypes s' = cs_dbtypes s ∧
  cs_sources s' = migrate_source <$> cs_sources s.
Proof.
  unfold migration_00824, delete_metric_row. cbn [cs_defs with_sources with_defs cs_migrations cs_dbtypes cs_sources].
  destruct (t_metric _ !! placeholder); match goal with |- context [match ?x with Some _ => _ | None => _ end] => destruct x end;
    by split_and!.
Qed.

Lemma config_schema_ext s s' :
  (∀ n, t_metric (cs_defs s) !! n = t_metric (cs_defs s') !! n) →
  (∀ n, t_preset (cs_defs s) !! n = t_preset (cs_defs s') !! n) →
  t_refs (cs_defs s) = t_refs (cs_defs s') → t_order (cs_defs s) = t_order (cs_defs s') →
  t_fail (cs_defs s) = t_fail (cs_defs s') → cs_migrations s = cs_migrations s' → cs_dbtypes s = cs_dbtypes s' →
  cs_sources s = cs_sources s' → s = s'.
Proof.
  intros Hm%map_eq Hp%map_eq. destruct s as [[] ? ? ?], s' as [[] ? ? ?]. simpl in *. naive_solver congruence.
Qed.

(** Migration 00824 can be repeated: a second run changes nothing.  After it the placeholder
    metric is gone, metrics whose name matches the pattern and that had no storage name are stored as
    recommendations, and no source collects the placeholder: a source that did collects the eight
    recommendation metrics instead, and everything else as before. *)
Theorem migration_00824_effect s :
  let s' := migration_00824 s in
  migration_00824 s' = s' ∧
  (∀ n, t_metric (cs_defs s') !! n =
        if decide (n = placeholder) then None else migrate_metric n <$> t_metric (cs_defs s) !! n) ∧
  cs_sources s' = migrate_source <$> cs_sources s ∧
  map_Forall (λ _ r, default ∅ (r_config r) !! placeholder = None ∧
                     default ∅ (r_config_standby r) !! placeholder = None) (cs_sources s').
Proof.
  intros s'. destruct (migrated_rest s) as (H1 & H2 & H3 & H4 & H5 & H6).
  destruct (migrated_rest s') as (H1' & H2' & H3' & H4' & H5' & H6'). split_and!.
  - apply config_schema_ext; [| |done..|].
    + intros n. rewrite migrated_metrics. unfold s'. rewrite migrated_metrics. case_decide; [done|].
      rewrite <-option_fmap_compose. destruct (_ !! n); simpl; [|done]. by rewrite migrate_metric_twice.
    + assert (t_metric (cs_defs s') !! placeholder = None) as Hno.
      { unfold s'. by rewrite migrated_metrics, decide_True. }
      intros n. destruct (decide (n = placeholder)) as [->|Hn].
      * rewrite migrated_placeholder, Hno. unfold s'. by rewrite migrated_placeholder.
      * rewrite migrated_presets, Hno by done. unfold s'. rewrite migrated_presets by done.
        destruct (t_preset (cs_defs s) !! n); simpl; [|done]. f_equal.
        destruct (t_metric (cs_defs s) !! placeholder); [apply migrate_preset_pruned|apply migrate_preset_twice].
    + rewrite H6'. unfold s' at 1 2. rewrite H6, <-map_fmap_compose. apply map_fmap_ext. intros n r _.
      apply migrate_source_twice.
  - apply migrated_metrics.
  - done.
  - unfold s'. rewrite H6. intros n r. rewrite lookup_fmap_Some. intros (r0 & <- & _). simpl.
    split; [destruct (r_config r0)|destruct (r_config_standby r0)]; simpl; try done; apply replace_placeholder_gone.
Qed.

(** The presets, however: if the placeholder metric was in the database, then deleting it fires the
    trigger that removes it from every preset, before the statement that looks for presets with the
    placeholder runs.  So every preset only loses the placeholder, and none gains a recommendation
    metric, the presets [exhaustive] and [full] included. *)
Theorem migration_00824_presets s n r :
  is_Some (t_metric (cs_defs s) !! placeholder) → t_preset (cs_defs s) !! n = Some r →
  t_preset (cs_defs (migration_00824 s)) !! n = Some (set_pr_metrics r (delete placeholder (pr_metrics r))).
Proof.
  intros [m Hm] Hr. destruct (decide (n = placeholder)) as [->|Hn].
  - by rewrite migrated_placeholder, Hr, Hm.
  - by rewrite migrated_presets, Hr, Hm.
Qed.

(** The pattern also covers metrics that have nothing to do with recommendations. *)
Example like_reco_recovery : like_reco "recovery" = true ∧ like_reco "reco_add_index" = true ∧ like_reco "reco" = false.
Proof. done. Qed.

(** *** Witnesses *)

Definition old_schema : config_schema := {|
  cs_defs := MetricDb {["recommendations" := sql_metric "select 1"; "recovery" := sql_metric "select 2"]}
    {["full" := {| pr_description := "all"; pr_metrics := {["recommendations" := 3600; "wal" := 60]} |}]}
    {["full"]} tree_order (λ _, None);
  cs_sources := ∅; cs_migrations := ["00179 Apply metrics migrations for v3"]; cs_dbtypes := [] |}.

Lemma migration_00824_presets_witness :
  t_preset (cs_defs (migration_00824 old_schema)) !! "full" =
    Some (set_pr_metrics {| pr_description := "all"; pr_metrics := {["recommendations" := 3600; "wal" := 60]} |}
           (delete placeholder {["recommendations" := 3600; "wal" := 60]})).
Proof. apply migration_00824_presets; [apply (bool_decide_unpack _); vm_compute; exact I|reflexivity]. Defined.

(** Recovery statistics end up among the recommendations; the preset only keeps [wal]. *)
Example old_schema_migrated :
  let s := migration_00824 old_schema in
  (StorageName <$> t_metric (cs_defs s) !! "recovery", pr_metrics <$> t_preset (cs_defs s) !! "full") =
  (Some "recommendations", Some {["wal" := 60]}).
Proof. vm_compute. reflexivity. Qed.
