(* ===== verification/SinkAdmin.v ===== *)
(** * Set-up and maintenance of the measurements database ([internal/sinks/postgres.go], [sql/])

    [NewWriterFromPostgresConn] checks the intervals of the command line, installs the schema
    [admin] unless it is there, reads the kind of storage, creates a table for every built-in metric
    and starts the maintenance job, which drops old partitions.  The database answers what the
    intervals amount to; statements may fail.

    The theorems show that a set-up on an empty database that nothing disturbs installs every script,
    but that an interrupted one is never completed; that maintenance keeps every row that is younger
    than the retention, but that a retention of zero, which is meant to disable it, deletes
    every partition that has ended. *)

From S2P Require Import Prelude GoStrings Metrics Sinks CopySource PgSink.
From stdpp Require Import options.

Local Open Scope Z_scope.

(** ** The database *)

(** A time partition and its rows. *)
Record partition := { pt_table : string; pt_from : Z; pt_to : Z; pt_rows : list pgrow }.

(** The scripts that were installed, the kind of storage, the metric tables, the partitions. *)
Record measurements_db := {
  md_scripts : list string;
  md_timescale : bool;
  md_tables : gset string;
  md_parts : list partition;
}.

Definition set_scripts (db : measurements_db) (s : list string) : measurements_db := {|
  md_scripts := s; md_timescale := md_timescale db; md_tables := md_tables db; md_parts := md_parts db |}.
Definition set_tables (db : measurements_db) (t : gset string) : measurements_db := {|
  md_scripts := md_scripts db; md_timescale := md_timescale db; md_tables := t; md_parts := md_parts db |}.
Definition set_parts (db : measurements_db) (p : list partition) : measurements_db := {|
  md_scripts := md_scripts db; md_timescale := md_timescale db; md_tables := md_tables db; md_parts := p |}.

(** The first script creates the schema [admin]. *)
Definition metricSchemaSQLs : list string :=
  ["admin_schema"; "admin_functions"; "ensure_partition_postgres"; "ensure_partition_timescale";
   "change_chunk_interval"; "change_compression_interval"].

Definition admin_exists (db : measurements_db) : bool := bool_decide ("admin_schema" ∈ md_scripts db).

(** ** Set-up *)

Section setup.
(** The statements that fail, the connection attempts of [db.Init], the answer to the query for the
    intervals of the command line: the seconds of the retention and of the maintenance interval, and
    whether partitions span an hour or more. *)
Context (fails : string → option error) (connect : option error) (intervals : result (Z * Z * bool)).

(** Each script is sent on its own. *)
Fixpoint install (db : measurements_db) (sqls : list string) : measurements_db * option error :=
  match sqls with
  | [] => (db, None)
  | sql :: sqls =>
      match fails sql with
      | Some e => (db, Some e)
      | None => install (set_scripts db (md_scripts db ++ [sql])) sqls
      end
  end.

(** The common part of [init] and [NewPostgresSinkMigrator]. *)
Definition ensure_admin (db : measurements_db) : measurements_db * option error :=
  match fails "schema exists" with
  | Some e => (db, Some e)
  | None => if admin_exists db then (db, None) else install db metricSchemaSQLs
  end.

(** [init] returns the two intervals, in nanoseconds. *)
Definition sink_init (db : measurements_db) : measurements_db * result (Z * Z) :=
  match connect with
  | Some e => (db, Err e)
  | None =>
      match intervals with
      | Err e => (db, Err e)
      | Ok (retention_s, maintenance_s, isValidPartitionInterval) =>
          let retentionInterval := wrap64 (retention_s * time_Second) in
          let maintenanceInterval := wrap64 (maintenance_s * time_Second) in
          if negb isValidPartitionInterval
          then (db, Err (ErrorString "--partition-interval must be at least 1 hour"))
          else if maintenanceInterval <? 0
          then (db, Err (ErrorString "--maintenance-interval must be a positive PostgreSQL interval or 0 to disable it"))
          else if (retentionInterval <? time_Hour) && negb (retentionInterval =? 0)
          then (db, Err (ErrorString "--retention must be at least 1 hour PostgreSQL interval or 0 to disable it"))
          else
            match ensure_admin db with
            | (db, Some e) => (db, Err e)
            | (db, None) => (db, Ok (retentionInterval, maintenanceInterval))
            end
      end
  end.

Definition ReadMetricSchemaType (db : measurements_db) : DbStorageSchemaType * option error :=
  match fails "schema type" with
  | Some e => (DbStorageSchemaPostgres, Some e)
  | None => (if md_timescale db then DbStorageSchemaTimescale else DbStorageSchemaPostgres, None)
  end.

(** [admin.ensure_dummy_metrics_table]. *)
Definition EnsureMetricDummy (db : measurements_db) (metric : string) : measurements_db * option error :=
  match fails ("dummy " +:+ metric) with
  | Some e => (db, Some e)
  | None => (set_tables db ({[metric]} ∪ md_tables db), None)
  end.

(** Every metric is tried; the errors are joined one by one. *)
Fixpoint dummies (db : measurements_db) (names : list string) (err : option error) : measurements_db * option error :=
  match names with
  | [] => (db, err)
  | name :: names =>
      let '(db, e) := EnsureMetricDummy db name in
      dummies db names (errors_Join [err; e])
  end.

Definition EnsureBuiltinMetricDummies (db : measurements_db) (GetDefaultBuiltInMetrics : list string)
    : measurements_db * option error := dummies db GetDefaultBuiltInMetrics None.

(** The new writer and whether the maintenance job runs. *)
Definition NewWriterFromPostgresConn (db : measurements_db) (builtin : list string)
    : measurements_db * result (PostgresWriter unit * bool) :=
  match sink_init db with
  | (db, Err e) => (db, Err e)
  | (db, Ok (_, maintenanceInterval)) =>
      match ReadMetricSchemaType db with
      | (_, Some e) => (db, Err e)
      | (schema, None) =>
          match EnsureBuiltinMetricDummies db builtin with
          | (db, Some e) => (db, Err e)
          | (db, None) =>
              (db, Ok ({| sinkDb := tt; metricSchema := schema; forceRecreatePartitions := false;
                          partitionMapMetric := ∅ |}, 0 <? maintenanceInterval))
          end
      end
  end.

(** [opening] is the error of opening the pool. *)
Definition NewPostgresWriter (opening : option error) (db : measurements_db) (builtin : list string)
    : measurements_db * result (PostgresWriter unit * bool) :=
  match opening with Some e => (db, Err e) | None => NewWriterFromPostgresConn db builtin end.

Definition NewPostgresSinkMigrator (db : measurements_db) : measurements_db * option error :=
  match connect with Some e => (db, Some e) | None => ensure_admin db end.

(** ** Maintenance *)

(** [admin.drop_old_time_partitions]: the partitions that ended before the retention. *)
Definition old_partition (now older_than : Z) (p : partition) : bool := pt_to p <? now - older_than.

Definition drop_old_time_partitions (now older_than : Z) (db : measurements_db) : measurements_db * Z :=
  (set_parts db (filter (λ p, old_partition now older_than p = false) (md_parts db)),
   len (filter (λ p, old_partition now older_than p = true) (md_parts db))).

(** [DeleteOldPartitions] passes the option itself, [older_than] as an interval. *)
Definition DeleteOldPartitions (now older_than : Z) (db : measurements_db) : measurements_db :=
  match fails "drop partitions" with
  | Some _ => db
  | None => (drop_old_time_partitions now older_than db).1
  end.
End setup.

(** ** What set-up does *)

Lemma install_all fails db sqls :
  (∀ s, s ∈ sqls → fails s = None) → install fails db sqls = (set_scripts db (md_scripts db ++ sqls), None).
Proof.
  revert db. induction sqls as [|sql sqls IH]; intros db Hf; simpl; [by destruct db; unfold set_scripts; simpl; rewrite app_nil_r|].
  rewrite Hf by left. rewrite IH by (intros; apply Hf; by right). unfold set_scripts. simpl. by rewrite <-app_assoc.
Qed.

Lemma dummies_all fails db names :
  (∀ s, fails s = None) → dummies fails db names None = (set_tables db (list_to_set names ∪ md_tables db), None).
Proof.
  intros Hf. revert db. induction names as [|n ns IH]; intros db; cbn [dummies list_to_set].
  - rewrite (left_id_L ∅ _). by destruct db.
  - unfold EnsureMetricDummy. rewrite Hf. change (errors_Join [None; None]) with (@None error). rewrite IH.
    unfold set_tables. simpl. do 2 f_equal. set_solver.
Qed.

(** A measurements database after a set-up in which nothing failed. *)
Definition set_up (db : measurements_db) (builtin : list string) : measurements_db :=
  set_tables (if admin_exists db then db else set_scripts db metricSchemaSQLs) (list_to_set builtin ∪ md_tables db).

Lemma writer_created fails db builtin retention_s maintenance_s :
  (∀ s, fails s = None) → md_scripts db = [] ∨ admin_exists db = true →
  0 ≤ maintenance_s ≤ 9223372036 → retention_s = 0 ∨ 3600 ≤ retention_s ≤ 9223372036 →
  ∃ w, NewWriterFromPostgresConn fails None (Ok (retention_s, maintenance_s, true)) db builtin =
    (set_up db builtin, Ok (w, 0 <? maintenance_s)).
Proof.
  intros Hf Hdb Hm Hr. unfold NewWriterFromPostgresConn, sink_init, ensure_admin, set_up. rewrite Hf.
  rewrite !wrap64_id by (unfold in_int64, time_Second; lia). cbn [negb].
  rewrite (proj2 (Z.ltb_ge (maintenance_s * time_Second) 0)) by (unfold time_Second; lia).
  assert ((retention_s * time_Second <? time_Hour) && negb (retention_s * time_Second =? 0) = false) as ->.
  { apply andb_false_iff. destruct Hr as [->|Hr]; [right; done|left]. apply Z.ltb_ge.
    unfold time_Hour, time_Minute, time_Second. lia. }
  assert (0 <? maintenance_s * time_Second = (0 <? maintenance_s)) as Hpos.
  { destruct (Z.ltb_spec 0 maintenance_s); [apply Z.ltb_lt|apply Z.ltb_ge]; unfold time_Second; lia. }
  rewrite install_all by auto. destruct (admin_exists db) eqn:Ea.
  - unfold ReadMetricSchemaType. rewrite Hf. unfold EnsureBuiltinMetricDummies. rewrite dummies_all, Hpos by done. eexists. done.
  - destruct Hdb as [Hdb|]; [|done]. rewrite Hdb. unfold ReadMetricSchemaType. rewrite Hf.
    unfold EnsureBuiltinMetricDummies. rewrite dummies_all, Hpos by done. eexists. done.
Qed.

(** On an empty database where no statement fails, the set-up installs every script, in order, and a
    table for every built-in metric; a later one finds the schema and installs nothing. *)
Theorem setup_complete fails db builtin retention_s maintenance_s :
  (∀ s, fails s = None) → md_scripts db = [] →
  0 ≤ maintenance_s ≤ 9223372036 → retention_s = 0 ∨ 3600 ≤ retention_s ≤ 9223372036 →
  ∃ db' w, NewWriterFromPostgresConn fails None (Ok (retention_s, maintenance_s, true)) db builtin =
             (db', Ok (w, 0 <? maintenance_s)) ∧
    md_scripts db' = metricSchemaSQLs ∧ list_to_set builtin ⊆ md_tables db' ∧
    (NewWriterFromPostgresConn fails None (Ok (retention_s, maintenance_s, true)) db' builtin).1 = db'.
Proof.
  intros Hf Hdb Hm Hr. destruct (writer_created fails db builtin retention_s maintenance_s) as [w Hw]; [auto..|]. rewrite Hw.
  assert (admin_exists db = false) as Ha by (unfold admin_exists; rewrite Hdb; done). unfold set_up. rewrite Ha. do 2 eexists.
  split; [done|]. split; [done|]. split; [simpl; set_solver|]. set (db' := set_tables _ _).
  destruct (writer_created fails db' builtin retention_s maintenance_s) as [w' ->]; [auto..|].
  unfold set_up. change (admin_exists db') with true. unfold db', set_tables, set_scripts. simpl. f_equal. set_solver.
Qed.

(** The scripts are not installed in one transaction.  If the set-up fails after the first script, it
    reports the error; but from then on the schema counts as installed: every later set-up succeeds
    and installs nothing, so the remaining functions stay missing. *)
Theorem interrupted_setup_stays fails e sql fails' db :
  (∀ s, fails' s = None) → fails "schema exists" = None → fails "admin_schema" = None →
  sql ∈ tail metricSchemaSQLs → fails sql = Some e → admin_exists db = false →
  let '(db1, err1) := ensure_admin fails db in
  is_Some err1 ∧ admin_exists db1 = true ∧ sql ∉ drop (length (md_scripts db)) (md_scripts db1) ∧
  ensure_admin fails' db1 = (db1, None).
Proof.
  intros Hf' Hex H0 Hin Hsql Ha. unfold ensure_admin. rewrite Hex, Ha. unfold metricSchemaSQLs at 1. cbn [install].
  rewrite H0. set (db0 := set_scripts db _).
  assert (∀ sqls db', sql ∈ sqls → ∃ pre e', install fails db' sqls = (set_scripts db' (md_scripts db' ++ pre), Some e') ∧ sql ∉ pre) as Hi.
  { clear -Hsql. induction sqls as [|s sqls IH]; intros db' Hin; [by apply elem_of_nil in Hin|]. cbn [install].
    destruct (fails s) as [e'|] eqn:Es.
    - exists [], e'. rewrite app_nil_r. split; [by destruct db'|]. apply not_elem_of_nil.
    - apply elem_of_cons in Hin as [->|Hin]; [congruence|].
      destruct (IH (set_scripts db' (md_scripts db' ++ [s])) Hin) as (pre & e' & -> & Hp).
      exists (s :: pre), e'. unfold set_scripts. simpl. rewrite <-app_assoc. split; [done|].
      apply not_elem_of_cons. split; [congruence|done]. }
  destruct (Hi (tail metricSchemaSQLs) db0 Hin) as (pre & e' & Hinst & Hpre). unfold metricSchemaSQLs in Hinst at 1.
  cbn [tail] in Hinst. cbn [install] in Hinst. rewrite Hinst.
  assert (admin_exists (set_scripts db0 (md_scripts db0 ++ pre)) = true) as Ha1.
  { apply bool_decide_eq_true. simpl. set_solver. }
  split_and!; [done|done| |].
  - simpl. rewrite <-app_assoc, drop_app_length. simpl. apply not_elem_of_cons. split; [|done].
    intros ->. congruence.
  - unfold ensure_admin. by rewrite Hf', Ha1.
Qed.

(** ** What maintenance does *)

Definition stored_rows (db : measurements_db) : list pgrow := concat (pt_rows <$> md_parts db).

(** Partitions hold rows of their own time span. *)
Definition parts_sound (db : measurements_db) : Prop :=
  Forall (λ p, Forall (λ r, pt_from p ≤ row_time r < pt_to p) (pt_rows p)) (md_parts db).

(** A row that is not older than the retention is kept. *)
Lemma young_rows_kept fails now older_than db :
  parts_sound db → fails "drop partitions" = None →
  ∀ r, r ∈ stored_rows db → now - older_than ≤ row_time r → r ∈ stored_rows (DeleteOldPartitions fails now older_than db).
Proof.
  intros Hs Hf r Hr Ht. unfold DeleteOldPartitions. rewrite Hf. simpl.
  apply list_elem_of_In, in_concat in Hr as (rows & Hrows & Hr).
  apply list_elem_of_In, list_elem_of_fmap in Hrows as (p & -> & Hp). apply list_elem_of_In in Hr.
  apply list_elem_of_In, in_concat. exists (pt_rows p). split; apply list_elem_of_In; [|done].
  apply list_elem_of_fmap_2, list_elem_of_filter. split; [|done]. apply Z.ltb_ge.
  unfold parts_sound in Hs. rewrite Forall_forall in Hs. specialize (Hs p Hp). rewrite Forall_forall in Hs.
  specialize (Hs r Hr). simpl in Hs. lia.
Qed.

(** Maintenance is safe and complete with respect to the retention: a row that is not older than the
    retention is kept; what is left is a part of what was there, in the same order; and no partition
    is left that ended before the retention. *)
Theorem retention_respected fails now older_than db :
  parts_sound db → fails "drop partitions" = None →
  let db' := DeleteOldPartitions fails now older_than db in
  (∀ r, r ∈ stored_rows db → now - older_than ≤ row_time r → r ∈ stored_rows db') ∧
  md_parts db' `sublist_of` md_parts db ∧ parts_sound db' ∧
  Forall (λ p, now - older_than ≤ pt_to p) (md_parts db').
Proof.
  intros Hs Hf db'. pose proof (young_rows_kept fails now older_than db Hs Hf) as Hyoung. fold db' in Hyoung.
  split; [exact Hyoung|]. unfold db', DeleteOldPartitions. rewrite Hf. simpl. split_and!.
  - apply sublist_filter.
  - apply Forall_forall. intros p [_ Hp]%list_elem_of_filter. unfold parts_sound in Hs. rewrite Forall_forall in Hs.
    by apply Hs.
  - apply Forall_forall. intros p [Hp _]%list_elem_of_filter. by apply Z.ltb_ge in Hp.
Qed.

(** A retention of zero passes the check of the set-up, whose message says that it disables the
    deletion; but the maintenance job runs all the same, with a retention of zero, and deletes every
    row of a partition that has ended, however young. *)
Theorem zero_retention_deletes fails fails' db now maintenance_s :
  fails "schema exists" = None → admin_exists db = true → 0 ≤ maintenance_s ≤ 9223372036 →
  fails' "drop partitions" = None →
  sink_init fails None (Ok (0, maintenance_s, true)) db = (db, Ok (0, maintenance_s * time_Second)) ∧
  md_parts (DeleteOldPartitions fails' now 0 db) = filter (λ p, now ≤ pt_to p) (md_parts db).
Proof.
  intros Hex Ha Hm Hf'. split.
  - unfold sink_init, ensure_admin. rewrite Hex, Ha. rewrite !wrap64_id by (unfold in_int64, time_Second; lia).
    cbn [negb]. rewrite (proj2 (Z.ltb_ge (maintenance_s * time_Second) 0)) by (unfold time_Second; lia). done.
  - unfold DeleteOldPartitions. rewrite Hf'. simpl. apply list_filter_iff. intros p. unfold old_partition.
    rewrite Z.sub_0_r, Z.ltb_ge. done.
Qed.

(** *** Witnesses *)

Definition no_failure (_ : string) : option error := None.

Definition empty_measurements : measurements_db :=
  {| md_scripts := []; md_timescale := false; md_tables := ∅; md_parts := [] |}.

Definition one_row (t : Z) : pgrow := {| row_time := t; row_dbname := "db"; row_data := "{}"; row_tag_data := "{}" |}.

Definition two_days : measurements_db := {|
  md_scripts := metricSchemaSQLs; md_timescale := false; md_tables := {["wal"]};
  md_parts := [{| pt_table := "wal"; pt_from := 0; pt_to := 100; pt_rows := [one_row 99] |};
               {| pt_table := "wal"; pt_from := 100; pt_to := 200; pt_rows := [one_row 101] |}] |}.

Lemma setup_complete_witness :
  ∃ db' w, NewWriterFromPostgresConn no_failure None (Ok (86400, 60, true)) empty_measurements ["wal"; "locks"] =
             (db', Ok (w, true)) ∧
    md_scripts db' = metricSchemaSQLs ∧ list_to_set ["wal"; "locks"] ⊆ md_tables db' ∧
    (NewWriterFromPostgresConn no_failure None (Ok (86400, 60, true)) db' ["wal"; "locks"]).1 = db'.
Proof. apply (setup_complete no_failure empty_measurements ["wal"; "locks"] 86400 60); [done|done|lia|lia]. Defined.

Definition functions_fail (s : string) : option error :=
  if bool_decide (s = "admin_functions") then Some (ConnectError "gone") else None.

Lemma interrupted_setup_stays_witness :
  let '(db1, err1) := ensure_admin functions_fail empty_measurements in
  is_Some err1 ∧ admin_exists db1 = true ∧ "admin_functions" ∉ drop 0 (md_scripts db1) ∧
  ensure_admin no_failure db1 = (db1, None).
Proof.
  apply (interrupted_setup_stays functions_fail (ConnectError "gone") "admin_functions" no_failure empty_measurements);
    try done. by left.
Defined.

Lemma retention_respected_witness :
  let db' := DeleteOldPartitions no_failure 201 100 two_days in
  (∀ r, r ∈ stored_rows two_days → 201 - 100 ≤ row_time r → r ∈ stored_rows db') ∧
  md_parts db' `sublist_of` md_parts two_days ∧ parts_sound db' ∧ Forall (λ p, 201 - 100 ≤ pt_to p) (md_parts db').
Proof.
  apply (retention_respected no_failure 201 100 two_days); [|done].
  repeat constructor; vm_compute; done.
Defined.

Lemma zero_retention_deletes_witness :
  sink_init no_failure None (Ok (0, 43200, true)) two_days = (two_days, Ok (0, 43200 * time_Second)) ∧
  md_parts (DeleteOldPartitions no_failure 101 0 two_days) = filter (λ p, 101 ≤ pt_to p) (md_parts two_days).
Proof. apply (zero_retention_deletes no_failure no_failure two_days 101 43200); try done. Defined.
