(* ===== verification/Migrator.v ===== *)
(** * Migrations of a schema

    Both databases of the program, that of the configuration and that of the measurements, have a schema that
    later versions change by migrations ([internal/metrics/postgres_schema.go], [internal/sinks/postgres.go]).
    The library that finds and runs the pending ones is not part of the program: it is a parameter, with
    the laws that it documents.  This file has what both schemas share: the two kinds of migrations, the laws, a
    migrator that satisfies them, and the lemma that an upgrade goes up level by level. *)

From S2P Require Import Prelude.
From stdpp Require Import options.

(** A schema with a table of the migrations that were applied. *)
Class Migrated (S : Type) := {
  applied : S → list string;
  record_migration : string → S → S;
  applied_record n s : applied (record_migration n s) = applied s ++ [n];
}.

(** A migration with its own transaction, or one that works on the connection and may stop half way. *)
Inductive migration_func (S : Type) :=
  | InTx (f : S → result S)
  | NoTx (f : S → S * option error).
Arguments InTx {S} f.
Arguments NoTx {S} f.

Record migration (S : Type) := Migration { m_Name : string; m_Func : migration_func S }.
Arguments Migration {S} _ _.
Arguments m_Name {S} _.
Arguments m_Func {S} _.

(** The effect of a migration, with its transaction. *)
Definition apply_migration {S} (m : migration S) (s : S) : S * option error :=
  match m_Func m with
  | InTx f => match f s with Ok s' => (s', None) | Err e => (s, Some e) end
  | NoTx f => f s
  end.

(** A statement of a transaction: nothing is done after an error. *)
Definition tx_Exec {S} (err : option error) (f : S → S) (s : result S) : result S :=
  match s with
  | Err e => Err e
  | Ok s => match err with Some e => Err e | None => Ok (f s) end
  end.
#[global] Arguments tx_Exec : simpl never.

Lemma tx_Exec_Ok {S} err (f : S → S) r s : tx_Exec err f r = Ok s → err = None ∧ ∃ s0, r = Ok s0 ∧ s = f s0.
Proof. unfold tx_Exec. destruct r as [s0|]; [|done]. destruct err; [done|]. intros [= <-]. eauto. Qed.

(** The library, for a database that answers. *)
Record migrator (S : Type) := Migrator {
  lib_NeedUpgrade : list (migration S) → S → result bool;
  lib_Migrate : list (migration S) → S → S * option error;
}.
Arguments Migrator {S} _ _.
Arguments lib_NeedUpgrade {S} _ _ _.
Arguments lib_Migrate {S} _ _ _.

(** What it documents: the migrations that are not recorded yet are applied in order; each is recorded when it has
    succeeded, and the first one that fails ends the run. *)
Class MigratorLaws {S} `{Migrated S} (mg : migrator S) : Prop := {
  NeedUpgrade_pending ms s : lib_NeedUpgrade mg ms s = Ok (bool_decide (length (applied s) < length ms));
  Migrate_done ms s : length ms ≤ length (applied s) → lib_Migrate mg ms s = (s, None);
  Migrate_next ms s m : ms !! length (applied s) = Some m → applied (apply_migration m s).1 = applied s →
    lib_Migrate mg ms s =
      match apply_migration m s with
      | (s', None) => lib_Migrate mg ms (record_migration (m_Name m) s')
      | (s', Some e) => (s', Some e)
      end;
}.

(** ** An upgrade goes up level by level *)

Section levels.
Context {S : Type} `{Migrated S} (mg : migrator S) `{!MigratorLaws mg} (ms : list (migration S)).
Context (level : nat → S → Prop) (keeps : S → S → Prop) `{!PreOrder keeps}.

(** A schema at a level has that many migrations recorded; a migration leaves the records to the library, and takes the
    schema to the next level, or, if it fails, leaves it on the same one. *)
Context (level_applied : ∀ k s, k ≤ length ms → level k s → length (applied s) = k).
Context (level_step : ∀ k m s, ms !! k = Some m → level k s →
  applied (apply_migration m s).1 = applied s ∧
  match apply_migration m s with
  | (s', None) => level (k + 1) (record_migration (m_Name m) s') ∧ keeps s (record_migration (m_Name m) s')
  | (s', Some _) => level k s' ∧ keeps s s'
  end).

Lemma nothing_pending s :
  length (applied s) = length ms → lib_NeedUpgrade mg ms s = Ok false ∧ lib_Migrate mg ms s = (s, None).
Proof using MigratorLaws0. intros Hl. rewrite NeedUpgrade_pending, Migrate_done by lia. by rewrite bool_decide_false by lia. Qed.

Lemma upgrade_levels k s :
  k ≤ length ms → level k s →
  let '(s', err) := lib_Migrate mg ms s in
  ∃ k', k ≤ k' ≤ length ms ∧ level k' s' ∧ keeps s s' ∧ (err = None ↔ k' = length ms) ∧
    (err = None ↔ lib_NeedUpgrade mg ms s' = Ok false).
Proof using All.
  intros Hk Hlev. remember (length ms - k) as n eqn:Hn. revert k s Hn Hk Hlev. induction n as [|n IH]; intros k s Hn Hk Hlev.
  - pose proof (level_applied k s Hk Hlev) as Hl. destruct (nothing_pending s ltac:(lia)) as [Hu ->].
    exists k. split_and!; [lia|lia|done|done| |by rewrite Hu]. split; [lia|done].
  - assert (is_Some (ms !! k)) as [m Hm] by (apply lookup_lt_is_Some; lia).
    pose proof (level_applied k s Hk Hlev) as Hl. destruct (level_step k m s Hm Hlev) as [Hr Hstep].
    rewrite (Migrate_next ms s m) by (by rewrite ?Hl). destruct (apply_migration m s) as [s1 [e|]]; destruct Hstep as [Hl1 Hkeep].
    + exists k. split_and!; [lia|lia|done|done| |]; [split; [done|lia]|]. rewrite NeedUpgrade_pending, (level_applied k) by done.
      rewrite bool_decide_true by lia. done.
    + specialize (IH (k + 1) (record_migration (m_Name m) s1) ltac:(lia) ltac:(lia) Hl1).
      destruct (lib_Migrate mg ms _) as [s' err]. destruct IH as (k' & ? & Hl' & Hkeep' & Herr & Hn').
      exists k'. split_and!; [lia|lia|done|by etrans|done|done].
Qed.
(** If no migration fails, nor does the upgrade. *)
Lemma upgrade_succeeds k s :
  (∀ k m s, ms !! k = Some m → level k s → (apply_migration m s).2 = None) →
  k ≤ length ms → level k s → (lib_Migrate mg ms s).2 = None.
Proof using All.
  intros Hok Hk Hlev. remember (length ms - k) as n eqn:Hn. revert k s Hn Hk Hlev. induction n as [|n IH]; intros k s Hn Hk Hlev.
  - pose proof (level_applied k s Hk Hlev). by destruct (nothing_pending s ltac:(lia)) as [_ ->].
  - assert (is_Some (ms !! k)) as [m Hm] by (apply lookup_lt_is_Some; lia).
    pose proof (level_applied k s Hk Hlev) as Hl. destruct (level_step k m s Hm Hlev) as [Hr Hstep].
    rewrite (Migrate_next ms s m) by (by rewrite ?Hl). specialize (Hok k m s Hm Hlev).
    destruct (apply_migration m s) as [s1 [e|]]; [done|]. apply (IH (k + 1)); [lia|lia|apply Hstep].
Qed.
End levels.

(** ** A migrator *)

Section simple.
Context {S : Type} `{Migrated S}.

Fixpoint migrate_rest (ms : list (migration S)) (s : S) : S * option error :=
  match ms with
  | [] => (s, None)
  | m :: ms =>
      match apply_migration m s with
      | (s', None) => migrate_rest ms (record_migration (m_Name m) s')
      | (s', Some e) => (s', Some e)
      end
  end.

Definition simple_migrator : migrator S := {|
  lib_NeedUpgrade := λ ms s, Ok (bool_decide (length (applied s) < length ms));
  lib_Migrate := λ ms s, migrate_rest (drop (length (applied s)) ms) s |}.

#[export] Instance simple_migrator_laws : MigratorLaws simple_migrator.
Proof.
  split.
  - done.
  - intros ms s Hl. simpl. by rewrite drop_ge.
  - intros ms s m Hm Hrec. simpl. rewrite (drop_S _ _ _ Hm). cbn [migrate_rest].
    destruct (apply_migration m s) as [s' [e|]]; [done|]. simpl in *. by rewrite applied_record, length_app, Hrec, Nat.add_1_r.
Qed.
End simple.
