(* ===== verification/Migration.v ===== *)
(** * Migration 01409 of the measurements database ([internal/sinks/postgres.go], [migrations])

    Older versions kept a metric table with a partition per database, each with partitions by time;
    the migration turns every such table into one partitioned by time only.  It runs outside of a
    transaction, statement by statement, and may be interrupted and run again.  The model runs it as
    a program in a monad of database states and errors: every statement may fail.

    The theorems show that no row is ever lost, whichever statement fails; that an undisturbed run
    converts every table and leaves nothing behind; that a TimescaleDB storage is left alone; but that a run
    after an interrupted one reports success and leaves the rows that were not moved yet in the
    renamed table, where nothing reads them. *)

From S2P Require Import Prelude GoStrings CopySource.
From stdpp Require Import options.

Local Open Scope Z_scope.

(** ** The database *)

(** A subpartition of the old layout, with the table it is attached to. *)
Record partitionInfo := { Rel : string; ParentRel : string; part_rows : list pgrow }.

(** A metric table: whether it is partitioned by time, the rows in its new partitions, and the
    subpartitions of the old layout, leaves first. *)
Record metric_table := { by_range : bool; new_rows : list pgrow; old_parts : list partitionInfo }.

Record sink_tables := { tables : gmap string metric_table; is_timescale : bool }.

Definition set_tables (db : sink_tables) (t : gmap string metric_table) : sink_tables :=
  {| tables := t; is_timescale := is_timescale db |}.

Fixpoint has_suffix (suffix s : string) : bool :=
  bool_decide (s = suffix) || match s with "" => false | String _ s' => has_suffix suffix s' end.

Definition suffix : string := "_before_v6_migration".

(** ** The monad *)

(** A program takes the database and the number of the next statement. *)
Definition M (A : Type) : Type := sink_tables → nat → sink_tables * nat * result A.

#[local] Instance M_ret : MRet M := λ A a db i, (db, i, Ok a).
#[local] Instance M_bind : MBind M := λ A B f m db i,
  match m db i with
  | (db, i, Ok a) => f a db i
  | (db, i, Err e) => (db, i, Err e)
  end.

Section migration.
(** The statements that fail, and the order in which the server lists tables. *)
Context (fails : nat → option error) (ro : range_order).

(** A statement or a transaction: it either has its effect or none. *)
Definition run {A} (f : sink_tables → result (sink_tables * A)) : M A := λ db i,
  match fails i with
  | Some e => (db, S i, Err e)
  | None => match f db with Ok (db, a) => (db, S i, Ok a) | Err e => (db, S i, Err e) end
  end.

Definition query {A} (f : sink_tables → A) : M A := run (λ db, Ok (db, f db)).

(** Rename the table and create its successor, in a transaction. *)
Definition rename_and_create (name : string) : M () := run (λ db,
  match tables db !! name, tables db !! (name +:+ suffix) with
  | Some t, None =>
      Ok (set_tables db (<[name +:+ suffix := t]>
            (<[name := {| by_range := true; new_rows := []; old_parts := [] |}]> (tables db))), ())
  | None, _ => Err (PgError "42P01")
  | _, Some _ => Err (PgError "42P07")
  end).

(** The rows of a subpartition and the rest. *)
Fixpoint take_part (rel : string) (parts : list partitionInfo) : option (list pgrow * list partitionInfo) :=
  match parts with
  | [] => None
  | p :: parts =>
      if bool_decide (Rel p = rel) then Some (part_rows p, parts)
      else '(rows, rest) ← take_part rel parts; Some (rows, p :: rest)
  end.

(** Move the rows, detach and drop the subpartition: several statements in one implicit transaction. *)
Definition move_part (name rel : string) : M () := run (λ db,
  match tables db !! name, tables db !! (name +:+ suffix) with
  | Some t, Some old =>
      match take_part rel (old_parts old) with
      | Some (rows, rest) =>
          Ok (set_tables db
                (<[name +:+ suffix := {| by_range := by_range old; new_rows := new_rows old; old_parts := rest |}]>
                 (<[name := {| by_range := by_range t; new_rows := new_rows t ++ rows; old_parts := old_parts t |}]>
                    (tables db))), ())
      | None => Err (PgError "42P01")
      end
  | _, _ => Err (PgError "42P01")
  end).

Fixpoint move_parts (name : string) (rels : list string) : M () :=
  match rels with
  | [] => mret ()
  | rel :: rels => move_part name rel ≫= λ _, move_parts name rels
  end.

Definition drop_table (name : string) : M () := run (λ db, Ok (set_tables db (delete name (tables db)), ())).

(** The body of the loop over the metric tables. *)
Definition migrate_table (name : string) : M () :=
  if has_suffix suffix name then mret ()
  else
    isTableMigrated ← query (λ db, match tables db !! name with Some t => by_range t | None => false end);
    if isTableMigrated : bool then mret ()
    else
      _ ← rename_and_create name;
      partitionsInfo ← query (λ db, match tables db !! (name +:+ suffix) with Some t => old_parts t | None => [] end);
      _ ← move_parts name (Rel <$> partitionsInfo);
      drop_table (name +:+ suffix).

Fixpoint migrate_tables (names : list string) : M () :=
  match names with
  | [] => mret ()
  | name :: names => migrate_table name ≫= λ _, migrate_tables names
  end.

Definition migration_01409 : M () :=
  _ ← run (λ db, Ok (db, ()));
  isTimescale ← query is_timescale;
  if isTimescale : bool then mret ()
  else
    metricTables ← query (λ db, range_keys ro (tables db));
    migrate_tables metricTables.

(** ** No row is lost *)

Definition table_rows (t : option metric_table) : list pgrow :=
  match t with Some t => new_rows t ++ concat (part_rows <$> old_parts t) | None => [] end.

(** The rows of a metric, wherever they are. *)
Definition rows_of_metric (db : sink_tables) (name : string) : list pgrow :=
  table_rows (tables db !! name) ++ table_rows (tables db !! (name +:+ suffix)).

(** In the old layout rows are only in subpartitions. *)
Definition old_layout (db : sink_tables) : Prop :=
  map_Forall (λ _ t, by_range t = false → new_rows t = []) (tables db).

(** The state after a step of the migration of [name]. *)
Definition preserves (name : string) (db db' : sink_tables) : Prop :=
  rows_of_metric db' name ≡ₚ rows_of_metric db name ∧
  (∀ n, n ≠ name → n ≠ name +:+ suffix → tables db' !! n = tables db !! n) ∧
  (old_layout db → old_layout db').

#[local] Instance preserves_refl name : Reflexive (preserves name).
Proof using Type. intros db. done. Qed.
#[local] Instance preserves_trans name : Transitive (preserves name).
Proof using Type.
  intros d1 d2 d3 (H1 & H2 & H3) (H1' & H2' & H3'). split_and!; [by rewrite H1'| |auto].
  intros n ? ?. by rewrite H2', H2.
Qed.

Lemma suffix_ne (name : string) : name ≠ name +:+ suffix.
Proof using Type. intros H%(f_equal String.length). rewrite string_length_app in H. simpl in H. lia. Qed.

Lemma take_part_rows rel parts rows rest :
  take_part rel parts = Some (rows, rest) →
  concat (part_rows <$> parts) ≡ₚ rows ++ concat (part_rows <$> rest) ∧ length parts = S (length rest).
Proof using Type.
  revert rows rest. induction parts as [|p parts IH]; intros rows rest; simpl; [done|].
  case_bool_decide; [by intros [= <- <-]|]. destruct (take_part rel parts) as [[r k]|]; simpl; [|done].
  intros [= <- <-]. destruct (IH r k eq_refl) as [Hp Hl]. simpl. split; [rewrite Hp; solve_Permutation|by rewrite Hl].
Qed.

Lemma run_preserves {A} name (f : sink_tables → result (sink_tables * A)) db i :
  (∀ db' a, f db = Ok (db', a) → preserves name db db') → preserves name db (run f db i).1.1.
Proof using Type.
  intros Hf. unfold run. destruct (fails i); [done|]. destruct (f db) as [[db' a]|e]; [by apply (Hf db' a)|done].
Qed.

Lemma rename_preserves name db i : preserves name db (rename_and_create name db i).1.1.
Proof using Type.
  apply run_preserves. intros db' a. destruct (tables db !! name) as [t|] eqn:Et; [|done].
  destruct (tables db !! (name +:+ suffix)) eqn:Es; [done|]. intros [= <- _].
  pose proof (suffix_ne name). split_and!.
  - unfold rows_of_metric. simpl. rewrite lookup_insert_ne, !lookup_insert_eq, Et, Es by done. simpl. by rewrite app_nil_r.
  - intros n ? ?. simpl. by rewrite !lookup_insert_ne.
  - intros Ho n t' Ht'. simpl in Ht'. apply lookup_insert_Some in Ht' as [[_ <-]|[_ Ht']]; [exact (Ho _ t Et)|].
    apply lookup_insert_Some in Ht' as [[_ <-]|[_ Ht']]; [done|by apply (Ho n)].
Qed.

Lemma move_preserves name rel db i :
  match tables db !! name with Some t => by_range t = true | None => True end →
  let db' := (move_part name rel db i).1.1 in
  preserves name db db' ∧ match tables db' !! name with Some t => by_range t = true | None => True end.
Proof using Type.
  intros Hr. unfold move_part, run. destruct (fails i); [done|].
  destruct (tables db !! name) as [t|] eqn:Et; [|simpl; by rewrite ?Et].
  destruct (tables db !! (name +:+ suffix)) as [old|] eqn:Es; [|simpl; by rewrite ?Et].
  destruct (take_part rel (old_parts old)) as [[rows rest]|] eqn:Ep; [|simpl; by rewrite ?Et].
  pose proof (suffix_ne name). destruct (take_part_rows _ _ _ _ Ep) as [Hp _]. simpl.
  rewrite lookup_insert_ne, lookup_insert_eq by done. split; [|done]. split_and!.
  - unfold rows_of_metric. simpl. rewrite lookup_insert_ne, !lookup_insert_eq, Et, Es by done. simpl. rewrite Hp.
    solve_Permutation.
  - intros n ? ?. simpl. by rewrite !lookup_insert_ne.
  - intros Ho n t' Ht'. simpl in Ht'. apply lookup_insert_Some in Ht' as [[_ <-]|[_ Ht']]; [exact (Ho _ old Es)|].
    apply lookup_insert_Some in Ht' as [[_ <-]|[_ Ht']]; [simpl; congruence|by apply (Ho n)].
Qed.

(** Moving some subpartitions: how many are left, if all went well. *)
Lemma move_parts_spec name rels db i t old :
  tables db !! name = Some t → by_range t = true → tables db !! (name +:+ suffix) = Some old →
  let '(db', _, r) := move_parts name rels db i in
  preserves name db db' ∧
  (r = Ok () → ∃ t' old', tables db' !! name = Some t' ∧ by_range t' = true ∧
     tables db' !! (name +:+ suffix) = Some old' ∧ by_range old' = by_range old ∧
     length (old_parts old) = (length rels + length (old_parts old'))%nat).
Proof using Type.
  revert db i t old. induction rels as [|rel rels IH]; intros db i t old Ht Hr Hs; cbn [move_parts].
  { unfold mret, M_ret. split; [done|]. intros _. exists t, old. by split_and!. }
  unfold mbind, M_bind. pose proof (move_preserves name rel db i) as Hmv. rewrite Ht in Hmv. specialize (Hmv Hr).
  destruct (move_part name rel db i) as [[db1 i1] r1] eqn:Em. simpl in Hmv. destruct Hmv as [Hp1 _].
  destruct r1 as [[]|e]; [|by split].
  unfold move_part, run in Em. destruct (fails i); [done|]. rewrite Ht, Hs in Em.
  destruct (take_part rel (old_parts old)) as [[rows rest]|] eqn:Ep; [|done]. injection Em as <- <-.
  destruct (take_part_rows _ _ _ _ Ep) as [_ Hlen]. pose proof (suffix_ne name).
  match goal with |- context [move_parts name rels ?d _] => set (db1 := d) in * end.
  specialize (IH db1 (S i)). destruct (move_parts name rels db1 (S i)) as [[db2 i2] r2].
  edestruct IH as [Hp2 Hok].
  { unfold db1. simpl. rewrite lookup_insert_ne, lookup_insert_eq by done. reflexivity. }
  { done. }
  { unfold db1. simpl. rewrite lookup_insert_eq. reflexivity. }
  split; [by etrans|]. intros Hr2. destruct (Hok Hr2) as (t' & old' & ? & ? & ? & ? & Hl). exists t', old'.
  split_and!; try done. simpl in Hl. rewrite Hlen, Hl. simpl. lia.
Qed.

Lemma drop_preserves name db i old :
  tables db !! (name +:+ suffix) = Some old → by_range old = false → old_parts old = [] → old_layout db →
  preserves name db (drop_table (name +:+ suffix) db i).1.1.
Proof using Type.
  intros Hs Hr Hp Ho. apply run_preserves. intros db' a [= <- _]. pose proof (suffix_ne name). split_and!.
  - unfold rows_of_metric. simpl. rewrite lookup_delete_ne, lookup_delete_eq, Hs by done. simpl.
    by rewrite Hp, (Ho _ _ Hs Hr).
  - intros n ? ?. simpl. by rewrite lookup_delete_ne.
  - intros _ n t. simpl. intros [_ Ht]%lookup_delete_Some. by apply (Ho n).
Qed.

Lemma migrate_table_preserves name db i :
  old_layout db → preserves name db (migrate_table name db i).1.1.
Proof using Type.
  intros Ho. unfold migrate_table. destruct (has_suffix suffix name); [done|].
  unfold mbind at 1, M_bind at 1, query at 1, run at 1. destruct (fails i); [done|].
  destruct (match tables db !! name with Some t => by_range t | None => false end) eqn:Eb; [done|].
  unfold mbind at 1, M_bind at 1. pose proof (rename_preserves name db (S i)) as Hp1.
  destruct (rename_and_create name db (S i)) as [[db1 i1] [[]|e]] eqn:Ern; [|done]. simpl in Hp1.
  assert (∃ t, tables db !! name = Some t ∧ tables db1 !! (name +:+ suffix) = Some t ∧
    tables db1 !! name = Some {| by_range := true; new_rows := []; old_parts := [] |}) as (t & Ht & Hs1 & Hn1).
  { unfold rename_and_create, run in Ern. destruct (fails (S i)); [done|]. destruct (tables db !! name) as [t|]; [|done].
    destruct (tables db !! (name +:+ suffix)); [done|]. injection Ern as <- <-. exists t. simpl.
    split_and!; [done|by rewrite lookup_insert_eq|]. rewrite lookup_insert_ne by (apply not_eq_sym, suffix_ne).
    by rewrite lookup_insert_eq. }
  rewrite Ht in Eb. unfold mbind at 1, M_bind at 1, query at 1, run at 1. destruct (fails i1); [done|]. rewrite Hs1.
  unfold mbind at 1, M_bind at 1.
  pose proof (move_parts_spec name (Rel <$> old_parts t) db1 (S i1) _ _ Hn1 eq_refl Hs1) as Hmv.
  destruct (move_parts name (Rel <$> old_parts t) db1 (S i1)) as [[db2 i2] r2]. destruct Hmv as [Hp2 Hok].
  destruct r2 as [[]|e]; [|by etrans]. destruct (Hok eq_refl) as (t' & old' & _ & _ & Hs2 & Hr2 & Hlen).
  rewrite length_fmap in Hlen. etrans; [exact Hp1|]. etrans; [exact Hp2|].
  eapply (drop_preserves name db2 i2 old'); [done|congruence| |].
  - destruct (old_parts old'); [done|]. simpl in Hlen. lia.
  - apply Hp2, Hp1, Ho.
Qed.

Lemma has_suffix_app s : has_suffix suffix (s +:+ suffix) = true.
Proof using Type.
  induction s as [|c s IH].
  - rewrite string_app_nil_l. reflexivity.
  - rewrite string_app_cons. cbn [has_suffix]. rewrite IH. apply orb_true_r.
Qed.

Lemma string_app_inj_r (s t u : string) : s +:+ u = t +:+ u → s = t.
Proof using Type.
  revert t. induction s as [|c s IH]; intros [|c' t] Heq; try done;
    try (exfalso; apply (f_equal String.length) in Heq; rewrite !string_length_app in Heq; simpl in Heq; lia).
  rewrite !string_app_cons in Heq. injection Heq as -> Heq. f_equal. by apply IH.
Qed.

(** What a step for one metric does to another. *)
Lemma preserves_other name n db db' :
  has_suffix suffix name = false → has_suffix suffix n = false → preserves name db db' →
  rows_of_metric db' n ≡ₚ rows_of_metric db n.
Proof using Type.
  intros Hname Hn (H1 & H2 & _). destruct (decide (n = name)) as [->|Hne]; [done|].
  assert (n ≠ name +:+ suffix) by (intros ->; by rewrite has_suffix_app in Hn).
  assert (n +:+ suffix ≠ name) by (intros <-; by rewrite has_suffix_app in Hname).
  assert (n +:+ suffix ≠ name +:+ suffix) by (intros Heq; by apply Hne, (string_app_inj_r n name suffix)).
  unfold rows_of_metric. by rewrite (H2 n), (H2 (n +:+ suffix)) by done.
Qed.

Lemma migrate_tables_rows names db i :
  old_layout db →
  let db' := (migrate_tables names db i).1.1 in
  old_layout db' ∧ ∀ n, has_suffix suffix n = false → rows_of_metric db' n ≡ₚ rows_of_metric db n.
Proof using Type.
  revert db i. induction names as [|name names IH]; intros db i Ho; cbn [migrate_tables]; [done|].
  unfold mbind, M_bind. pose proof (migrate_table_preserves name db i Ho) as Hp.
  assert (∀ n, has_suffix suffix n = false →
    rows_of_metric (migrate_table name db i).1.1 n ≡ₚ rows_of_metric db n) as Hrows.
  { intros n Hn. destruct (has_suffix suffix name) eqn:Es.
    - unfold migrate_table. by rewrite Es.
    - by eapply preserves_other. }
  destruct (migrate_table name db i) as [[db1 i1] [[]|e]]; simpl in *; [|split; [by apply Hp|done]].
  destruct (IH db1 i1) as [Ho' Hrows']; [by apply Hp|]. split; [done|]. intros n Hn. by rewrite Hrows', Hrows.
Qed.
End migration.

Lemma migration_rows fails ro db :
  old_layout db →
  let db' := (migration_01409 fails ro db 0%nat).1.1 in
  old_layout db' ∧ ∀ n, has_suffix suffix n = false → rows_of_metric db' n ≡ₚ rows_of_metric db n.
Proof.
  intros Ho db'. unfold db', migration_01409, mbind, M_bind, query, run.
  destruct (fails 0%nat); [done|]. destruct (fails 1%nat); [done|].
  destruct (is_timescale db); [done|]. destruct (fails 2%nat); [done|]. by apply (migrate_tables_rows fails).
Qed.


(** ** What an undisturbed run does *)

Definition no_failure (_ : nat) : option error := None.

Definition converted (t : metric_table) : metric_table :=
  if by_range t then t
  else {| by_range := true; new_rows := concat (part_rows <$> old_parts t); old_parts := [] |}.

Lemma move_parts_all name ps db i b rows ob orows :
  tables db !! name = Some {| by_range := b; new_rows := rows; old_parts := [] |} →
  tables db !! (name +:+ suffix) = Some {| by_range := ob; new_rows := orows; old_parts := ps |} →
  ∃ j, move_parts no_failure name (Rel <$> ps) db i =
    (set_tables db (<[name +:+ suffix := {| by_range := ob; new_rows := orows; old_parts := [] |}]>
       (<[name := {| by_range := b; new_rows := rows ++ concat (part_rows <$> ps); old_parts := [] |}]> (tables db))), j, Ok ()).
Proof.
  revert db i rows. induction ps as [|p ps IH]; intros db i rows Hn Hs.
  - exists i. simpl. rewrite app_nil_r, (insert_id _ name), (insert_id _ (name +:+ suffix)) by done. by destruct db.
  - cbn [fmap list_fmap move_parts]. unfold mbind, M_bind, move_part at 1, run at 1. cbn [no_failure]. rewrite Hn, Hs.
    cbn [old_parts take_part]. rewrite bool_decide_true by done.
    pose proof (suffix_ne name) as Hne. set (db1 := set_tables db _).
    destruct (IH db1 (S i) (rows ++ part_rows p)) as [j Hj].
    { unfold db1. simpl. rewrite lookup_insert_ne by done. by rewrite lookup_insert_eq. }
    { unfold db1. simpl. by rewrite lookup_insert_eq. }
    exists j. rewrite Hj. do 2 f_equal. unfold db1, set_tables. simpl. f_equal. rewrite <-app_assoc.
    rewrite (insert_insert_ne _ name) by done. by rewrite !insert_insert_eq.
Qed.

Lemma migrate_table_all name db i t :
  has_suffix suffix name = false → tables db !! name = Some t → tables db !! (name +:+ suffix) = None → old_layout db →
  ∃ j, migrate_table no_failure name db i = (set_tables db (<[name := converted t]> (tables db)), j, Ok ()).
Proof.
  intros Hn Ht Hs Ho. unfold migrate_table, converted. rewrite Hn. unfold mbind at 1, M_bind at 1, query at 1, run at 1.
  cbn [no_failure]. rewrite Ht. destruct (by_range t) eqn:Er.
  { exists (S i). unfold mret, M_ret. rewrite insert_id by done. by destruct db. }
  unfold mbind at 1, M_bind at 1, rename_and_create, run at 1. cbn [no_failure]. rewrite Ht, Hs.
  set (db1 := set_tables db _). unfold mbind at 1, M_bind at 1, query at 1, run at 1. cbn [no_failure].
  pose proof (suffix_ne name) as Hne.
  assert (tables db1 !! (name +:+ suffix) = Some t) as Hs1 by (unfold db1; simpl; by rewrite lookup_insert_eq).
  rewrite Hs1. unfold mbind at 1, M_bind at 1. destruct t as [r rows ps]. simpl in Er. subst r.
  destruct (move_parts_all name ps db1 (S (S (S i))) true [] false rows) as [j Hj]; [|done|].
  { unfold db1. simpl. rewrite lookup_insert_ne by done. by rewrite lookup_insert_eq. }
  simpl. rewrite Hj. exists (S j). unfold drop_table, run. cbn [no_failure]. do 2 f_equal.
  unfold set_tables, db1. simpl. f_equal. rewrite delete_insert_eq, delete_insert_ne by done.
  rewrite delete_insert_eq, delete_insert_ne by done. rewrite insert_insert_eq.
  by rewrite delete_id by (done || by apply not_elem_of_dom).
Qed.

Lemma migrate_tables_all names db i :
  NoDup names → (∀ n, n ∈ names → is_Some (tables db !! n)) →
  (∀ n, is_Some (tables db !! n) → has_suffix suffix n = false) → old_layout db →
  ∃ t j, migrate_tables no_failure names db i = (set_tables db t, j, Ok ()) ∧
    ∀ n, t !! n = if decide (n ∈ names) then converted <$> tables db !! n else tables db !! n.
Proof.
  revert db i. induction names as [|name names IH]; intros db i Hnd Hdom Hsuf Ho; cbn [migrate_tables].
  { exists (tables db), i. split; [by destruct db|]. intros n. rewrite decide_False; [done|apply not_elem_of_nil]. }
  apply NoDup_cons in Hnd as [Hname Hnd]. destruct (Hdom name) as [t Ht]; [by left|].
  assert (tables db !! (name +:+ suffix) = None) as Hs.
  { destruct (tables db !! (name +:+ suffix)) eqn:E; [|done]. pose proof (Hsuf (name +:+ suffix)) as H.
    rewrite has_suffix_app in H. by discriminate H. }
  destruct (migrate_table_all name db i t) as [j Hj]; [by apply Hsuf|done|done|done|].
  unfold mbind, M_bind. rewrite Hj. set (db1 := set_tables db _).
  destruct (IH db1 j Hnd) as (t' & j' & Hj' & Ht').
  - intros n Hn. unfold db1. simpl. rewrite lookup_insert_is_Some'. right. apply Hdom. by right.
  - intros n. unfold db1. simpl. rewrite lookup_insert_is_Some'. intros [<-|?]; [apply Hsuf; by exists t|by apply Hsuf].
  - intros n t1. unfold db1. simpl. intros [[<- <-]|[_ ?]]%lookup_insert_Some; [|by apply (Ho n)].
    unfold converted. by destruct (by_range t) eqn:Er; simpl; rewrite ?Er.
  - exists t', j'. rewrite Hj'. split; [done|]. intros n. rewrite Ht'. unfold db1. simpl.
    destruct (decide (n = name)) as [->|Hne].
    + rewrite decide_False, decide_True by (done || by left). by rewrite lookup_insert_eq, Ht.
    + rewrite lookup_insert_ne by done. erewrite decide_ext; [done|]. rewrite elem_of_cons. naive_solver.
Qed.

Lemma migration_all ro db :
  is_timescale db = false → old_layout db → (∀ n, is_Some (tables db !! n) → has_suffix suffix n = false) →
  ∃ t i, migration_01409 no_failure ro db 0%nat = (set_tables db t, i, Ok ()) ∧ ∀ n, t !! n = converted <$> tables db !! n.
Proof.
  intros Hts Ho Hsuf. unfold migration_01409, mbind, M_bind, query, run. cbn [no_failure]. rewrite Hts.
  destruct (migrate_tables_all (range_keys ro (tables db)) db 3) as (t & j & Hj & Ht); [|..].
  - apply NoDup_range_keys.
  - intros n Hn. by apply elem_of_range_keys in Hn.
  - done.
  - done.
  - exists t, j. split; [exact Hj|]. intros n. rewrite Ht. case_decide as Hn; [done|].
    rewrite elem_of_range_keys in Hn. destruct (tables db !! n); [by destruct Hn|done].
Qed.

(** An undisturbed run of migration 01409 on tables that no earlier run left behind succeeds and
    converts every table of the old layout: it is partitioned by time, holds the rows of all its
    subpartitions, and no renamed table remains. *)
Theorem migration_converts ro db :
  is_timescale db = false → old_layout db → (∀ n, is_Some (tables db !! n) → has_suffix suffix n = false) →
  ∃ db' i, migration_01409 no_failure ro db 0%nat = (db', i, Ok ()) ∧
    ∀ n, tables db' !! n = converted <$> tables db !! n.
Proof.
  intros Hts Ho Hsuf. destruct (migration_all ro db Hts Ho Hsuf) as (t & i & Hm & Ht). by exists (set_tables db t), i.
Qed.

(** ** After an interrupted run *)

Lemma migrate_tables_skip fails names db i n t :
  old_layout db → tables db !! n = Some t → by_range t = true → has_suffix suffix n = false →
  let db' := (migrate_tables fails names db i).1.1 in
  tables db' !! n = tables db !! n ∧ tables db' !! (n +:+ suffix) = tables db !! (n +:+ suffix).
Proof.
  revert db i. induction names as [|name names IH]; intros db i Ho Ht Hr Hn; cbn [migrate_tables]; [done|].
  unfold mbind, M_bind.
  assert (tables (migrate_table fails name db i).1.1 !! n = tables db !! n ∧
          tables (migrate_table fails name db i).1.1 !! (n +:+ suffix) = tables db !! (n +:+ suffix)) as [H1 H2].
  { destruct (has_suffix suffix name) eqn:Es; [unfold migrate_table; by rewrite Es|].
    destruct (decide (name = n)) as [->|Hne].
    - unfold migrate_table, mbind, M_bind, query, run. rewrite Es. destruct (fails i); [done|]. by rewrite Ht, Hr.
    - destruct (migrate_table_preserves fails name db i Ho) as (_ & H & _). split; apply H; try congruence.
      + intros ->. by rewrite has_suffix_app in Hn.
      + intros <-. by rewrite has_suffix_app in Es.
      + intros Heq%string_app_inj_r. congruence. }
  destruct (migrate_table_preserves fails name db i Ho) as (_ & _ & Ho').
  destruct (migrate_table fails name db i) as [[db1 i1] [[]|e]]; simpl in *; [|done].
  destruct (IH db1 i1) as [H1' H2']; [by apply Ho'|congruence|done|done|]. by rewrite H1', H2', H1, H2.
Qed.

(** A table that was already converted is skipped, and so is the table it was renamed from: a run
    after an interrupted one leaves the rows that were not moved yet where they are, for good. *)
Theorem interrupted_rows_stay fails ro db n t :
  old_layout db → tables db !! n = Some t → by_range t = true → has_suffix suffix n = false →
  let db' := (migration_01409 fails ro db 0%nat).1.1 in
  tables db' !! n = Some t ∧ tables db' !! (n +:+ suffix) = tables db !! (n +:+ suffix).
Proof.
  intros Ho Ht Hr Hn db'. unfold db', migration_01409, mbind, M_bind, query, run.
  destruct (fails 0%nat); [done|]. destruct (fails 1%nat); [done|]. destruct (is_timescale db); [done|].
  destruct (fails 2%nat); [done|]. rewrite <-Ht. by eapply migrate_tables_skip.
Qed.

(** *** Witnesses *)

Definition sub (rel : string) (t : Z) : partitionInfo := {|
  Rel := rel; ParentRel := "subpartitions.wal_db";
  part_rows := [{| row_time := t; row_dbname := "db"; row_data := "{}"; row_tag_data := "{}" |}] |}.

Definition old_wal : metric_table :=
  {| by_range := false; new_rows := []; old_parts := [sub "wal_1" 1; sub "wal_2" 2] |}.

Definition old_tables : sink_tables := {| tables := {["wal" := old_wal]}; is_timescale := false |}.

(** The second subpartition cannot be moved. *)
Definition second_move_fails (i : nat) : option error := if bool_decide (i = 7%nat) then Some (ConnectError "gone") else None.

Definition half_done : sink_tables := (migration_01409 second_move_fails tree_order old_tables 0%nat).1.1.

(** The first run reports the error; the second succeeds, and one of the two rows is still in the
    renamed table. *)
Example interrupted_then_rerun :
  ((migration_01409 second_move_fails tree_order old_tables 0%nat).2,
   (migration_01409 no_failure tree_order half_done 0%nat).2,
   let db := (migration_01409 no_failure tree_order half_done 0%nat).1.1 in
   (row_time <$> table_rows (tables db !! "wal"), row_time <$> table_rows (tables db !! ("wal" +:+ suffix)))) =
  (Err (ConnectError "gone"), Ok (), ([1], [2])).
Proof. vm_compute. reflexivity. Qed.

Lemma old_tables_layout : old_layout old_tables.
Proof. intros n t. simpl. intros [_ <-]%lookup_singleton_Some. done. Qed.


Lemma migration_converts_witness :
  ∃ db' i, migration_01409 no_failure tree_order old_tables 0%nat = (db', i, Ok ()) ∧
    ∀ n, tables db' !! n = converted <$> tables old_tables !! n.
Proof.
  apply (migration_converts tree_order old_tables); [done|exact old_tables_layout|].
  intros n [t Ht]. simpl in Ht. apply lookup_singleton_Some in Ht as [<- _]. done.
Defined.

Definition moved_wal : metric_table :=
  {| by_range := true; new_rows := part_rows (sub "wal_1" 1); old_parts := [] |}.

Lemma interrupted_rows_stay_witness :
  let db' := (migration_01409 no_failure tree_order half_done 0%nat).1.1 in
  tables db' !! "wal" = Some moved_wal ∧ tables db' !! ("wal" +:+ suffix) = tables half_done !! ("wal" +:+ suffix).
Proof.
  apply (interrupted_rows_stay no_failure tree_order half_done "wal" moved_wal); [|vm_compute; reflexivity|done|done].
  apply (bool_decide_unpack _). vm_compute. exact I.
Defined.
