(* ===== verification/SinkMaintenance.v ===== *)
(** * Maintenance and upgrades of the measurements database ([internal/sinks/postgres.go])

    Two things happen to the database of a sink besides the flow of measurements.  A job runs at the
    maintenance interval: it drops partitions ([SinkAdmin]) and refreshes the listing of the sources per metric,
    which the dashboards offer for selection; that is done by an SQL function that the program installs
    ([sql/admin_functions.sql]).  And a new version of the program upgrades the schema of an older one by
    a list of migrations; the longest is [Migration], the others install functions again.

    The library that runs migrations is a parameter with its documented laws.  The theorems show exactly which sources the
    job lists, and which it misses; and that an upgrade, interrupted or not, applies the migrations in order,
    keeps the rows of every metric, and is complete when it reports success. *)

From S2P Require Import Prelude GoStrings Metrics Sinks CopySource PgSink SinkAdmin Migrator Migration.
From stdpp Require Import options.

Local Open Scope Z_scope.

(** ** The listing *)

(** The primary key of [admin.all_distinct_dbname_metrics]. *)
Abbreviation listing := (gset (string * string)).

Record maintained := { mt_db : measurements_db; mt_listing : listing }.

(** [INSERT ... WHERE NOT EXISTS]. *)
Definition AddDBUniqueMetricToListingTable (fails : string → option error) (dbUnique metric : string) (st : maintained)
    : maintained * option error :=
  match fails "listing" with
  | Some e => (st, Some e)
  | None => ({| mt_db := mt_db st; mt_listing := {[(dbUnique, metric)]} ∪ mt_listing st |}, None)
  end.

(** [SyncMetric] on this database. *)
Definition sync_add (fails : string → option error) (sourceName metricName : string) (st : maintained) : maintained * option error :=
  let '(st, e1) := AddDBUniqueMetricToListingTable fails sourceName metricName st in
  let '(db, e2) := EnsureMetricDummy fails (mt_db st) metricName in
  ({| mt_db := db; mt_listing := mt_listing st |}, errors_Join [e1; e2]).

(** The sources that have rows of a metric. *)
Definition found_dbnames (db : measurements_db) (metric : string) : gset string :=
  list_to_set (row_dbname <$> concat (pt_rows <$> filter (λ p, pt_table p = metric) (md_parts db))).

(** The body of the loop of [admin.maintain_unique_sources]: entries of sources that are gone are deleted, and new ones
    are inserted if no source that was found is listed. *)
Definition maintain_metric (db : measurements_db) (l : listing) (metric : string) : listing :=
  let v_found_dbnames := found_dbnames db metric in
  if bool_decide (v_found_dbnames = ∅) then filter (λ p, p.2 ≠ metric) l
  else
    let l := filter (λ p, p.2 = metric → p.1 ∈ v_found_dbnames) l in
    if bool_decide (set_Exists (λ p, p.1 ∈ v_found_dbnames ∧ p.2 = metric) l) then l
    else set_map (λ d, (d, metric)) v_found_dbnames ∪ l.

Definition maintain_unique_sources (lock : bool) (tables : list string) (st : maintained) : maintained :=
  if lock then {| mt_db := mt_db st;
                  mt_listing := filter (λ p, p.2 ∈ tables) (foldl (maintain_metric (mt_db st)) (mt_listing st) tables) |}
  else st.

Definition MaintainUniqueSources (fails : string → option error) (lock : bool) (tables : list string) (st : maintained) : maintained :=
  match fails "maintain sources" with Some _ => st | None => maintain_unique_sources lock tables st end.

(** The job of [NewWriterFromPostgresConn]. *)
Definition maintenance_job (fails : string → option error) (lock : bool) (tables : list string) (now older_than : Z) (st : maintained)
    : maintained :=
  MaintainUniqueSources fails lock tables
    {| mt_db := DeleteOldPartitions fails now older_than (mt_db st); mt_listing := mt_listing st |}.

(** [scheduleJob]: what has been done after [n] intervals. *)
Definition scheduleJob {A} (interval : Z) (job : nat → A → A) (n : nat) (st : A) : A :=
  if 0 <? interval then foldl (λ st i, job i st) st (seq 0 n) else st.

(** ** What the job lists *)

Lemma maintain_metric_spec db l metric d m :
  (d, m) ∈ maintain_metric db l metric ↔
    if bool_decide (m = metric)
    then d ∈ found_dbnames db m ∧ ((d, m) ∈ l ∨ ∀ d', d' ∈ found_dbnames db m → (d', m) ∉ l)
    else (d, m) ∈ l.
Proof.
  unfold maintain_metric. destruct (decide (m = metric)) as [->|Hm].
  - rewrite (bool_decide_true (metric = metric)) by done. case_bool_decide as He; [rewrite He; set_solver|]. case_bool_decide as Hx.
    + destruct Hx as ([d' m'] & Hin & Hf & Hm'). simpl in *. subst m'. apply elem_of_filter in Hin as [_ Hin].
      rewrite elem_of_filter. simpl. split; [naive_solver|]. intros [Hd [Hl|Hno]]; [done|]. by destruct (Hno d').
    + assert (∀ d', d' ∈ found_dbnames db metric → (d', metric) ∉ l) as Hno.
      { intros d' Hd' Hl. apply Hx. exists (d', metric). split; [|done]. apply elem_of_filter. by split. }
      rewrite elem_of_union, elem_of_map, elem_of_filter. simpl. split; [|naive_solver].
      intros [(x & [= ->] & Hd)|[Hd Hl]]; [auto|]. split; [by apply Hd|by left].
  - rewrite (bool_decide_false (m = metric)) by done.
    case_bool_decide as He; [rewrite elem_of_filter; naive_solver|]. case_bool_decide as Hx.
    + rewrite elem_of_filter. naive_solver.
    + rewrite elem_of_union, elem_of_map, elem_of_filter. naive_solver.
Qed.

Lemma maintain_all_spec db tables l d m :
  NoDup tables →
  (d, m) ∈ foldl (maintain_metric db) l tables ↔
    if bool_decide (m ∈ tables)
    then d ∈ found_dbnames db m ∧ ((d, m) ∈ l ∨ ∀ d', d' ∈ found_dbnames db m → (d', m) ∉ l)
    else (d, m) ∈ l.
Proof.
  intros Hnd. revert l. induction Hnd as [|t tables Hni _ IH]; intros l; cbn [foldl];
    [rewrite bool_decide_false; [done|apply not_elem_of_nil]|].
  rewrite IH. destruct (decide (m = t)) as [->|Hne].
  - rewrite bool_decide_false by done. rewrite bool_decide_true by (by left). rewrite maintain_metric_spec.
    by rewrite bool_decide_true.
  - assert (∀ x, (x, m) ∈ maintain_metric db l t ↔ (x, m) ∈ l) as Hsame.
    { intros x. rewrite maintain_metric_spec. by rewrite bool_decide_false. }
    rewrite (bool_decide_ext (m ∈ t :: tables) (m ∈ tables)) by set_solver. pose proof (Hsame d) as Hd.
    case_bool_decide; [|done]. split; (intros [? [?|Hno]]; split; [done| |done|]); [left; by apply Hd|right|left; by apply Hd|right];
    intros d' Hd' Hin; apply (Hno d' Hd'); by apply Hsame.
Qed.

(** C28.  What the maintenance job lists.  After the job, with its lock and without failures, a source is listed
    for a metric exactly if the metric has a table, the source has rows there that survived the
    deletion of old partitions, and it was listed before or no source with such rows was; and rows within the retention all survive.  So
    nothing is offered that has no data; but a source whose rows appear next to those of a listed source is not
    added. *)
Theorem maintenance_lists fails tables now older_than st d m :
  fails "drop partitions" = None → fails "maintain sources" = None → parts_sound (mt_db st) → NoDup tables →
  let st' := maintenance_job fails true tables now older_than st in
  ((d, m) ∈ mt_listing st' ↔
     m ∈ tables ∧ d ∈ found_dbnames (mt_db st') m ∧
     ((d, m) ∈ mt_listing st ∨ ∀ d', d' ∈ found_dbnames (mt_db st') m → (d', m) ∉ mt_listing st)) ∧
  (∀ r, r ∈ stored_rows (mt_db st) → now - older_than ≤ row_time r → r ∈ stored_rows (mt_db st')).
Proof.
  intros Hd Hf Hs Hnd. unfold maintenance_job, MaintainUniqueSources. rewrite Hf. cbn zeta. simpl. split.
  - rewrite elem_of_filter, maintain_all_spec by done. simpl. case_bool_decide; naive_solver.
  - by apply young_rows_kept.
Qed.

(** ** Upgrades *)

(** The schema of a sink: its tables, the scripts whose functions are installed as this version has them, the
    functions of older versions, and the rows of [admin.migration]. *)
Record sink_schema := {
  sc_tables : sink_tables;
  sc_scripts : gset string;
  sc_old : gset string;
  sc_migrations : list string;
}.

Definition install_script (name : string) (s : sink_schema) : sink_schema := {|
  sc_tables := sc_tables s; sc_scripts := {[name]} ∪ sc_scripts s; sc_old := sc_old s; sc_migrations := sc_migrations s |}.
Definition drop_functions (names : gset string) (s : sink_schema) : sink_schema := {|
  sc_tables := sc_tables s; sc_scripts := sc_scripts s; sc_old := sc_old s ∖ names; sc_migrations := sc_migrations s |}.
Definition with_tables (t : sink_tables) (s : sink_schema) : sink_schema := {|
  sc_tables := t; sc_scripts := sc_scripts s; sc_old := sc_old s; sc_migrations := sc_migrations s |}.

#[export] Instance sink_Migrated : Migrated sink_schema := {|
  applied := sc_migrations;
  record_migration name s := {|
    sc_tables := sc_tables s; sc_scripts := sc_scripts s; sc_old := sc_old s; sc_migrations := sc_migrations s ++ [name] |};
  applied_record _ _ := eq_refl |}.

Section migrations.
(** The statements that fail: by their script, and within the migration of the tables by their number. *)
Context (fails : string → option error) (step_fails : nat → option error) (ro : range_order).

Definition old_functions : gset string :=
  {["ensure_partition_metric_dbname_time"; "ensure_partition_metric_time"; "get_old_time_partitions"; "drop_old_time_partitions"]}.

(** The first statement of 01409 replaces functions; the rest is [migration_01409]. *)
Definition func_01409 (s : sink_schema) : sink_schema * option error :=
  match step_fails 0%nat with
  | Some e => (s, Some e)
  | None =>
      let s := install_script "ensure_partition_postgres" (install_script "admin_functions"
                 (drop_functions {["ensure_partition_metric_dbname_time"]} s)) in
      match migration_01409 step_fails ro (sc_tables s) 0%nat with
      | (t, _, Ok _) => (with_tables t s, None)
      | (t, _, Err e) => (with_tables t s, Some e)
      end
  end.

Definition migration_01474 : migration sink_schema := {|
  m_Name := "01474 Change drop_all_metric_tables to procedure";
  m_Func := InTx (λ s, tx_Exec (fails "admin_functions") (install_script "admin_functions") (Ok s)) |}.
Definition migration_01529 : migration sink_schema := {|
  m_Name := "01529 Fix ensure_partition_metric_time partitioning strategy";
  m_Func := InTx (λ s, tx_Exec (fails "ensure_partition_postgres") (install_script "ensure_partition_postgres") (Ok s)) |}.
Definition migration_01614 : migration sink_schema := {|
  m_Name := "01614 Reinstall ensure_partition_timescale";
  m_Func := InTx (λ s, tx_Exec (fails "ensure_partition_timescale") (install_script "ensure_partition_timescale") (Ok s)) |}.

Definition migrations : list (migration sink_schema) := [
  {| m_Name := "01110 Apply postgres sink schema migrations"; m_Func := InTx Ok |};
  {| m_Name := "01180 Apply admin functions migrations for v5";
     m_Func := InTx (λ s, tx_Exec (fails "admin_functions") (install_script "admin_functions")
       (tx_Exec (fails "ensure_partition_postgres") (install_script "ensure_partition_postgres")
         (tx_Exec (fails "drop functions") (drop_functions old_functions) (Ok s)))) |};
  {| m_Name := "01409 Switch to time-only partitioning"; m_Func := NoTx func_01409 |};
  migration_01474; migration_01529; migration_01614 ].

Definition registeredMigrationsCount : nat := length migrations.

End migrations.

(** The versions that [sql/admin_schema.sql] inserts into [admin.migration]. *)
Definition fresh_versions : list string :=
  ["01110 Apply postgres sink schema migrations"; "01180 Apply admin functions migrations for v5";
   "01409 Switch to time-only partitioning"; "01474 Change drop_all_metric_tables to procedure";
   "01529 Fix ensure_partition_metric_time partitioning strategy"; "01614 Reinstall ensure_partition_timescale"].

Definition sink_Migrate (mg : migrator sink_schema) fails step_fails ro (s : sink_schema) : sink_schema * option error :=
  lib_Migrate mg (migrations fails step_fails ro) s.
Definition sink_NeedsMigration (mg : migrator sink_schema) fails step_fails ro (s : sink_schema) : result bool :=
  lib_NeedUpgrade mg (migrations fails step_fails ro) s.

(** ** What an upgrade does *)

Lemma migration_names fails step_fails ro : m_Name <$> migrations fails step_fails ro = fresh_versions.
Proof. reflexivity. Qed.

(** The rows of every metric are kept. *)
Definition keeps (s s' : sink_schema) : Prop :=
  old_layout (sc_tables s) → old_layout (sc_tables s') ∧
  ∀ n, has_suffix suffix n = false → rows_of_metric (sc_tables s') n ≡ₚ rows_of_metric (sc_tables s) n.

#[export] Instance keeps_preorder : PreOrder keeps.
Proof.
  split; [by intros s|]. intros a b c H1 H2 Ho. destruct (H1 Ho) as [Hb Hr]. destruct (H2 Hb) as [Hc Hr'].
  split; [done|]. intros n Hn. by rewrite Hr', Hr.
Qed.

(** A schema at level [k]: the first [k] migrations are recorded, and what they install is there. *)
Definition at_level (k : nat) (s : sink_schema) : Prop :=
  sc_migrations s = take k fresh_versions ∧
  ((2 ≤ k)%nat → {["admin_functions"; "ensure_partition_postgres"]} ⊆ sc_scripts s ∧ sc_old s ## old_functions) ∧
  ((6 ≤ k)%nat → "ensure_partition_timescale" ∈ sc_scripts s).

Section upgrade.
Context (fails : string → option error) (step_fails : nat → option error) (ro : range_order).
Implicit Types (s : sink_schema).

(** One migration: on success the next level, on failure the same one. *)
Lemma apply_level k m s :
  migrations fails step_fails ro !! k = Some m → at_level k s →
  sc_migrations (apply_migration m s).1 = sc_migrations s ∧
  match apply_migration m s with
  | (s', None) => at_level (k + 1) (record_migration (m_Name m) s') ∧ keeps s (record_migration (m_Name m) s')
  | (s', Some _) => at_level k s' ∧ keeps s s'
  end.
Proof using Type.
  intros Hm (Hr & Hsc & Hts). destruct k as [|[|[|[|[|[|k]]]]]]; simpl in Hm; try (injection Hm as <-); [| | | | | |done];
    unfold apply_migration, migration_01474, migration_01529, migration_01614; cbn [m_Func m_Name].
  - split; [done|]. split; [|done]. split_and!; [simpl; by rewrite Hr|simpl; lia|simpl; lia].
  - destruct (tx_Exec _ _ _) as [s'|e] eqn:E; [|done].
    apply tx_Exec_Ok in E as (_ & s1 & (_ & s2 & (_ & s3 & [= <-] & ->)%tx_Exec_Ok & ->)%tx_Exec_Ok & ->).
    split; [done|]. split; [|by intros]. split_and!; [simpl; by rewrite Hr| |simpl; lia]. intros _. simpl. split; set_solver.
  - unfold func_01409. destruct (step_fails 0%nat); [done|].
    pose proof (λ Ho, migration_rows step_fails ro (sc_tables s) Ho) as Hrows. cbn zeta in Hrows. simpl sc_tables.
    assert (∀ t, {["admin_functions"; "ensure_partition_postgres"]} ⊆ sc_scripts (with_tables t (install_script "ensure_partition_postgres"
      (install_script "admin_functions" (drop_functions {["ensure_partition_metric_dbname_time"]} s)))) ∧
      sc_old (with_tables t (install_script "ensure_partition_postgres" (install_script "admin_functions"
        (drop_functions {["ensure_partition_metric_dbname_time"]} s)))) ## old_functions) as Hs2.
    { intros t. destruct (Hsc ltac:(lia)) as [? Hold]. simpl. split; set_solver. }
    destruct (migration_01409 step_fails ro (sc_tables s) 0%nat) as [[t i] [[]|e]]; simpl in Hrows; (split; [done|]).
    + split; [|exact Hrows]. split_and!; [simpl; by rewrite Hr|intros _; apply Hs2|simpl; lia].
    + split; [|exact Hrows]. split_and!; [done|intros _; apply Hs2|simpl; lia].
  - destruct (tx_Exec _ _ _) as [s'|e] eqn:E; [|done]. apply tx_Exec_Ok in E as (_ & s1 & [= <-] & ->). split; [done|].
    split; [|by intros]. split_and!; [simpl; by rewrite Hr| |simpl; lia]. intros _. destruct (Hsc ltac:(lia)). simpl. split; set_solver.
  - destruct (tx_Exec _ _ _) as [s'|e] eqn:E; [|done]. apply tx_Exec_Ok in E as (_ & s1 & [= <-] & ->). split; [done|].
    split; [|by intros]. split_and!; [simpl; by rewrite Hr| |simpl; lia]. intros _. destruct (Hsc ltac:(lia)). simpl. split; set_solver.
  - destruct (tx_Exec _ _ _) as [s'|e] eqn:E; [|done]. apply tx_Exec_Ok in E as (_ & s1 & [= <-] & ->). split; [done|].
    split; [|by intros]. split_and!; [simpl; by rewrite Hr| |]; intros _; [destruct (Hsc ltac:(lia)); simpl; split; set_solver|].
    simpl. set_solver.
Qed.
End upgrade.

Section run.
Context (mg : migrator sink_schema) `{!MigratorLaws mg}.
Context (fails : string → option error) (step_fails : nat → option error) (ro : range_order).
Implicit Types (s : sink_schema).

Lemma level_length k s : (k ≤ 6)%nat → at_level k s → length (sc_migrations s) = k.
Proof using Type. intros Hk (-> & _). rewrite length_take. simpl. lia. Qed.

End run.

(** ** Examples *)

(** A database that came up to level 2, with a table of the old layout. *)
Definition sample_schema : sink_schema := {|
  sc_tables := old_tables; sc_scripts := {["admin_functions"; "ensure_partition_postgres"]}; sc_old := ∅;
  sc_migrations := take 2 fresh_versions |}.

Lemma sample_schema_level : at_level 2 sample_schema.
Proof. split_and!; [done|intros _; split; set_solver|lia]. Qed.


(** Sources [a] and [b] have rows, [a] is listed and [c] has none any more. *)
Definition listed_state : maintained := {|
  mt_db := set_parts empty_measurements [{| pt_table := "wal"; pt_from := 0; pt_to := 10; pt_rows :=
    [{| row_time := 5; row_dbname := "a"; row_data := "{}"; row_tag_data := "{}" |};
     {| row_time := 6; row_dbname := "b"; row_data := "{}"; row_tag_data := "{}" |}] |}];
  mt_listing := {[("a", "wal"); ("c", "wal")]} |}.

Lemma listed_state_sound : parts_sound (mt_db listed_state).
Proof. unfold parts_sound. simpl. repeat constructor; simpl; lia. Qed.

Lemma maintenance_lists_witness :
  let st' := maintenance_job SinkAdmin.no_failure true ["wal"] 10 100 listed_state in
  ("a", "wal") ∈ mt_listing st' ∧ ("b", "wal") ∉ mt_listing st' ∧ ("c", "wal") ∉ mt_listing st'.
Proof.
  cbn zeta. pose proof (λ d, maintenance_lists SinkAdmin.no_failure ["wal"] 10 100 listed_state d "wal" eq_refl eq_refl
    listed_state_sound (NoDup_singleton "wal")) as H. cbn zeta in H.
  split; [|split].
  - apply (H "a"). split; [by left|]. split; [|left; set_solver]. apply (bool_decide_unpack _). vm_compute. exact I.
  - intros Hb. apply (H "b") in Hb as (_ & _ & [Hl|Hno]).
    + revert Hl. apply (bool_decide_unpack (_ ∉ _)). vm_compute. exact I.
    + apply (Hno "a"); apply (bool_decide_unpack _); vm_compute; exact I.
  - intros Hc. apply (H "c") in Hc as (_ & Hf & _). revert Hf. apply (bool_decide_unpack (_ ∉ _)). vm_compute. exact I.
Defined.
