(* ===== verification/Main.v ===== *)
(** * The entry point ([cmd/pgwatch/main.go], [internal/cmdopts/cmdoptions.go], [internal/db/conn.go])

    [main] reads the options, opens the stores and the sinks, checks that no schema is outdated, starts
    the web server and then runs the main loop until the context ends; every failure ends the program
    with an exit code of its own.  A goroutine waits for a signal, ends the context and stores the
    exit code for an interrupt.

    The theorems describe the exit codes, and show with the steps of the two goroutines that the code
    for an interrupt may not be stored in time.  The file also has the test whether the program runs
    on the host of a server. *)

From Stdlib Require Import Ascii.
From S2P Require Import Prelude GoStrings Metrics Sources Sinks CmdOpts.
From stdpp Require Import options.

Local Open Scope Z_scope.

(** ** Exit codes *)

Definition ExitCodeWebUIError : Z := 3.
Definition ExitCodeUpgradeError : Z := 4.
Definition ExitCodeUserCancel : Z := 5.
Definition ExitCodeShutdownCommand : Z := 6.
Definition ExitCodeFatalError : Z := 7.

(** ** Start-up *)

Section start.
(** The databases that the program opens. *)
Context {W : Type}.
Implicit Types (w : W).

(** A store that was opened: whether it can be migrated, and then whether its database has to be. *)
Definition store : Type := option (W → result bool).

(** What the parts of the start-up do: the parser of the command line, which also runs a sub-command,
    the driver's test for connection strings, the file system, the constructors of the stores, of the
    sinks and of the web server.  Opening a database may create its schema. *)
Record startup := {
  su_opts : Options;                           (* as parsed *)
  su_args : list string;                       (* left over *)
  su_parse_err : option error;
  su_help : bool;                              (* the error is a request for help *)
  su_IsPgConnStr : string → bool;
  su_stat : string → result bool;
  NewYAMLMetricReaderWriter : string → result store;
  NewPostgresMetricReaderWriter : string → W → W * result store;
  NewYAMLSourcesReaderWriter : string → result store;
  NewPostgresSourcesReaderWriter : string → W → W * result store;
  su_Sinks : list string → W → W * result store;
  su_Web : option error;
}.
Implicit Types (su : startup).

(** [cmdopts.New]: the options, [Help], the error. *)
Definition New su : Options * bool * option error :=
  match su_parse_err su with
  | Some e => (su_opts su, su_help su, Some e)
  | None =>
      if CommandCompleted (su_opts su) then (su_opts su, false, None)
      else if bool_decide (su_args su ≠ []) then (su_opts su, false, Some (ErrorString "unknown argument(s)"))
      else let '(opts, err) := ValidateConfig (su_IsPgConnStr su) (su_opts su) in (opts, false, err)
  end.

(** [db.NeedsMigration]. *)
Definition NeedsMigration (s : store) (needsMigrationErr : error) w : option error :=
  match s with
  | None => None
  | Some needs =>
      match needs w with
      | Err e => Some e
      | Ok true => Some needsMigrationErr
      | Ok false => None
      end
  end.

Definition InitMetricReader su (opts : Options) w : W * result store :=
  if bool_decide (opt_Metrics opts = "") then (w, NewYAMLMetricReaderWriter su "")
  else if su_IsPgConnStr su (opt_Metrics opts) then NewPostgresMetricReaderWriter su (opt_Metrics opts) w
  else (w, NewYAMLMetricReaderWriter su (opt_Metrics opts)).

Definition InitSourceReader su (opts : Options) w : W * result store :=
  match GetConfigKind (su_IsPgConnStr su) (su_stat su) (opt_Sources opts) with
  | (_, Some e) => (w, Err e)
  | (ConfigPgURL, None) => NewPostgresSourcesReaderWriter su (opt_Sources opts) w
  | (_, None) => (w, NewYAMLSourcesReaderWriter su (opt_Sources opts))
  end.

Definition error_of {A} (r : result A) : option error := match r with Ok _ => None | Err e => Some e end.

(** The stores of metrics and of sources; both are opened before an error is reported. *)
Definition InitConfigReaders su (opts : Options) w : W * result (store * store) :=
  let '(w, metrics) := InitMetricReader su opts w in
  let '(w, srcs) := InitSourceReader su opts w in
  (w, match errors_Join [error_of metrics; error_of srcs], metrics, srcs with
      | None, Ok metrics, Ok srcs =>
          match NeedsMigration metrics (Sentinel ErrNeedsMigration) w with Some e => Err e | None => Ok (metrics, srcs) end
      | Some e, _, _ | _, Err e, _ | _, _, Err e => Err e
      end).

Definition InitSinkWriter su (opts : Options) w : W * result store :=
  match su_Sinks su (opt_Sinks opts) w with
  | (w, Err e) => (w, Err e)
  | (w, Ok sinks) =>
      (w, match NeedsMigration sinks (Sentinel ErrNeedsMigration) w with Some e => Err e | None => Ok sinks end)
  end.

(** One [Migrator] of [NeedsSchemaUpgrade]. *)
Definition migrator_NeedsMigration (s : store) w : bool * option error :=
  match s with
  | None => (false, None)
  | Some needs => match needs w with Ok b => (b, None) | Err e => (false, Some e) end
  end.

Fixpoint NeedsSchemaUpgrade (stores : list store) w : bool * option error :=
  match stores with
  | [] => (false, None)
  | s :: stores =>
      let '(upgrade, err) := migrator_NeedsMigration s w in
      if upgrade || bool_decide (is_Some err) then (upgrade, err) else NeedsSchemaUpgrade stores w
  end.

(** [main] up to the main loop: the databases as it leaves them, and the exit code it ends with, or that the main
    loop runs. *)
Definition main su w : W * option Z :=
  let '(opts, help, err) := New su in
  match err with
  | Some _ => (w, Some (if help then ExitCodeOK else ExitCodeConfigError))
  | None =>
      if CommandCompleted opts then (w, Some (ExitCode opts))
      else
        match InitConfigReaders su opts w with
        | (w, Err _) => (w, Some ExitCodeConfigError)
        | (w, Ok (metrics, srcs)) =>
            match InitSinkWriter su opts w with
            | (w, Err _) => (w, Some ExitCodeConfigError)
            | (w, Ok sinks) =>
                let '(upgrade, err) := NeedsSchemaUpgrade [srcs; metrics; sinks] w in
                (w, if upgrade || bool_decide (is_Some err) then Some ExitCodeUpgradeError
                    else match su_Web su with Some _ => Some ExitCodeWebUIError | None => None end)
            end
        end
  end.

Definition outdated (s : store) w : Prop := ∃ needs, s = Some needs ∧ needs w = Ok true.
Definition current (s : store) w : Prop := s = None ∨ ∃ needs, s = Some needs ∧ needs w = Ok false.

Lemma store_current s w e : NeedsMigration s e w = None ↔ current s w.
Proof using Type.
  unfold NeedsMigration, current. destruct s as [needs|]; [|naive_solver]. destruct (needs w) as [[]|] eqn:E; naive_solver congruence.
Qed.

Lemma current_migrator s w : current s w ↔ migrator_NeedsMigration s w = (false, None).
Proof using Type.
  unfold migrator_NeedsMigration, current. destruct s as [needs|]; [|naive_solver]. destruct (needs w) as [[]|] eqn:E; naive_solver congruence.
Qed.

Lemma NeedsSchemaUpgrade_current stores w :
  Forall (λ s, current s w) stores ↔ NeedsSchemaUpgrade stores w = (false, None).
Proof using Type.
  induction stores as [|s stores IH]; simpl; [by rewrite Forall_nil|]. rewrite Forall_cons, IH, current_migrator.
  destruct (migrator_NeedsMigration s w) as [[] [e|]]; simpl; naive_solver.
Qed.

(** The stores that a start-up opens, and the databases after it. *)
Definition opened su opts w metrics srcs sinks w1 w2 : Prop :=
  New su = (opts, false, None) ∧ CommandCompleted opts = false ∧
  ∃ w0, InitMetricReader su opts w = (w0, Ok metrics) ∧ InitSourceReader su opts w0 = (w1, Ok srcs) ∧
        su_Sinks su (opt_Sinks opts) w1 = (w2, Ok sinks).

Lemma main_opened su opts w metrics srcs sinks w1 w2 :
  opened su opts w metrics srcs sinks w1 w2 →
  (main su w).2 = None ↔ current metrics w1 ∧ current sinks w2 ∧ current srcs w2 ∧ current metrics w2 ∧ su_Web su = None.
Proof using Type.
  intros (Hn & Hc & w0 & Hm & Hs & Hk). unfold main, InitConfigReaders, InitSinkWriter. rewrite Hn, Hc, Hm, Hs.
  change (errors_Join [error_of (Ok metrics); error_of (Ok srcs)]) with (@None error).
  pose proof (store_current metrics w1 (Sentinel ErrNeedsMigration)) as C1.
  destruct (NeedsMigration metrics _ w1) eqn:E1; [simpl; naive_solver|]. rewrite Hk.
  pose proof (store_current sinks w2 (Sentinel ErrNeedsMigration)) as C2.
  destruct (NeedsMigration sinks _ w2) eqn:E2; [simpl; naive_solver|].
  pose proof (NeedsSchemaUpgrade_current [srcs; metrics; sinks] w2) as C3. rewrite !Forall_cons in C3.
  destruct (NeedsSchemaUpgrade _ w2) as [[] [e|]]; simpl; [naive_solver..|].
  destruct (su_Web su); naive_solver.
Qed.

(** The main loop runs only if everything was opened. *)
Lemma main_runs su w :
  (main su w).2 = None → ∃ opts metrics srcs sinks w1, opened su opts w metrics srcs sinks w1 (main su w).1.
Proof using Type.
  unfold main, InitConfigReaders, InitSinkWriter, opened. destruct (New su) as [[opts help] err] eqn:En. destruct err; [done|].
  assert (help = false) as ->.
  { unfold New in En. destruct (su_parse_err su); [done|]. destruct (CommandCompleted (su_opts su)); [by simplify_eq|].
    case_bool_decide; [by simplify_eq|]. destruct (ValidateConfig (su_IsPgConnStr su) (su_opts su)). by simplify_eq. }
  destruct (CommandCompleted opts) eqn:Ec; [done|].
  destruct (InitMetricReader su opts w) as [w0 [metrics|em]] eqn:Em;
    destruct (InitSourceReader su opts w0) as [w1 [srcs|es]] eqn:Es; try done.
  change (errors_Join [error_of (Ok metrics); error_of (Ok srcs)]) with (@None error).
  destruct (NeedsMigration metrics _ w1); [done|]. destruct (su_Sinks su _ w1) as [w2 [sinks|]] eqn:Ek; [|done].
  destruct (NeedsMigration sinks _ w2); [done|]. destruct (NeedsSchemaUpgrade _ w2) as [upgrade err]. intros _.
  exists opts, metrics, srcs, sinks, w1. split_and!; [done..|]. simpl. eauto.
Qed.

(** The main loop runs exactly if the options are right, no sub-command ran, all stores and sinks
    could be opened and are current, and the web server started.  An outdated schema ends the program
    with the code for upgrades only if it is that of the sources alone: outdated metric definitions or
    sinks are met first and reported as a configuration error.  A sub-command that fails ends the
    program with the code for configuration errors, whatever code it had asked for. *)
Theorem main_exit su w :
  ((main su w).2 = None ↔ ∃ opts metrics srcs sinks w1 w2, opened su opts w metrics srcs sinks w1 w2 ∧
     current metrics w1 ∧ current sinks w2 ∧ current srcs w2 ∧ current metrics w2 ∧ su_Web su = None) ∧
  (∀ opts metrics srcs sinks w1 w2, opened su opts w metrics srcs sinks w1 w2 →
     (outdated metrics w1 ∨ outdated sinks w2 ∧ current metrics w1 → (main su w).2 = Some ExitCodeConfigError) ∧
     (current metrics w1 → current sinks w2 → outdated srcs w2 → (main su w).2 = Some ExitCodeUpgradeError)) ∧
  (is_Some (su_parse_err su) → su_help su = false → main su w = (w, Some ExitCodeConfigError)).
Proof using Type.
  split_and!.
  - split.
    + intros Hn. destruct (main_runs su w Hn) as (opts & metrics & srcs & sinks & w1 & Ho).
      pose proof (proj1 (main_opened _ _ _ _ _ _ _ _ Ho) Hn). naive_solver.
    + intros (opts & metrics & srcs & sinks & w1 & w2 & Ho & H). by apply (main_opened _ _ _ _ _ _ _ _ Ho).
  - intros opts metrics srcs sinks w1 w2 (Hn & Hc & w0 & Hm & Hs & Hk). unfold main, InitConfigReaders, InitSinkWriter.
    rewrite Hn, Hc, Hm, Hs. change (errors_Join [error_of (Ok metrics); error_of (Ok srcs)]) with (@None error).
    pose proof (store_current metrics w1 (Sentinel ErrNeedsMigration)) as C1.
    pose proof (store_current sinks w2 (Sentinel ErrNeedsMigration)) as C2. split.
    + intros [(needs & -> & E)|[(needs & -> & E) Hcm]]; [simpl; by rewrite E|].
      rewrite (proj2 C1 Hcm), Hk. simpl. by rewrite E.
    + intros Hcm Hck (needs & -> & E). rewrite (proj2 C1 Hcm), Hk, (proj2 C2 Hck). simpl. by rewrite E.
  - intros [e He] Hh. unfold main, New. rewrite He, Hh. done.
Qed.
End start.
Arguments store : clear implicits.
Arguments startup : clear implicits.

(** One configuration database for both, whose schema is outdated. *)
Definition sample_startup : startup () := {|
  su_opts := with_config_db sample_options "postgres://config" ""; su_args := []; su_parse_err := None; su_help := false;
  su_IsPgConnStr := λ s, bool_decide (s = "postgres://config"); su_stat := λ _, Ok false;
  NewYAMLMetricReaderWriter := λ _, Ok None; NewPostgresMetricReaderWriter := λ _ w, (w, Ok (Some (λ _, Ok true)));
  NewYAMLSourcesReaderWriter := λ _, Ok None; NewPostgresSourcesReaderWriter := λ _ w, (w, Ok (Some (λ _, Ok true)));
  su_Sinks := λ _ w, (w, Ok None); su_Web := None |}.

Example sample_startup_code : (main sample_startup ()).2 = Some ExitCodeConfigError.
Proof. vm_compute. reflexivity. Qed.

(** ** The signal *)

Inductive handler := Waiting | Cancelled | Stored.
Inductive main_state := Reaping | Returning | Exited (code : Z).

Record process := { p_handler : handler; p_main : main_state; exitCode : Z }.

(** The steps of the two goroutines: the handler ends the context and then stores the code; the main
    loop returns when the context has ended, and then the code is read. *)
Inductive step : process → process → Prop :=
  | step_signal p : p_handler p = Waiting →
      step p {| p_handler := Cancelled; p_main := p_main p; exitCode := exitCode p |}
  | step_store p : p_handler p = Cancelled →
      step p {| p_handler := Stored; p_main := p_main p; exitCode := ExitCodeUserCancel |}
  | step_return p : p_handler p ≠ Waiting → p_main p = Reaping →
      step p {| p_handler := p_handler p; p_main := Returning; exitCode := exitCode p |}
  | step_exit p : p_main p = Returning →
      step p {| p_handler := p_handler p; p_main := Exited (exitCode p); exitCode := exitCode p |}.

Definition started : process := {| p_handler := Waiting; p_main := Reaping; exitCode := ExitCodeOK |}.

(** The program does not end before the signal; the code is that of a success or of an interrupt. *)
Definition process_ok (p : process) : Prop :=
  exitCode p = (match p_handler p with Stored => ExitCodeUserCancel | _ => ExitCodeOK end) ∧
  match p_main p with
  | Reaping => True
  | Returning => p_handler p ≠ Waiting
  | Exited c => p_handler p ≠ Waiting ∧ (c = ExitCodeOK ∨ c = ExitCodeUserCancel)
  end.

Lemma step_ok p q : process_ok p → step p q → process_ok q.
Proof.
  intros [Hc Hm] Hs. destruct Hs as [p Hw|p Hw|p Hw Hr|p Hr]; unfold process_ok in *; simpl in *.
  - rewrite Hw in *. split; [done|]. destruct (p_main p); naive_solver.
  - rewrite Hw in *. split; [done|]. destruct (p_main p); naive_solver.
  - split; [done|done].
  - rewrite Hr in Hm. split; [done|]. split; [done|]. rewrite Hc. destruct (p_handler p); auto.
Qed.

(** Once the main loop runs, an interrupt ends the program with the code for an interrupt or with
    the one for success, and with no other; which one is decided by a race, since the handler ends the
    context before it stores the code: both can happen. *)
Theorem interrupt_exit_code :
  (∀ p c, rtc step started p → p_main p = Exited c → c = ExitCodeOK ∨ c = ExitCodeUserCancel) ∧
  (∃ p, rtc step started p ∧ p_main p = Exited ExitCodeUserCancel) ∧
  (∃ p, rtc step started p ∧ p_main p = Exited ExitCodeOK).
Proof.
  split_and!.
  - intros p c Hp Hc. assert (process_ok p) as [_ Hm].
    { assert (process_ok started) as H0 by (by split). revert H0.
      induction Hp as [|p q r Hs _ IH]; [done|]. intros H0. eapply IH; [done|]. by eapply step_ok. }
    rewrite Hc in Hm. tauto.
  - exists {| p_handler := Stored; p_main := Exited ExitCodeUserCancel; exitCode := ExitCodeUserCancel |}. split; [|done].
    eapply rtc_l; [by apply step_signal|]. eapply rtc_l; [by apply step_store|].
    eapply rtc_l; [by apply step_return|]. apply rtc_once. by apply (step_exit {| p_main := Returning |}).
  - exists {| p_handler := Cancelled; p_main := Exited ExitCodeOK; exitCode := ExitCodeOK |}. split; [|done].
    eapply rtc_l; [by apply step_signal|]. eapply rtc_l; [by apply step_return|].
    apply rtc_once. by apply (step_exit {| p_main := Returning |}).
Qed.

(** ** The host of a server *)

(** The answers of the server, and the bytes of its control file ([filepath.Join] is the plain path for
    a data directory without redundant parts). *)
Record host_answers := {
  unix_socket : result bool;
  data_directory : result string;
  system_identifier : result Z;
  read_control : string → result (list Z);
}.

Fixpoint little_endian (bytes : list Z) : Z :=
  match bytes with [] => 0 | b :: bytes => b + 256 * little_endian bytes end.

Fixpoint le_bytes (n : nat) (z : Z) : list Z :=
  match n with O => [] | S n => z `mod` 256 :: le_bytes n (z / 256) end.
Definition uint64_bytes (z : Z) : list Z := le_bytes 8 z.

Definition IsClientOnSameHost (h : host_answers) : result bool :=
  match unix_socket h with
  | Err e => Err e
  | Ok true => Ok true
  | Ok false =>
      match data_directory h with
      | Err e => Err e
      | Ok dir =>
          match system_identifier h with
          | Err e => Err e
          | Ok id =>
              match read_control h (dir +:+ "/global/pg_control") with
              | Err e => Err e
              | Ok bytes =>
                  if (len bytes <? 8) then Err (ErrorString "unexpected EOF")
                  else Ok (little_endian (take 8 bytes) =? id)
              end
          end
      end
  end.

(** [DbConn.IsClientOnSameHost]. *)
Definition md_IsClientOnSameHost (h : host_answers) : bool :=
  match IsClientOnSameHost h with Ok b => b | Err _ => false end.

Lemma little_endian_le n z : little_endian (le_bytes n z) = z `mod` 256 ^ Z.of_nat n.
Proof.
  revert z. induction n as [|n IH]; intros z; cbn [le_bytes little_endian]; [by rewrite Z.mod_1_r|].
  rewrite IH, Nat2Z.inj_succ, Z.pow_succ_r by lia. rewrite Z.rem_mul_r; [done|done|]. apply Z.pow_pos_nonneg; lia.
Qed.

Lemma little_endian_bytes z : 0 ≤ z < 2 ^ 64 → little_endian (uint64_bytes z) = z.
Proof. intros Hz. unfold uint64_bytes. rewrite little_endian_le. by apply Z.mod_small. Qed.

(** Over a network connection the answer is whether the control file at the place the server named is
    that of the server: the file starts with the identifier, least significant byte first. *)
Lemma same_host_by_identifier h dir id z rest :
  unix_socket h = Ok false → data_directory h = Ok dir → system_identifier h = Ok id →
  read_control h (dir +:+ "/global/pg_control") = Ok (uint64_bytes z ++ rest) → 0 ≤ z < 2 ^ 64 →
  (md_IsClientOnSameHost h = true ↔ z = id).
Proof.
  intros Hu Hd Hi Hr Hz. unfold md_IsClientOnSameHost, IsClientOnSameHost. rewrite Hu, Hd, Hi, Hr.
  assert (length (uint64_bytes z) = 8%nat) as Hl by done.
  rewrite (proj2 (Z.ltb_ge _ 8)) by (rewrite length_app, Hl; lia).
  rewrite take_app_length' by done. rewrite little_endian_bytes by done. by rewrite Z.eqb_eq.
Qed.
