(* ===== verification/ConfigStart.v ===== *)
(** * The configuration database at start-up and at an upgrade
      ([internal/db/bootstrap.go], [internal/metrics/postgres_schema.go], [postgres.go], [internal/sources/postgres.go])

    Opening a store in a database makes a pool with the settings of the program, creates the schema if it is
    missing, and pings.  Both stores, that of the metrics and that of the sources, can be migrated, by the same
    list of migrations.  Here the constructors of [Main] and the storages of the upgrade command of [CmdOpts]
    are these functions on a world of databases.  The theorem is what an upgrade does to the tables; the
    start and the start after an upgrade are a lemma, which [SinkStart] joins with the sinks. *)

From S2P Require Import Prelude GoStrings Metrics Sources Changes SourceStores MetricStore Conn CmdOpts ConfigSchema Migrator Main.
From stdpp Require Import options.

Local Open Scope Z_scope.

(** ** Pools *)

Record pool_config := {
  pc_ConnConfig : conn_config;
  MaxConnIdleTime : Z;
  MaxConnLifetime : Z;
  RuntimeParams : gmap string string;
}.

Definition pgConnRecycleSeconds : Z := 1800.
Definition applicationName : string := "pgwatch".

(** What the driver does: it parses settings, makes a pool and pings. *)
Record driver := {
  dr_ParseConfig : string → result pool_config;
  dr_NewPool : pool_config → option error;
  dr_Ping : pool_config → option error;
  dr_fails : string → string → option error;   (* the statements of a database that fail *)
}.

Definition IsPgConnStr (dr : driver) (arg : string) : bool :=
  match dr_ParseConfig dr arg with Ok _ => true | Err _ => false end.

Definition pool_settings (c : pool_config) : pool_config := {|
  pc_ConnConfig := default_timeout (pc_ConnConfig c);
  MaxConnIdleTime := 15 * time_Second;
  MaxConnLifetime := pgConnRecycleSeconds * time_Second;
  RuntimeParams := <["application_name" := applicationName]> (RuntimeParams c) |}.

Fixpoint run_callbacks (callbacks : list (pool_config → result pool_config)) (c : pool_config) : result pool_config :=
  match callbacks with
  | [] => Ok c
  | f :: callbacks => match f c with Err e => Err e | Ok c => run_callbacks callbacks c end
  end.

Definition NewWithConfig (dr : driver) (c : pool_config) (callbacks : list (pool_config → result pool_config)) : result pool_config :=
  match run_callbacks callbacks (pool_settings c) with
  | Err e => Err e
  | Ok c => match dr_NewPool dr c with Some e => Err e | None => Ok c end
  end.

(** [db.New]. *)
Definition db_New (dr : driver) (connStr : string) (callbacks : list (pool_config → result pool_config)) : result pool_config :=
  match dr_ParseConfig dr connStr with
  | Err e => Err e
  | Ok c => NewWithConfig dr c callbacks
  end.

(** ** Repeated connection attempts *)

(** The library that repeats: the attempts by their number, at most [n] repetitions, for as long as the context lasts. *)
Class RetryLaws (Do : nat → (nat → option error) → option error) : Prop := {
  Do_ok n f : Do n f = None ↔ ∃ i, (i ≤ n)%nat ∧ f i = None;
}.

(** [db.Init]. *)
Definition db_Init {S A} (Do : nat → (nat → option error) → option error) (Ping : nat → option error)
    (init : S → S * result A) (s : S) : S * result A :=
  match Do 3%nat Ping with
  | Some e => (s, Err e)
  | None => init s
  end.

(** The callback runs exactly if one of four attempts succeeds. *)
Lemma db_Init_attempts {S A} Do `{!RetryLaws Do} Ping (init : S → S * result A) s :
  (∃ i, (i < 4)%nat ∧ Ping i = None) ∧ db_Init Do Ping init s = init s ∨
  (∀ i, (i < 4)%nat → is_Some (Ping i)) ∧ ∃ e, db_Init Do Ping init s = (s, Err e).
Proof.
  unfold db_Init. pose proof (Do_ok 3 Ping) as H. destruct (Do 3%nat Ping) as [e|].
  - right. split; [|by eexists]. intros i Hi. destruct (Ping i) eqn:E; [by eexists|]. exfalso.
    assert (Some e = None) as [=]. apply H. exists i. split; [lia|done].
  - left. split; [|done]. destruct (proj1 H eq_refl) as (i & Hi & Hp). exists i. split; [lia|done].
Qed.

(** ** Migrations of the configuration schema *)

#[export] Instance config_Migrated : Migrated config_schema := {|
  applied := cs_migrations;
  record_migration name s := {|
    cs_defs := cs_defs s; cs_sources := cs_sources s; cs_migrations := cs_migrations s ++ [name]; cs_dbtypes := cs_dbtypes s |};
  applied_record _ _ := eq_refl |}.

Definition config_migrations (fails : string → option error) : list (migration config_schema) := [
  {| m_Name := "00179 Apply metrics migrations for v3"; m_Func := InTx Ok |};
  {| m_Name := "00824 Refactor recommendations";
     m_Func := InTx (λ s, tx_Exec (fails "00824") migration_00824 (Ok s)) |};
  {| m_Name := "01405 Add prometheus to source dbtype check constraint";
     m_Func := InTx (λ s, match fails "01405" with Some e => Err e | None => migration_01405 s end) |} ].

Section schema.
(** The library, or the error of making it. *)
Context (initMigrator : result (migrator config_schema)).

Definition MigrateConfigSchema (fails : string → option error) (s : config_schema) : config_schema * option error :=
  match initMigrator with
  | Err e => (s, Some (WrapError "cannot initialize migration" e))
  | Ok m => lib_Migrate m (config_migrations fails) s
  end.

Definition NeedsConfigSchemaMigration (fails : string → option error) (s : config_schema) : result bool :=
  match initMigrator with
  | Err e => Err e
  | Ok m => lib_NeedUpgrade m (config_migrations fails) s
  end.

(** ** Stores in a database *)

(** The databases, by the identity that the driver's settings lead to; one without the schema [pgwatch] is not in the map. *)
Context (dr : driver) (target : pool_config → string) (order : range_order) (GetDefaultMetrics : Metrics).
Abbreviation databases := (gmap string config_schema).
Implicit Types (w : databases).

Definition on_database {A} (name : string) (f : option config_schema → option config_schema * A) w : databases * A :=
  let '(db, a) := f (w !! name) in (partial_alter (λ _, db) name w, a).

(** [NewPostgresMetricReaderWriterConn] and [NewPostgresSourcesReaderWriterConn] create the schema and ping. *)
Definition NewReaderWriterConn (pool : pool_config) w : databases * result string :=
  let '(w, err) := on_database (target pool) (EnsureConfigSchema order (dr_fails dr (target pool)) GetDefaultMetrics) w in
  match err with
  | Some e => (w, Err e)
  | None => (w, match dr_Ping dr pool with Some e => Err e | None => Ok (target pool) end)
  end.

(** Both constructors: a store is the name of its database. *)
Definition NewReaderWriter (connstr : string) w : databases * result string :=
  match db_New dr connstr [] with
  | Err e => (w, Err e)
  | Ok pool => NewReaderWriterConn pool w
  end.

(** [Migrate] and [NeedsMigration] of both stores. *)
Definition rw_Migrate (name : string) w : databases * option error :=
  match w !! name with
  | None => (w, Some (PgError "3F000"))
  | Some s => let '(s, err) := MigrateConfigSchema (dr_fails dr name) s in (<[name := s]> w, err)
  end.
Definition rw_NeedsMigration (name : string) w : result bool :=
  match w !! name with
  | None => Err (PgError "3F000")
  | Some s => NeedsConfigSchemaMigration (dr_fails dr name) s
  end.

(** ** The start-up and the upgrade on these databases *)

(** The databases of the configuration, and those of the sinks. *)
Context {SW : Type}.
Definition open_store (connstr : string) (ws : databases * SW) : (databases * SW) * result (store (databases * SW)) :=
  let '(w, r) := NewReaderWriter connstr ws.1 in
  ((w, ws.2), match r with Err e => Err e | Ok name => Ok (Some (λ ws, rw_NeedsMigration name ws.1)) end).

(** A start-up with the constructors of this file; that of the sinks works on its own databases. *)
Definition on_databases (su : startup SW) : startup (databases * SW) := {|
  su_opts := su_opts su; su_args := su_args su; su_parse_err := su_parse_err su; su_help := su_help su;
  su_IsPgConnStr := IsPgConnStr dr; su_stat := su_stat su;
  NewYAMLMetricReaderWriter := λ path, match NewYAMLMetricReaderWriter su path with
                                       | Ok s => Ok ((λ needs ws, needs ws.2) <$> s) | Err e => Err e end;
  NewPostgresMetricReaderWriter := open_store;
  NewYAMLSourcesReaderWriter := λ path, match NewYAMLSourcesReaderWriter su path with
                                        | Ok s => Ok ((λ needs ws, needs ws.2) <$> s) | Err e => Err e end;
  NewPostgresSourcesReaderWriter := open_store;
  su_Sinks := λ uris ws, let '(sw, r) := su_Sinks su uris ws.2 in
                         ((ws.1, sw), match r with Ok s => Ok ((λ needs ws, needs ws.2) <$> s) | Err e => Err e end);
  su_Web := su_Web su |}.

(** The part of the upgrade command that is about one storage of the configuration: open it and migrate it. *)
Definition upgrade_storage (uri : string) w : databases * option error :=
  if bool_decide (uri = "") || negb (IsPgConnStr dr uri) then (w, None)
  else
    match NewReaderWriter uri w with
    | (w, Err e) => (w, Some e)
    | (w, Ok name) => rw_Migrate name w
    end.

(** The command: the sources first, then the metrics, then the sinks. *)
Definition ConfigUpgrade (upgrade_sink : string → option error) (c : Options) w
    : databases * outcome (Options * option error * list error) :=
  let c' := share_config_db (IsPgConnStr dr) c in
  let '(w, e1) := upgrade_storage (opt_Sources c') w in
  let '(w, e2) := upgrade_storage (opt_Metrics c') w in
  (w, ConfigUpgrade_Execute (IsPgConnStr dr)
        {| upgrade_sources := λ _, e1; upgrade_metrics := λ _, e2; upgrade_sink := upgrade_sink |} c).
End schema.

(** ** What an upgrade does *)

(** A schema after some migrations: each has had its effect once. *)
Definition migrated_tables (s s' : config_schema) : config_schema :=
  if (length (cs_migrations s) <? 2)%nat && (2 <=? length (cs_migrations s'))%nat then migration_00824 s else s.
Definition evolved (s s' : config_schema) : Prop :=
  (length (cs_migrations s) ≤ length (cs_migrations s'))%nat ∧
  cs_defs s' = cs_defs (migrated_tables s s') ∧ cs_sources s' = cs_sources (migrated_tables s s') ∧
  cs_dbtypes s' = if (length (cs_migrations s) <? 3)%nat && (3 <=? length (cs_migrations s'))%nat then dbtypes else cs_dbtypes s.

Lemma migration_00824_tables s s' :
  cs_defs s = cs_defs s' → cs_sources s = cs_sources s' →
  cs_defs (migration_00824 s) = cs_defs (migration_00824 s') ∧ cs_sources (migration_00824 s) = cs_sources (migration_00824 s').
Proof. intros Hd Hs. unfold migration_00824. rewrite Hd, Hs. done. Qed.

Ltac nat_tests := repeat match goal with
  | |- context [(?a <? ?b)%nat] => destruct (Nat.ltb_spec a b)
  | |- context [(?a <=? ?b)%nat] => destruct (Nat.leb_spec a b)
  | H : context [(?a <? ?b)%nat] |- _ => destruct (Nat.ltb_spec a b)
  | H : context [(?a <=? ?b)%nat] |- _ => destruct (Nat.leb_spec a b)
  end; simpl in *; try lia.

#[export] Instance evolved_preorder : PreOrder evolved.
Proof.
  split.
  - intros s. unfold evolved, migrated_tables. nat_tests; done.
  - intros a b c (Hl & Hd & Hs & Ht) (Hl' & Hd' & Hs' & Ht'). split; [lia|]. unfold migrated_tables in *.
    nat_tests; rewrite ?Hd', ?Hs', ?Ht', ?Hd, ?Hs, ?Ht; try done;
      try (destruct (migration_00824_tables b a) as [E1 E2]; [done|done|rewrite ?E1, ?E2; done]).
Qed.

Section upgrade.
Context (mg : migrator config_schema) `{!MigratorLaws mg} (fails : string → option error).
Implicit Types (s : config_schema).

Definition config_level (k : nat) s : Prop := length (cs_migrations s) = k.

Lemma config_step k m s :
  config_migrations fails !! k = Some m → config_level k s →
  cs_migrations (apply_migration m s).1 = cs_migrations s ∧
  match apply_migration m s with
  | (s', None) => config_level (k + 1) (record_migration (m_Name m) s') ∧ evolved s (record_migration (m_Name m) s')
  | (s', Some _) => config_level k s' ∧ evolved s s'
  end.
Proof using Type.
  unfold config_level. intros Hm Hk. destruct k as [|[|[|k]]]; simpl in Hm; try (injection Hm as <-); [| | |done];
    unfold apply_migration, tx_Exec, migration_01405; cbn [m_Func m_Name].
  - split; [done|]. unfold evolved, migrated_tables. simpl. rewrite length_app, Hk. simpl. split_and!; done || lia.
  - destruct (fails "00824"); [by split_and!|]. destruct (migrated_rest s) as (_ & _ & _ & Hr & Hd & Hs).
    split; [done|]. unfold evolved, migrated_tables. remember (migration_00824 s) as s1. simpl. rewrite Hr, length_app, Hk. simpl. split_and!; done || lia.
  - destruct (fails "01405"); [by split_and!|]. case_bool_decide; [|by split_and!].
    split; [done|]. unfold evolved, migrated_tables. simpl. rewrite length_app, Hk. simpl. split_and!; done || lia.
Qed.

(** Every kind of source is one that the new constraint admits. *)
Definition kinds_ok s : Prop := map_Forall (λ _ r, r_dbtype r ∈ dbtypes) (cs_sources s).

Lemma migration_00824_kinds s : kinds_ok s → kinds_ok (migration_00824 s).
Proof using Type.
  intros H. destruct (migrated_rest s) as (_ & _ & _ & _ & _ & Hs). unfold kinds_ok. rewrite Hs.
  intros n r. rewrite lookup_fmap. destruct (cs_sources s !! n) as [r0|] eqn:E; [|done]. intros [= <-]. by apply (H n r0).
Qed.

Lemma config_upgrade_ok s :
  (∀ sql, fails sql = None) → kinds_ok s → (length (cs_migrations s) ≤ 3)%nat → (lib_Migrate mg (config_migrations fails) s).2 = None.
Proof using All.
  intros Hf Hk Hl. assert (∀ k m s, config_migrations fails !! k = Some m → config_level k s ∧ kinds_ok s →
    (apply_migration m s).2 = None ∧ kinds_ok (apply_migration m s).1) as Hok.
  { clear s Hk Hl. intros k m s Hm [_ Hk]. destruct k as [|[|[|k]]]; simpl in Hm; try (injection Hm as <-); [| | |done];
      unfold apply_migration, tx_Exec, migration_01405; cbn [m_Func m_Name]; rewrite ?Hf; [done| |].
    - split; [done|]. by apply migration_00824_kinds.
    - by rewrite bool_decide_true. }
  apply (upgrade_succeeds mg (config_migrations fails) (λ k s, config_level k s ∧ kinds_ok s) evolved) with (length (cs_migrations s)).
  - intros k s' _ [H _]. done.
  - intros k m s' Hm [Hl' Hk']. destruct (Hok k m s' Hm) as [_ Hk2]; [done|]. destruct (config_step k m s' Hm Hl') as [Hr Hs].
    split; [done|]. destruct (apply_migration m s') as [s1 [e|]]; naive_solver.
  - intros k m s' Hm H. by apply (Hok k m s' Hm).
  - done.
  - done.
Qed.

(** C30.  Upgrading the configuration.  From any level and whichever statements fail, an upgrade leaves a schema at a level
    at least as high, in which each migration on the way has had its effect exactly once: the definitions,
    the presets and the sources are those that were there, or what the migration of the recommendations makes of
    them, and the last migration only changes the constraint.  It reports success exactly if nothing is left to do, and it does succeed if
    no statement fails and the kinds of the sources are known. *)
Theorem config_upgrade s :
  (length (cs_migrations s) ≤ 3)%nat →
  let '(s', err) := MigrateConfigSchema (Ok mg) fails s in
  evolved s s' ∧ (length (cs_migrations s') ≤ 3)%nat ∧
  (err = None ↔ length (cs_migrations s') = 3%nat) ∧
  (err = None ↔ NeedsConfigSchemaMigration (Ok mg) fails s' = Ok false) ∧
  ((∀ sql, fails sql = None) → kinds_ok s → err = None).
Proof using All.
  intros Hl. unfold MigrateConfigSchema, NeedsConfigSchemaMigration.
  pose proof (upgrade_levels mg (config_migrations fails) config_level evolved (λ _ _ _, id) config_step _ s Hl eq_refl) as Hrun.
  pose proof (λ Hf Hk, config_upgrade_ok s Hf Hk Hl) as Hok.
  destruct (lib_Migrate mg _ s) as [s' err]. destruct Hrun as (k' & Hk' & Hlev & Hev & He3 & Hneed).
  unfold config_level in Hlev. simpl in Hk', He3. rewrite <-Hlev in *. split_and!; [done|lia|done|done|done].
Qed.
End upgrade.

(** ** Starting on a configuration database *)

Section starts.
Context (mg : migrator config_schema) `{!MigratorLaws mg} (dr : driver) (target : pool_config → string).
Context (order : range_order) (defaults : Metrics) {SW : Type} (su : startup SW).
Abbreviation databases := (gmap string config_schema).
Implicit Types (w : databases) (s : config_schema).

Abbreviation openrw := (NewReaderWriter dr target order defaults).
Abbreviation start := (on_databases (Ok mg) dr target order defaults su).

(** The server under a connection string answers, and no statement fails. *)
Definition answers (connstr : string) (name : string) : Prop :=
  ∃ pool, db_New dr connstr [] = Ok pool ∧ target pool = name ∧ dr_Ping dr pool = None ∧ ∀ sql, dr_fails dr name sql = None.

Lemma answers_pg connstr name : answers connstr name → IsPgConnStr dr connstr = true.
Proof using Type. intros (pool & Hn & _). unfold db_New, IsPgConnStr in *. by destruct (dr_ParseConfig dr connstr). Qed.

(** Opening leaves a schema alone. *)
Lemma open_existing connstr name w s :
  answers connstr name → w !! name = Some s → openrw connstr w = (w, Ok name).
Proof using Type.
  intros (pool & Hn & Ht & Hp & Hf) Hw. unfold NewReaderWriter. rewrite Hn. unfold NewReaderWriterConn, on_database, EnsureConfigSchema,
    initSchema, DoesSchemaExist. rewrite Ht, Hw, Hf. simpl. rewrite Hp. f_equal. apply map_eq. intros n.
  destruct (decide (n = name)) as [->|]; [by rewrite lookup_partial_alter_eq|by rewrite lookup_partial_alter_ne].
Qed.

(** Opening creates a missing one. *)
Lemma open_missing connstr name w :
  answers connstr name → yaml_defs defaults → w !! name = None →
  ∃ s, openrw connstr w = (<[name := s]> w, Ok name) ∧ db_defs (cs_defs s) = defaults ∧ cs_sources s = ∅ ∧
       length (cs_migrations s) = 3%nat.
Proof using Type.
  intros (pool & Hn & Ht & Hp & Hf) Hy Hw. destruct (write_defaults order (dr_fails dr name) defaults Hf Hy) as (defs & Hd & Hdefs).
  unfold NewReaderWriter. rewrite Hn. unfold NewReaderWriterConn, on_database, EnsureConfigSchema, initSchema, DoesSchemaExist.
  rewrite Ht, Hw, !Hf. rewrite bool_decide_false by (by intros []). rewrite Hd, ?Hf, Hp.
  exists (with_defs (sqlConfigSchema order (dr_fails dr name)) defs). by split_and!.
Qed.

Lemma needs_level name w s :
  w !! name = Some s →
  rw_NeedsMigration (Ok mg) dr name w = Ok (bool_decide (length (cs_migrations s) < 3)%nat).
Proof using All. intros Hw. unfold rw_NeedsMigration. rewrite Hw. simpl. by rewrite NeedUpgrade_pending. Qed.

(** The storage of the upgrade command. *)
Lemma upgrade_existing connstr name w s :
  connstr ≠ "" → answers connstr name → w !! name = Some s → kinds_ok s → (length (cs_migrations s) ≤ 3)%nat →
  ∃ s', upgrade_storage (Ok mg) dr target order defaults connstr w = (<[name := s']> w, None) ∧ evolved s s' ∧
        kinds_ok s' ∧ length (cs_migrations s') = 3%nat.
Proof using All.
  intros Hne Ha Hw Hk Hl. unfold upgrade_storage. rewrite bool_decide_false by done. rewrite (answers_pg _ _ Ha).
  rewrite (open_existing _ _ _ _ Ha Hw). simpl. unfold rw_Migrate. rewrite Hw. unfold MigrateConfigSchema.
  assert (∀ sql, dr_fails dr name sql = None) as Hf by (destruct Ha as (? & _ & _ & _ & ?); done).
  pose proof (config_upgrade_ok mg (dr_fails dr name) s Hf Hk Hl) as Hok.
  pose proof (upgrade_levels mg (config_migrations (dr_fails dr name)) config_level evolved (λ _ _ _, id)
    (config_step (dr_fails dr name)) _ s Hl eq_refl) as Hrun.
  destruct (lib_Migrate mg _ s) as [s' err]. simpl in Hok. subst err. destruct Hrun as (k' & _ & Hlev & Hev & [H3 _] & _).
  exists s'. unfold config_level in Hlev. rewrite (H3 eq_refl) in Hlev. split_and!; [done|done| |done].
  destruct Hev as (_ & _ & Hs & _). unfold kinds_ok. rewrite Hs. unfold migrated_tables.
  destruct (_ && _); [by apply migration_00824_kinds|done].
Qed.

(** A second migration finds nothing to do. *)
Lemma upgrade_current connstr name w s :
  answers connstr name → w !! name = Some s → length (cs_migrations s) = 3%nat →
  upgrade_storage (Ok mg) dr target order defaults connstr w = (w, None).
Proof using All.
  intros Ha Hw Hl. unfold upgrade_storage. destruct (_ || _); [done|]. rewrite (open_existing _ _ _ _ Ha Hw).
  unfold rw_Migrate, MigrateConfigSchema. rewrite Hw. destruct (nothing_pending mg (config_migrations (dr_fails dr name)) s) as [_ ->]; [exact Hl|].
  by rewrite insert_id.
Qed.

(** A start with one configuration database for both kinds of definitions, and sinks that can be opened. *)
Definition configured (connstr : string) (sw sw' : SW) (sinks : store SW) : Prop :=
  connstr ≠ "" ∧ su_Web su = None ∧
  ∃ opts, New start = (opts, false, None) ∧ CommandCompleted opts = false ∧ opt_Metrics opts = connstr ∧
    opt_Sources opts = connstr ∧ su_Sinks su (opt_Sinks opts) sw = (sw', Ok sinks).

(** The exit code of such a start, by the schema of the configuration and then that of the sinks. *)
Definition start_code (sinks : store SW) (sw' : SW) : option Z :=
  match NeedsMigration sinks (Sentinel ErrNeedsMigration) sw' with Some _ => Some ExitCodeConfigError | None => None end.

(** After the metrics were opened, the schema is there. *)
Lemma start_opened connstr name sw sw' sinks w w' s :
  configured connstr sw sw' sinks → answers connstr name → openrw connstr w = (w', Ok name) → w' !! name = Some s →
  main start (w, sw) =
    if bool_decide (length (cs_migrations s) < 3)%nat then ((w', sw), Some ExitCodeConfigError)
    else ((w', sw'), start_code sinks sw').
Proof using All.
  intros (Hne & Hweb & opts & Hnew & Hcc & Hm & Hs & Hk) Ha Ho Hw'.
  pose proof (answers_pg _ _ Ha) as Hpg. unfold main. rewrite Hnew, Hcc.
  unfold InitConfigReaders, InitMetricReader, InitSourceReader, GetConfigKind. rewrite Hm, Hs, (bool_decide_false (connstr = "")) by done.
  cbn [su_IsPgConnStr on_databases NewPostgresMetricReaderWriter NewPostgresSourcesReaderWriter]. rewrite Hpg. unfold open_store.
  cbn [fst snd]. rewrite Ho. cbn [fst snd]. rewrite (open_existing _ _ _ _ Ha Hw'). cbn [error_of errors_Join omap list_omap NeedsMigration fst].
  rewrite (needs_level _ _ _ Hw'). case_bool_decide as Hlt; [done|]. unfold InitSinkWriter. cbn [su_Sinks on_databases snd fst]. rewrite Hk.
  assert (NeedsMigration ((λ (needs : SW → result bool) (ws : databases * SW), needs ws.2) <$> sinks)
    (Sentinel ErrNeedsMigration) (w', sw') = NeedsMigration sinks (Sentinel ErrNeedsMigration) sw') as -> by (by destruct sinks).
  unfold start_code. destruct (NeedsMigration sinks _ sw') eqn:En; [done|]. apply store_current in En.
  assert (current ((λ (needs : SW → result bool) (ws : databases * SW), needs ws.2) <$> sinks) (w', sw')) as Hcur'
    by (destruct En as [->|(needs & -> & Hn)]; [by left|right; eexists; by split]).
  change (errors_Join [None; None]) with (@None error).
  cbn [fst]. rewrite (proj1 (NeedsSchemaUpgrade_current _ (w', sw'))); [simpl; by rewrite Hweb|].
  assert (current (Some (λ ws : databases * SW, rw_NeedsMigration (Ok mg) dr name ws.1)) (w', sw')) as Hst.
  { right. eexists. split; [done|]. cbn [fst]. by rewrite (needs_level _ _ _ Hw'), bool_decide_false. }
  do 3 (apply Forall_cons_2; [done|]). apply Forall_nil_2.
Qed.

Lemma no_sink_errors pg f uris :
  (∀ u, u ∈ uris → upgrade_one pg u f = None) → foldl (λ err u, errors_Join [err; upgrade_one pg u f]) None uris = None.
Proof using Type.
  induction uris as [|u uris IH]; intros H; [done|]. cbn [foldl]. rewrite H by left.
  change (errors_Join [None; None]) with (@None error). apply IH. intros u' Hu. apply H. by right.
Qed.

(** The life of a configuration database.  On a database without the schema the program creates it with exactly
    the default definitions, and goes on to the sinks.  With an outdated schema it ends with the code for a
    configuration error and changes nothing.  With a current one, it goes on, and does not touch it.  And if the kinds of the
    sources are known, the upgrade command succeeds, has applied each pending migration once, and after it the program goes on. *)
Lemma config_life connstr name sw sw' sinks w upgrade_sink c :
  configured connstr sw sw' sinks → answers connstr name → yaml_defs defaults →
  match w !! name with
  | None => ∃ s, main start (w, sw) = ((<[name := s]> w, sw'), start_code sinks sw') ∧ db_defs (cs_defs s) = defaults ∧
              cs_sources s = ∅ ∧ length (cs_migrations s) = 3%nat
  | Some s =>
      main start (w, sw) = (if bool_decide (length (cs_migrations s) < 3)%nat then ((w, sw), Some ExitCodeConfigError)
                            else ((w, sw'), start_code sinks sw')) ∧
      ((length (cs_migrations s) ≤ 3)%nat → kinds_ok s → opt_Sources c = connstr → opt_Metrics c = connstr →
       (∀ u, u ∈ opt_Sinks c → upgrade_one (IsPgConnStr dr) u upgrade_sink = None) →
       ∃ s' c', ConfigUpgrade (Ok mg) dr target order defaults upgrade_sink c w = (<[name := s']> w, Returns (c', None, [])) ∧
         ExitCode c' = ExitCodeOK ∧ evolved s s' ∧ main start (<[name := s']> w, sw) = ((<[name := s']> w, sw'), start_code sinks sw'))
  end.
Proof using All.
  intros Hc Ha Hy. destruct (w !! name) as [s|] eqn:Hw.
  - split; [by apply (start_opened connstr name); [| |eapply open_existing|]|]. intros Hl Hk Hs Hm Hsk.
    assert (connstr ≠ "") as Hne by apply Hc. pose proof (answers_pg _ _ Ha) as Hpg.
    destruct (upgrade_existing connstr name w s) as (s' & Hu & Hev & Hk' & Hl'); [done..|]. exists s'.
    assert (share_config_db (IsPgConnStr dr) c = c) as Hsh.
    { unfold share_config_db. by rewrite Hs, Hm, bool_decide_false by done. }
    unfold ConfigUpgrade, ConfigUpgrade_Execute. rewrite Hsh, Hs, Hm, Hu.
    rewrite (upgrade_current connstr name (<[name := s']> w) s') by (done || by rewrite lookup_insert_eq).
    rewrite bool_decide_false by naive_solver. unfold upgrade_errors, upgrade_one at 2 3. rewrite Hs, Hm, Hpg.
    rewrite bool_decide_false by done. cbn [negb upgrade_sources upgrade_metrics CmdOpts.upgrade_sink].
    change (errors_Join [None; None]) with (@None error). rewrite no_sink_errors by done. eexists. split_and!; [done|done|done|].
    rewrite (start_opened connstr name sw sw' sinks _ (<[name := s']> w) s'); [|done|done| |by rewrite lookup_insert_eq].
    { by rewrite bool_decide_false by lia. }
    eapply open_existing; [done|by rewrite lookup_insert_eq].
  - destruct (open_missing connstr name w) as (s & Ho & Hd & Hs & Hl); [done..|]. exists s.
    assert (<[name := s]> w !! name = Some s) as Hl' by by rewrite lookup_insert_eq.
    rewrite (start_opened connstr name sw sw' sinks _ _ s Hc Ha Ho Hl').
    rewrite bool_decide_false by lia. by split_and!.
Qed.
End starts.

(** ** Examples *)

(** A server with one database. *)
Definition sample_pool : pool_config := {|
  pc_ConnConfig := {| cc_Host := "db"; cc_Port := 5432; cc_Database := "config"; cc_ConnectTimeout := 0 |};
  MaxConnIdleTime := 0; MaxConnLifetime := 0; RuntimeParams := ∅ |}.
Definition sample_driver : driver := {|
  dr_ParseConfig := λ c, if bool_decide (c = "postgres://config") then Ok sample_pool else Err (ErrorString "cannot parse");
  dr_NewPool := λ _, None; dr_Ping := λ _, None; dr_fails := λ _ _, None |}.
Definition sample_target (c : pool_config) : string := cc_Database (pc_ConnConfig c).
Example sample_settings :
  match db_New sample_driver "postgres://config" [] with
  | Ok c => cc_ConnectTimeout (pc_ConnConfig c) = 5 * time_Second ∧ MaxConnLifetime c = 1800 * time_Second ∧
            RuntimeParams c !! "application_name" = Some "pgwatch"
  | Err _ => False
  end.
Proof. vm_compute. auto. Qed.

Lemma config_upgrade_witness :
  let '(s', err) := MigrateConfigSchema (Ok simple_migrator) (λ _, None) old_schema in
  evolved old_schema s' ∧ err = None ∧ length (cs_migrations s') = 3%nat.
Proof.
  pose proof (config_upgrade simple_migrator (λ _, None) old_schema ltac:(vm_compute; lia)) as H.
  destruct (MigrateConfigSchema (Ok simple_migrator) (λ _, None) old_schema) as [s' err].
  destruct H as (Hev & _ & H3 & _ & Hok). assert (err = None) as He by (apply Hok; [done|by apply map_Forall_empty]).
  split; [exact Hev|]. split; [exact He|]. by apply H3.
Defined.
