(* ===== verification/SinkStart.v ===== *)
(** * The measurements databases at start-up and at an upgrade ([internal/sinks/multiwriter.go], [postgres.go])

    The program opens its sinks after the stores of the configuration: each PostgreSQL sink sets up its
    database ([SinkAdmin]) if it has no schema yet, and then all of them are asked whether their schema is
    outdated ([SinkMaintenance]).  Here this is the constructor of the sinks of [Main], on a world of
    measurements databases beside the configuration databases of [ConfigStart].

    The theorem is the life of both kinds of databases: the first start, later ones, a start on an outdated
    schema of either kind, and the start after an upgrade. *)

From S2P Require Import Prelude GoStrings Metrics Sources Changes SourceStores MetricStore Conn Sinks PgSink CmdOpts.
From S2P Require Import SinkAdmin ConfigSchema Migrator Migration SinkMaintenance Main ConfigStart.
From stdpp Require Import options.

Local Open Scope Z_scope.

(** ** A measurements database *)

(** What the set-up sees, and what upgrades see of the same database. *)
Record sink_database := SinkDatabase { sd_db : measurements_db; sd_schema : sink_schema }.

(** The first script also records the migrations of the version that it creates. *)
Definition run_script (s : sink_schema) (sql : string) : sink_schema :=
  if bool_decide (sql = "admin_schema") then {|
    sc_tables := sc_tables s; sc_scripts := sc_scripts s; sc_old := sc_old s; sc_migrations := sc_migrations s ++ fresh_versions |}
  else install_script sql s.

(** The scripts that a set-up has added. *)
Definition scripts_run (d : sink_database) (db : measurements_db) : sink_database :=
  SinkDatabase db (foldl run_script (sd_schema d) (drop (length (md_scripts (sd_db d))) (md_scripts db))).

(** The servers of the sinks, by database, and the constructors of the other sinks. *)
Record sink_servers := {
  ss_connect : string → option error;                (* the attempts of [db.Init] *)
  ss_intervals : string → result (Z * Z * bool);
  ss_step_fails : string → nat → option error;
  ss_order : range_order;
  ss_builtin : list string;
  ss_other : string → option error;
}.

Inductive sink_kind := PgKind | OtherKind.

Definition kinds : constructors sink_kind := {|
  NewJSONWriter _ := Ok OtherKind; Sinks.NewPostgresWriter _ := Ok PgKind;
  NewPrometheusWriter _ := Ok OtherKind; NewRPCWriter _ := Ok OtherKind |}.

Section sinks.
Context (mg : migrator sink_schema) (dr : driver) (target : pool_config → string) (srv : sink_servers).
Abbreviation sinkdbs := (gmap string sink_database).
Implicit Types (sw : sinkdbs) (d : sink_database).

(** ** Opening *)

(** [NewPostgresWriter]; a writer is the name of its database. *)
Definition open_pg (uri : string) sw : sinkdbs * result (option string) :=
  match db_New dr uri [] with
  | Err e => (sw, Err e)
  | Ok pool =>
      let name := target pool in
      match sw !! name with
      | None => (sw, Err (PgError "3D000"))
      | Some d =>
          let '(db, r) := NewWriterFromPostgresConn (dr_fails dr name) (ss_connect srv name) (ss_intervals srv name)
                            (sd_db d) (ss_builtin srv) in
          (<[name := scripts_run d db]> sw, match r with Ok _ => Ok (Some name) | Err e => Err e end)
      end
  end.

Definition open_sink (uri : string) sw : sinkdbs * result (option string) :=
  match sink_of kinds uri with
  | Err e => (sw, Err e)
  | Ok PgKind => open_pg uri sw
  | Ok OtherKind => (sw, match ss_other srv uri with Some e => Err e | None => Ok None end)
  end.

Fixpoint open_writers (writers : list (option string)) (uris : list string) sw : sinkdbs * result (list (option string)) :=
  match uris with
  | [] => (sw, Ok writers)
  | uri :: uris =>
      match open_sink uri sw with
      | (sw, Err e) => (sw, Err e)
      | (sw, Ok w) => open_writers (AddWriter w writers) uris sw
      end
  end.

Definition sink_needs (name : string) sw : result bool :=
  match sw !! name with
  | None => Err (PgError "3D000")
  | Some d => sink_NeedsMigration mg (dr_fails dr name) (ss_step_fails srv name) (ss_order srv) (sd_schema d)
  end.

(** A writer as a migrator: a PostgreSQL sink is one. *)
Definition answered : Sinks.Migrator (option (result bool)) := {|
  is_migrator r := bool_decide (is_Some r); Migrate r := (r, None); Sinks.NeedsMigration r := default (Ok false) r |}.

Definition answer sw (w : option string) : option (result bool) :=
  match w with Some name => Some (sink_needs name sw) | None => None end.

(** One writer is used directly, several through a [MultiWriter]. *)
Definition writers_store (writers : list (option string)) : store sinkdbs :=
  match writers with
  | [w] => match w with Some name => Some (sink_needs name) | None => None end
  | _ => Some (λ sw, multi_NeedsMigration (H1 := answered) (answer sw <$> writers))
  end.

Definition open_sinks (uris : list string) sw : sinkdbs * result (store sinkdbs) :=
  if bool_decide (uris = []) then (sw, Err (ErrorString "no sinks specified for measurements"))
  else
    match open_writers [] uris sw with
    | (sw, Err e) => (sw, Err e)
    | (sw, Ok ws) => (sw, Ok (writers_store ws))
    end.

(** A start-up with these sinks. *)
Definition sink_startup (su : startup ()) : startup sinkdbs := {|
  su_opts := su_opts su; su_args := su_args su; su_parse_err := su_parse_err su; su_help := su_help su;
  su_IsPgConnStr := su_IsPgConnStr su; su_stat := su_stat su;
  NewYAMLMetricReaderWriter := λ path, match NewYAMLMetricReaderWriter su path with
                                       | Ok s => Ok ((λ needs _, needs tt) <$> s) | Err e => Err e end;
  NewPostgresMetricReaderWriter := λ _ sw, (sw, Err (ErrorString "no configuration database"));
  NewYAMLSourcesReaderWriter := λ path, match NewYAMLSourcesReaderWriter su path with
                                        | Ok s => Ok ((λ needs _, needs tt) <$> s) | Err e => Err e end;
  NewPostgresSourcesReaderWriter := λ _ sw, (sw, Err (ErrorString "no configuration database"));
  su_Sinks := open_sinks; su_Web := su_Web su |}.

(** ** Upgrading *)

(** [NewPostgresSinkMigrator] and [Migrate]; its pool is made with the settings of the connection string. *)
Definition upgrade_sink (uri : string) sw : sinkdbs * option error :=
  match dr_ParseConfig dr uri with
  | Err e => (sw, Some e)
  | Ok pool =>
      match dr_NewPool dr pool with
      | Some e => (sw, Some e)
      | None =>
          let name := target pool in
          match sw !! name with
          | None => (sw, Some (PgError "3D000"))
          | Some d =>
              let '(db, err) := NewPostgresSinkMigrator (dr_fails dr name) None (sd_db d) in
              let d := scripts_run d db in
              match err with
              | Some e => (<[name := d]> sw, Some e)
              | None =>
                  let '(s, err) := sink_Migrate mg (dr_fails dr name) (ss_step_fails srv name) (ss_order srv) (sd_schema d) in
                  (<[name := SinkDatabase (sd_db d) s]> sw, err)
              end
          end
      end
  end.

(** All sinks are tried. *)
Fixpoint upgrade_sinks (uris : list string) sw : sinkdbs * list error :=
  match uris with
  | [] => (sw, [])
  | uri :: uris =>
      let '(sw, err) := upgrade_sink uri sw in
      let '(sw, errs) := upgrade_sinks uris sw in (sw, option_list err ++ errs)
  end.
End sinks.

(** ** What opening does to one database *)

(** A database that was never set up, and one that is at some level. *)
Definition blank (d : sink_database) : Prop :=
  md_scripts (sd_db d) = [] ∧ sc_migrations (sd_schema d) = [] ∧ sc_old (sd_schema d) = ∅.
Definition levelled (d : sink_database) : Prop :=
  admin_exists (sd_db d) = true ∧ ∃ k, (k ≤ 6)%nat ∧ at_level k (sd_schema d).
Definition sound (d : sink_database) : Prop := blank d ∨ levelled d.

(** The schema counts as outdated. *)
Definition behind (d : sink_database) : bool :=
  admin_exists (sd_db d) && bool_decide (length (sc_migrations (sd_schema d)) < 6)%nat.

Definition created (s : sink_schema) : sink_schema := foldl run_script s metricSchemaSQLs.
Definition opened (builtin : list string) (d : sink_database) : sink_database :=
  SinkDatabase (set_up (sd_db d) builtin) (if admin_exists (sd_db d) then sd_schema d else created (sd_schema d)).

Lemma blank_missing d : blank d → admin_exists (sd_db d) = false.
Proof. intros (Hb & _). unfold admin_exists. by rewrite Hb. Qed.

Lemma created_level s : sc_migrations s = [] → sc_old s = ∅ → at_level 6 (created s).
Proof. intros Hm Ho. split_and!; [simpl; by rewrite Hm|intros _; simpl; rewrite Ho; split; set_solver|intros _; simpl; set_solver]. Qed.

Lemma set_up_admin db builtin : admin_exists (set_up db builtin) = true.
Proof. unfold set_up. destruct (admin_exists db) eqn:E; [exact E|done]. Qed.

Lemma set_up_builtin db builtin : list_to_set builtin ⊆ md_tables (set_up db builtin).
Proof. unfold set_up. destruct (admin_exists db); simpl; set_solver. Qed.

Lemma opened_levelled builtin d : sound d → levelled (opened builtin d).
Proof.
  intros [Hb|[Ha Hk]]; (split; [apply set_up_admin|]); simpl.
  - rewrite (blank_missing _ Hb). exists 6%nat. split; [done|]. by apply created_level; apply Hb.
  - by rewrite Ha.
Qed.

Lemma opened_idemp builtin d : opened builtin (opened builtin d) = opened builtin d.
Proof.
  unfold opened. cbn [sd_db sd_schema]. rewrite set_up_admin. f_equal. unfold set_up at 1. rewrite set_up_admin.
  unfold set_up, set_tables. destruct (admin_exists (sd_db d)); simpl; f_equal; set_solver.
Qed.

Lemma opened_behind builtin d : sound d → behind (opened builtin d) = behind d.
Proof.
  intros [Hb|[Ha _]]; unfold behind; cbn [opened sd_db sd_schema]; rewrite set_up_admin; [|by rewrite Ha].
  rewrite (blank_missing _ Hb). destruct (created_level (sd_schema d)) as (Hm & _); [apply Hb..|]. rewrite Hm. by vm_compute.
Qed.

Section life.
Context (dr : driver) (target : pool_config → string) (srv : sink_servers).
Abbreviation sinkdbs := (gmap string sink_database).
Implicit Types (sw : sinkdbs) (d : sink_database) (uris : list string).

(** The database of a PostgreSQL sink. *)
Definition sink_name (uri : string) : option string :=
  match sink_of kinds uri, db_New dr uri [] with Ok PgKind, Ok pool => Some (target pool) | _, _ => None end.

(** The server of a sink answers, no statement of the set-up fails, the intervals are valid, and the database is in
    a state that the program leaves behind. *)
Definition answering (n : string) d : Prop :=
  sound d ∧ (∀ sql, dr_fails dr n sql = None) ∧ ss_connect srv n = None ∧
  ∃ retention_s maintenance_s, ss_intervals srv n = Ok (retention_s, maintenance_s, true) ∧
    0 ≤ maintenance_s ≤ 9223372036 ∧ (retention_s = 0 ∨ 3600 ≤ retention_s ≤ 9223372036).
Definition sink_ready sw (uri : string) : Prop :=
  match sink_of kinds uri with
  | Err _ => False
  | Ok OtherKind => ss_other srv uri = None
  | Ok PgKind => ∃ n d, sink_name uri = Some n ∧ sw !! n = Some d ∧ answering n d
  end.

Definition touched (uri : string) sw : sinkdbs :=
  match sink_name uri with Some n => alter (opened (ss_builtin srv)) n sw | None => sw end.
Definition after uris sw : sinkdbs := foldl (λ sw uri, touched uri sw) sw uris.

Lemma open_sink_ready uri sw :
  sink_ready sw uri → open_sink dr target srv uri sw = (touched uri sw, Ok (sink_name uri)).
Proof using Type.
  unfold sink_ready, open_sink, touched, sink_name. destruct (sink_of kinds uri) as [[|]|]; [| |done].
  - intros (n & d & Hn & Hd & Hs & Hf & Hc & rs & ms & Hi & Hm & Hr). unfold open_pg. destruct (db_New dr uri []) as [pool|]; [|done].
    injection Hn as <-. rewrite Hd, Hc, Hi.
    destruct (writer_created (dr_fails dr (target pool)) (sd_db d) (ss_builtin srv) rs ms) as [w Hw]; [done| |done..|].
    { destruct Hs as [Hb|Hl]; [left; apply Hb|right; apply Hl]. }
    rewrite Hw. f_equal. apply map_eq. intros n. destruct (decide (n = target pool)) as [->|Hne].
    + rewrite lookup_insert_eq, lookup_alter_eq, Hd. simpl. f_equal. unfold scripts_run, opened. f_equal.
      unfold set_up. simpl. destruct (admin_exists (sd_db d)) eqn:Ea; simpl; [by rewrite drop_all|].
      destruct Hs as [(Hb & _)|[Ha _]]; [|congruence]. by rewrite Hb.
    + by rewrite lookup_insert_ne, lookup_alter_ne by done.
  - intros Ho. by rewrite Ho; destruct (db_New dr uri []).
Qed.

Lemma ready_touched uri uri' sw : sink_ready sw uri → sink_ready (touched uri' sw) uri.
Proof using Type.
  unfold sink_ready, touched. destruct (sink_of kinds uri) as [[|]|]; [|done..].
  intros (n & d & Hn & Hd & Hs & Hrest). destruct (sink_name uri') as [n'|]; [|by exists n, d; split_and!].
  destruct (decide (n' = n)) as [->|Hne].
  - exists n, (opened (ss_builtin srv) d). rewrite lookup_alter_eq, Hd. split_and!; [done..|]. split; [right; by apply opened_levelled|done].
  - exists n, d. rewrite lookup_alter_ne by done. by split_and!.
Qed.

Lemma open_writers_ready ws uris sw :
  Forall (sink_ready sw) uris → open_writers dr target srv ws uris sw = (after uris sw, Ok (ws ++ (sink_name <$> uris))).
Proof using Type.
  revert ws sw. induction uris as [|uri uris IH]; intros ws sw H; cbn [open_writers]; [by rewrite app_nil_r|].
  apply Forall_cons in H as [H1 H2]. rewrite open_sink_ready by done. rewrite IH; [unfold AddWriter; by rewrite <-app_assoc|].
  eapply Forall_impl; [exact H2|]. intros u. apply ready_touched.
Qed.

Lemma after_lookup uris sw n :
  after uris sw !! n = if decide (n ∈ omap sink_name uris) then opened (ss_builtin srv) <$> sw !! n else sw !! n.
Proof using Type.
  revert sw. induction uris as [|uri uris IH]; intros sw; [by rewrite decide_False by apply not_elem_of_nil|].
  unfold after in *. cbn [foldl]. rewrite IH. unfold touched. csimpl. destruct (sink_name uri) as [n'|]; [|done].
  destruct (decide (n = n')) as [->|Hne].
  - rewrite lookup_alter_eq. rewrite (decide_True (P := n' ∈ n' :: _)) by left. case_decide; [|done].
    destruct (sw !! n'); simpl; [by rewrite opened_idemp|done].
  - rewrite lookup_alter_ne by done. do 2 case_decide; set_solver.
Qed.

(** ** The schemas of the sinks *)

Context (mg : migrator sink_schema) `{!MigratorLaws mg}.

Definition outdated_sinks uris sw : bool := existsb (λ n, existsb behind (option_list (sw !! n))) (omap sink_name uris).

Lemma sink_needs_level n d sw :
  sw !! n = Some d → admin_exists (sd_db d) = true → sink_needs mg dr srv n sw = Ok (behind d).
Proof using MigratorLaws0.
  intros Hd Ha. unfold sink_needs, behind. rewrite Hd, Ha. unfold sink_NeedsMigration. by rewrite NeedUpgrade_pending.
Qed.

(** The store asks every PostgreSQL sink. *)
Lemma store_answer ws sw e (behinds : string → bool) :
  ws ≠ [] → (∀ n, n ∈ omap id ws → sink_needs mg dr srv n sw = Ok (behinds n)) →
  Main.NeedsMigration (writers_store mg dr srv ws) e sw = if existsb behinds (omap id ws) then Some e else None.
Proof using Type.
  intros Hne Hall.
  assert (multi_NeedsMigration (H1 := answered) (answer mg dr srv sw <$> ws) = Ok (existsb behinds (omap id ws))) as Hm.
  { clear Hne. induction ws as [|[n|] ws IH]; csimpl; [done| |apply IH; intros n Hn; by apply Hall].
    cbn. rewrite (Hall n) by (csimpl; left). destruct (behinds n); [done|]. apply IH. intros m Hm. apply Hall. csimpl. by right. }
  destruct ws as [|[n|] [|w ws]]; [done| | | |]; cbn [writers_store Main.NeedsMigration];
    [|by rewrite Hm; destruct (existsb _ _)|done|by rewrite Hm; destruct (existsb _ _)].
  rewrite (Hall n) by (csimpl; left). csimpl. rewrite orb_false_r. by destruct (behinds n).
Qed.

Lemma ready_in uris sw n :
  Forall (sink_ready sw) uris → n ∈ omap sink_name uris → ∃ d, sw !! n = Some d ∧ answering n d.
Proof using Type.
  intros H (uri & Hu & Hn)%list_elem_of_omap. rewrite Forall_forall in H. specialize (H _ Hu). unfold sink_ready in H.
  assert (sink_of kinds uri = Ok PgKind) as Hk.
  { unfold sink_name in Hn. destruct (sink_of kinds uri) as [[]|]; [done|by destruct (db_New dr uri [])..]. }
  rewrite Hk in H. destruct H as (n' & d & Hn' & Hd & Hans). rewrite Hn in Hn'. injection Hn' as <-. eauto.
Qed.

Lemma omap_id_fmap uris : omap id (sink_name <$> uris) = omap sink_name uris.
Proof using Type. induction uris as [|u uris IH]; csimpl; [done|]. destruct (sink_name u); simpl; by rewrite IH. Qed.

Lemma sinks_code uris sw :
  uris ≠ [] → Forall (sink_ready sw) uris →
  open_sinks mg dr target srv uris sw = (after uris sw, Ok (writers_store mg dr srv (sink_name <$> uris))) ∧
  start_code (writers_store mg dr srv (sink_name <$> uris)) (after uris sw) =
    if outdated_sinks uris sw then Some ExitCodeConfigError else None.
Proof using MigratorLaws0.
  intros Hne H. split; [unfold open_sinks; by rewrite bool_decide_false, open_writers_ready by done|].
  unfold start_code. rewrite (store_answer _ _ _ (λ n, existsb behind (option_list (sw !! n)))).
  - rewrite omap_id_fmap. unfold outdated_sinks. by destruct (existsb _ (omap sink_name uris)).
  - by destruct uris.
  - intros n Hn. rewrite omap_id_fmap in Hn. destruct (ready_in _ _ _ H Hn) as (d & Hd & Hs & _).
    rewrite (sink_needs_level n (opened (ss_builtin srv) d)).
    + rewrite opened_behind by done. rewrite Hd. simpl. by rewrite orb_false_r.
    + rewrite after_lookup, decide_True by done. by rewrite Hd.
    + apply set_up_admin.
Qed.

(** ** The upgrade *)

Context (target_settings : ∀ c, target (pool_settings c) = target c).

Lemma migrated_level d fails step_fails ro :
  levelled d → let '(s, err) := sink_Migrate mg fails step_fails ro (sd_schema d) in
  err = None → levelled (SinkDatabase (sd_db d) s) ∧ behind (SinkDatabase (sd_db d) s) = false.
Proof using MigratorLaws0.
  intros [Ha (k & Hk & Hlev)]. unfold sink_Migrate.
  pose proof (upgrade_levels mg (migrations fails step_fails ro) at_level keeps level_length (apply_level fails step_fails ro)
    k _ Hk Hlev) as Hrun.
  destruct (lib_Migrate mg _ _) as [s' err]. destruct Hrun as (k' & Hk' & Hl' & _ & Herr & _). intros He. apply Herr in He.
  change (length (migrations fails step_fails ro)) with 6%nat in *. subst k'.
  split; [split; [done|]; by exists 6%nat|]. unfold behind. simpl. destruct Hl' as (-> & _). by rewrite andb_false_r.
Qed.

Lemma upgrade_sink_done uri n sw sw1 :
  sink_ready sw uri → sink_name uri = Some n → upgrade_sink mg dr target srv uri sw = (sw1, None) →
  ∃ d, sw1 = <[n := d]> sw ∧ levelled d ∧ behind d = false.
Proof using MigratorLaws0 target_settings.
  intros Hr Hn Hu. destruct (ready_in [uri] sw n) as (d & Hd & Hs & Hf & _); [by apply Forall_singleton|csimpl; rewrite Hn; left|].
  unfold sink_name in Hn. destruct (sink_of kinds uri) as [[]|]; [|by destruct (db_New dr uri [])..].
  unfold db_New, NewWithConfig in Hn. cbn [run_callbacks] in Hn. unfold upgrade_sink in Hu.
  destruct (dr_ParseConfig dr uri) as [c|]; [|done]. destruct (dr_NewPool dr (pool_settings c)); [done|]. injection Hn as Hn.
  destruct (dr_NewPool dr c); [done|]. rewrite <-(target_settings c), Hn, Hd in Hu.
  assert (∃ db, NewPostgresSinkMigrator (dr_fails dr n) None (sd_db d) = (db, None) ∧ levelled (scripts_run d db)) as (db & E & Hl).
  { unfold NewPostgresSinkMigrator, ensure_admin. rewrite Hf. destruct Hs as [Hb|[Ha Hk]].
    - rewrite (blank_missing _ Hb), install_all by done. eexists. split; [done|]. pose proof Hb as (Hb0 & Hm & Ho).
      split; [apply bool_decide_true; simpl; rewrite Hb0; left|]. exists 6%nat. split; [done|]. simpl. rewrite Hb0. by apply created_level.
    - rewrite Ha. eexists. split; [done|]. split; [done|]. simpl. by rewrite drop_all. }
  rewrite E in Hu. pose proof (migrated_level _ (dr_fails dr n) (ss_step_fails srv n) (ss_order srv) Hl) as Hm.
  destruct (sink_Migrate mg _ _ _ _) as [s err]. injection Hu as <- ->. destruct (Hm eq_refl) as [H1 H2]. cbn [sd_db] in *. eexists. split; [done|]. split; [exact H1|exact H2].
Qed.

Lemma ready_insert sw n d uri : levelled d → sink_ready sw uri → sink_ready (<[n := d]> sw) uri.
Proof using Type.
  intros Hl. unfold sink_ready. destruct (sink_of kinds uri) as [[|]|]; [|done..].
  intros (n' & d' & Hn & Hd & Hs & Hrest). destruct (decide (n' = n)) as [->|Hne].
  - exists n, d. rewrite lookup_insert_eq. split_and!; [done..|]. split; [by right|done].
  - exists n', d'. rewrite lookup_insert_ne by done. by split_and!.
Qed.

Definition up_to_date sw (n : string) : Prop := ∃ d, sw !! n = Some d ∧ behind d = false.

Lemma upgrade_sinks_done uris others sw sw1 :
  Forall (sink_ready sw) uris → Forall (sink_ready sw) others → Forall (λ u, is_Some (sink_name u)) uris →
  upgrade_sinks mg dr target srv uris sw = (sw1, []) →
  Forall (sink_ready sw1) others ∧ (∀ n, n ∈ omap sink_name uris ∨ up_to_date sw n → up_to_date sw1 n).
Proof using MigratorLaws0 target_settings.
  revert sw. induction uris as [|uri uris IH]; intros sw Hu Ho Hp Hup; cbn [upgrade_sinks] in Hup.
  { injection Hup as <-. split; [done|]. intros n [[]%not_elem_of_nil|]; done. }
  apply Forall_cons in Hu as [Hu1 Hu2], Hp as [[n Hn] Hp].
  destruct (upgrade_sink mg dr target srv uri sw) as [sw' err] eqn:E1. destruct (upgrade_sinks mg dr target srv uris sw') as [sw'' errs] eqn:E2.
  injection Hup as <- [He ->]%app_nil. destruct err; [done|].
  destruct (upgrade_sink_done uri n sw sw' Hu1 Hn E1) as (d & -> & Hl & Hb).
  destruct (IH (<[n := d]> sw)) as [Ho' Hdone]; [|by eapply Forall_impl; [done|]; intros u; apply ready_insert|done|done|].
  { eapply Forall_impl; [exact Hu2|]. intros u. by apply ready_insert. }
  split; [done|]. intros m Hm. apply Hdone. csimpl in Hm. rewrite Hn in Hm.
  destruct (decide (m = n)) as [->|Hne]; [right; exists d; by rewrite lookup_insert_eq|].
  destruct Hm as [[?|Hm]%elem_of_cons|(d' & Hd' & Hb')]; [done|by left|right; exists d'; by rewrite lookup_insert_ne].
Qed.

Lemma up_to_date_sinks uris sw : (∀ n, n ∈ omap sink_name uris → up_to_date sw n) → outdated_sinks uris sw = false.
Proof using Type.
  intros H. unfold outdated_sinks. apply not_true_is_false. intros (n & Hn & Hb)%existsb_exists. apply list_elem_of_In in Hn.
  destruct (H n Hn) as (d & Hd & Hf). rewrite Hd in Hb. simpl in Hb. by rewrite Hf in Hb.
Qed.

Lemma ready_after uris uri sw : sink_ready sw uri → sink_ready (after uris sw) uri.
Proof using Type. revert sw. induction uris as [|u uris IH]; intros sw H; [done|]. apply IH. by apply ready_touched. Qed.

Lemma after_idemp uris sw : after uris (after uris sw) = after uris sw.
Proof using Type.
  apply map_eq. intros n. rewrite !after_lookup. case_decide; [|done]. destruct (sw !! n); simpl; [by rewrite opened_idemp|done].
Qed.

Lemma outdated_after uris sw : Forall (sink_ready sw) uris → outdated_sinks uris (after uris sw) = outdated_sinks uris sw.
Proof using Type.
  intros H. apply eq_bool_prop_intro. rewrite !Is_true_true. unfold outdated_sinks. rewrite !existsb_exists.
  apply exist_proper. intros n. split; intros [Hn Hb]; (split; [done|]);
    pose proof Hn as Hn'; apply list_elem_of_In in Hn'; destruct (ready_in _ _ _ H Hn') as (d & Hd & Hs & _);
    rewrite after_lookup, decide_True, Hd in * by done; simpl in *; by rewrite opened_behind in *.
Qed.

(** ** The whole program *)

Context (mgc : migrator config_schema) `{!MigratorLaws mgc} (order : range_order) (defaults : Metrics) (su : startup ()).
Abbreviation start := (on_databases (Ok mgc) dr target order defaults (sink_startup mg dr target srv su)).

(** The options name a configuration database and sinks. *)
Definition selected (connstr : string) uris : Prop :=
  connstr ≠ "" ∧ su_Web su = None ∧ uris ≠ [] ∧
  ∃ opts, New start = (opts, false, None) ∧ CommandCompleted opts = false ∧ opt_Metrics opts = connstr ∧
    opt_Sources opts = connstr ∧ opt_Sinks opts = uris.

Lemma selected_configured connstr uris sw :
  selected connstr uris → Forall (sink_ready sw) uris →
  configured mgc dr target order defaults (sink_startup mg dr target srv su) connstr sw (after uris sw)
    (writers_store mg dr srv (sink_name <$> uris)).
Proof using MigratorLaws0.
  intros (Hne & Hw & Hu & opts & Hn & Hc & Hm & Hs & Hk) H. split; [done|]. split; [done|]. exists opts. split_and!; [done..|].
  simpl. rewrite Hk. by apply sinks_code.
Qed.

(** The configuration side, with these sinks. *)
Lemma start_life connstr name uris w sw c :
  selected connstr uris → answers dr target connstr name → yaml_defs defaults → Forall (sink_ready sw) uris →
  let code := if outdated_sinks uris sw then Some ExitCodeConfigError else None in
  match w !! name with
  | None => ∃ s, main start (w, sw) = ((<[name := s]> w, after uris sw), code) ∧ db_defs (cs_defs s) = defaults ∧
              cs_sources s = ∅ ∧ length (cs_migrations s) = 3%nat
  | Some s =>
      main start (w, sw) = (if bool_decide (length (cs_migrations s) < 3)%nat then ((w, sw), Some ExitCodeConfigError)
                            else ((w, after uris sw), code)) ∧
      ((length (cs_migrations s) ≤ 3)%nat → kinds_ok s → opt_Sources c = connstr → opt_Metrics c = connstr →
       (∀ u, u ∈ opt_Sinks c → upgrade_one (IsPgConnStr dr) u (λ _, None) = None) →
       ∃ s' c', ConfigUpgrade (Ok mgc) dr target order defaults (λ _, None) c w = (<[name := s']> w, Returns (c', None, [])) ∧
         ExitCode c' = ExitCodeOK ∧ evolved s s' ∧ main start (<[name := s']> w, sw) = ((<[name := s']> w, after uris sw), code))
  end.
Proof using MigratorLaws0 MigratorLaws1.
  intros Hsel Ha Hy Hr code. pose proof (selected_configured connstr uris sw Hsel Hr) as Hcf.
  assert (uris ≠ []) as Hne by apply Hsel. destruct (sinks_code uris sw Hne Hr) as [_ Hcode].
  pose proof (config_life mgc dr target order defaults (sink_startup mg dr target srv su) connstr name sw _ _ w (λ _, None) c Hcf Ha Hy) as Hlife.
  rewrite Hcode in Hlife. exact Hlife.
Qed.

Lemma prepared_database uris sw n d :
  Forall (sink_ready sw) uris → n ∈ omap sink_name uris → sw !! n = Some d → ∃ d', after uris sw !! n = Some d' ∧ levelled d' ∧
    list_to_set (ss_builtin srv) ⊆ md_tables (sd_db d') ∧
    if admin_exists (sd_db d) then sd_schema d' = sd_schema d else sc_migrations (sd_schema d') = fresh_versions.
Proof using Type.
  intros Hr Hn Hd. destruct (ready_in _ _ _ Hr Hn) as (d0 & Hd0 & Hs & _). rewrite Hd in Hd0. injection Hd0 as <-.
  exists (opened (ss_builtin srv) d). rewrite after_lookup, decide_True, Hd by done. split; [done|].
  split; [by apply opened_levelled|]. split; [apply set_up_builtin|].
  unfold opened. simpl. destruct Hs as [Hb|[-> _]]; [|done]. rewrite (blank_missing _ Hb).
  destruct (created_level (sd_schema d)) as [-> _]; [apply Hb..|done].
Qed.

Lemma upgrade_one_pg u n : sink_name u = Some n → upgrade_one (IsPgConnStr dr) u (λ _, None) = None.
Proof using Type.
  unfold sink_name, upgrade_one, IsPgConnStr. intros Hn. case_bool_decide; [done|].
  destruct (sink_of kinds u) as [[]|]; [|by destruct (db_New dr u [])..]. unfold db_New in Hn. by destruct (dr_ParseConfig dr u).
Qed.

(** C31.  The life of the databases of the program, with one configuration database and any list of sinks,
    where the servers answer and no statement fails.  On a configuration database without a schema the program creates
    it, with exactly the default definitions; it leaves an existing one alone.  If that is outdated, it ends with
    the code for a configuration error and has touched no database.  Otherwise it prepares the database of every
    PostgreSQL sink: a new one gets the schema of this version, and all have the tables of the built-in
    metrics.  Then it runs, unless a sink was outdated: this ends it with the code for a configuration
    error.  Once it has run, a further start changes nothing.  And after an upgrade of an outdated
    configuration and of the sinks that reports no error the program runs. *)
Theorem databases_life connstr name uris w sw c :
  selected connstr uris → answers dr target connstr name → yaml_defs defaults → Forall (sink_ready sw) uris →
  let code := if outdated_sinks uris sw then Some ExitCodeConfigError else None in
  (∀ n d, n ∈ omap sink_name uris → sw !! n = Some d → ∃ d', after uris sw !! n = Some d' ∧ levelled d' ∧
     list_to_set (ss_builtin srv) ⊆ md_tables (sd_db d') ∧
     if admin_exists (sd_db d) then sd_schema d' = sd_schema d else sc_migrations (sd_schema d') = fresh_versions) ∧
  match w !! name with
  | None => ∃ s, main start (w, sw) = ((<[name := s]> w, after uris sw), code) ∧ db_defs (cs_defs s) = defaults ∧ cs_sources s = ∅
  | Some s =>
      main start (w, sw) = (if bool_decide (length (cs_migrations s) < 3)%nat then ((w, sw), Some ExitCodeConfigError)
                            else ((w, after uris sw), code)) ∧
      (kinds_ok s → (length (cs_migrations s) ≤ 3)%nat → opt_Sources c = connstr → opt_Metrics c = connstr → opt_Sinks c = uris →
       Forall (λ u, is_Some (sink_name u)) uris →
       ∀ sw1, upgrade_sinks mg dr target srv uris sw = (sw1, []) →
       ∃ s' c' sw2, ConfigUpgrade (Ok mgc) dr target order defaults (λ _, None) c w = (<[name := s']> w, Returns (c', None, [])) ∧
         ExitCode c' = ExitCodeOK ∧ evolved s s' ∧ main start (<[name := s']> w, sw1) = ((<[name := s']> w, sw2), None))
  end ∧
  (∀ ws, main start (w, sw) = (ws, None) → main start ws = (ws, None)).
Proof using All.
  intros Hsel Ha Hy Hr code. pose proof (start_life connstr name uris w sw c Hsel Ha Hy Hr) as Hlife. fold code in Hlife. split; [|split].
  - intros n d Hn Hd. by apply prepared_database.
  - destruct (w !! name) as [s|] eqn:Hw; [|naive_solver]. split; [apply Hlife|]. intros Hk Hl Hsrc Hmet Hsk Hpg sw1 Hup.
    destruct (upgrade_sinks_done uris uris sw sw1) as [Hr1 Hdone]; [done..|].
    pose proof (start_life connstr name uris w sw1 c Hsel Ha Hy Hr1) as Hlife1. rewrite Hw in Hlife1.
    rewrite up_to_date_sinks in Hlife1 by auto.
    destruct Hlife1 as [_ (s' & c' & ? & ? & ? & ?)]; [done..| |by exists s', c', (after uris sw1)].
    intros u Hu. rewrite Hsk in Hu. rewrite Forall_forall in Hpg. destruct (Hpg _ Hu) as [n Hn]. by eapply upgrade_one_pg.
  - intros ws Hws. assert (code = None ∧ ∃ s, ws = (<[name := s]> w, after uris sw) ∧ (3 ≤ length (cs_migrations s))%nat)
      as (Hcode & s & -> & Hl).
    { destruct (w !! name) as [s|] eqn:Hw.
      - destruct Hlife as [Hm _]. rewrite Hws in Hm. case_bool_decide; [done|]. injection Hm as -> Hc. split; [done|].
        exists s. rewrite insert_id by done. split; [done|lia].
      - destruct Hlife as (s & Hm & _ & _ & Hl). rewrite Hws in Hm. injection Hm as -> Hc. split; [done|]. exists s. split; [done|lia]. }
    pose proof (start_life connstr name uris (<[name := s]> w) (after uris sw) c Hsel Ha Hy) as Hagain.
    rewrite lookup_insert_eq, after_idemp, outdated_after in Hagain by done. fold code in Hagain. rewrite Hcode in Hagain.
    destruct Hagain as [-> _]; [|by rewrite bool_decide_false by lia].
    eapply Forall_impl; [exact Hr|]. intros u. apply ready_after.
Qed.
End life.

(** ** Example *)

(** A configuration and a measurements database, both from an older version. *)
Definition sample_database (name : string) : pool_config := {|
  pc_ConnConfig := {| cc_Host := "db"; cc_Port := 5432; cc_Database := name; cc_ConnectTimeout := 0 |};
  MaxConnIdleTime := 0; MaxConnLifetime := 0; RuntimeParams := ∅ |}.
Definition two_databases : driver := {|
  dr_ParseConfig := λ c, if bool_decide (c = "postgres://config") then Ok (sample_database "config")
                         else if bool_decide (c = "postgres://measurements") then Ok (sample_database "measurements")
                         else Err (ErrorString "cannot parse");
  dr_NewPool := λ _, None; dr_Ping := λ _, None; dr_fails := λ _ _, None |}.
Definition sample_servers : sink_servers := {|
  ss_connect := λ _, None; ss_intervals := λ _, Ok (86400, 60, true); ss_step_fails := λ _ _, None; ss_order := tree_order;
  ss_builtin := ["wal"]; ss_other := λ _, None |}.
Definition sample_opts : Options := {|
  opt_Sources := "postgres://config"; opt_Metrics := "postgres://config"; opt_Sinks := ["postgres://measurements"]; Refresh := 120;
  MaxParallelConnectionsPerDb := 4; BatchingDelay := time_Second; ExitCode := 0; CommandCompleted := false |}.
Definition sample_su : startup () := {|
  su_opts := sample_opts; su_args := []; su_parse_err := None; su_help := false;
  su_IsPgConnStr := λ _, false; su_stat := λ _, Ok false;
  NewYAMLMetricReaderWriter := λ _, Ok None; NewPostgresMetricReaderWriter := λ _ w, (w, Ok None);
  NewYAMLSourcesReaderWriter := λ _, Ok None; NewPostgresSourcesReaderWriter := λ _ w, (w, Ok None);
  su_Sinks := λ _ w, (w, Ok None); su_Web := None |}.
Definition old_sink : sink_database := SinkDatabase (set_scripts empty_measurements metricSchemaSQLs) sample_schema.
Definition no_defaults : Metrics := {| MetricDefs := ∅; PresetDefs := ∅ |}.

Lemma sample_ready : Forall (sink_ready two_databases sample_target sample_servers {["measurements" := old_sink]}) (opt_Sinks sample_opts).
Proof.
  apply Forall_singleton. exists "measurements", old_sink. split; [done|]. split; [by rewrite lookup_singleton_eq|].
  split; [right; split; [done|]; exists 2%nat; split; [lia|exact sample_schema_level]|]. split; [done|]. split; [done|].
  exists 86400, 60. split; [done|]. lia.
Qed.

Lemma databases_life_witness :
  let start := on_databases (Ok simple_migrator) two_databases sample_target tree_order no_defaults
                 (sink_startup simple_migrator two_databases sample_target sample_servers sample_su) in
  let w := {["config" := old_schema]} in
  let sw := {["measurements" := old_sink]} in
  main start (w, sw) = ((w, sw), Some ExitCodeConfigError) ∧
  ∃ s' sw1 sw2, upgrade_sinks simple_migrator two_databases sample_target sample_servers (opt_Sinks sample_opts) sw = (sw1, []) ∧
    evolved old_schema s' ∧ main start (<["config" := s']> w, sw1) = ((<["config" := s']> w, sw2), None).
Proof.
  pose proof (databases_life two_databases sample_target sample_servers simple_migrator (λ _, eq_refl) simple_migrator tree_order no_defaults
    sample_su "postgres://config" "config" (opt_Sinks sample_opts) {["config" := old_schema]} {["measurements" := old_sink]} sample_opts) as H.
  cbn zeta in *. rewrite lookup_singleton_eq in H. destruct H as (_ & [Hm Hu] & _).
  - split; [done|]. split; [done|]. split; [done|]. exists sample_opts. split_and!; [vm_compute; reflexivity|done..].
  - eexists. split_and!; [vm_compute; reflexivity|done..].
  - apply map_Forall_empty.
  - exact sample_ready.
  - split; [exact Hm|].
    assert (∃ sw1, upgrade_sinks simple_migrator two_databases sample_target sample_servers (opt_Sinks sample_opts)
              {["measurements" := old_sink]} = (sw1, [])) as [sw1 Hup] by (eexists; vm_compute; reflexivity).
    destruct (Hu ltac:(by apply map_Forall_empty) ltac:(vm_compute; lia) eq_refl eq_refl eq_refl) with sw1
      as (s' & c' & sw2 & _ & _ & Hev & Hrun); [by apply Forall_singleton|exact Hup|].
    exists s', sw1, sw2. split; [exact Hup|]. split; [exact Hev|exact Hrun].
Defined.
