(* ===== verification/CommandLine.v ===== *)
(** * The command line ([internal/cmdopts], [cmd/pgwatch/main.go], [version.go])

    The sub-commands are registered with the library that parses the command line, which picks one, fills in
    the options and runs it; [cmdopts.New] and [main] then look at what it left in the options.  The library
    is a parameter that sees the registered commands and answers with its choice.

    The theorem connects the two ends: whatever sub-command is run and whatever it does, the program ends
    without opening a store for monitoring, and its exit code tells what happened.  The effects of
    [config init] and [config upgrade] on databases are those of [CmdOpts] and [ConfigStart]. *)

From S2P Require Import Prelude GoStrings Metrics Sources Changes Conn PromConn Sinks Reaper Resolver CmdOpts Commands ConfigSchema Migrator SinkMaintenance Main ConfigStart.
From stdpp Require Import options.

Local Open Scope Z_scope.

(** ** The commands *)

Inductive command := PrintInit | PrintSQL | List | Ping | Resolve | Init | Upgrade.

#[export] Instance command_eq_dec : EqDecision command.
Proof. solve_decision. Defined.

Definition NewMetricCommand : list (string * command) := [("print-init", PrintInit); ("print-sql", PrintSQL); ("list", List)].
Definition NewSourceCommand : list (string * command) := [("ping", Ping); ("resolve", Resolve)].
Definition NewConfigCommand : list (string * command) := [("init", Init); ("upgrade", Upgrade)].

Definition addCommands : list (string * list (string * command)) :=
  [("metric", NewMetricCommand); ("source", NewSourceCommand); ("config", NewConfigCommand)].

(** What the commands print. *)
Inductive output :=
  | OutSQL (name sql : string)
  | OutText (text : string)
  | OutLine (l : line)
  | OutError (e : error).

(** What the commands use: the stores, opened by the options and read; the networks; the option of
    [print-sql]; the outcomes of creating and of upgrading. *)
Record command_env := {
  ce_IsPgConnStr : string → bool;
  ce_order : range_order;
  ce_metrics : Options → result Metrics;
  ce_sources : Options → result Sources;
  ce_yaml : Metrics → string;
  ce_url : conn_config → string;
  ce_loop : loop_env;
  ce_resolver : resolver_env;
  ce_version : Z;
  ce_init : init_env;
  ce_upgrade : upgrade_env;
}.

Section run.
Context (env : command_env).
Implicit Types (c : Options).

(** [print-init] and [print-sql] open the store, read it, and print; they complete the command only if all went well. *)
Definition print_Execute (print : Metrics → result (list (string * string))) c : Options * list output * option error :=
  match ce_metrics env c with
  | Err e => (c, [], Some e)
  | Ok d =>
      match print d with
      | Err e => (c, [], Some e)
      | Ok out => (CompleteCommand c ExitCodeOK, (λ p, OutSQL p.1 p.2) <$> out, None)
      end
  end.

Definition map_out {A} (f : A → list output) (r : outcome (Options * A * option error)) : outcome (Options * list output * option error) :=
  match r with Returns (c, a, e) => Returns (c, f a, e) | Panics => Panics | NoFuel => NoFuel end.

Definition Execute (cmd : command) (args : list string) c : outcome (Options * list output * option error) :=
  match cmd with
  | PrintInit => Returns (print_Execute (λ d, MetricPrintInit (ce_order env) d args) c)
  | PrintSQL => Returns (print_Execute (λ d, MetricPrintSQL (ce_order env) (ce_version env) d args) c)
  | List =>
      let '(c', text, e) := MetricList_Execute (ce_yaml env) (ce_order env) (ce_metrics env c) args c in
      Returns (c', [OutText text], e)
  | Ping => map_out (fmap OutLine) (SourcePing_Execute (ce_loop env) (ce_resolver env) (ce_sources env c) args c)
  | Resolve =>
      map_out (fmap OutLine) (SourceResolve_Execute (ce_resolver env) (ce_url env) NewResolver (ce_sources env c) args c)
  | Init => let '(c', e) := ConfigInit_Execute (ce_IsPgConnStr env) (ce_init env) c in Returns (c', [], e)
  | Upgrade =>
      match ConfigUpgrade_Execute (ce_IsPgConnStr env) (ce_upgrade env) c with
      | Returns (c', e, printed) => Returns (c', OutError <$> printed, e)
      | Panics => Panics
      | NoFuel => NoFuel
      end
  end.

(** ** Parsing *)

(** The choice of the library: an error, which may be a request for help; a command with the arguments that are
    left; or no command. *)
Inductive selection :=
  | Rejected (help : bool) (e : error)
  | Selected (cmd : command) (args : list string)
  | NoCommand (args : list string).

Record parser := {
  pr_opts : Options;                                                  (* the flags *)
  pr_select : list (string * list (string * command)) → selection;
}.

(** [parser.Parse] runs the command; its error is the one of the parser. *)
Definition Parse (p : parser) : outcome (Options * list string * bool * option error * list output) :=
  match pr_select p addCommands with
  | Rejected help e => Returns (pr_opts p, [], help, Some e, [])
  | NoCommand args => Returns (pr_opts p, args, false, None, [])
  | Selected cmd args =>
      match Execute cmd args (pr_opts p) with
      | Returns (c, out, e) => Returns (c, args, false, e, out)
      | Panics => Panics
      | NoFuel => NoFuel
      end
  end.

(** ** The program *)

Definition configSchema : string := "00824".
Definition sinkSchema : string := "01614".

Definition nl : string := String (Ascii.ascii_of_nat 10) "".

Definition printVersion (version commit date : string) : string :=
  nl +:+ "Version info:" +:+ nl +:+ "  Version:       " +:+ version +:+ nl +:+ "  Config Schema: " +:+ configSchema +:+ nl
     +:+ "  Sink Schema:   " +:+ sinkSchema +:+ nl +:+ "  Git Commit:    " +:+ commit +:+ nl
     +:+ "  Built:         " +:+ date +:+ nl +:+ nl.

(** The start-up with the answers of the parser. *)
Definition parsed {W} (su : startup W) (c : Options) (args : list string) (help : bool) (e : option error) : startup W := {|
  su_opts := c; su_args := args; su_parse_err := e; su_help := help; su_IsPgConnStr := ce_IsPgConnStr env;
  su_stat := su_stat su; NewYAMLMetricReaderWriter := NewYAMLMetricReaderWriter su;
  NewPostgresMetricReaderWriter := NewPostgresMetricReaderWriter su;
  NewYAMLSourcesReaderWriter := NewYAMLSourcesReaderWriter su;
  NewPostgresSourcesReaderWriter := NewPostgresSourcesReaderWriter su; su_Sinks := su_Sinks su; su_Web := su_Web su |}.

(** The whole of [main] up to the main loop: the databases, the exit code unless the main loop runs, and
    whether the version was printed.  A panic is caught and has an exit code of its own. *)
Definition pgwatch {W} (p : parser) (su : startup W) (w : W) : outcome (W * option Z * bool) :=
  match Parse p with
  | Returns (c, args, help, e, _) =>
      let su := parsed su c args help e in
      Returns (main su w, match New su with (_, _, Some _) => true | _ => false end)
  | Panics => Returns (w, Some ExitCodeFatalError, false)
  | NoFuel => NoFuel
  end.

(** ** What a command leaves behind *)

(** A command that returns no error has completed, with the code for success or, for [ping], that of a failed command. *)
Definition settled (cmd : command) (r : outcome (Options * list output * option error)) : Prop :=
  match r with
  | Returns (c, _, None) => CommandCompleted c = true ∧ (ExitCode c = ExitCodeOK ∨ cmd = Ping ∧ ExitCode c = ExitCodeCmdError)
  | Returns (_, _, Some _) => True
  | Panics => cmd = Resolve
  | NoFuel => False
  end.

Lemma print_settled cmd print c : settled cmd (Returns (print_Execute print c)).
Proof using Type.
  unfold print_Execute. destruct (ce_metrics env c) as [d|]; [|done]. destruct (print d); simpl; auto.
Qed.

Lemma conn_lines_returns url conns : conn_lines url conns ≠ NoFuel.
Proof using Type.
  induction conns as [|[md|pc] conns IH]; simpl; [done| |].
  - destruct (negb _); [|destruct (md_ConnConfig md); [|done]]; destruct (conn_lines url conns); done.
  - destruct (conn_lines url conns); done.
Qed.

Lemma Execute_settled cmd args c : settled cmd (Execute cmd args c).
Proof using Type.
  destruct cmd; cbn [Execute]; try apply print_settled.
  - unfold MetricList_Execute. destruct (ce_metrics env c) as [d|]; [|done]. destruct (FilterByNames d _ args); simpl; auto.
  - unfold SourcePing_Execute. destruct (ce_sources env c) as [srcs|]; [|done].
    destruct (ping_all_spec (ce_loop env) (ce_resolver env) NewResolver (found_sources srcs args) None) as (ls & err & -> & _).
    destruct err; simpl; auto.
  - unfold SourceResolve_Execute. destruct (ce_sources env c) as [srcs|]; [|done].
    destruct (ResolveDatabases _ _ _) as [[[rv conns] ?] [e|]]; [done|].
    pose proof (conn_lines_returns (ce_url env) conns). destruct (conn_lines (ce_url env) conns); simpl; auto.
  - unfold ConfigInit_Execute. destruct (ValidateConfig _ c) as [c' [e|]]; [done|].
    match goal with |- context [CompleteCommand _ (match ?e with _ => _ end)] => destruct e end; simpl; auto.
  - unfold ConfigUpgrade_Execute. case_bool_decide; [done|].
    destruct (upgrade_errors _ _ _) as [err|] eqn:E; [|simpl; auto].
    destruct (upgrade_errors_joined _ _ _ _ E) as [errs ->]. destruct (forallb _ errs); simpl; auto.
Qed.

(** Every command is registered, under one name of one group. *)
Lemma commands_registered cmd : ∃ group name,
  filter (λ e, e.2 = cmd) (addCommands ≫= λ g, (λ s, (g.1, s.1, s.2)) <$> g.2) = [(group, name, cmd)].
Proof using Type. by destruct cmd; do 2 eexists. Qed.

(** A sub-command never starts the monitoring.  Whatever it does, [main] opens no store after it
    and ends with an exit code: the one for success only if the command succeeded; for a configuration error
    exactly if the command returned an error, and then the version is printed as well; for a failed command
    only if [ping] found a source that does not answer; and the one for a panic only from [resolve]. *)
Theorem subcommand_ends {W} (p : parser) (su : startup W) (w : W) cmd args :
  pr_select p addCommands = Selected cmd args →
  ∃ code printed, pgwatch p su w = Returns (w, Some code, printed) ∧
    match Execute cmd args (pr_opts p) with
    | Returns (_, _, Some _) => code = ExitCodeConfigError ∧ printed = true
    | Returns (c, _, None) => code = ExitCode c ∧ printed = false ∧ (code = ExitCodeOK ∨ code = ExitCodeCmdError ∧ cmd = Ping)
    | _ => code = ExitCodeFatalError ∧ printed = false ∧ cmd = Resolve
    end.
Proof using Type.
  intros Hs. unfold pgwatch, Parse. rewrite Hs. pose proof (Execute_settled cmd args (pr_opts p)) as H.
  destruct (Execute cmd args (pr_opts p)) as [[[c out] [e|]]| |]; cbn [settled] in H; [| |by exists ExitCodeFatalError, false|done].
  - by exists ExitCodeConfigError, true.
  - destruct H as [Hc H]. exists (ExitCode c), false. unfold main, New, parsed. cbn [su_parse_err su_opts]. rewrite Hc.
    cbn. rewrite Hc. split; [done|]. split; [done|]. split; [done|]. naive_solver.
Qed.
End run.

(** ** Schema versions *)

(** The printed version of the sink schema is that of its newest migration; that of the configuration is not. *)
Theorem schema_versions_printed fails step_fails ro fails' :
  has_prefix sinkSchema <$> (m_Name <$> last (migrations fails step_fails ro)) = Some true ∧
  has_prefix configSchema <$> (m_Name <$> last (config_migrations fails')) = Some false.
Proof. split; vm_compute; reflexivity. Qed.
